(* ===== verification/_CoqProject ===== *)
-Q . S2P
Prelude.v
Felt.v
Externals.v
Concrete.v
Recipients.v
Types.v
Hashing.v
Binding.v
Outputs.v
Merkle.v
Ledger.v
LedgerSpec.v
LedgerCorrect.v
LedgerHistory.v
LedgerMem.v
LedgerWitness.v
Wots.v
Notes.v
CanonicalWire.v
KernelWire.v
KernelWireFacts.v
ConcreteWire.v
Utf8.v
Store.v
StoreKeys.v
VerifyMeta.v
Bundle.v
BundleFacts.v
Durable.v
DurableCells.v
DurableRepr.v
DurableOps.v
DurableTree.v
DurableLedger.v
DurableCommit.v
Dal.v
Kernel.v
WasmHost.v
Bds.v
BdsTree.v
BdsSchedule.v
BdsAdvance.v
BdsBuild.v
BdsPaths.v
Wallet.v
WalletSelect.v
WalletKeys.v
WalletScan.v
WalletScanFacts.v
WalletSpend.v
WalletWitness.v
OperatorApi.v
LedgerVerifier.v
LedgerVerifierFacts.v
LedgerServer.v
LedgerServerFacts.v
WalletRpc.v
WalletRpcFacts.v
WalletSync.v
WalletSyncFacts.v
WalletCommands.v
WalletKeyUse.v
Watch.v
WatchFacts.v
KernelSpec.v
KernelTotal.v
KernelCorrect.v
KernelRun.v
KernelReads.v
KernelWitness.v
WalletNodeWitness.v
Operator.v
OperatorFacts.v
OperatorDelivery.v
OperatorWitness.v
OperatorFees.v
WatchWitness.v
WalletOperator.v
WalletReceipts.v
