(* ===== verification/Prelude.v ===== *)
(** * TzEL: a verification library for the shielded ledger, its rollup kernel and its wallet

    ** The program

    TzEL is a shielded ledger.  Value enters a pool of deposits through a bridge on L1, is
    shielded into notes of a Merkle tree, moves between notes by transfers, and leaves by
    unshields, which queue withdrawals to L1.  Every transition carries a proof whose
    public outputs the ledger compares with the request.  [core/src/lib.rs] holds the
    data, the hashes, the keys, the one-time signatures, the note encryption, the tree
    and the transitions over an abstract [LedgerState]; [core/src/canonical_wire.rs] and
    [core/src/kernel_wire.rs] the formats; [verifier/src/lib.rs] the gate in front of the
    proof verifier; [tezos/rollup-kernel/src/lib.rs] the kernel that runs the ledger on a
    Tezos rollup, over a durable store, a level of inbox messages at a time;
    [apps/wallet/src/lib.rs] the wallet, which derives addresses, serves one-time keys,
    finds its notes on the chain, prepares the requests the ledger accepts and submits them;
    [services/tzel/src/bin/tzel_operator.rs] the operator, which puts a submitted message in
    the rollup's inbox, or publishes it in chunks on the data-availability layer (DAL) and
    puts a pointer to it in the inbox once they are attested, against a fee in a note.

    ** Files and the code they model

    - [Prelude]: outcomes of fallible code ([result]: a value, an error string, a panic),
      state passing ([ST], which keeps the state reached when an error is returned),
      machine integers, bytes, strings, tactics and hints.
    - [Felt], [Types], [Recipients], [Hashing], [Outputs]: [core/src/lib.rs], the
      verifier's gate included; [Binding]: what the hashes commit to.
    - [VerifyMeta], [Bundle]: [verifier/src/verify_meta_codec.rs] and [bundle.rs], with the
      compiled-in parameters of the verifier circuit; [BundleFacts]: what an accepted proof
      was checked against.
    - [LedgerVerifier], [LedgerServer]: the demo ledger, from [services/tzel/src/lib.rs] and
      [apps/ledger/src/main.rs]: the verifier that runs [apps/prover/src/main.rs] as a child,
      both sides, and the server's handlers; [LedgerVerifierFacts], [LedgerServerFacts]: the
      child is the verifier, the server is the ledger's specification behind it.
    - [Wots], [Notes], [Merkle]: signatures and their trees, note encryption, the
      commitment tree with the kernel's frontier.
    - [Ledger]: the transitions over the class [LedgerState] (the Rust trait);
      [LedgerSpec]: abstract views, laws of an implementation ([LedgerLaws]), acceptance
      and effect of each request; [LedgerCorrect]: the transitions meet the
      specification; [LedgerHistory]: what holds after any sequence of requests;
      [LedgerMem]: the in-memory ledger and its laws.
    - [CanonicalWire], [KernelWire]: the formats; [KernelWireFacts]: their round trips.
    - [Utf8], [Store], [StoreKeys]: strings, the [Host] trait with its contract
      ([HostLaws]), the paths of the durable store and the keys they stand for.
    - [Durable]: the kernel's [LedgerState] on the durable store, and the staged commits;
      [DurableCells], [DurableRepr], [DurableOps], [DurableTree], [DurableLedger]: the
      store read and written by key, the relation between a store and a view, each
      operation against it, and the laws of [LedgerSpec] for it; [DurableCommit]: the
      staged commits.
    - [Dal]: payloads of the data-availability layer.
    - [Kernel]: messages, inputs, the loop over a level, and the readers of the state;
      [KernelSpec]: the kernel as a state machine over abstract views; [KernelTotal]:
      what never panics; [KernelCorrect], [KernelRun], [KernelReads]: one message, one
      input and a whole level, and what the kernel reports.
    - [WasmHost]: the production host over the virtual machine's imports.
    - [Bds]: the wallet's incremental traversal of a key tree; [BdsTree], [BdsSchedule],
      [BdsAdvance], [BdsBuild]: the tree it stands for, the schedule of its treehash
      instances, one advance, the first state; [BdsPaths]: the paths it serves.
    - [Wallet]: the wallet's file and its methods, output notes, prepared transfers and
      unshields; [WalletSelect], [WalletKeys], [WalletSpend]: selection, one-time keys
      and the stale-backup check, what is prepared; [WalletScan], [WalletScanFacts]: how
      it follows the chain and what it finds; [WalletWitness]: at a concrete wallet.
    - [WalletRpc]: the wallet's reads of a rollup node (durable values, the concurrent
      fetch of notes, snapshots); [WalletRpcFacts]: from a node that serves the kernel's
      store they are the view it represents; [WalletSync], [WalletSyncFacts]: the
      synchronisation in batches, and that it is one scan; [WalletNodeWitness]: at a
      concrete node.
    - [WalletCommands]: the commands that deposit, shield, transfer and unshield, on a
      loaded wallet and on the files; [WalletKeyUse]: what signs over any sequence of them.
    - [Watch]: watch-only wallets; [WatchFacts]: what they see of the wallet that exported
      them; [WatchWitness]: at a concrete wallet.
    - [OperatorApi]: [core/src/operator_api.rs], and the texts of HTTP and [octez-client]
      that the wallet and the operator both read; [Operator]: the operator's requests,
      publications, retries, injections, files and reconciliation, over a state that keeps
      the files, the counters and the trace of what was sent and answered; [OperatorFacts]:
      what each operation keeps and adds to the trace, and any sequence of requests, ticks
      and restarts; [OperatorDelivery]: what the kernel reads from its pointers;
      [OperatorFees]: how it starts, and the fee it collects; [OperatorWitness]: at a
      concrete chain.
    - [WalletOperator]: the wallet's submission through an operator, its polls and the
      receipt it shows; [WalletReceipts]: what the operator answers, and receipts against
      it.
    - [Externals], [Concrete], [ConcreteWire]: third-party crates as classes with their
      laws, and small instances of them; [LedgerWitness], [KernelWitness]: the theorems
      at concrete inputs.

    ** What is shown

    - The kernel: on a store that represents a view, a message takes exactly the step of
      [KernelSpec] or is an error that touches nothing; an input is recorded, and is a
      message, or an ignored one, or a refused one whose error is stored; a level drains
      the inbox and is a sequence of steps; the outbox pays each queued withdrawal once;
      configuration is frozen and nothing moves before it; error texts are bounded, and a
      pointer that anyone can send stops the kernel in the middle of one.
    - The ledger: each transition succeeds exactly on the admissible requests, with
      exactly its effect, for every lawful implementation; no nullifier is spent twice,
      no shield replayed, pools are conserved, notes and withdrawals only grow.
    - The durable ledger: it is a lawful implementation; paths never collide; the staged
      commits are the transitions; the ledger read back is the one stored.  On the
      production host one law of [HostLaws] fails, and [WasmHost] proves what follows.
    - Hashes: equal sighashes, commitments, nullifiers and memo hashes mean equal
      preimages, or an explicit collision of BLAKE2s is exhibited; for sighashes of
      different lengths, a collision or an explicit preimage of a type tag.
    - The tree, the signatures, the note encryption and the formats: equivalence with
      reference definitions, completeness, round trips, canonicity.
    - The verifier: its compiled-in parameters decode, no proof can choose them, and a proof
      is accepted exactly when the circuit verifier accepts it for the program of its circuit
      and the digest of its outputs; through a child process the answer is the same.
    - The demo ledger: over any history of requests it answers as the specification does.
    - The wallet: before each key the traversal holds the path of the whole tree; a
      reservation hands out the next unused key and a stale file is refused, so no key is
      handed out twice; selection is optimal; a prepared transfer or unshield conserves
      value and is accepted by every ledger where its notes are spendable; a payment to
      an address of the wallet is found by a scan.
    - The wallet and the node: what the wallet reads is what the kernel stored, in
      whatever order the answers come; a synchronisation ends and is one scan.
    - The wallet's commands: over any history of commands, synchronisations, failed saves
      and loads and restored backups, no one-time key signs twice for the prover, if the
      floor beside the file is read once a backup was put back; a concrete run shows that
      the code, which takes a floor it cannot read for none, needs that.
    - Watch wallets: a viewer records what the wallet's own scan finds and a detector misses
      none of it; the holder of the outgoing seed opens every note the wallet sends.
    - The operator: whatever fails outside, what it injects is a request's own message or a
      pointer to a whole accepted payload, from which the kernel reads the message checked;
      the wallet its fee policy comes from finds the fee of every message it accepted.
    - The wallet and the operator: the wait for a terminal status ends, and a receipt that
      says a message was submitted is true of the operator's trace.

    ** Assumptions

    A third-party crate is a class of operations with a class of laws: BLAKE2s, [hex],
    Tezos contracts and rollup encodings, ML-KEM, ChaCha20-Poly1305, the codecs that
    [tezos_data_encoding] derives, the STARK verifier.  Laws are only documented facts
    (decoding an encoding, decrypting a ciphertext, the shape of outputs); every theorem
    that uses one has a witness with an instance.  No hardness is assumed: binding
    theorems exhibit collisions.  The text of the derived [{:?}] is a parameter, with its
    form up to an unshield's recipient as a law ([DebugText]).  The theorems on the
    durable store assume views whose sizes the target can number ([INDEX_LIMIT],
    [fits_kernel], [fits_inbox]): below 2^32 on a 32-bit target, whose indices are
    [usize].  The theorems on the wallet's reads assume a node that serves the store
    ([serves]); an executor's choices, saves and loads that can fail and the sentinels of
    other processes are arguments.

    ** Bounds and fuel

    The kernel's input loop takes fuel, and one round more than the inbox is enough
    ([run_drains_inbox]); so do the wallet's loop over answers, with one round more than its
    requests, and its synchronisation, with the notes left to scan, since every batch scans
    one ([concurrent_fetch_spec], [sync_loop_ok]). The wait for an operator takes [POLLS]
    rounds, one more than its timeout has room for. All other recursion is structural: on
    the 48 levels of the tree, the 16 of a key tree, lists and digits. Integers are [N] or
    [Z] with the limits of their width written out; sums that wrap in a release build wrap
    in the model; [usize] is a parameter of the target.

    ** Not modelled

    The kernel's helper binaries, the demo application, proving and the reprover (processes,
    I/O and third-party provers); the Cairo circuits and the OCaml port
    (other languages); vendored crates and fuzz targets; the wallet's command line, file
    system and HTTP transport, and its commands against the demo ledger; the operator's
    server and the lock that makes its requests and its ticks take turns.

    This file holds the vocabulary the others share. *)

From stdpp Require Export base list numbers strings pretty gmap fin_maps.
From Stdlib Require Export Strings.Byte.
From Stdlib Require Import Ascii.

(** ** Outcomes

    A Rust function that returns [Result<T, String>] can return a value, return an
    error string, or panic (a failed [assert!], an index out of range, an [unwrap]).
    The three outcomes are kept apart, so that "never panics" is a statement. *)
Inductive result (A : Type) : Type :=
| Ok (a : A)
| Err (e : string)
| Panic (why : string).

Arguments Ok {_} _.
Arguments Err {_} _.
Arguments Panic {_} _.

#[export] Instance result_ret : MRet result := fun A a => Ok a.

#[export] Instance result_bind : MBind result := fun A B k m =>
  match m with
  | Ok a => k a
  | Err e => Err e
  | Panic w => Panic w
  end.

#[export] Instance result_fmap : FMap result := fun A B f m =>
  match m with
  | Ok a => Ok (f a)
  | Err e => Err e
  | Panic w => Panic w
  end.

(** [ok_or_else]: an option turned into a result. *)
Definition ok_or {A} (o : option A) (e : string) : result A :=
  match o with Some a => Ok a | None => Err e end.

(** [map_err]. *)
Definition map_err {A} (f : string -> string) (r : result A) : result A :=
  match r with Ok a => Ok a | Err e => Err (f e) | Panic w => Panic w end.

(** [if cond { return Err(msg) }]. *)
Definition fail_if (b : bool) (msg : string) : result unit :=
  if b then Err msg else Ok tt.

(** [assert!] and the checks the compiler inserts. *)
Definition panic_unless (b : bool) (why : string) : result unit :=
  if b then Ok tt else Panic why.

(** [v[i]]: indexing a slice, which panics out of range. *)
Definition index_at {A} (l : list A) (i : nat) : result A :=
  match l !! i with Some a => Ok a | None => Panic "index out of bounds" end.

(** [iter().map(f).collect::<Result<Vec<_>, _>>()]: the first failure wins. *)
Fixpoint map_result {A B} (f : A -> result B) (l : list A) : result (list B) :=
  match l with
  | [] => Ok []
  | a :: l => b ← f a; bs ← map_result f l; Ok (b :: bs)
  end.

Definition is_ok {A} (r : result A) : bool :=
  match r with Ok _ => true | _ => false end.

Definition is_panic {A} (r : result A) : bool :=
  match r with Panic _ => true | _ => false end.

(** ** Stateful operations

    [ST S A] is a method taking [&mut self] and returning a result.  The state is
    returned on every outcome: an error does not undo the writes that came before
    it, so atomicity has to be proved. *)
Definition ST (S A : Type) : Type := S -> S * result A.

#[export] Instance ST_ret {S} : MRet (ST S) := fun A a s => (s, Ok a).

#[export] Instance ST_bind {S} : MBind (ST S) := fun A B k m s =>
  match m s with
  | (s', Ok a) => k a s'
  | (s', Err e) => (s', Err e)
  | (s', Panic w) => (s', Panic w)
  end.

(** A read-only method used inside a stateful one. *)
Definition reads {S A} (f : S -> result A) : ST S A := fun s => (s, f s).

(** A result that does not look at the state. *)
Definition lift {S A} (r : result A) : ST S A := fun s => (s, r).

(** A write that cannot fail. *)
Definition writes {S} (f : S -> S) : ST S unit := fun s => (f s, Ok tt).

(** [for x in l { f(x)? }]. *)
Fixpoint for_each {S A} (f : A -> ST S unit) (l : list A) : ST S unit :=
  match l with
  | [] => mret tt
  | a :: l => f a ;; for_each f l
  end.

(** ** Lemmas on outcomes *)

Lemma bind_Ok {A B} (m : result A) (k : A -> result B) v :
  (m ≫= k) = Ok v <-> exists a, m = Ok a /\ k a = Ok v.
Proof.
  destruct m as [a|e|w]; cbn; (split; [intros H | intros (x & Hx & H)]); try discriminate.
  - by exists a.
  - by simplify_eq.
Qed.

Lemma fail_if_Ok b msg u : fail_if b msg = Ok u <-> b = false.
Proof. destruct b, u; cbn; split; congruence. Qed.

Lemma panic_unless_Ok b msg u : panic_unless b msg = Ok u <-> b = true.
Proof. destruct b, u; cbn; split; congruence. Qed.

Lemma ok_or_Ok {A} (o : option A) e v : ok_or o e = Ok v <-> o = Some v.
Proof. destruct o; cbn; split; congruence. Qed.

Lemma map_err_Ok {A} f (r : result A) v : map_err f r = Ok v <-> r = Ok v.
Proof. destruct r; cbn; split; congruence. Qed.

Lemma index_at_Ok {A} (l : list A) i v : index_at l i = Ok v <-> l !! i = Some v.
Proof. unfold index_at. destruct (l !! i); split; congruence. Qed.

Lemma map_result_Ok {A B} (f : A -> result B) l l' :
  map_result f l = Ok l' <-> Forall2 (fun a b => f a = Ok b) l l'.
Proof.
  revert l'. induction l as [|a l IH]; intros l'; cbn.
  - split; [intros [= <-]; constructor | inversion 1; done].
  - split.
    + intros (b & Hb & (bs & Hbs & [= <-])%bind_Ok)%bind_Ok.
      constructor; [done|]. by apply IH.
    + inversion 1 as [|? b ? bs Hb Hbs]; subst. rewrite Hb. cbn.
      apply IH in Hbs. by rewrite Hbs.
Qed.

Lemma map_result_all {A B} (f : A -> result B) (g : A -> B) l :
  (forall a, f a = Ok (g a)) -> map_result f l = Ok (g <$> l).
Proof. intros H. induction l as [|a l IH]; cbn; [done|]. by rewrite H, IH. Qed.

Lemma ST_bind_Ok {S A B} (m : ST S A) (k : A -> ST S B) s s' v :
  (m ≫= k) s = (s', Ok v) <-> exists a s1, m s = (s1, Ok a) /\ k a s1 = (s', Ok v).
Proof.
  unfold mbind, ST_bind. destruct (m s) as [s1 [a|e|w]];
    (split; [intros H | intros (x & s2 & Hx & H)]); simplify_eq.
  - by exists a, s1.
  - done.
Qed.

Lemma reads_Ok {S A} (f : S -> result A) s s' v :
  reads f s = (s', Ok v) <-> s' = s /\ f s = Ok v.
Proof. unfold reads. split; [by intros [= <- ->] | by intros [-> ->]]. Qed.

Lemma lift_Ok {S A} (r : result A) (s s' : S) v :
  lift r s = (s', Ok v) <-> s' = s /\ r = Ok v.
Proof. unfold lift. split; [by intros [= <- ->] | by intros [-> ->]]. Qed.

(** A check followed by the rest. *)
Lemma seq_Ok {A} (m : result unit) (k : result A) v :
  (m ;; k) = Ok v <-> m = Ok tt /\ k = Ok v.
Proof.
  rewrite bind_Ok. split; [by intros ([] & ? & ?) | intros [? ?]; by exists tt].
Qed.

Lemma ST_bind_eq {S A B} (m : ST S A) (k : A -> ST S B) s :
  (m ≫= k) s = match m s with
               | (s', Ok a) => k a s'
               | (s', Err e) => (s', Err e)
               | (s', Panic w) => (s', Panic w)
               end.
Proof. done. Qed.

(** One step of a stateful computation. *)
Lemma ST_run {S A B} (m : ST S A) (k : A -> ST S B) s s1 a :
  m s = (s1, Ok a) -> (m ≫= k) s = k a s1.
Proof. intros E. unfold mbind, ST_bind. by rewrite E. Qed.

Ltac st_run E := rewrite (ST_run _ _ _ _ _ E); cbn beta.

Lemma ST_run_Err {S A B} (m : ST S A) (k : A -> ST S B) s s1 e :
  m s = (s1, Err e) -> (m ≫= k) s = (s1, Err e).
Proof. intros E. unfold mbind, ST_bind. by rewrite E. Qed.

Lemma ST_run_writes {S B} (f : S -> S) (k : unit -> ST S B) s :
  (writes f ≫= k) s = k tt (f s).
Proof. done. Qed.

(** A step that only reads, and one that does not touch the state. *)
Lemma ST_run_reads {S A B} (f : S -> result A) (k : A -> ST S B) s a :
  f s = Ok a -> (reads f ≫= k) s = k a s.
Proof. intros E. unfold mbind, ST_bind, reads. by rewrite E. Qed.

Lemma ST_reads_Err {S A B} (f : S -> result A) (k : A -> ST S B) s e :
  f s = Err e -> (reads f ≫= k) s = (s, Err e).
Proof. intros E. unfold mbind, ST_bind, reads. by rewrite E. Qed.

Lemma ST_run_lift {S A B} (r : result A) (k : A -> ST S B) s a :
  r = Ok a -> (lift r ≫= k) s = k a s.
Proof. by intros ->. Qed.

Lemma ST_lift_Err {S A B} (r : result A) (k : A -> ST S B) s e :
  r = Err e -> (lift r ≫= k) s = (s, Err e).
Proof. by intros ->. Qed.

(** ** Triples

    From a state where [P] holds, a value comes with a state where [Q] holds of it, and an
    error or a panic leaves a state where [E] holds. *)
Definition triple {S A} (P : S -> Prop) (m : ST S A) (Q : A -> S -> Prop) (E : S -> Prop) : Prop :=
  forall s, P s -> match m s with (s', Ok a) => Q a s' | (s', _) => E s' end.

(** An invariant kept on every outcome. *)
Definition keeps {S A} (I : S -> Prop) (m : ST S A) : Prop := triple I m (fun _ => I) I.

Section Triples.
Context {S : Type}.
Implicit Types P E I : S -> Prop.

Lemma triple_ret {A} P (Q : A -> S -> Prop) E a :
  (forall s, P s -> Q a s) -> triple P (mret a) Q E.
Proof. intros HQ s Hs. by apply HQ. Qed.

Lemma triple_bind {A B} P (Q : A -> S -> Prop) (R : B -> S -> Prop) E (m : ST S A) (k : A -> ST S B) :
  triple P m Q E -> (forall a, triple (Q a) (k a) R E) -> triple P (m ≫= k) R E.
Proof.
  intros Hm Hk s Hs. specialize (Hm s Hs). unfold mbind, ST_bind.
  destruct (m s) as [s' [a|e|e]]; [|exact Hm..]. by apply Hk.
Qed.

Lemma triple_conseq {A} P P' (Q Q' : A -> S -> Prop) E E' (m : ST S A) :
  triple P m Q E -> (forall s, P' s -> P s) -> (forall a s, Q a s -> Q' a s) ->
  (forall s, E s -> E' s) -> triple P' m Q' E'.
Proof.
  intros Hm HP HQ HE s Hs. specialize (Hm s (HP s Hs)).
  destruct (m s) as [s' [a|e|e]]; auto.
Qed.

Lemma triple_reads {A} P E (f : S -> result A) :
  (forall s, P s -> E s) -> triple P (reads f) (fun a s => P s /\ f s = Ok a) E.
Proof. intros HE s Hs. unfold reads. destruct (f s) eqn:Ef; auto. Qed.

Lemma triple_lift {A} P E (r : result A) :
  (forall s, P s -> E s) -> triple P (lift r) (fun a s => P s /\ r = Ok a) E.
Proof. intros HE s Hs. unfold lift. destruct r; auto. Qed.

Lemma triple_writes P (Q : unit -> S -> Prop) E (f : S -> S) :
  (forall s, P s -> Q tt (f s)) -> triple P (writes f) Q E.
Proof. intros HQ s Hs. by apply HQ. Qed.

Lemma keeps_ret {A} I (a : A) : keeps I (mret a).
Proof. by apply triple_ret. Qed.

Lemma keeps_bind {A B} I (m : ST S A) (k : A -> ST S B) :
  keeps I m -> (forall a, keeps I (k a)) -> keeps I (m ≫= k).
Proof. intros Hm Hk. by eapply triple_bind. Qed.

Lemma keeps_reads {A} I (f : S -> result A) : keeps I (reads f).
Proof. eapply triple_conseq; [by apply (triple_reads I I)|auto|by intros a s []|auto]. Qed.

Lemma keeps_lift {A} I (r : result A) : keeps I (lift r).
Proof. eapply triple_conseq; [by apply (triple_lift I I)|auto|by intros a s []|auto]. Qed.

Lemma keeps_writes I (f : S -> S) : (forall s, I s -> I (f s)) -> keeps I (writes f).
Proof. intros Hf. by apply triple_writes. Qed.

(** The state reached, whatever the outcome. *)
Lemma keeps_run {A} I (m : ST S A) s : keeps I m -> I s -> I (fst (m s)).
Proof. intros Hm Hs. specialize (Hm s Hs). by destruct (m s) as [s' [a|e|e]]. Qed.
End Triples.

Create HintDb keeps.
#[export] Hint Resolve keeps_ret keeps_reads keeps_lift : keeps.

(** Walks through a computation whose steps keep an invariant. *)
Ltac keeps_step :=
  match goal with
  | |- keeps _ (let '_ := ?x in _) => destruct x
  | |- keeps _ (match ?x with _ => _ end) => destruct x
  | |- keeps _ (_ ≫= _) => apply keeps_bind; [|intros ?]
  | |- keeps _ _ => solve [auto with keeps]
  end.
Ltac keeps_walk :=
  cbv beta zeta;
  try match goal with |- triple ?I ?m (fun _ => ?I) ?I => change (keeps I m) end;
  repeat keeps_step.

(** ** Absence of panics *)

Lemma no_panic_bind {A B} (m : result A) (k : A -> result B) :
  is_panic m = false -> (forall a, m = Ok a -> is_panic (k a) = false) ->
  is_panic (m ≫= k) = false.
Proof. destruct m; cbn; auto. Qed.

Lemma no_panic_ret {A} (a : A) : is_panic (mret a : result A) = false.
Proof. done. Qed.

Lemma no_panic_fail_if b msg : is_panic (fail_if b msg) = false.
Proof. by destruct b. Qed.

Lemma no_panic_ok_or {A} (o : option A) e : is_panic (ok_or o e) = false.
Proof. by destruct o. Qed.

Lemma no_panic_map_err {A} f (r : result A) :
  is_panic r = false -> is_panic (map_err f r) = false.
Proof. by destruct r. Qed.

Lemma no_panic_index_at {A} (l : list A) i :
  (i < length l)%nat -> is_panic (index_at l i) = false.
Proof.
  intros Hi. unfold index_at. destruct (lookup_lt_is_Some_2 l i Hi) as [x ->]. done.
Qed.

(** A computation that neither returns nor panics is an error. *)
Lemma not_ok_Err {A} (r : result A) :
  is_panic r = false -> (forall a, r <> Ok a) -> exists e, r = Err e.
Proof. destruct r as [a|e|w]; [|by eexists|done]. intros _ Hn. by destruct (Hn a). Qed.

Create HintDb no_panic.
#[export] Hint Resolve no_panic_ret no_panic_fail_if no_panic_ok_or no_panic_map_err
  no_panic_index_at : no_panic.
#[export] Hint Extern 3 (is_panic (_ ≫= _) = false) =>
  apply no_panic_bind; [|intros] : no_panic.
#[export] Hint Extern 1 (is_panic (Ok _) = false) => reflexivity : no_panic.
#[export] Hint Extern 1 (is_panic (Err _) = false) => reflexivity : no_panic.

(** Splits a sequence of steps and clears each one with the hints. *)
Ltac no_panic :=
  cbv zeta;
  repeat (match goal with
          | |- is_panic (_ ≫= _) = false => apply no_panic_bind; [|intros]
          end);
  auto 10 with no_panic.

(** Inversion of successful computations: splits [m ≫= k = Ok v] into the steps
    that succeeded and the conditions that held. *)
Ltac result_inv_step :=
  match goal with
  | H : (_ ≫= _) = Ok _ |- _ =>
      let a := fresh "a" in let Ha := fresh "Ha" in
      apply bind_Ok in H; destruct H as (a & Ha & H); cbn beta in H
  | H : fail_if _ _ = Ok _ |- _ => apply fail_if_Ok in H
  | H : panic_unless _ _ = Ok _ |- _ => apply panic_unless_Ok in H
  | H : ok_or _ _ = Ok _ |- _ => apply ok_or_Ok in H
  | H : map_err _ _ = Ok _ |- _ => apply map_err_Ok in H
  | H : index_at _ _ = Ok _ |- _ => apply index_at_Ok in H
  | H : Ok _ = Ok _ |- _ => injection H as H
  | H : mret _ = Ok _ |- _ => injection H as H
  | H : Err _ = Ok _ |- _ => discriminate H
  | H : Panic _ = Ok _ |- _ => discriminate H
  end.
Ltac result_inv := repeat (result_inv_step; subst).

(** The same for stateful computations. *)
Ltac st_inv_step :=
  match goal with
  | H : (_ ≫= _) _ = (_, Ok _) |- _ =>
      let a := fresh "a" in let s1 := fresh "s" in let Ha := fresh "Ha" in
      apply ST_bind_Ok in H; destruct H as (a & s1 & Ha & H); cbn beta in H
  | H : reads _ _ = (_, Ok _) |- _ => apply reads_Ok in H; destruct H as [? H]
  | H : lift _ _ = (_, Ok _) |- _ => apply lift_Ok in H; destruct H as [? H]
  | H : writes _ _ = (_, Ok _) |- _ => injection H as ? ?
  | H : mret _ _ = (_, Ok _) |- _ => injection H as ? ?
  end.
Ltac st_inv := repeat (st_inv_step; subst); result_inv.

(** ** Bytes and machine integers *)

Abbreviation bytes := (list Byte.byte).

#[export] Instance byte_eq_dec : EqDecision Byte.byte := Byte.byte_eq_dec.
#[export] Program Instance byte_countable : Countable Byte.byte :=
  inj_countable Byte.to_N Byte.of_N _.
Next Obligation. intros b. apply Byte.of_to_N. Qed.

Local Open Scope N_scope.

(** [v as u8]: the low eight bits. *)
Definition byte_of_N (v : N) : Byte.byte :=
  match Byte.of_N (v mod 256) with Some b => b | None => Byte.x00 end.

Lemma byte_to_N_bound b : Byte.to_N b < 256.
Proof. pose proof (Byte.to_N_bounded b). lia. Qed.

Lemma byte_to_of_N v : Byte.to_N (byte_of_N v) = v mod 256.
Proof.
  unfold byte_of_N. destruct (Byte.of_N (v mod 256)) as [b|] eqn:E.
  - by apply Byte.to_of_N in E.
  - apply Byte.of_N_None_iff in E. pose proof (N.mod_lt v 256). lia.
Qed.

Lemma byte_of_to_N b : byte_of_N (Byte.to_N b) = b.
Proof.
  unfold byte_of_N. rewrite N.mod_small by apply byte_to_N_bound.
  by rewrite Byte.of_to_N.
Qed.

Lemma byte_to_N_inj a b : Byte.to_N a = Byte.to_N b -> a = b.
Proof. intros H. by rewrite <-(byte_of_to_N a), H, byte_of_to_N. Qed.

(** [to_le_bytes] / [from_le_bytes] for an [n]-byte integer, and the big-endian pair. *)
Fixpoint le_bytes (n : nat) (v : N) : bytes :=
  match n with
  | O => []
  | S n => byte_of_N v :: le_bytes n (v / 256)
  end.

Fixpoint le_val (l : bytes) : N :=
  match l with
  | [] => 0
  | b :: l => Byte.to_N b + 256 * le_val l
  end.

Definition be_bytes (n : nat) (v : N) : bytes := rev (le_bytes n v).
Definition be_val (l : bytes) : N := le_val (rev l).

Lemma length_le_bytes n v : length (le_bytes n v) = n.
Proof. revert v. induction n; intros; cbn; [done|]. by rewrite IHn. Qed.

Lemma length_be_bytes n v : length (be_bytes n v) = n.
Proof. unfold be_bytes. by rewrite length_rev, length_le_bytes. Qed.

Lemma le_val_bound l : le_val l < 256 ^ N.of_nat (length l).
Proof.
  induction l as [|b l IH]; cbn [le_val length]; [reflexivity|].
  rewrite Nat2N.inj_succ, N.pow_succ_r'. pose proof (byte_to_N_bound b). nia.
Qed.

Lemma le_val_le_bytes n v : le_val (le_bytes n v) = v mod 256 ^ N.of_nat n.
Proof.
  revert v. induction n as [|n IH]; intros v; cbn [le_bytes le_val].
  - by rewrite N.mod_1_r.
  - rewrite byte_to_of_N, IH, Nat2N.inj_succ, N.pow_succ_r'.
    symmetry. apply N.Div0.mod_mul_r.
Qed.

Lemma le_val_roundtrip n v : v < 256 ^ N.of_nat n -> le_val (le_bytes n v) = v.
Proof. intros H. rewrite le_val_le_bytes. by apply N.mod_small. Qed.

Lemma le_bytes_le_val l : le_bytes (length l) (le_val l) = l.
Proof.
  induction l as [|b l IH]; cbn [le_val length le_bytes]; [done|].
  pose proof (byte_to_N_bound b) as Hb. f_equal.
  - apply byte_to_N_inj. rewrite byte_to_of_N, N.mul_comm, N.Div0.mod_add.
    by apply N.mod_small.
  - rewrite N.mul_comm, N.div_add, N.div_small by done. by rewrite N.add_0_l, IH.
Qed.

Lemma be_val_roundtrip n v : v < 256 ^ N.of_nat n -> be_val (be_bytes n v) = v.
Proof. intros H. unfold be_val, be_bytes. rewrite rev_involutive. by apply le_val_roundtrip. Qed.

Lemma le_bytes_inj n a b :
  a < 256 ^ N.of_nat n -> b < 256 ^ N.of_nat n -> le_bytes n a = le_bytes n b -> a = b.
Proof. intros Ha Hb H. by rewrite <-(le_val_roundtrip n a), H, le_val_roundtrip. Qed.

(** The unsigned integer types, with the arithmetic the source uses on them. *)
Definition U64_LIMIT : N := 2 ^ 64.
Definition U32_LIMIT : N := 2 ^ 32.

Definition is_u64 (v : N) : Prop := v < U64_LIMIT.
Definition is_u32 (v : N) : Prop := v < U32_LIMIT.

Definition checked_add (limit a b : N) : option N :=
  if a + b <? limit then Some (a + b) else None.

Definition checked_add_u64 : N -> N -> option N := checked_add U64_LIMIT.

Definition saturating_add_u64 (a b : N) : N := N.min (a + b) (U64_LIMIT - 1).
Definition saturating_mul_u64 (a b : N) : N := N.min (a * b) (U64_LIMIT - 1).

(** [a + b] on [u64] in a release build: modulo 2^64. *)
Definition wrapping_add_u64 (a b : N) : N := (a + b) mod U64_LIMIT.

Definition u64_le (v : N) : bytes := le_bytes 8 v.

Lemma checked_add_Some limit a b c :
  checked_add limit a b = Some c <-> c = a + b /\ a + b < limit.
Proof.
  unfold checked_add. destruct (N.ltb_spec (a + b) limit) as [H|H].
  - split; [by intros [= <-] | by intros [-> _]].
  - split; [done | intros [_ H']; lia].
Qed.

Lemma u64_le_roundtrip v : is_u64 v -> le_val (u64_le v) = v.
Proof. intros H. apply le_val_roundtrip. exact H. Qed.

Lemma length_u64_le v : length (u64_le v) = 8%nat.
Proof. apply length_le_bytes. Qed.

(** The width of [usize], which is 64 on the host and 32 in the WASM kernel. *)
Class Target := { usize_bits : N }.

(** Both targets: 32-bit WASM and 64-bit hosts. *)
Class WordTarget `{Target} : Prop := word_bits : 32 <= usize_bits.

Definition usize_limit `{Target} : N := 2 ^ usize_bits.

(** [usize::try_from(v)]. *)
Definition to_usize `{Target} (v : N) : option N :=
  if v <? usize_limit then Some v else None.

(** ** Strings

    A Rust [String] is a sequence of bytes; a Rocq string is one too. *)
Definition str_bytes (s : string) : bytes := String.list_byte_of_string s.
Definition bytes_str (b : bytes) : string := String.string_of_list_byte b.

Lemma bytes_str_of_str s : bytes_str (str_bytes s) = s.
Proof. apply String.string_of_list_byte_of_string. Qed.

Lemma str_bytes_of_bytes b : str_bytes (bytes_str b) = b.
Proof. apply String.list_byte_of_string_of_list_byte. Qed.

Lemma str_bytes_inj a b : str_bytes a = str_bytes b -> a = b.
Proof. intros H. by rewrite <-(bytes_str_of_str a), H, bytes_str_of_str. Qed.

(** [s.strip_prefix(p)], [s.split_once(c)] on byte strings. *)
Fixpoint strip_prefix (p s : bytes) : option bytes :=
  match p, s with
  | [], _ => Some s
  | a :: p, b :: s => if decide (a = b) then strip_prefix p s else None
  | _ :: _, [] => None
  end.

Fixpoint split_once (c : Byte.byte) (s : bytes) : option (bytes * bytes) :=
  match s with
  | [] => None
  | b :: s =>
      if decide (b = c) then Some ([], s)
      else '(l, r) ← split_once c s; Some (b :: l, r)
  end.

Lemma strip_prefix_app p s : strip_prefix p (p ++ s) = Some s.
Proof. induction p as [|a p IH]; cbn; [done|]. by rewrite decide_True. Qed.

Lemma strip_prefix_Some p s r : strip_prefix p s = Some r <-> s = p ++ r.
Proof.
  split; [|intros ->; apply strip_prefix_app].
  revert s. induction p as [|a p IH]; intros [|b s]; cbn; try congruence.
  destruct (decide (a = b)); [|congruence]. subst. intros H%IH. by subst.
Qed.

Lemma split_once_Some c s l r :
  split_once c s = Some (l, r) <-> s = l ++ c :: r /\ c ∉ l.
Proof.
  revert l r. induction s as [|b s IH]; intros l r; cbn.
  - split; [done|]. intros [H _]. by destruct l.
  - destruct (decide (b = c)) as [->|Hne].
    + split; [intros [= <- <-]; split; [done|set_solver]|].
      intros [H Hin]. destruct l as [|x l]; cbn in H; simplify_eq; [done|set_solver].
    + split.
      * destruct (split_once c s) as [[l' r']|] eqn:E; cbn; [|done].
        intros [= <- <-]. destruct (proj1 (IH l' r') eq_refl) as [-> Hin].
        split; [done|set_solver].
      * intros [H Hin]. destruct l as [|x l]; cbn in H; simplify_eq.
        assert (split_once c (l ++ c :: r) = Some (l, r)) as ->; [|done].
        apply IH. split; [done|set_solver].
Qed.

(** ** Lists and byte arrays *)

(** Cutting a byte string into fields of known widths. *)
Lemma app_inj_l {A} (a b c d : list A) :
  length a = length c -> a ++ b = c ++ d -> a = c /\ b = d.
Proof. intros Hl H. by apply app_inj_1. Qed.

Lemma cons_inj {A} (x y : A) l k : x :: l = y :: k -> x = y /\ l = k.
Proof. by intros [= -> ->]. Qed.

(** [injection] on two list literals, element by element: it does not look inside
    the elements. *)
Ltac list_injection H :=
  repeat (let E := fresh "E" in apply cons_inj in H; destruct H as [E H]).

(** Induction by pairs of elements. *)
Lemma list_pair_ind {A} (P : list A -> Prop) :
  P [] -> (forall x, P [x]) -> (forall x y l, P l -> P (x :: y :: l)) -> forall l, P l.
Proof.
  intros H0 H1 H2. fix IH 1. intros [|x [|y l]]; [exact H0|apply H1|]. apply H2, IH.
Qed.

(** [take] and [drop] of a concatenation cut exactly at the border. *)
Lemma take_app_exact {A} (a b : list A) n : length a = n -> take n (a ++ b) = a.
Proof. intros <-. by rewrite take_app_length. Qed.

Lemma drop_app_exact {A} (a b : list A) n : length a = n -> drop n (a ++ b) = b.
Proof. intros <-. by rewrite drop_app_length. Qed.

Lemma drop_app_more {A} (a b : list A) n k :
  length a = k -> (k <= n)%nat -> drop n (a ++ b) = drop (n - k) b.
Proof. intros <- Hle. rewrite drop_app_ge by done. done. Qed.

(** Membership in a list as a boolean, for executable models. *)
Definition list_mem {A} `{EqDecision A} (x : A) (l : list A) : bool := bool_decide (x ∈ l).

(** [for i in 0..n { for j in i+1..n { l[i] == l[j] } }]: some element occurs twice. *)
Fixpoint has_duplicate {A} `{EqDecision A} (l : list A) : bool :=
  match l with
  | [] => false
  | x :: l => list_mem x l || has_duplicate l
  end.

Lemma has_duplicate_false {A} `{EqDecision A} (l : list A) :
  has_duplicate l = false <-> NoDup l.
Proof.
  induction l as [|x l IH]; cbn.
  - split; [constructor | done].
  - rewrite orb_false_iff, IH, NoDup_cons. unfold list_mem.
    by rewrite bool_decide_eq_false.
Qed.

(** ** Chunks *)

(** [a.div_ceil(b)] and [slice.chunks(n)]. *)
Definition div_ceil (a b : nat) : nat := ((a + b - 1) / b)%nat.
Definition chunks {A} (n : nat) (l : list A) : list (list A) :=
  (fun i => take n (drop (i * n)%nat l)) <$> seq 0 (div_ceil (length l) n).

Lemma concat_chunks {A} (n : nat) (l : list A) : n <> 0%nat -> concat (chunks n l) = l.
Proof.
  intros Hn. unfold chunks.
  assert (forall k : nat, concat ((fun i => take n (drop (i * n)%nat l)) <$> seq 0 k) = take (k * n)%nat l) as Hk.
  { induction k as [|k IH]; [done|].
    rewrite seq_S, fmap_app, concat_app, IH. cbn [concat fmap list_fmap plus].
    rewrite app_nil_r, take_take_drop. f_equal. lia. }
  rewrite Hk. apply take_ge. unfold div_ceil.
  pose proof (Nat.div_mod_eq (length l + n - 1) n) as Hd.
  pose proof (Nat.mod_upper_bound (length l + n - 1) n Hn). nia.
Qed.

Lemma length_chunks {A} (n : nat) (l : list A) : length (chunks n l) = div_ceil (length l) n.
Proof. unfold chunks. by rewrite length_fmap, length_seq. Qed.

Lemma length_chunk {A} (n : nat) (l : list A) (c : nat) x : chunks n l !! c = Some x -> (length x <= n)%nat.
Proof.
  unfold chunks. rewrite list_lookup_fmap. intros (i & _ & ->)%fmap_Some.
  rewrite length_take. lia.
Qed.

Lemma mapM_seq {A} (f : nat -> option A) (l : list A) :
  (forall (i : nat) x, l !! i = Some x -> f i = Some x) -> mapM f (seq 0 (length l)) = Some l.
Proof.
  intros Hf. apply mapM_Some. rewrite Forall2_lookup. intros i.
  destruct (l !! i) as [x|] eqn:E.
  - rewrite lookup_seq_lt by by eapply lookup_lt_Some. constructor. by apply Hf.
  - rewrite lookup_seq_ge by by apply lookup_ge_None. constructor.
Qed.

Lemma omap_seq {A} (f : nat -> option A) (l : list A) :
  (forall (i : nat) x, l !! i = Some x -> f i = Some x) -> omap f (seq 0 (length l)) = l.
Proof.
  induction l as [|x l IH] using rev_ind; intros Hf; [done|].
  rewrite length_app, Nat.add_comm. cbn [length]. change (1 + length l)%nat with (S (length l)).
  rewrite seq_S, omap_app, IH; cbn.
  - by rewrite (Hf (length l) x) by by rewrite lookup_app_r, Nat.sub_diag.
  - intros i y Hy. apply Hf. by apply lookup_app_l_Some.
Qed.
