(* ===== verification/Felt.v ===== *)
(** * Felt: the 32-byte field elements of [core/src/lib.rs]

    [F = [u8; 32]] is the type of every hash, key, commitment, nullifier and Merkle
    node.  It is carried here with a proof of its length, so that two felts are
    equal exactly when their bytes are; the conversions to and from the machine
    integers are those of the source. *)

From S2P Require Import Prelude.

Local Open Scope N_scope.

(** [pub type F = [u8; 32]]. *)
Record F := MkF {
  F_bytes : bytes;
  F_len : bool_decide (length F_bytes = 32%nat)
}.

Lemma length_F_bytes (f : F) : length (F_bytes f) = 32%nat.
Proof. exact (bool_decide_unpack _ (F_len f)). Qed.

Lemma F_eq (a b : F) : a = b <-> F_bytes a = F_bytes b.
Proof.
  split; [by intros ->|]. destruct a as [a Ha], b as [b Hb]; cbn.
  intros ->. f_equal. apply proof_irrel.
Qed.

#[export] Instance F_bytes_inj : Inj (=) (=) F_bytes.
Proof. intros a b H. by apply F_eq. Qed.

#[export] Instance F_eq_dec : EqDecision F.
Proof.
  refine (fun a b => cast_if (decide (F_bytes a = F_bytes b)));
    abstract (by rewrite F_eq).
Defined.

(** The array filled from a slice: [copy_from_slice] into a zeroed [F].  Every use
    in the source writes at most 32 bytes at offset 0; the rest stays zero. *)
Definition mkF (b : bytes) : F :=
  {| F_bytes := resize 32 Byte.x00 b;
     F_len := bool_decide_pack _ (length_resize b 32 Byte.x00) |}.

Lemma F_bytes_mkF b : length b = 32%nat -> F_bytes (mkF b) = b.
Proof. intros H. cbn. by rewrite resize_all_alt. Qed.

Lemma F_bytes_mkF_pad b :
  (length b <= 32)%nat -> F_bytes (mkF b) = b ++ replicate (32 - length b) Byte.x00.
Proof. intros H. cbn. by rewrite resize_ge. Qed.

Lemma mkF_F_bytes f : mkF (F_bytes f) = f.
Proof. apply F_eq. by rewrite F_bytes_mkF by apply length_F_bytes. Qed.

Lemma mkF_inj a b : length a = 32%nat -> length b = 32%nat -> mkF a = mkF b -> a = b.
Proof. intros Ha Hb H%F_eq. by rewrite !F_bytes_mkF in H. Qed.

Lemma mkF_pad_inj a b :
  length a = length b -> (length a <= 32)%nat -> mkF a = mkF b -> a = b.
Proof.
  intros Hl Ha H%F_eq. rewrite !F_bytes_mkF_pad in H by lia.
  by apply app_inj_1 in H as [??].
Qed.

(** The conversion from an exact slice, as every wire decoder does it:
    [if bytes.len() != 32 { return Err(..) }]. *)
Definition felt_of_slice (b : bytes) (msg : string) : result F :=
  fail_if (negb (Nat.eqb (length b) 32)) msg ;;
  mret (mkF b).

Lemma felt_of_slice_Ok b msg f : felt_of_slice b msg = Ok f <-> F_bytes f = b.
Proof.
  unfold felt_of_slice. destruct (Nat.eqb_spec (length b) 32) as [H|H]; cbn.
  - split; [intros [= <-]; by apply F_bytes_mkF|].
    intros <-. by rewrite mkF_F_bytes.
  - split; [done|]. intros <-. by rewrite length_F_bytes in H.
Qed.

#[export] Program Instance F_countable : Countable F :=
  inj_countable F_bytes
    (fun b => if decide (length b = 32%nat) then Some (mkF b) else None) _.
Next Obligation.
  intros f. cbn. rewrite decide_True by apply length_F_bytes. by rewrite mkF_F_bytes.
Qed.

#[export] Instance F_inhabited : Inhabited F := populate (mkF []).

(** [pub const ZERO: F = [0u8; 32]]. *)
Definition ZERO : F := mkF [].

(** [out[31] &= 0x07]: truncation to 251 bits. *)
Definition mask251 (f : F) : F :=
  mkF (alter (fun b => byte_of_N (N.land (Byte.to_N b) 7)) 31%nat (F_bytes f)).

(** A felt below 2^251: the five high bits of its last byte are clear. *)
Definition is_felt251 (f : F) : bool :=
  match F_bytes f !! 31%nat with
  | Some b => Byte.to_N b <? 8
  | None => false
  end.

Lemma mask251_is_felt251 f : is_felt251 (mask251 f) = true.
Proof.
  unfold is_felt251, mask251.
  rewrite F_bytes_mkF by (rewrite length_alter; apply length_F_bytes).
  rewrite list_lookup_alter_eq.
  destruct (F_bytes f !! 31%nat) as [b|] eqn:E; cbn.
  - rewrite byte_to_of_N. apply N.ltb_lt.
    change 7 with (N.ones 3). rewrite N.land_ones.
    pose proof (N.mod_lt (Byte.to_N b) (2 ^ 3)). change (2 ^ 3) with 8 in *.
    rewrite N.mod_small; lia.
  - apply lookup_ge_None in E. rewrite length_F_bytes in E. lia.
Qed.

(** ** Machine integers as felts *)

Definition u64_to_felt (v : N) : F := mkF (le_bytes 8 v).

Definition felt_to_u64 (f : F) : result N :=
  fail_if (existsb (fun b => negb (Byte.eqb b Byte.x00)) (drop 8 (F_bytes f)))
    "felt does not fit in u64" ;;
  mret (le_val (take 8 (F_bytes f))).

Definition felt_to_usize `{Target} (f : F) : result N :=
  v ← felt_to_u64 f;
  ok_or (to_usize v) "felt does not fit in usize".

(** The [u32] index written in the first four bytes of a zeroed felt. *)
Definition felt_from_u32 (v : N) : F := mkF (le_bytes 4 v).

(** [felt_tag]: the ASCII tag read as a big-endian integer and stored little-endian,
    in a [u128] accumulator whose shift drops the bits above 128. *)
Definition felt_tag_val (s : bytes) : N :=
  foldl (fun val b => N.lor (N.shiftl val 8 mod 2 ^ 128) (Byte.to_N b)) 0 s.

Definition felt_tag (s : string) : F := mkF (le_bytes 16 (felt_tag_val (str_bytes s))).

Lemma existsb_nonzero (l : bytes) :
  existsb (fun b => negb (Byte.eqb b Byte.x00)) l = false <->
  l = replicate (length l) Byte.x00.
Proof.
  induction l as [|b l IH]; cbn; [done|]. rewrite orb_false_iff, IH, negb_false_iff.
  split.
  - intros [Hb Hl]. apply Byte.byte_dec_bl in Hb. subst. by f_equal.
  - intros [= -> Hl]. rewrite <-Hl. split; [|done]. by apply Byte.byte_dec_lb.
Qed.

Lemma felt_to_u64_Ok f v : felt_to_u64 f = Ok v -> is_u64 v /\ u64_to_felt v = f.
Proof.
  unfold felt_to_u64. intros H. result_inv.
  rename Ha into Hz. apply existsb_nonzero in Hz.
  rewrite length_drop, length_F_bytes in Hz.
  assert (length (take 8 (F_bytes f)) = 8%nat) as Hl
    by (rewrite length_take, length_F_bytes; done).
  split.
  - unfold is_u64. pose proof (le_val_bound (take 8 (F_bytes f))) as Hb.
    rewrite Hl in Hb. exact Hb.
  - apply F_eq. unfold u64_to_felt.
    rewrite F_bytes_mkF_pad by (rewrite length_le_bytes; lia).
    rewrite length_le_bytes. rewrite <-Hl at 1. rewrite le_bytes_le_val.
    rewrite <-(take_drop 8 (F_bytes f)) at 2. by rewrite Hz.
Qed.

Lemma felt_to_u64_of_u64 v : is_u64 v -> felt_to_u64 (u64_to_felt v) = Ok v.
Proof.
  intros Hv. unfold felt_to_u64, u64_to_felt.
  rewrite F_bytes_mkF_pad by (rewrite length_le_bytes; lia).
  rewrite length_le_bytes, (drop_app_exact _ _ 8) by apply length_le_bytes.
  rewrite (take_app_exact _ _ 8) by apply length_le_bytes.
  cbn [existsb replicate]. cbn. f_equal. by apply (u64_le_roundtrip v).
Qed.

Lemma u64_to_felt_inj a b : is_u64 a -> is_u64 b -> u64_to_felt a = u64_to_felt b -> a = b.
Proof.
  intros Ha Hb H. apply (le_bytes_inj 8); [done..|].
  apply mkF_pad_inj in H; rewrite ?length_le_bytes; [done..|lia].
Qed.
