(* ===== verification/Externals.v ===== *)
(** * Externals: what the program takes from third-party crates

    Every crate the source calls and this repository does not contain is a class:
    the operations used, and in a separate [...Laws] class the documented behaviour
    a theorem relies on.  Nothing is assumed globally; a theorem that needs a law
    takes it as an argument.  [Concrete] gives an instance of every law class. *)

From S2P Require Import Prelude Felt.

(** ** [blake2s_simd]

    [Params::new().hash_length(32).personal(p).hash(data)]; without [personal] the
    first argument is [None].  [to_state().update(a).update(b).finalize()] is the
    hash of the concatenation. *)
Class Blake2s := {
  blake2s_digest : option bytes -> bytes -> F
}.

(** ** [hex] *)
Class Hex := {
  hex_encode : bytes -> bytes;
  hex_decode : bytes -> result bytes
}.

Class HexLaws `{Hex} : Prop := {
  hex_decode_encode : forall b, hex_decode (hex_encode b) = Ok b;
  length_hex_encode : forall b, length (hex_encode b) = (2 * length b)%nat
}.

Lemma hex_encode_inj `{HexLaws} a b : hex_encode a = hex_encode b -> a = b.
Proof.
  intros E. pose proof (hex_decode_encode a) as Ha. rewrite E, hex_decode_encode in Ha.
  by injection Ha.
Qed.

(** [hex::encode(f)] as a Rust [String]. *)
Definition hex_str `{Hex} (f : F) : string := bytes_str (hex_encode (F_bytes f)).

(** ** [tezos_smart_rollup_encoding::contract::Contract] *)
Class TezosContracts := {
  contract : Type;
  contract_from_b58check : string -> option contract;
  contract_is_originated : contract -> bool
}.

(** ** [ml_kem::ml_kem_768] *)
Class MlKem := {
  Ek : Type;
  Dk : Type;
  kem_dk_from_seed : bytes -> Dk;
  kem_encapsulation_key : Dk -> Ek;
  kem_ek_bytes : Ek -> bytes;
  (** ciphertext and shared secret *)
  kem_encapsulate_deterministic : Ek -> F -> bytes * bytes;
  (** [None] is the API's error *)
  kem_try_decapsulate : Dk -> bytes -> option bytes
}.

Class MlKemLaws `{MlKem} : Prop := {
  kem_decapsulate_encapsulate : forall dk m ct ss,
    kem_encapsulate_deterministic (kem_encapsulation_key dk) m = (ct, ss) ->
    kem_try_decapsulate dk ct = Some ss;
  length_kem_ciphertext : forall ek m,
    length (fst (kem_encapsulate_deterministic ek m)) = 1088%nat
}.

(** ** [chacha20poly1305] *)
Class Aead := {
  aead_encrypt : F -> bytes -> bytes -> option bytes;
  aead_decrypt : F -> bytes -> bytes -> option bytes
}.

(** The cipher refuses only messages too long for its counter; a sealed message is
    sixteen bytes longer and opens to itself. *)
Class AeadLaws `{Aead} : Prop := {
  aead_encrypt_total : forall key nonce pt,
    length nonce = 12%nat -> (N.of_nat (length pt) < 2 ^ 32)%N ->
    exists ct, aead_encrypt key nonce pt = Some ct;
  aead_decrypt_encrypt : forall key nonce pt ct,
    aead_encrypt key nonce pt = Some ct -> aead_decrypt key nonce ct = Some pt;
  length_aead_encrypt : forall key nonce pt ct,
    aead_encrypt key nonce pt = Some ct -> length ct = (length pt + 16)%nat
}.
