(* ===== verification/Concrete.v ===== *)
(** * Concrete: instances of the external classes

    Small executable functions that satisfy the laws of [Externals].  They are not
    the real crates: they show that the laws can hold together, and they let the
    witnesses of the theorems be evaluated. *)

From S2P Require Import Prelude Felt Externals.

Local Open Scope N_scope.

(** A polynomial checksum in place of BLAKE2s. *)
Definition toy_sum (seed : N) (data : bytes) : N :=
  foldl (fun acc b => (acc * 257 + Byte.to_N b + 1) mod 2 ^ 61) seed data.

Definition toy_blake2s : Blake2s := {|
  blake2s_digest := fun personal data =>
    mkF (le_bytes 8 (toy_sum (toy_sum 7 (default [] personal)) data))
|}.

(** Lower-case hexadecimal. *)
Definition toy_hex_digit (n : N) : Byte.byte :=
  byte_of_N (if n <? 10 then 48 + n else 87 + n).

Definition toy_hex_value (b : Byte.byte) : option N :=
  let n := Byte.to_N b in
  if (48 <=? n) && (n <=? 57) then Some (n - 48)
  else if (97 <=? n) && (n <=? 102) then Some (n - 87)
  else if (65 <=? n) && (n <=? 70) then Some (n - 55)
  else None.

Definition toy_hex_encode (b : bytes) : bytes :=
  b ≫= fun x => [toy_hex_digit (Byte.to_N x / 16); toy_hex_digit (Byte.to_N x mod 16)].

Fixpoint toy_hex_decode (s : bytes) : result bytes :=
  match s with
  | [] => Ok []
  | h :: l :: s =>
      h ← ok_or (toy_hex_value h) "invalid character";
      l ← ok_or (toy_hex_value l) "invalid character";
      rest ← toy_hex_decode s;
      Ok (byte_of_N (16 * h + l) :: rest)
  | [_] => Err "odd number of digits"
  end.

Definition toy_hex : Hex := {|
  hex_encode := toy_hex_encode;
  hex_decode := toy_hex_decode
|}.

Lemma toy_hex_digit_value n : n < 16 -> toy_hex_value (toy_hex_digit n) = Some n.
Proof.
  intros H.
  assert (exists k : nat, n = N.of_nat k /\ (k < 16)%nat) as (k & -> & Hk)
    by (exists (N.to_nat n); lia).
  do 16 (destruct k as [|k]; [reflexivity|]). lia.
Qed.

#[export] Instance toy_hex_laws : @HexLaws toy_hex.
Proof.
  split; cbn; intros b; induction b as [|x b IH]; cbn; [done| |done|].
  - unfold toy_hex_encode in IH.
    pose proof (byte_to_N_bound x) as Hx.
    rewrite !toy_hex_digit_value by (apply N.mod_lt || apply N.Div0.div_lt_upper_bound; lia).
    cbn. rewrite IH. cbn. do 2 f_equal.
    rewrite <-N.div_mod' by lia. apply byte_of_to_N.
  - unfold toy_hex_encode in IH. rewrite IH. lia.
Qed.

Lemma toy_hex_total b : is_panic (@hex_decode toy_hex b) = false.
Proof.
  cbn. revert b. fix IH 1. intros [|h [|l b]]; cbn [toy_hex_decode]; try done.
  pose proof (IH b). no_panic.
Qed.

(** A KEM whose shared secret travels in the open, padded to the ciphertext width. *)
Definition toy_kem : MlKem := {|
  Ek := bytes;
  Dk := bytes;
  kem_dk_from_seed := id;
  kem_encapsulation_key := id;
  kem_ek_bytes := id;
  kem_encapsulate_deterministic := fun _ m =>
    (F_bytes m ++ replicate 1056 Byte.x00, F_bytes m);
  kem_try_decapsulate := fun _ ct => Some (take 32 ct)
|}.

#[export] Instance toy_kem_laws : @MlKemLaws toy_kem.
Proof.
  split; unfold toy_kem; cbn [kem_encapsulate_deterministic kem_try_decapsulate fst snd].
  - intros _ m ct ss [= <- <-]. by rewrite take_app_exact by apply length_F_bytes.
  - intros _ m. by rewrite length_app, length_F_bytes, length_replicate.
Qed.

(** A cipher that appends a zero tag. *)
Definition toy_aead : Aead := {|
  aead_encrypt := fun _ _ pt => Some (pt ++ replicate 16 Byte.x00);
  aead_decrypt := fun _ _ ct => Some (take (length ct - 16) ct)
|}.

#[export] Instance toy_aead_laws : @AeadLaws toy_aead.
Proof.
  split; unfold toy_aead; cbn [aead_encrypt aead_decrypt].
  - intros _ _ pt _ _. by eexists.
  - intros _ _ pt ct H. apply (inj Some) in H. subst ct.
    rewrite length_app, length_replicate. by rewrite take_app_exact by lia.
  - intros _ _ pt ct H. apply (inj Some) in H. subst ct.
    by rewrite length_app, length_replicate.
Qed.

(** Contracts are the strings that start with [KT1] (originated) or [tz1]. *)
Definition toy_contracts : TezosContracts := {|
  contract := bool;
  contract_from_b58check := fun s =>
    match strip_prefix (str_bytes "KT1") (str_bytes s) with
    | Some _ => Some true
    | None =>
        match strip_prefix (str_bytes "tz1") (str_bytes s) with
        | Some _ => Some false
        | None => None
        end
    end;
  contract_is_originated := id
|}.

Definition host_target : Target := {| usize_bits := 64 |}.
Definition wasm_target : Target := {| usize_bits := 32 |}.
