(* ===== verification/Recipients.v ===== *)
(** * Recipients: the textual addresses of [core/src/lib.rs]

    Deposit recipients [deposit:<hex>], public balance keys [public:owner:label] and
    L1 withdrawal recipients, with their parsers.  The theorems say that the printed
    and parsed forms of a deposit recipient determine each other, so that no two
    recipient strings name the same pool, and that normalising a withdrawal
    recipient twice changes nothing. *)

From S2P Require Import Prelude Felt Externals Concrete.


Definition DEPOSIT_RECIPIENT_PREFIX : string := "deposit:".
Definition PUBLIC_BALANCE_KEY_PREFIX : string := "public:".

(** ** Deposit recipients *)

Definition deposit_recipient_string `{Hex} (pubkey_hash : F) : string :=
  DEPOSIT_RECIPIENT_PREFIX +:+ hex_str pubkey_hash.

Definition parse_deposit_recipient_pubkey_hash `{Hex} (value : string) : result F :=
  hex_id ← ok_or (strip_prefix (str_bytes DEPOSIT_RECIPIENT_PREFIX) (str_bytes value))
             "deposit recipient must start with 'deposit:'";
  fail_if (negb (Nat.eqb (length hex_id) 64))
    "deposit recipient must be deposit:<32-byte hex>" ;;
  b ← map_err (fun _ => "deposit recipient hex is invalid") (hex_decode hex_id);
  fail_if (negb (Nat.eqb (length b) 32) || negb (bool_decide (hex_encode b = hex_id)))
    "deposit recipient hex must be canonical lowercase" ;;
  mret (mkF b).

Definition is_deposit_recipient_string `{Hex} (value : string) : bool :=
  is_ok (parse_deposit_recipient_pubkey_hash value).

(** ** Public balance keys *)

Definition COLON : Byte.byte := Byte.x3a.

Definition public_balance_key (owner label : string) : result string :=
  fail_if (bool_decide (owner = "")) "public balance owner must not be empty" ;;
  fail_if (bool_decide (label = "")) "public balance label must not be empty" ;;
  mret (PUBLIC_BALANCE_KEY_PREFIX +:+ owner +:+ ":" +:+ label).

Definition parse_public_balance_key (value : string) : option (string * string) :=
  rest ← strip_prefix (str_bytes PUBLIC_BALANCE_KEY_PREFIX) (str_bytes value);
  '(owner, label) ← split_once COLON rest;
  if decide (owner = []) then None
  else if decide (label = []) then None
  else Some (bytes_str owner, bytes_str label).

(** ** [str::trim]

    The UTF-8 encodings of the characters with the [White_Space] property. *)
Definition WHITE_SPACE : list bytes :=
  let of_list (l : list N) : bytes := byte_of_N <$> l in
  of_list <$>
    [[9]; [10]; [11]; [12]; [13]; [32]; [194; 133]; [194; 160]; [225; 154; 128];
     [226; 128; 128]; [226; 128; 129]; [226; 128; 130]; [226; 128; 131];
     [226; 128; 132]; [226; 128; 133]; [226; 128; 134]; [226; 128; 135];
     [226; 128; 136]; [226; 128; 137]; [226; 128; 138]; [226; 128; 168];
     [226; 128; 169]; [226; 128; 175]; [226; 129; 159]; [227; 128; 128]]%N.

Fixpoint strip_any (pats : list bytes) (s : bytes) : option bytes :=
  match pats with
  | [] => None
  | p :: pats =>
      match strip_prefix p s with Some r => Some r | None => strip_any pats s end
  end.

(** Each round removes at least one byte, so the length is enough fuel. *)
Fixpoint strip_while (fuel : nat) (pats : list bytes) (s : bytes) : bytes :=
  match fuel with
  | O => s
  | S fuel =>
      match strip_any pats s with Some r => strip_while fuel pats r | None => s end
  end.

Definition trim_start (s : bytes) : bytes := strip_while (length s) WHITE_SPACE s.
Definition trim_end (s : bytes) : bytes :=
  rev (strip_while (length s) (rev (A:=Byte.byte) <$> WHITE_SPACE) (rev s)).
Definition trim (s : bytes) : bytes := trim_end (trim_start s).

(** ** L1 withdrawal recipients *)

Definition validate_l1_withdrawal_recipient `{TezosContracts} (value : string) : result string :=
  let value := bytes_str (trim (str_bytes value)) in
  fail_if (bool_decide (value = "")) "L1 withdrawal recipient must not be empty" ;;
  match contract_from_b58check value with
  | Some _ => mret value
  | None => Err ("invalid L1 withdrawal recipient: " +:+ value)
  end.

(** ** Lemmas *)

Lemma str_bytes_app a b : str_bytes (a +:+ b) = str_bytes a ++ str_bytes b.
Proof.
  unfold str_bytes, String.list_byte_of_string. rewrite <-List.map_app. f_equal.
  induction a as [|c a IH]; [done|].
  change (String c a +:+ b) with (String c (a +:+ b)). cbn. by rewrite IH.
Qed.

Lemma str_bytes_hex_str `{Hex} f : str_bytes (hex_str f) = hex_encode (F_bytes f).
Proof. apply str_bytes_of_bytes. Qed.

Lemma deposit_recipient_bytes `{Hex} h :
  str_bytes (deposit_recipient_string h) =
  str_bytes DEPOSIT_RECIPIENT_PREFIX ++ hex_encode (F_bytes h).
Proof. unfold deposit_recipient_string. by rewrite str_bytes_app, str_bytes_hex_str. Qed.

Lemma strip_any_suffix pats s r :
  strip_any pats s = Some r -> exists p, p ∈ pats /\ s = p ++ r.
Proof.
  induction pats as [|p pats IH]; cbn; [done|].
  destruct (strip_prefix p s) as [r'|] eqn:E.
  - intros [= <-]. exists p. split; [set_solver|]. by apply strip_prefix_Some.
  - intros H. destruct (IH H) as (q & Hq & ->). exists q. split; [set_solver|done].
Qed.

Lemma strip_any_app pats s r t :
  strip_any pats s = Some r -> is_Some (strip_any pats (s ++ t)).
Proof.
  induction pats as [|p pats IH]; cbn; [done|].
  destruct (strip_prefix p s) as [r'|] eqn:E.
  - intros _. apply strip_prefix_Some in E as ->.
    rewrite <-app_assoc, strip_prefix_app. by eexists.
  - intros H. destruct (strip_prefix p (s ++ t)); [by eexists | by apply IH].
Qed.

Lemma strip_while_done fuel pats s :
  (forall p, p ∈ pats -> p ≠ []) -> length s <= fuel ->
  strip_any pats (strip_while fuel pats s) = None.
Proof.
  intros Hp. revert s. induction fuel as [|fuel IH]; intros s Hl; cbn.
  - destruct s; [|cbn in Hl; lia]. destruct (strip_any pats []) as [r|] eqn:E; [|done].
    apply strip_any_suffix in E as (p & Hin & E).
    symmetry in E. apply app_nil in E as [-> _]. by apply Hp in Hin.
  - destruct (strip_any pats s) as [r|] eqn:E; [|done].
    apply IH. apply strip_any_suffix in E as (p & Hin & ->).
    rewrite length_app in Hl. destruct p; [by apply Hp in Hin | cbn in Hl; lia].
Qed.

Lemma strip_while_suffix fuel pats s : exists p, s = p ++ strip_while fuel pats s.
Proof.
  revert s. induction fuel as [|fuel IH]; intros s; cbn; [by exists []|].
  destruct (strip_any pats s) as [r|] eqn:E; [|by exists []].
  apply strip_any_suffix in E as (p & _ & ->). destruct (IH r) as [q Hq].
  exists (p ++ q). rewrite <-app_assoc. by f_equal.
Qed.

Lemma strip_while_id fuel pats s : strip_any pats s = None -> strip_while fuel pats s = s.
Proof. intros H. destruct fuel; cbn; [done|]. by rewrite H. Qed.

Lemma WHITE_SPACE_nonempty p : p ∈ WHITE_SPACE -> p ≠ [].
Proof.
  assert (Forall (fun p => bool_decide (p ≠ [])) WHITE_SPACE) as H
    by (repeat constructor).
  rewrite Forall_forall in H. intros Hin. by apply H, bool_decide_unpack in Hin.
Qed.

Lemma WHITE_SPACE_rev_nonempty p : p ∈ rev (A:=Byte.byte) <$> WHITE_SPACE -> p ≠ [].
Proof.
  intros (q & -> & Hq)%list_elem_of_fmap E. apply (f_equal (@rev _)) in E.
  rewrite rev_involutive in E. by apply WHITE_SPACE_nonempty in Hq.
Qed.

Lemma trim_no_leading s : strip_any WHITE_SPACE (trim s) = None.
Proof.
  unfold trim. set (t := trim_start s).
  assert (strip_any WHITE_SPACE t = None) as Ht
    by (apply strip_while_done; [apply WHITE_SPACE_nonempty | done]).
  unfold trim_end. destruct (strip_while_suffix (length t) (rev (A:=Byte.byte) <$> WHITE_SPACE) (rev t))
    as [p Hp].
  set (r := strip_while _ _ _) in *.
  assert (t = rev r ++ rev p) as Ht' by (by rewrite <-rev_app_distr, <-Hp, rev_involutive).
  destruct (strip_any WHITE_SPACE (rev r)) as [x|] eqn:E; [|done].
  apply (strip_any_app _ _ _ (rev p)) in E. rewrite <-Ht', Ht in E. by destruct E.
Qed.

Lemma trim_no_trailing s :
  strip_any (rev (A:=Byte.byte) <$> WHITE_SPACE) (rev (trim s)) = None.
Proof.
  unfold trim, trim_end. rewrite rev_involutive.
  apply strip_while_done; [apply WHITE_SPACE_rev_nonempty | by rewrite length_rev].
Qed.

Lemma trim_idemp s : trim (trim s) = trim s.
Proof.
  unfold trim at 1, trim_start. rewrite strip_while_id by apply trim_no_leading.
  unfold trim_end. rewrite strip_while_id by apply trim_no_trailing.
  apply rev_involutive.
Qed.

(** ** Properties *)

(** A string parses to a pool key exactly when it is the recipient string
    printed for that key.  Printing is therefore injective, and no upper-case,
    truncated or padded spelling reaches a pool. *)
Theorem deposit_recipient_canonical `{HexLaws} (v : string) (h : F) :
  parse_deposit_recipient_pubkey_hash v = Ok h <-> v = deposit_recipient_string h.
Proof.
  unfold parse_deposit_recipient_pubkey_hash. split.
  - intros E. result_inv. apply strip_prefix_Some in Ha.
    apply orb_false_iff in Ha2 as [Hl Hc].
    apply negb_false_iff, Nat.eqb_eq in Hl.
    apply negb_false_iff, bool_decide_eq_true in Hc.
    apply str_bytes_inj.
    by rewrite deposit_recipient_bytes, Ha, F_bytes_mkF, Hc.
  - intros ->. rewrite deposit_recipient_bytes, strip_prefix_app.
    cbn [ok_or mbind result_bind]. rewrite length_hex_encode, length_F_bytes.
    cbn [Nat.eqb Nat.mul Nat.add negb fail_if mbind result_bind].
    rewrite hex_decode_encode. cbn [map_err mbind result_bind].
    rewrite length_F_bytes, bool_decide_true by done. cbn. by rewrite mkF_F_bytes.
Qed.

Definition sample_pool_key : F := mkF (le_bytes 32 123456789).

Lemma deposit_recipient_canonical_witness :
  @parse_deposit_recipient_pubkey_hash toy_hex
    (@deposit_recipient_string toy_hex sample_pool_key) = Ok sample_pool_key.
Proof.
  apply (proj2 (@deposit_recipient_canonical toy_hex toy_hex_laws _ _)). reflexivity.
Defined.

(** Parsing a public balance key gives back the owner and label it was
    built from, exactly when the owner holds no colon. *)
Theorem public_balance_key_roundtrip (k owner label : string) :
  parse_public_balance_key k = Some (owner, label) <->
  public_balance_key owner label = Ok k /\ COLON ∉ str_bytes owner.
Proof.
  unfold parse_public_balance_key, public_balance_key. split.
  - intros (rest & Hr & E)%bind_Some. apply strip_prefix_Some in Hr.
    apply bind_Some in E as ([o l] & Hs & E). apply split_once_Some in Hs as [-> Hc].
    destruct (decide (o = [])) as [|Ho]; [done|].
    destruct (decide (l = [])) as [|Hl]; [done|]. injection E as <- <-.
    rewrite str_bytes_of_bytes. split; [|done].
    rewrite !bool_decide_false; cycle 1.
    { intros E. apply (f_equal str_bytes) in E. by rewrite str_bytes_of_bytes in E. }
    { intros E. apply (f_equal str_bytes) in E. by rewrite str_bytes_of_bytes in E. }
    cbn. f_equal. apply str_bytes_inj.
    by rewrite !str_bytes_app, !str_bytes_of_bytes, Hr.
  - intros [E Hc]. result_inv. apply bool_decide_eq_false in Ha, Ha0.
    rewrite !str_bytes_app, strip_prefix_app.
    cbn [mbind option_bind].
    change (str_bytes ":" ++ str_bytes label) with (COLON :: str_bytes label).
    rewrite (proj2 (split_once_Some COLON _ (str_bytes owner) (str_bytes label)) (conj eq_refl Hc)).
    cbn [mbind option_bind]. rewrite !decide_False.
    + by rewrite !bytes_str_of_str.
    + intros E. apply Ha0, str_bytes_inj. by rewrite E.
    + intros E. apply Ha, str_bytes_inj. by rewrite E.
Qed.

(** Validating a withdrawal recipient trims it, and validating the
    result again, as the demo ledger and then the state machine do, returns it
    unchanged. *)
Theorem withdrawal_recipient_idempotent `{TezosContracts} (v r : string) :
  validate_l1_withdrawal_recipient v = Ok r ->
  r = bytes_str (trim (str_bytes v)) /\ r ≠ "" /\
  is_Some (contract_from_b58check r) /\
  validate_l1_withdrawal_recipient r = Ok r.
Proof.
  unfold validate_l1_withdrawal_recipient. intros E.
  assert (r = bytes_str (trim (str_bytes v))) as Hr.
  { result_inv. destruct (contract_from_b58check _); [|done]. by injection E. }
  split; [done|].
  assert (bytes_str (trim (str_bytes r)) = r) as Ht
    by (by rewrite Hr, str_bytes_of_bytes, trim_idemp).
  rewrite Ht. rewrite <-Hr in E. clear Hr.
  result_inv. apply bool_decide_eq_false in Ha.
  destruct (contract_from_b58check r) eqn:Ec; [|done].
  split; [done|]. split; [by eexists|]. by rewrite bool_decide_false.
Qed.

Lemma withdrawal_recipient_idempotent_witness :
  @validate_l1_withdrawal_recipient toy_contracts "tz1abc" = Ok "tz1abc".
Proof.
  apply (@withdrawal_recipient_idempotent toy_contracts "  tz1abc ").
  vm_compute. reflexivity.
Defined.
