(* ===== verification/Types.v ===== *)
(** * Types: the data of [core/src/lib.rs]

    Constants, encrypted notes and their shape check, proofs, the three requests and
    their responses, and the fee schedule.  Field names are those of the source with
    a prefix per record ([sr_] for [ShieldReq], ...). *)

From S2P Require Import Prelude Felt Externals Concrete.

(** ** Constants *)

Definition DETECT_K : nat := 10.
Definition ML_KEM768_CIPHERTEXT_BYTES : nat := 1088.
Definition NOTE_AEAD_NONCE_BYTES : nat := 12.
Definition MEMO_SIZE : nat := 1024.
Definition ENCRYPTED_NOTE_BYTES : nat := 8 + 32 + MEMO_SIZE + 16.
Definition OUTGOING_RECOVERY_PLAINTEXT_BYTES : nat := 1 + 8 + (5 * 32).
Definition OUTGOING_RECOVERY_CT_BYTES : nat := OUTGOING_RECOVERY_PLAINTEXT_BYTES + 16.
Definition MAX_VALID_ROOTS : nat := 4096.
Definition MIN_TX_FEE : N := 100000.
Definition BASE_PRIVATE_TXS_PER_LEVEL : N := 2.
Definition MAX_DYNAMIC_FEE_STEP : N := 6.
Definition DEPTH : nat := 48.

Definition show_nat (n : nat) : string := pretty (N.of_nat n).
Definition show_N (n : N) : string := pretty n.

(** ** Encrypted notes *)

Record EncryptedNote := {
  en_ct_d : bytes;
  en_tag : N;                (* u16 *)
  en_ct_v : bytes;
  en_nonce : bytes;
  en_encrypted_data : bytes;
  en_outgoing_ct : bytes
}.

#[export] Instance EncryptedNote_eq_dec : EqDecision EncryptedNote.
Proof. solve_decision. Defined.

(** One length check of [EncryptedNote::validate]. *)
Definition check_len (field : string) (b : bytes) (expected : nat) : result unit :=
  fail_if (negb (Nat.eqb (length b) expected))
    ("bad " +:+ field +:+ " length: got " +:+ show_nat (length b) +:+
     " bytes, expected " +:+ show_nat expected).

Definition EncryptedNote_validate (e : EncryptedNote) : result unit :=
  check_len "ct_d" (en_ct_d e) ML_KEM768_CIPHERTEXT_BYTES ;;
  check_len "ct_v" (en_ct_v e) ML_KEM768_CIPHERTEXT_BYTES ;;
  check_len "nonce" (en_nonce e) NOTE_AEAD_NONCE_BYTES ;;
  check_len "encrypted_data" (en_encrypted_data e) ENCRYPTED_NOTE_BYTES ;;
  check_len "outgoing_ct" (en_outgoing_ct e) OUTGOING_RECOVERY_CT_BYTES ;;
  fail_if (2 ^ N.of_nat DETECT_K <=? en_tag e)%N
    ("bad detection tag: got " +:+ show_N (en_tag e) +:+ ", expected low " +:+
     show_nat DETECT_K +:+ " bits only").

(** What the check means. *)
Record note_shape (e : EncryptedNote) : Prop := {
  shape_ct_d : length (en_ct_d e) = ML_KEM768_CIPHERTEXT_BYTES;
  shape_ct_v : length (en_ct_v e) = ML_KEM768_CIPHERTEXT_BYTES;
  shape_nonce : length (en_nonce e) = NOTE_AEAD_NONCE_BYTES;
  shape_data : length (en_encrypted_data e) = ENCRYPTED_NOTE_BYTES;
  shape_outgoing : length (en_outgoing_ct e) = OUTGOING_RECOVERY_CT_BYTES;
  shape_tag : (en_tag e < 2 ^ N.of_nat DETECT_K)%N
}.

Lemma check_len_Ok f b n u : check_len f b n = Ok u <-> length b = n.
Proof. unfold check_len. by rewrite fail_if_Ok, negb_false_iff, Nat.eqb_eq. Qed.

Lemma check_len_false f b n : length b = n -> check_len f b n = Ok tt.
Proof. apply check_len_Ok. Qed.

Lemma validate_Ok e u : EncryptedNote_validate e = Ok u <-> note_shape e.
Proof.
  unfold EncryptedNote_validate. split.
  - intros H. result_inv.
    repeat match goal with Hc : check_len _ _ _ = Ok _ |- _ => apply check_len_Ok in Hc end.
    apply N.leb_gt in H. by constructor.
  - intros [H1 H2 H3 H4 H5 H6]. rewrite !check_len_false by done. cbn [mbind result_bind].
    apply fail_if_Ok, N.leb_gt. exact H6.
Qed.

Lemma validate_no_panic e : is_panic (EncryptedNote_validate e) = false.
Proof. unfold EncryptedNote_validate, check_len. auto 20 with no_panic. Qed.

#[export] Hint Resolve validate_no_panic : no_panic.

(** ** Proofs and circuits *)

Inductive Proof_ :=
| TrustMeBro
| Stark (proof_bytes : bytes) (output_preimage : list F).

Record ProgramHashes := {
  ph_shield : F;
  ph_transfer : F;
  ph_unshield : F
}.

Inductive CircuitKind := CShield | CTransfer | CUnshield.

#[export] Instance CircuitKind_eq_dec : EqDecision CircuitKind.
Proof. solve_decision. Defined.

Definition CircuitKind_name (c : CircuitKind) : string :=
  match c with CShield => "shield" | CTransfer => "transfer" | CUnshield => "unshield" end.

Definition expected_program_hash (c : CircuitKind) (h : ProgramHashes) : F :=
  match c with
  | CShield => ph_shield h
  | CTransfer => ph_transfer h
  | CUnshield => ph_unshield h
  end.

(** ** Addresses and notes *)

Record PaymentAddress := {
  pa_d_j : F;
  pa_auth_root : F;
  pa_auth_pub_seed : F;
  pa_nk_tag : F;
  pa_ek_v : bytes;
  pa_ek_d : bytes
}.

Record Note := {
  note_nk_spend : F;
  note_nk_tag : F;
  note_auth_root : F;
  note_d_j : F;
  note_v : N;
  note_rseed : F;
  note_cm : F;
  note_index : N;
  note_addr_index : N
}.

Record NoteMemo := {
  nm_index : N;
  nm_cm : F;
  nm_enc : EncryptedNote
}.

(** ** Requests and responses *)

Record ShieldReq := {
  sr_pubkey_hash : F;
  sr_fee : N;
  sr_v : N;
  sr_producer_fee : N;
  sr_proof : Proof_;
  sr_client_cm : F;
  sr_client_enc : EncryptedNote;
  sr_producer_cm : F;
  sr_producer_enc : EncryptedNote
}.

Record ShieldResp := {
  sp_cm : F;
  sp_index : N;
  sp_producer_cm : F;
  sp_producer_index : N
}.

Record TransferReq := {
  tr_root : F;
  tr_nullifiers : list F;
  tr_fee : N;
  tr_cm_1 : F;
  tr_cm_2 : F;
  tr_cm_3 : F;
  tr_enc_1 : EncryptedNote;
  tr_enc_2 : EncryptedNote;
  tr_enc_3 : EncryptedNote;
  tr_proof : Proof_
}.

Record TransferResp := {
  tp_index_1 : N;
  tp_index_2 : N;
  tp_index_3 : N
}.

Record UnshieldReq := {
  ur_root : F;
  ur_nullifiers : list F;
  ur_v_pub : N;
  ur_fee : N;
  ur_recipient : string;
  ur_cm_change : F;
  ur_enc_change : option EncryptedNote;
  ur_cm_fee : F;
  ur_enc_fee : EncryptedNote;
  ur_proof : Proof_
}.

Record UnshieldResp := {
  up_change_index : option N;
  up_producer_index : N
}.

Record WithdrawalRecord := {
  wr_recipient : string;
  wr_amount : N
}.

(** ** The fee schedule *)

Definition default_required_tx_fee : N := MIN_TX_FEE.

Definition required_tx_fee_for_private_tx_count (accepted_private_txs_in_level : N) : N :=
  let step := N.min (accepted_private_txs_in_level - (BASE_PRIVATE_TXS_PER_LEVEL - 1))
                MAX_DYNAMIC_FEE_STEP in
  saturating_mul_u64 MIN_TX_FEE (N.shiftl 1 step).

Local Open Scope N_scope.

Lemma fee_shift k : k <= 6 -> saturating_mul_u64 MIN_TX_FEE (N.shiftl 1 k) = 100000 * 2 ^ k.
Proof.
  intros Hk. unfold saturating_mul_u64, MIN_TX_FEE. rewrite N.shiftl_1_l.
  apply N.min_l. assert (2 ^ k <= 2 ^ 6) by (apply N.pow_le_mono_r; lia).
  unfold U64_LIMIT. change (2 ^ 6) with 64 in *. lia.
Qed.

(** The first two private transactions of a level pay the minimum, each later
    one pays twice the previous fee, and the schedule is capped at sixty-four times
    the minimum; it never decreases and never saturates. *)
Theorem fee_schedule (n : N) :
  required_tx_fee_for_private_tx_count n = 100000 * 2 ^ N.min (n - 1) 6 /\
  MIN_TX_FEE <= required_tx_fee_for_private_tx_count n <= 64 * MIN_TX_FEE /\
  required_tx_fee_for_private_tx_count n <= required_tx_fee_for_private_tx_count (n + 1).
Proof.
  assert (forall m, required_tx_fee_for_private_tx_count m = 100000 * 2 ^ N.min (m - 1) 6) as E.
  { intros m. apply fee_shift. unfold MAX_DYNAMIC_FEE_STEP. lia. }
  rewrite !E. split; [done|].
  assert (1 <= 2 ^ N.min (n - 1) 6 <= 64) as Hb.
  { split.
    - pose proof (N.pow_nonzero 2 (N.min (n - 1) 6)). lia.
    - change 64 with (2 ^ 6). apply N.pow_le_mono_r; lia. }
  assert (2 ^ N.min (n - 1) 6 <= 2 ^ N.min (n + 1 - 1) 6)
    by (apply N.pow_le_mono_r; lia).
  unfold MIN_TX_FEE. lia.
Qed.
