(* ===== verification/Hashing.v ===== *)
(** * Hashing: the personalised BLAKE2s derivations of [core/src/lib.rs]

    Keys, commitments, nullifiers and sighashes, over an abstract digest.  A digest
    of 32 bytes has collisions, so nothing here assumes it injective: the binding
    theorems say that two inputs with one hash are equal, or the two byte strings
    actually fed to BLAKE2s form a collision, which the statement names. *)

From S2P Require Import Prelude Felt Externals Concrete Types.

Section Hashing.
Context `{Blake2s}.

(** ** The digest, truncated to 251 bits *)

Definition blake2s (personal : string) (data : bytes) : F :=
  mask251 (blake2s_digest (Some (str_bytes personal)) data).

Definition blake2s_generic (data : bytes) : F := mask251 (blake2s_digest None data).

Definition hash (data : bytes) : F := blake2s_generic data.

Definition concat_felts (parts : list F) : bytes := parts ≫= F_bytes.

Definition blake2s_parts (parts : list F) : F :=
  mask251 (blake2s_digest None (concat_felts parts)).

Definition blake2s_parts_personalized (personal : string) (parts : list F) : F :=
  mask251 (blake2s_digest (Some (str_bytes personal)) (concat_felts parts)).

Definition hash_two (a b : F) : F := hash (F_bytes a ++ F_bytes b).

Definition hash_merkle (a b : F) : F := blake2s "mrklSP__" (F_bytes a ++ F_bytes b).

Definition hash_commit_raw (data : bytes) : F := blake2s "cmmtSP__" data.

(** [let mut tag = ZERO; tag[0] = t]. *)
Definition type_tag (t : N) : F := mkF [byte_of_N t].

Definition derive_rcm (rseed : F) : F :=
  let tag := mkF [Byte.x6d; Byte.x63; Byte.x72] in
  hash_two (hash (F_bytes tag)) rseed.

(** ** Sighashes *)

Definition sighash_fold (a b : F) : F := blake2s "sighSP__" (F_bytes a ++ F_bytes b).

Definition deposit_pubkey_hash (auth_domain auth_root auth_pub_seed blind : F) : F :=
  let h := sighash_fold (type_tag 4) auth_domain in
  let h := sighash_fold h auth_root in
  let h := sighash_fold h auth_pub_seed in
  sighash_fold h blind.

Definition shield_sighash (auth_domain pubkey_hash : F) (v fee producer_fee : N)
    (cm_recipient cm_producer memo_ct_hash_recipient memo_ct_hash_producer : F) : F :=
  let h := sighash_fold (type_tag 3) auth_domain in
  let h := sighash_fold h pubkey_hash in
  let h := sighash_fold h (u64_to_felt v) in
  let h := sighash_fold h (u64_to_felt fee) in
  let h := sighash_fold h (u64_to_felt producer_fee) in
  let h := sighash_fold h cm_recipient in
  let h := sighash_fold h cm_producer in
  let h := sighash_fold h memo_ct_hash_recipient in
  sighash_fold h memo_ct_hash_producer.

Definition transfer_sighash (auth_domain root : F) (nullifiers : list F) (fee : N)
    (cm_1 cm_2 cm_3 mh_1 mh_2 mh_3 : F) : F :=
  let sh := sighash_fold (type_tag 1) auth_domain in
  let sh := sighash_fold sh root in
  let sh := foldl sighash_fold sh nullifiers in
  let sh := sighash_fold sh (u64_to_felt fee) in
  let sh := sighash_fold sh cm_1 in
  let sh := sighash_fold sh cm_2 in
  let sh := sighash_fold sh cm_3 in
  let sh := sighash_fold sh mh_1 in
  let sh := sighash_fold sh mh_2 in
  sighash_fold sh mh_3.

Definition unshield_sighash (auth_domain root : F) (nullifiers : list F)
    (v_pub fee : N) (recipient cm_change mh_change cm_fee mh_fee : F) : F :=
  let sh := sighash_fold (type_tag 2) auth_domain in
  let sh := sighash_fold sh root in
  let sh := foldl sighash_fold sh nullifiers in
  let sh := sighash_fold sh (u64_to_felt v_pub) in
  let sh := sighash_fold sh (u64_to_felt fee) in
  let sh := sighash_fold sh recipient in
  let sh := sighash_fold sh cm_change in
  let sh := sighash_fold sh mh_change in
  let sh := sighash_fold sh cm_fee in
  sighash_fold sh mh_fee.

Definition default_auth_domain : F := hash (str_bytes "tzel-auth-domain-local-dev-v1").

(** ** Notes *)

Definition derive_nk_spend (nk d_j : F) : F := blake2s "nkspSP__" (F_bytes nk ++ F_bytes d_j).

Definition derive_nk_tag (nk_spend : F) : F := blake2s "nktgSP__" (F_bytes nk_spend).

Definition owner_tag (auth_root auth_pub_seed nk_tag : F) : F :=
  blake2s_parts_personalized "ownrSP__" [auth_root; auth_pub_seed; nk_tag].

(** The 128-byte commitment preimage: [d_j], the value in bytes 32 to 39, zeros to
    byte 63, then [rcm] and the owner tag. *)
Definition commit_input (d_j : F) (v : N) (rcm otag : F) : bytes :=
  F_bytes d_j ++ le_bytes 8 v ++ replicate 24 Byte.x00 ++ F_bytes rcm ++ F_bytes otag.

Definition commit (d_j : F) (v : N) (rcm otag : F) : F :=
  hash_commit_raw (commit_input d_j v rcm otag).

Definition nullifier_inner_input (cm : F) (pos : N) : bytes :=
  F_bytes cm ++ F_bytes (u64_to_felt pos).

Definition nullifier_input (nk_spend cm : F) (pos : N) : bytes :=
  F_bytes nk_spend ++ F_bytes (blake2s "nulfSP__" (nullifier_inner_input cm pos)).

Definition nullifier (nk_spend cm : F) (pos : N) : F :=
  blake2s "nulfSP__" (nullifier_input nk_spend cm pos).

Definition memo_input (enc : EncryptedNote) : bytes :=
  en_ct_d enc ++ le_bytes 2 (en_tag enc) ++ en_ct_v enc ++ en_nonce enc ++
  en_encrypted_data enc ++ en_outgoing_ct enc.

Definition memo_ct_hash (enc : EncryptedNote) : F := blake2s "memoSP__" (memo_input enc).

Definition derive_outgoing_recovery_key (outgoing_seed cm : F) : F :=
  blake2s_parts_personalized "ovkKSP__" [outgoing_seed; cm].

Definition derive_outgoing_recovery_nonce (key cm : F) : bytes :=
  take NOTE_AEAD_NONCE_BYTES (F_bytes (blake2s_parts_personalized "ovkNSP__" [key; cm])).

Definition derive_note_aead_nonce (aead_key : F) (plaintext : bytes) : bytes :=
  take NOTE_AEAD_NONCE_BYTES (F_bytes (blake2s "mnonSP__" (F_bytes aead_key ++ plaintext))).

(** ** Account keys *)

Record Account := {
  acc_nk : F;
  acc_ask_base : F;
  acc_incoming_seed : F;
  acc_outgoing_seed : F
}.

Definition derive_account (master_sk : F) : Account :=
  let spend_seed := hash_two (felt_tag "spend") master_sk in
  {| acc_nk := hash_two (felt_tag "nk") spend_seed;
     acc_ask_base := hash_two (felt_tag "ask") spend_seed;
     acc_incoming_seed := hash_two (felt_tag "incoming") master_sk;
     acc_outgoing_seed := hash_two (felt_tag "outgoing") master_sk |}.

Definition tag_dsk : F := felt_tag "dsk".

Definition derive_address (incoming_seed : F) (j : N) : F :=
  hash_two (hash_two tag_dsk incoming_seed) (felt_from_u32 j).

Definition derive_ask (ask_base : F) (j : N) : F := hash_two ask_base (felt_from_u32 j).

Definition derive_view_root (incoming_seed : F) : F := hash_two (felt_tag "view") incoming_seed.

Definition derive_detect_root (incoming_seed : F) : F :=
  hash_two (felt_tag "detect") (derive_view_root incoming_seed).

(** The two halves of a 64-byte KEM seed. *)
Definition kem_seed (tag tag2 : string) (root : F) (j : N) : bytes :=
  let h1 := hash_two (felt_tag tag) root in
  let h2 := hash_two h1 (felt_from_u32 j) in
  F_bytes h2 ++ F_bytes (hash_two (felt_tag tag2) h2).

Definition derive_kem_view_seed (incoming_seed : F) (j : N) : bytes :=
  kem_seed "mlkem-v" "mlkem-v2" (derive_view_root incoming_seed) j.

Definition derive_kem_detect_seed (incoming_seed : F) (j : N) : bytes :=
  kem_seed "mlkem-d" "mlkem-d2" (derive_detect_root incoming_seed) j.

End Hashing.

Definition short `{Hex} (f : F) : string := bytes_str (hex_encode (take 4 (F_bytes f))).
