(* ===== verification/Binding.v ===== *)
(** * Binding: what a hash of [Hashing] commits to

    A memo hash, a commitment or a nullifier determines every field it was computed
    from, unless two concrete BLAKE2s inputs collide; so does a sighash, unless they
    collide or a concrete input hashes to a type tag.  These inputs are computed
    ([chain_break] walks the two sighash chains), so the statements do not hide behind
    the existence of some collision somewhere. *)

From S2P Require Import Prelude Felt Externals Concrete Types Hashing.

Section Binding.
Context `{Blake2s}.

(** Two different inputs of one personalised hash with the same output. *)
Definition is_collision (personal : string) (a b : bytes) : Prop :=
  a ≠ b /\ blake2s personal a = blake2s personal b.

Lemma blake2s_binding p a b : blake2s p a = blake2s p b -> a = b \/ is_collision p a b.
Proof. intros E. destruct (decide (a = b)); [by left | by right]. Qed.

Lemma F_app_inj (a b : F) r s : F_bytes a ++ r = F_bytes b ++ s -> a = b /\ r = s.
Proof.
  intros [E ->]%app_inj_l; [|by rewrite !length_F_bytes]. split; [by apply F_eq|done].
Qed.

Lemma le_app_inj n a b r s :
  (a < 256 ^ N.of_nat n)%N -> (b < 256 ^ N.of_nat n)%N ->
  le_bytes n a ++ r = le_bytes n b ++ s -> a = b /\ r = s.
Proof.
  intros Ha Hb [E ->]%app_inj_l; [|by rewrite !length_le_bytes].
  split; [by apply (le_bytes_inj n)|done].
Qed.

(** ** Memo hashes *)

Lemma memo_input_inj a b :
  note_shape a -> note_shape b -> memo_input a = memo_input b -> a = b.
Proof.
  intros [A1 A2 A3 A4 A5 A6] [B1 B2 B3 B4 B5 B6]. unfold memo_input.
  assert (2 ^ N.of_nat DETECT_K < 256 ^ N.of_nat 2)%N as Hk by reflexivity.
  destruct a as [a1 a2 a3 a4 a5 a6], b as [b1 b2 b3 b4 b5 b6];
    cbn [en_ct_d en_tag en_ct_v en_nonce en_encrypted_data en_outgoing_ct] in *.
  intros E.
  apply app_inj_l in E as [E1 E]; [|congruence].
  apply (le_app_inj 2) in E as [E2 E]; [|lia..].
  apply app_inj_l in E as [E3 E]; [|congruence].
  apply app_inj_l in E as [E4 E]; [|congruence].
  apply app_inj_l in E as [E5 E]; [|congruence].
  by subst.
Qed.

(** The memo hash in a proof's public outputs fixes all six components of a
    well-formed encrypted note: a relayer who swaps any of them has found a BLAKE2s
    collision, on exactly the two serialised notes. *)
Theorem memo_hash_binding (a b : EncryptedNote) :
  note_shape a -> note_shape b -> memo_ct_hash a = memo_ct_hash b ->
  a = b \/ is_collision "memoSP__" (memo_input a) (memo_input b).
Proof.
  intros Ha Hb [E|C]%blake2s_binding; [left | by right]. by apply memo_input_inj.
Qed.

(** ** Commitments and nullifiers *)

Lemma commit_input_inj d v r o d' v' r' o' :
  is_u64 v -> is_u64 v' -> commit_input d v r o = commit_input d' v' r' o' ->
  d = d' /\ v = v' /\ r = r' /\ o = o'.
Proof.
  intros Hv Hv' E. unfold commit_input in E.
  apply F_app_inj in E as [-> E].
  apply (le_app_inj 8) in E as [-> E]; [|done..].
  apply app_inv_head in E. apply F_app_inj in E as [-> E].
  by apply F_eq in E as ->.
Qed.

(** A commitment opens to one address, value, randomness and owner tag. *)
Theorem commit_binding (d r o d' r' o' : F) (v v' : N) :
  is_u64 v -> is_u64 v' -> commit d v r o = commit d' v' r' o' ->
  (d = d' /\ v = v' /\ r = r' /\ o = o') \/
  is_collision "cmmtSP__" (commit_input d v r o) (commit_input d' v' r' o').
Proof.
  intros Hv Hv' [E|C]%blake2s_binding; [left | by right]. by apply commit_input_inj.
Qed.

(** Two notes with one nullifier are one note at one position: the same
    commitment appended twice has two nullifiers, or BLAKE2s collides on one of the
    two named pairs of inputs. *)
Theorem nullifier_binding (nk cm nk' cm' : F) (pos pos' : N) :
  is_u64 pos -> is_u64 pos' -> nullifier nk cm pos = nullifier nk' cm' pos' ->
  (nk = nk' /\ cm = cm' /\ pos = pos') \/
  is_collision "nulfSP__" (nullifier_input nk cm pos) (nullifier_input nk' cm' pos') \/
  is_collision "nulfSP__" (nullifier_inner_input cm pos) (nullifier_inner_input cm' pos').
Proof.
  intros Hp Hp' [E|C]%blake2s_binding; [|by right; left].
  unfold nullifier_input in E. apply F_app_inj in E as [-> E].
  apply F_eq, blake2s_binding in E as [E|C]; [|by right; right].
  left. unfold nullifier_inner_input in E. apply F_app_inj in E as [-> E].
  apply F_eq, u64_to_felt_inj in E as ->; [|done..]. done.
Qed.

(** ** Sighash chains

    Every sighash folds a list of felts into a type tag.  The lists below are
    reversed: the head is the field folded last. *)
Definition chain (tag : F) (l : list F) : F := foldr (fun x h => sighash_fold h x) tag l.

Definition chain_input (tag : F) (x : F) (l : list F) : bytes :=
  F_bytes (chain tag l) ++ F_bytes x.

(** How two chains with one value can differ: a collision between two inputs, or a
    type tag that is itself the hash of a known input. *)
Inductive sighash_break :=
| SbCollision (a b : bytes)
| SbPreimage (tag : F) (input : bytes).

Definition break_holds (k : sighash_break) : Prop :=
  match k with
  | SbCollision a b => is_collision "sighSP__" a b
  | SbPreimage tag i => blake2s "sighSP__" i = tag
  end.

(** The first place, from the end, where the two chains part. *)
Fixpoint chain_break (t1 t2 : F) (l1 l2 : list F) : option sighash_break :=
  match l1, l2 with
  | [], [] => None
  | x :: l1, y :: l2 =>
      if decide (chain_input t1 x l1 = chain_input t2 y l2)
      then chain_break t1 t2 l1 l2
      else Some (SbCollision (chain_input t1 x l1) (chain_input t2 y l2))
  | [], y :: l2 => Some (SbPreimage t1 (chain_input t2 y l2))
  | x :: l1, [] => Some (SbPreimage t2 (chain_input t1 x l1))
  end.

Lemma chain_break_sound t1 t2 l1 l2 :
  chain t1 l1 = chain t2 l2 ->
  (t1 = t2 /\ l1 = l2) \/
  exists k, chain_break t1 t2 l1 l2 = Some k /\ break_holds k.
Proof.
  revert l2. induction l1 as [|x l1 IH]; intros [|y l2]; intros E.
  - by left.
  - right. eexists. split; [done|]. cbn. by symmetry.
  - right. eexists. split; [done|]. exact E.
  - cbn [chain_break]. destruct (decide _) as [Ei|Ei].
    + pose proof Ei as Ei'. unfold chain_input in Ei'.
      apply F_app_inj in Ei' as [Et Ex]. apply F_eq in Ex as ->.
      destruct (IH l2 Et) as [[-> ->]|(k & Hk & Hb)]; [by left|]. right. by exists k.
    + right. eexists. split; [done|]. done.
Qed.

(** A preimage is of the tag of the shorter chain; chains of one length collide. *)
Lemma chain_break_preimage t1 t2 l1 l2 tag i :
  chain_break t1 t2 l1 l2 = Some (SbPreimage tag i) ->
  ((length l1 < length l2)%nat /\ tag = t1) \/ ((length l2 < length l1)%nat /\ tag = t2).
Proof.
  revert l2. induction l1 as [|x l1 IH]; intros [|y l2]; cbn [chain_break length].
  - done.
  - intros [= <- _]. left. split; [lia|done].
  - intros [= <- _]. right. split; [lia|done].
  - destruct (decide _); [|done]. intros [[? ->]|[? ->]]%IH; [left|right]; split; done || lia.
Qed.

Lemma chain_rev tag l : chain tag (rev l) = foldl sighash_fold tag l.
Proof.
  induction l as [|x l IH] using rev_ind; [done|].
  rewrite rev_app_distr, foldl_snoc. cbn. by rewrite <-IH.
Qed.

(** ** What the wallet signs

    The payload of each in-circuit WOTS+ signature, with the source function that
    hashes it. *)
Inductive payload :=
| PDeposit (auth_domain auth_root auth_pub_seed blind : F)
| PShield (auth_domain pubkey_hash : F) (v fee producer_fee : N)
    (cm_recipient cm_producer mh_recipient mh_producer : F)
| PTransfer (auth_domain root : F) (nullifiers : list F) (fee : N)
    (cm_1 cm_2 cm_3 mh_1 mh_2 mh_3 : F)
| PUnshield (auth_domain root : F) (nullifiers : list F) (v_pub fee : N)
    (recipient cm_change mh_change cm_fee mh_fee : F).

Definition payload_sighash (p : payload) : F :=
  match p with
  | PDeposit d r s b => deposit_pubkey_hash d r s b
  | PShield d k v f pf c1 c2 m1 m2 => shield_sighash d k v f pf c1 c2 m1 m2
  | PTransfer d r nfs f c1 c2 c3 m1 m2 m3 => transfer_sighash d r nfs f c1 c2 c3 m1 m2 m3
  | PUnshield d r nfs v f rc c m cf mf => unshield_sighash d r nfs v f rc c m cf mf
  end.

Definition payload_tag (p : payload) : F :=
  match p with
  | PDeposit _ _ _ _ => type_tag 4
  | PShield _ _ _ _ _ _ _ _ _ => type_tag 3
  | PTransfer _ _ _ _ _ _ _ _ _ _ => type_tag 1
  | PUnshield _ _ _ _ _ _ _ _ _ _ => type_tag 2
  end.

Definition payload_fields (p : payload) : list F :=
  match p with
  | PDeposit d r s b => [d; r; s; b]
  | PShield d k v f pf c1 c2 m1 m2 =>
      [d; k; u64_to_felt v; u64_to_felt f; u64_to_felt pf; c1; c2; m1; m2]
  | PTransfer d r nfs f c1 c2 c3 m1 m2 m3 =>
      [d; r] ++ nfs ++ [u64_to_felt f; c1; c2; c3; m1; m2; m3]
  | PUnshield d r nfs v f rc c m cf mf =>
      [d; r] ++ nfs ++ [u64_to_felt v; u64_to_felt f; rc; c; m; cf; mf]
  end.

(** The amounts are [u64]s. *)
Definition payload_ok (p : payload) : Prop :=
  match p with
  | PDeposit _ _ _ _ => True
  | PShield _ _ v f pf _ _ _ _ => is_u64 v /\ is_u64 f /\ is_u64 pf
  | PTransfer _ _ _ f _ _ _ _ _ _ => is_u64 f
  | PUnshield _ _ _ v f _ _ _ _ _ => is_u64 v /\ is_u64 f
  end.

Lemma payload_sighash_chain p :
  payload_sighash p = chain (payload_tag p) (rev (payload_fields p)).
Proof.
  rewrite chain_rev. destruct p; [done|done| |];
    unfold payload_fields; by rewrite !foldl_app.
Qed.

Lemma type_tag_inj a b : (a < 256)%N -> (b < 256)%N -> type_tag a = type_tag b -> a = b.
Proof.
  intros Ha Hb E. unfold type_tag in E. apply mkF_pad_inj in E; [|done|cbn; lia].
  injection E as E. apply (f_equal Byte.to_N) in E. rewrite !byte_to_of_N in E.
  rewrite !N.mod_small in E; lia.
Qed.

Lemma payload_eq p q :
  payload_ok p -> payload_ok q -> payload_tag p = payload_tag q ->
  payload_fields p = payload_fields q -> p = q.
Proof.
  intros Hp Hq Ht Hf.
  destruct p, q; cbn [payload_tag] in Ht;
    try (apply type_tag_inj in Ht; [discriminate Ht | reflexivity..]);
    clear Ht; cbn [payload_ok payload_fields] in Hp, Hq, Hf.
  - list_injection Hf. by subst.
  - destruct Hp as (?&?&?), Hq as (?&?&?). list_injection Hf.
    apply u64_to_felt_inj in E1 as ->, E2 as ->, E3 as ->; try done. by subst.
  - cbn [app] in Hf. list_injection Hf. apply app_inj_2 in Hf as [E1 Hf]; [|done].
    list_injection Hf. apply u64_to_felt_inj in E2 as ->; try done. by subst.
  - destruct Hp as [??], Hq as [??].
    cbn [app] in Hf. list_injection Hf. apply app_inj_2 in Hf as [E1 Hf]; [|done].
    list_injection Hf. apply u64_to_felt_inj in E2 as ->, E3 as ->; try done. by subst.
Qed.

(** The break of two payloads' chains. *)
Definition payload_break (p q : payload) : option sighash_break :=
  chain_break (payload_tag p) (payload_tag q) (rev (payload_fields p)) (rev (payload_fields q)).

(** C37: a signature is over one payload.  Let two payloads of any kinds (shield,
    transfer with any number of nullifiers, unshield, or the preimage of a deposit
    pool key) have one sighash.  Then they are the same payload, or [payload_break]
    computes from them two different inputs on which BLAKE2s collides; or, and this
    only if they fold different numbers of fields, it computes a BLAKE2s preimage of the
    type tag of the one with fewer. *)
Theorem sighash_binding (p q : payload) :
  payload_ok p -> payload_ok q -> payload_sighash p = payload_sighash q ->
  p = q \/
  (exists a b, payload_break p q = Some (SbCollision a b) /\ is_collision "sighSP__" a b) \/
  (exists tag input, payload_break p q = Some (SbPreimage tag input) /\
     blake2s "sighSP__" input = tag /\
     ((length (payload_fields p) < length (payload_fields q))%nat /\ tag = payload_tag p \/
      (length (payload_fields q) < length (payload_fields p))%nat /\ tag = payload_tag q)).
Proof.
  intros Hp Hq E. rewrite !payload_sighash_chain in E. unfold payload_break.
  apply chain_break_sound in E as [[Ht Hf]|([a b|tag i] & Hk & Hb)].
  - left. apply (f_equal (@rev F)) in Hf. rewrite !rev_involutive in Hf. by apply payload_eq.
  - right. left. by exists a, b.
  - right. right. exists tag, i. split; [done|]. split; [exact Hb|].
    apply chain_break_preimage in Hk. by rewrite !length_rev in Hk.
Qed.
End Binding.

(** ** Witnesses *)

Definition sample_enc : EncryptedNote := {|
  en_ct_d := replicate 1088 Byte.x01;
  en_tag := 5;
  en_ct_v := replicate 1088 Byte.x02;
  en_nonce := replicate 12 Byte.x03;
  en_encrypted_data := replicate 1080 Byte.x04;
  en_outgoing_ct := replicate 185 Byte.x05
|}.

Lemma sample_enc_shape : note_shape sample_enc.
Proof. constructor; reflexivity. Qed.

Definition felt_n (n : N) : F := u64_to_felt n.

Lemma memo_hash_binding_witness :
  sample_enc = sample_enc \/
  @is_collision toy_blake2s "memoSP__" (memo_input sample_enc) (memo_input sample_enc).
Proof.
  apply (@memo_hash_binding toy_blake2s); [exact sample_enc_shape..|reflexivity].
Defined.

Lemma commit_binding_witness :
  (felt_n 1 = felt_n 1 /\ 7%N = 7%N /\ felt_n 2 = felt_n 2 /\ felt_n 3 = felt_n 3) \/
  @is_collision toy_blake2s "cmmtSP__"
    (commit_input (felt_n 1) 7 (felt_n 2) (felt_n 3))
    (commit_input (felt_n 1) 7 (felt_n 2) (felt_n 3)).
Proof. apply (@commit_binding toy_blake2s); reflexivity. Defined.

Lemma nullifier_binding_witness :
  (felt_n 1 = felt_n 1 /\ felt_n 2 = felt_n 2 /\ 5%N = 5%N) \/
  @is_collision toy_blake2s "nulfSP__"
    (@nullifier_input toy_blake2s (felt_n 1) (felt_n 2) 5)
    (@nullifier_input toy_blake2s (felt_n 1) (felt_n 2) 5) \/
  @is_collision toy_blake2s "nulfSP__"
    (nullifier_inner_input (felt_n 2) 5) (nullifier_inner_input (felt_n 2) 5).
Proof. apply (@nullifier_binding toy_blake2s); reflexivity. Defined.

Definition sample_payload (fee : N) : payload :=
  PTransfer (felt_n 1) (felt_n 2) [felt_n 3; felt_n 4] fee
    (felt_n 5) (felt_n 6) (felt_n 7) (felt_n 8) (felt_n 9) (felt_n 10).

(** A hash on which everything collides: two transfers that differ in the fee have one
    sighash. *)
Definition constant_blake2s : Blake2s := {| blake2s_digest := fun _ _ => felt_n 0 |}.

Lemma sighash_binding_witness :
  let p := sample_payload 100000 in
  let q := sample_payload 200000 in
  p <> q /\ @payload_sighash constant_blake2s p = @payload_sighash constant_blake2s q /\
  (p = q \/
   (exists a b, @payload_break constant_blake2s p q = Some (SbCollision a b) /\
      @is_collision constant_blake2s "sighSP__" a b) \/
   (exists tag input, @payload_break constant_blake2s p q = Some (SbPreimage tag input) /\
      @blake2s constant_blake2s "sighSP__" input = tag /\
      ((length (payload_fields p) < length (payload_fields q))%nat /\ tag = payload_tag p \/
       (length (payload_fields q) < length (payload_fields p))%nat /\ tag = payload_tag q))).
Proof.
  split; [by injection|]. split; [reflexivity|].
  by apply (@sighash_binding constant_blake2s); [reflexivity..|].
Defined.
