(* ===== verification/Outputs.v ===== *)
(** * Outputs: the public outputs a proof commits to

    [core/src/lib.rs] accepts the outputs of a circuit either raw or framed by the
    privacy bootloader ([n_tasks; task_size; program_hash; array_len; outputs...]);
    [verifier/src/lib.rs] accepts a proof only when its frame names the program of
    the expected circuit.  Both parsers are here, with the printer they invert. *)

From S2P Require Import Prelude Felt Externals Concrete Types.

Section Outputs.
Context `{Target}.

Record BootloaderTaskOutput := {
  bto_program_hash : F;
  bto_public_outputs : list F
}.

Definition len_N {A} (l : list A) : N := N.of_nat (length l).

Definition parse_single_task_output_preimage (output_preimage : list F)
    : result BootloaderTaskOutput :=
  fail_if (length output_preimage <? 3)%nat
    "output_preimage too short for bootloader prefix" ;;
  p0 ← index_at output_preimage 0;
  n_tasks ← map_err (fun _ => "invalid bootloader task count") (felt_to_usize p0);
  fail_if (negb (n_tasks =? 1)%N)
    ("expected exactly 1 bootloader task, got " +:+ show_N n_tasks) ;;
  p1 ← index_at output_preimage 1;
  task_output_size ←
    map_err (fun _ => "invalid bootloader task output size") (felt_to_usize p1);
  fail_if (task_output_size <? 2)%N
    ("bootloader task output too short: " +:+ show_N task_output_size +:+ " < 2") ;;
  expected_total_len ← ok_or (checked_add usize_limit 1 task_output_size)
    "bootloader task output size overflow";
  fail_if (negb (len_N output_preimage =? expected_total_len)%N)
    ("output_preimage length mismatch: " +:+ show_N (len_N output_preimage) +:+ " != " +:+
     show_N expected_total_len) ;;
  p2 ← index_at output_preimage 2;
  mret {| bto_program_hash := p2; bto_public_outputs := drop 3 output_preimage |}.

Definition validate_single_task_program_hash `{Hex} (output_preimage : list F)
    (expected_program_hash : F) : result (list F) :=
  parsed ← parse_single_task_output_preimage output_preimage;
  fail_if (negb (bool_decide (bto_program_hash parsed = expected_program_hash)))
    ("unexpected circuit program hash: got " +:+ hex_str (bto_program_hash parsed) +:+
     ", expected " +:+ hex_str expected_program_hash) ;;
  mret (bto_public_outputs parsed).

Definition parse_cairo_array_public_outputs (task_public_outputs : list F)
    : result (list F) :=
  match task_public_outputs with
  | [] => Err "bootloader public output array missing length"
  | len_felt :: public_outputs =>
      declared_len ←
        map_err (fun _ => "invalid public output array length") (felt_to_usize len_felt);
      fail_if (negb (declared_len =? len_N public_outputs)%N)
        ("public output array length mismatch: " +:+ show_N declared_len +:+ " != " +:+
         show_N (len_N public_outputs)) ;;
      mret public_outputs
  end.

Definition transition_public_outputs (output_preimage : list F) (expected_output_len : nat)
    : result (list F) :=
  public_outputs ←
    match parse_single_task_output_preimage output_preimage with
    | Ok parsed => parse_cairo_array_public_outputs (bto_public_outputs parsed)
    | Err _ => Ok output_preimage
    | Panic w => Panic w
    end;
  fail_if (negb (Nat.eqb (length public_outputs) expected_output_len))
    ("public output length mismatch: " +:+ show_nat (length public_outputs) +:+ " != " +:+
     show_nat expected_output_len) ;;
  mret public_outputs.

(** ** The verifier's gate *)

Record DirectProofVerifier := {
  dpv_allow_trust_me_bro : bool;
  dpv_verified_mode : option ProgramHashes
}.

Definition trust_me_bro_only : DirectProofVerifier :=
  {| dpv_allow_trust_me_bro := true; dpv_verified_mode := None |}.

Definition verified (allow_trust_me_bro : bool) (program_hashes : ProgramHashes)
    : DirectProofVerifier :=
  {| dpv_allow_trust_me_bro := allow_trust_me_bro;
     dpv_verified_mode := Some program_hashes |}.

Definition check_proof_shape (proof : Proof_) (allow_trust_me_bro verified_mode : bool)
    : result unit :=
  match proof with
  | TrustMeBro =>
      fail_if (negb allow_trust_me_bro)
        "TrustMeBro proofs rejected. Verified mode requires real STARK proofs."
  | Stark proof_bytes output_preimage =>
      fail_if (negb verified_mode)
        "Stark proofs rejected: verifier is not configured for verified mode." ;;
      fail_if (bool_decide (proof_bytes = [])) "empty proof" ;;
      fail_if (bool_decide (output_preimage = [])) "empty output_preimage"
  end.

Definition validate_stark_circuit `{Hex} (proof : Proof_) (circuit : CircuitKind)
    (hashes : ProgramHashes) : result unit :=
  match proof with
  | TrustMeBro => Ok tt
  | Stark _ output_preimage =>
      map_err
        (fun e => "invalid output_preimage for " +:+ CircuitKind_name circuit +:+
                  " circuit: " +:+ e)
        (_ ← validate_single_task_program_hash output_preimage
               (expected_program_hash circuit hashes);
         mret tt)
  end.

(** [ProofBundle::verify] ends in the STARK verifier's crates; its verdict is the
    parameter [bundle_verify] on the proof bytes and the output preimage. *)
Variable bundle_verify : bytes -> list F -> result unit.

Definition verify_stark_bundle (proof : Proof_) : result unit :=
  match proof with
  | TrustMeBro => Ok tt
  | Stark proof_bytes output_preimage => bundle_verify proof_bytes output_preimage
  end.

Definition validate `{Hex} (self : DirectProofVerifier) (proof : Proof_)
    (circuit : CircuitKind) : result unit :=
  check_proof_shape proof (dpv_allow_trust_me_bro self)
    (bool_decide (is_Some (dpv_verified_mode self))) ;;
  match dpv_verified_mode self, proof with
  | Some cfg, Stark _ _ =>
      validate_stark_circuit proof circuit cfg ;;
      verify_stark_bundle proof
  | _, _ => Ok tt
  end.

(** ** The frame

    What the bootloader prints for one Cairo task whose output is the array [outs]. *)
Definition frame (program_hash : F) (outs : list F) : list F :=
  u64_to_felt 1 :: u64_to_felt (3 + len_N outs) :: program_hash ::
  u64_to_felt (len_N outs) :: outs.

(** The widths the targets have. *)
Definition target_ok : Prop := (usize_bits <= 64)%N /\ (8 <= usize_bits)%N.

Lemma usize_limit_u64 v : target_ok -> (v < usize_limit)%N -> is_u64 v.
Proof.
  intros [Hle _] Hv. unfold is_u64, U64_LIMIT, usize_limit in *.
  assert (2 ^ usize_bits <= 2 ^ 64)%N by (apply N.pow_le_mono_r; lia). lia.
Qed.

Lemma usize_limit_ge : target_ok -> (256 <= usize_limit)%N.
Proof.
  intros [_ Hge]. unfold usize_limit. change 256%N with (2 ^ 8)%N.
  apply N.pow_le_mono_r; lia.
Qed.

Lemma felt_to_usize_Ok f v :
  felt_to_usize f = Ok v -> is_u64 v /\ (v < usize_limit)%N /\ f = u64_to_felt v.
Proof.
  unfold felt_to_usize. intros Hf. result_inv. apply felt_to_u64_Ok in Ha as [Hu <-].
  unfold to_usize in Hf. destruct (N.ltb_spec a usize_limit); simplify_eq. done.
Qed.

Lemma felt_to_usize_of v :
  target_ok -> (v < usize_limit)%N -> felt_to_usize (u64_to_felt v) = Ok v.
Proof.
  intros Ht Hv. unfold felt_to_usize.
  rewrite felt_to_u64_of_u64 by by apply usize_limit_u64.
  cbn. unfold to_usize. by rewrite (proj2 (N.ltb_lt _ _) Hv).
Qed.

(** A preimage parses exactly when it is a one-task header followed by as many felts
    as the header says. *)
Lemma parse_single_task_Ok pre t :
  parse_single_task_output_preimage pre = Ok t ->
  pre = u64_to_felt 1 :: u64_to_felt (2 + len_N (bto_public_outputs t)) ::
        bto_program_hash t :: bto_public_outputs t.
Proof.
  unfold parse_single_task_output_preimage. intros Hp. result_inv.
  destruct pre as [|p0 [|p1 [|p2 rest]]]; try discriminate.
  cbn [drop bto_public_outputs bto_program_hash lookup list_lookup] in *. simplify_eq.
  rewrite drop_0.
  apply felt_to_usize_Ok in Ha1 as (_ & _ & ->), Ha4 as (Hu & _ & ->).
  apply negb_false_iff, N.eqb_eq in Ha2. subst.
  apply checked_add_Some in Ha6 as [-> _].
  apply negb_false_iff, N.eqb_eq in Ha7. f_equal. f_equal. f_equal.
  unfold len_N in *. cbn [length] in Ha7. lia.
Qed.

Lemma parse_single_task_frame ph outs :
  target_ok -> (4 + len_N outs < usize_limit)%N ->
  parse_single_task_output_preimage
    (u64_to_felt 1 :: u64_to_felt (2 + len_N outs) :: ph :: outs) =
  Ok {| bto_program_hash := ph; bto_public_outputs := outs |}.
Proof.
  intros Ht Hl. pose proof (usize_limit_ge Ht).
  unfold parse_single_task_output_preimage, index_at.
  cbn [length Nat.ltb Nat.leb fail_if mbind result_bind lookup list_lookup].
  rewrite !felt_to_usize_of by (done || lia).
  cbn [map_err mbind result_bind]. change (1 =? 1)%N with true. cbn [negb fail_if].
  destruct (N.ltb_spec (2 + len_N outs) 2); [lia|]. cbn [fail_if].
  rewrite (proj2 (checked_add_Some _ _ _ _)) by (split; [reflexivity|lia]).
  cbn [ok_or mbind result_bind].
  match goal with |- context [N.eqb ?a ?b] => destruct (N.eqb_spec a b) as [_|Hne] end;
    [|unfold len_N in Hne; cbn [length] in Hne; lia].
  done.
Qed.

Lemma felt_to_usize_no_panic f : is_panic (felt_to_usize f) = false.
Proof. unfold felt_to_usize, felt_to_u64. auto with no_panic. Qed.

#[local] Hint Resolve felt_to_usize_no_panic : no_panic.

Lemma parse_no_panic pre : is_panic (parse_single_task_output_preimage pre) = false.
Proof.
  unfold parse_single_task_output_preimage. destruct pre as [|p0 [|p1 [|p2 rest]]]; try done.
  auto 20 with no_panic lia.
Qed.

Lemma parse_array_Ok l outs :
  parse_cairo_array_public_outputs l = Ok outs -> l = u64_to_felt (len_N outs) :: outs.
Proof.
  destruct l as [|x l]; cbn; [done|]. intros Hp. result_inv.
  apply felt_to_usize_Ok in Ha as (_ & _ & ->).
  apply negb_false_iff, N.eqb_eq in Ha0. by subst.
Qed.

Lemma transition_public_outputs_no_panic pre n :
  is_panic (transition_public_outputs pre n) = false.
Proof.
  unfold transition_public_outputs. apply no_panic_bind; [|auto with no_panic].
  pose proof (parse_no_panic pre) as Hp.
  destruct (parse_single_task_output_preimage pre) as [t|e|w]; [|done..].
  unfold parse_cairo_array_public_outputs. destruct (bto_public_outputs t); auto with no_panic.
Qed.

Lemma transition_public_outputs_length pre n outs :
  transition_public_outputs pre n = Ok outs -> length outs = n.
Proof.
  unfold transition_public_outputs. intros Hp. result_inv.
  by apply negb_false_iff, Nat.eqb_eq in Ha0.
Qed.

(** The outputs a transition is checked against are exactly those the proof
    commits to: the whole preimage, or the array inside a frame whose task count, task
    size and array length all agree; their number is the one asked for, and a
    malformed preimage is an error, not a panic. *)
Theorem transition_public_outputs_sound (pre : list F) (n : nat) :
  is_panic (transition_public_outputs pre n) = false /\
  forall outs, transition_public_outputs pre n = Ok outs ->
    length outs = n /\ (pre = outs \/ exists ph, pre = frame ph outs).
Proof.
  split; [apply transition_public_outputs_no_panic|].
  intros outs Ho. split; [by eapply transition_public_outputs_length|].
  unfold transition_public_outputs in Ho. result_inv.
  destruct (parse_single_task_output_preimage pre) as [t|e|w] eqn:Ep; [|by left; injection Ha|done].
  right. exists (bto_program_hash t).
  apply parse_single_task_Ok in Ep. apply parse_array_Ok in Ha.
  rewrite Ep, Ha. unfold frame, len_N. cbn [length]. f_equal. f_equal. f_equal. lia.
Qed.

(** A framed array of the expected length is accepted under its own program
    hash, read back unchanged, and refused under any other program hash. *)
Theorem frame_roundtrip `{Hex} (ph ph' : F) (outs : list F) :
  target_ok -> (5 + len_N outs < usize_limit)%N ->
  transition_public_outputs (frame ph outs) (length outs) = Ok outs /\
  validate_single_task_program_hash (frame ph outs) ph =
    Ok (u64_to_felt (len_N outs) :: outs) /\
  (is_ok (validate_single_task_program_hash (frame ph outs) ph') = true -> ph' = ph).
Proof.
  intros Ht Hl.
  assert (parse_single_task_output_preimage (frame ph outs) =
    Ok {| bto_program_hash := ph;
          bto_public_outputs := u64_to_felt (len_N outs) :: outs |}) as Hp.
  { rewrite <-parse_single_task_frame; [|done|unfold len_N in *; cbn [length]; lia].
    unfold frame, len_N. cbn [length].
    replace (2 + N.of_nat (S (length outs)))%N with (3 + N.of_nat (length outs))%N by lia.
    done. }
  unfold transition_public_outputs, validate_single_task_program_hash.
  rewrite Hp. cbn [mbind result_bind bto_program_hash bto_public_outputs]. split; [|split].
  - unfold parse_cairo_array_public_outputs. rewrite felt_to_usize_of by (done || lia).
    cbn [map_err mbind result_bind]. rewrite N.eqb_refl.
    cbn [negb fail_if mbind result_bind mret result_ret].
    rewrite Nat.eqb_refl. done.
  - by rewrite bool_decide_eq_true_2.
  - case_bool_decide as E; cbn; [by intros _|done].
Qed.

Lemma validate_hash_Ok `{Hex} pre ph outs :
  validate_single_task_program_hash pre ph = Ok outs ->
  pre = u64_to_felt 1 :: u64_to_felt (2 + len_N outs) :: ph :: outs.
Proof.
  intros Hv. unfold validate_single_task_program_hash in Hv. result_inv.
  apply negb_false_iff, bool_decide_eq_true in Ha0. subst ph. by apply parse_single_task_Ok.
Qed.

(** A verifier in verified mode accepts a proof of a circuit only if it is
    a non-empty STARK whose bootloader frame names that circuit's program and whose
    bundle verifies, unless it also allows TrustMeBro. *)
Theorem validate_sound `{Hex} (hashes : ProgramHashes) (allow : bool) (proof : Proof_)
    (circuit : CircuitKind) (u : unit) :
  validate (verified allow hashes) proof circuit = Ok u ->
  (proof = TrustMeBro /\ allow = true) \/
  exists proof_bytes rest,
    proof_bytes ≠ [] /\
    proof = Stark proof_bytes
      (u64_to_felt 1 :: u64_to_felt (2 + len_N rest) ::
       expected_program_hash circuit hashes :: rest) /\
    bundle_verify proof_bytes
      (u64_to_felt 1 :: u64_to_felt (2 + len_N rest) ::
       expected_program_hash circuit hashes :: rest) = Ok u.
Proof.
  unfold validate, verified. cbn [dpv_allow_trust_me_bro dpv_verified_mode].
  intros Hv. apply bind_Ok in Hv as (? & Hs & Hv).
  destruct proof as [|pb op]; cbn in Hs.
  - left. apply fail_if_Ok, negb_false_iff in Hs. done.
  - right. apply bind_Ok in Hs as (? & Hne & _).
    apply fail_if_Ok, bool_decide_eq_false in Hne.
    apply bind_Ok in Hv as (? & Hc & Hv). cbn in Hc.
    apply map_err_Ok, bind_Ok in Hc as (rest & Hc & _).
    apply validate_hash_Ok in Hc as ->. by exists pb, rest.
Qed.
End Outputs.

(** ** Witnesses *)

Definition sample_outputs : list F := [u64_to_felt 40; u64_to_felt 41].

Definition sample_hashes : ProgramHashes :=
  {| ph_shield := u64_to_felt 11; ph_transfer := u64_to_felt 22;
     ph_unshield := u64_to_felt 33 |}.

Definition sample_stark : Proof_ :=
  Stark [Byte.x01] (frame (ph_transfer sample_hashes) sample_outputs).

Lemma wasm_target_ok : @target_ok wasm_target.
Proof. split; discriminate. Qed.

Lemma frame_roundtrip_witness :
  @transition_public_outputs wasm_target (frame (u64_to_felt 22) sample_outputs) 2 =
    Ok sample_outputs /\
  @validate_single_task_program_hash wasm_target toy_hex
    (frame (u64_to_felt 22) sample_outputs) (u64_to_felt 22) =
    Ok (u64_to_felt 2 :: sample_outputs) /\
  (is_ok (@validate_single_task_program_hash wasm_target toy_hex
    (frame (u64_to_felt 22) sample_outputs) (u64_to_felt 11)) = true ->
   u64_to_felt 11 = u64_to_felt 22).
Proof.
  apply (@frame_roundtrip wasm_target toy_hex (u64_to_felt 22) (u64_to_felt 11) sample_outputs);
    [split; discriminate | reflexivity].
Defined.

Lemma validate_sound_witness :
  (sample_stark = TrustMeBro /\ false = true) \/
  exists proof_bytes rest,
    proof_bytes ≠ [] /\
    sample_stark = Stark proof_bytes
      (u64_to_felt 1 :: u64_to_felt (2 + len_N rest) ::
       expected_program_hash CTransfer sample_hashes :: rest) /\
    Ok (A := unit) tt = Ok tt.
Proof.
  apply (@validate_sound wasm_target (fun _ _ => Ok tt) toy_hex sample_hashes false
    sample_stark CTransfer tt).
  vm_compute. reflexivity.
Defined.
