(* ===== verification/Merkle.v ===== *)
(** * Merkle: the note commitment tree

    Two implementations of one tree: [MerkleTree] of [core/src/lib.rs] keeps every
    leaf and recomputes levels; the kernel's frontier keeps one node per level and
    appends in [DEPTH] hashes.  Both are shown equal to the same specification,
    [node leaves d i], the hash of the [i]-th subtree of height [d]. *)

From S2P Require Import Prelude Felt Externals Concrete Types Hashing.

Local Open Scope N_scope.

Section Merkle.
Context `{Blake2s}.

(** ** Specification *)

Fixpoint zeros (d : nat) : F :=
  match d with
  | O => ZERO
  | S d => hash_merkle (zeros d) (zeros d)
  end.

Fixpoint node (leaf : N -> F) (d : nat) (i : N) : F :=
  match d with
  | O => leaf i
  | S d => hash_merkle (node leaf d (2 * i)) (node leaf d (2 * i + 1))
  end.

(** The leaves of a list, padded with zeros. *)
Definition leaf_of (l : list F) (i : N) : F := default ZERO (l !! N.to_nat i).

Lemma node_ext f g d i :
  (forall j, i * 2 ^ N.of_nat d <= j < (i + 1) * 2 ^ N.of_nat d -> f j = g j) ->
  node f d i = node g d i.
Proof.
  revert i. induction d as [|d IH]; intros i Hfg; cbn [node].
  - apply Hfg. change (2 ^ N.of_nat 0) with 1. lia.
  - rewrite Nat2N.inj_succ, N.pow_succ_r' in Hfg.
    f_equal; apply IH; intros j Hj; apply Hfg; nia.
Qed.

Lemma node_empty f d i :
  (forall j, i * 2 ^ N.of_nat d <= j -> f j = ZERO) -> node f d i = zeros d.
Proof.
  revert i. induction d as [|d IH]; intros i Hf; cbn [node zeros].
  - apply Hf. change (2 ^ N.of_nat 0) with 1. lia.
  - rewrite Nat2N.inj_succ, N.pow_succ_r' in Hf.
    f_equal; apply IH; intros j Hj; apply Hf; nia.
Qed.

(** The root a path leads to, as a verifier recomputes it. *)
Fixpoint path_root (current : F) (index : N) (siblings : list F) : F :=
  match siblings with
  | [] => current
  | s :: siblings =>
      path_root (if N.even index then hash_merkle current s else hash_merkle s current)
        (index / 2) siblings
  end.

(** ** [MerkleTree] *)

Record MerkleTree := {
  mt_leaves : list F;
  mt_zero_hashes : list F
}.

(** The loop that fills [z]; the kernel repeats it in [compute_zero_hashes]. *)
Definition new_zero_hashes : list F :=
  foldl (fun z i => z ++ [hash_merkle (z !!! i) (z !!! i)]) [ZERO] (seq 0 DEPTH).

Definition MerkleTree_new : MerkleTree :=
  {| mt_leaves := []; mt_zero_hashes := new_zero_hashes |}.

Definition from_leaves (leaves : list F) : MerkleTree :=
  {| mt_leaves := leaves; mt_zero_hashes := mt_zero_hashes MerkleTree_new |}.

(** [(1u64 << DEPTH) as usize]: on a 32-bit target the cast leaves zero. *)
Definition tree_limit `{Target} : N := 2 ^ N.of_nat DEPTH mod usize_limit.

Definition tree_append `{Target} (leaf : F) : ST MerkleTree N :=
  fun self =>
    let i := N.of_nat (length (mt_leaves self)) in
    (lift (panic_unless (i <? tree_limit) "Merkle tree full: 2^48 leaves") ;;
     writes (fun s => {| mt_leaves := mt_leaves s ++ [leaf];
                         mt_zero_hashes := mt_zero_hashes s |}) ;;
     mret i) self.

(** One level up: the loop over [i = 0, 2, ...].  The fuel is the number of rounds
    still possible; [S (length level)] is enough. *)
Fixpoint next_level_loop (fuel : nat) (zero : F) (level : list F) (i : nat) : list F :=
  match fuel with
  | O => []
  | S fuel =>
      let left := default zero (level !! i) in
      let right := default zero (level !! (i + 1)%nat) in
      hash_merkle left right ::
      (if length level <=? i + 2 then [] else next_level_loop fuel zero level (i + 2))%nat
  end.

Definition next_level (zero : F) (level : list F) : list F :=
  next_level_loop (S (length level)) zero level 0.

(** [compute_level(depth, level)], recursing on [DEPTH - depth]. *)
Fixpoint compute_level (self : MerkleTree) (remaining : nat) (depth : nat)
    (level : list F) : F :=
  match remaining with
  | O =>
      match level with
      | [] => mt_zero_hashes self !!! depth
      | x :: _ => x
      end
  | S remaining =>
      compute_level self remaining (S depth)
        (next_level (mt_zero_hashes self !!! depth) level)
  end.

Definition tree_root (self : MerkleTree) : F := compute_level self DEPTH 0 (mt_leaves self).

(** The loop [for d in 0..DEPTH] of [auth_path]. *)
Fixpoint auth_path_loop (self : MerkleTree) (remaining : nat) (d : nat)
    (level siblings : list F) (idx : N) : list F * F :=
  match remaining with
  | O => (siblings, level !!! 0%nat)
  | S remaining =>
      let sib_idx := N.lxor idx 1 in
      let zero := mt_zero_hashes self !!! d in
      let siblings := siblings ++ [default zero (level !! N.to_nat sib_idx)] in
      auth_path_loop self remaining (S d) (next_level zero level) siblings (idx / 2)
  end.

Definition auth_path (self : MerkleTree) (index : N) : list F * F :=
  auth_path_loop self DEPTH 0 (mt_leaves self) [] index.

(** ** The kernel's frontier *)

(** One level of the append loop, on the in-memory copy of the frontier. *)
Fixpoint frontier_loop (zero_hashes : list F) (levels : list nat) (index : N) (current : F)
    : ST (list (option F)) F :=
  match levels with
  | [] => mret current
  | level :: levels =>
      current ←
        (if N.land index 1 =? 0 then
           (_ ← (fun branches =>
              (<[level := Some current]> branches,
               panic_unless (level <? length branches)%nat "index out of bounds"));
            mret (hash_merkle current (zero_hashes !!! level)))
         else
           (slot ← reads (fun branches => index_at branches level);
            left ← lift (ok_or slot
              ("missing Merkle frontier at level " +:+ show_nat level));
            mret (hash_merkle left current)));
      frontier_loop zero_hashes levels (N.shiftr index 1) current
  end.

Definition simulate_frontier_append (zero_hashes : list F) (start_index : N) (cm : F)
    : ST (list (option F)) F :=
  frontier_loop zero_hashes (seq 0 DEPTH) start_index cm.

Fixpoint check_frontier (branches : list (option F)) (tree_size : N) (levels : list nat)
    (bits : N) : result unit :=
  match levels with
  | [] => mret tt
  | level :: levels =>
      (if N.land bits 1 =? 1 then
         slot ← index_at branches level;
         fail_if (bool_decide (slot = None))
           ("corrupted Merkle frontier: tree_size " +:+ show_N tree_size +:+
            " requires live left child at level " +:+ show_nat level +:+
            " but durable slot is empty")
       else mret tt) ;;
      check_frontier branches tree_size levels (N.shiftr bits 1)
  end.

Definition assert_frontier_matches_tree_size (branches : list (option F)) (tree_size : N)
    : result unit :=
  check_frontier branches tree_size (seq 0 DEPTH) tree_size.

(** The zero hashes the kernel recomputes equal those of a new tree. *)
Definition zero_hashes_ok (zh : list F) : Prop :=
  forall d, (d <= DEPTH)%nat -> zh !!! d = zeros d.

(** The frontier of a tree of [n] leaves: where bit [level] of [n] is set, the slot
    holds the complete subtree waiting for its right sibling. *)
Definition frontier_ok (leaf : N -> F) (n : N) (branches : list (option F)) : Prop :=
  length branches = DEPTH /\
  forall level, (level < DEPTH)%nat -> N.testbit n (N.of_nat level) = true ->
    branches !! level = Some (Some (node leaf level (N.shiftr n (N.of_nat level) - 1))).

(** ** Zero hashes *)

Lemma zero_hashes_prefix n :
  let z := foldl (fun z i => z ++ [hash_merkle (z !!! i) (z !!! i)]) [ZERO] (seq 0 n) in
  length z = S n /\ forall d, (d <= n)%nat -> z !!! d = zeros d.
Proof.
  induction n as [|n [IHl IH]]; cbn zeta in *.
  - split; [done|]. intros d Hd. by replace d with 0%nat by lia.
  - rewrite seq_S, foldl_snoc. split; [rewrite length_app, IHl; cbn; lia|].
    intros d Hd. cbn [plus]. destruct (decide (d = S n)) as [->|].
    + rewrite lookup_total_app_r by lia. rewrite IHl, Nat.sub_diag.
      rewrite IH by lia. done.
    + rewrite lookup_total_app_l by lia. apply IH. lia.
Qed.

Lemma new_zero_hashes_ok : zero_hashes_ok new_zero_hashes.
Proof. intros d Hd. by apply (zero_hashes_prefix DEPTH). Qed.

Lemma from_leaves_zero_hashes_ok l : zero_hashes_ok (mt_zero_hashes (from_leaves l)).
Proof.
  unfold from_leaves, MerkleTree_new. cbn [mt_zero_hashes]. apply new_zero_hashes_ok.
Qed.

Lemma depth_pos : DEPTH <> 0%nat.
Proof. done. Qed.

#[local] Opaque DEPTH.

(** ** Levels *)

Lemma next_level_loop_spec fuel zero level i k :
  (length level < i + 2 * fuel)%nat -> (0 < fuel)%nat ->
  next_level_loop fuel zero level i !! k =
    if (k =? 0)%nat || (i + 2 * k <? length level)%nat
    then Some (hash_merkle (default zero (level !! (i + 2 * k)%nat))
                           (default zero (level !! (i + 2 * k + 1)%nat)))
    else None.
Proof.
  revert i k. induction fuel as [|fuel IH]; intros i k Hf Hp; [lia|].
  cbn [next_level_loop]. destruct k as [|k].
  - cbn. replace (i + 0)%nat with i by lia. done.
  - cbn [lookup list_lookup Nat.eqb orb].
    destruct (Nat.leb_spec (length level) (i + 2)) as [Hle|Hgt].
    + destruct (Nat.ltb_spec (i + 2 * S k) (length level)); [lia|done].
    + change (list_lookup k ?l) with (l !! k). rewrite IH by lia.
      replace (i + 2 + 2 * k)%nat with (i + 2 * S k)%nat by lia.
      destruct (k =? 0)%nat eqn:Ek; [|done]. apply Nat.eqb_eq in Ek. subst.
      destruct (Nat.ltb_spec (i + 2 * 1) (length level)); [done|lia].
Qed.

(** A level of the tree as a list, read with its zero hash out of range. *)
Definition level_ok (leaf : N -> F) (d : nat) (level : list F) : Prop :=
  (forall k : nat, default (zeros d) (level !! k) = node leaf d (N.of_nat k)) .

Lemma next_level_nonempty zero level : next_level zero level <> [].
Proof. unfold next_level. cbn. done. Qed.

Lemma next_level_ok leaf d level :
  level_ok leaf d level -> level_ok leaf (S d) (next_level (zeros d) level).
Proof.
  intros Hl k. unfold next_level. rewrite next_level_loop_spec by lia.
  cbn [node]. replace (2 * N.of_nat k) with (N.of_nat (0 + 2 * k)) by lia.
  replace (N.of_nat (0 + 2 * k) + 1) with (N.of_nat (0 + 2 * k + 1)) by lia.
  rewrite <-!Hl.
  destruct ((k =? 0)%nat || _) eqn:E; [done|].
  apply orb_false_iff in E as [_ E%Nat.ltb_ge].
  rewrite !lookup_ge_None_2 by lia. done.
Qed.

Lemma leaf_level_ok l : level_ok (leaf_of l) 0 l.
Proof. intros k. unfold leaf_of. cbn. by rewrite Nat2N.id. Qed.

Lemma compute_level_spec self leaf rem depth level :
  zero_hashes_ok (mt_zero_hashes self) -> (depth + rem = DEPTH)%nat ->
  level_ok leaf depth level -> compute_level self rem depth level = node leaf DEPTH 0.
Proof.
  intros Hz. revert depth level. induction rem as [|rem IH]; intros depth level Hd Hl;
    cbn [compute_level].
  - replace DEPTH with depth by lia. pose proof (Hl 0%nat) as H0.
    change (N.of_nat 0) with 0 in H0. rewrite <-H0. destruct level; [|done]. cbn. apply Hz. lia.
  - apply IH; [lia|]. rewrite Hz by lia. by apply next_level_ok.
Qed.

Lemma tree_root_node (leaves : list F) :
  tree_root (from_leaves leaves) = node (leaf_of leaves) DEPTH 0.
Proof.
  unfold tree_root. change (mt_leaves (from_leaves leaves)) with leaves.
  apply compute_level_spec;
    [apply from_leaves_zero_hashes_ok | apply Nat.add_0_l | apply leaf_level_ok].
Qed.

(** The root the ledger recomputes from its leaves is the root of the full
    binary tree of depth 48 whose missing leaves are zero. *)
Theorem tree_root_spec (leaves : list F) :
  tree_root (from_leaves leaves) = node (leaf_of leaves) DEPTH 0.
Proof. apply tree_root_node. Qed.

(** ** Paths *)

Lemma lxor_1 i : N.lxor i 1 = if N.even i then i + 1 else i - 1.
Proof.
  destruct (N.even i) eqn:E.
  - apply N.even_spec in E as [m ->]. rewrite (N.add_nocarry_lxor (2 * m) 1); [done|].
    apply N.bits_inj_iff. intros k. rewrite N.land_spec, N.bits_0.
    destruct k as [|k]; [by rewrite N.testbit_even_0|].
    replace 1 with (2 ^ 0) by done. rewrite N.pow2_bits_false by lia. apply andb_false_r.
  - assert (N.odd i = true) as O by (by rewrite <-N.negb_even, E).
    apply N.odd_spec in O as [m ->]. replace (2 * m + 1 - 1) with (2 * m) by lia.
    rewrite (N.add_nocarry_lxor (2 * m) 1).
    + by rewrite N.lxor_assoc, N.lxor_nilpotent, N.lxor_0_r.
    + apply N.bits_inj_iff. intros k. rewrite N.land_spec, N.bits_0.
      destruct k as [|k]; [by rewrite N.testbit_even_0|].
      replace 1 with (2 ^ 0) by done. rewrite N.pow2_bits_false by lia. apply andb_false_r.
Qed.

Lemma node_step leaf d i :
  node leaf (S d) (i / 2) =
  if N.even i then hash_merkle (node leaf d i) (node leaf d (N.lxor i 1))
  else hash_merkle (node leaf d (N.lxor i 1)) (node leaf d i).
Proof.
  rewrite lxor_1. cbn [node]. destruct (N.even i) eqn:E.
  - apply N.even_spec in E as [m ->].
    by replace (2 * m / 2) with m by (apply (N.div_unique _ _ _ 0); lia).
  - assert (N.odd i = true) as O by (by rewrite <-N.negb_even, E).
    apply N.odd_spec in O as [m ->].
    replace ((2 * m + 1) / 2) with m by (apply (N.div_unique _ _ _ 1); lia).
    by replace (2 * m + 1 - 1) with (2 * m) by lia.
Qed.

Lemma auth_path_loop_spec self leaf rem d level sibs idx :
  zero_hashes_ok (mt_zero_hashes self) -> (d + rem = DEPTH)%nat ->
  level_ok leaf d level -> (rem = 0%nat -> level <> []) ->
  exists new,
    auth_path_loop self rem d level sibs idx = (sibs ++ new, node leaf DEPTH 0) /\
    length new = rem /\
    path_root (node leaf d idx) idx new = node leaf DEPTH (idx / 2 ^ N.of_nat rem).
Proof.
  intros Hz. revert d level sibs idx.
  induction rem as [|rem IH]; intros d level sibs idx Hd Hl Hne; cbn [auth_path_loop].
  - exists []. rewrite app_nil_r, N.div_1_r. replace DEPTH with d by lia.
    split; [|done]. f_equal. pose proof (Hl 0%nat) as H0.
    change (N.of_nat 0) with 0 in H0. rewrite <-H0.
    destruct level; [by destruct Hne|done].
  - rewrite Hz by lia.
    destruct (IH (S d) (next_level (zeros d) level)
      (sibs ++ [default (zeros d) (level !! N.to_nat (N.lxor idx 1))]) (idx / 2))
      as (new & Hr & Hlen & Hp);
      [lia | by apply next_level_ok | intros _; apply next_level_nonempty |].
    rewrite Hl, N2Nat.id in *.
    exists (node leaf d (N.lxor idx 1) :: new). split; [|split].
    + rewrite Hr. by rewrite <-app_assoc.
    + cbn. by rewrite Hlen.
    + cbn [path_root]. rewrite <-node_step, Hp. f_equal.
      rewrite Nat2N.inj_succ, N.pow_succ_r', N.Div0.div_div. done.
Qed.

(** A path served for any index of the tree has 48 siblings, comes with the
    current root, and recomputes that root from the leaf at the index. *)
Theorem auth_path_correct (leaves : list F) (index : N) :
  index < 2 ^ N.of_nat DEPTH ->
  exists siblings,
    auth_path (from_leaves leaves) index = (siblings, tree_root (from_leaves leaves)) /\
    length siblings = DEPTH /\
    path_root (leaf_of leaves index) index siblings = tree_root (from_leaves leaves).
Proof.
  intros Hi. rewrite tree_root_node.
  destruct (auth_path_loop_spec (from_leaves leaves) (leaf_of leaves) DEPTH 0 leaves [] index)
    as (sibs & Hr & Hl & Hp);
    [apply from_leaves_zero_hashes_ok | apply Nat.add_0_l | apply leaf_level_ok |
     intros E; exfalso; exact (depth_pos E) |].
  exists sibs. split; [exact Hr|]. split; [exact Hl|].
  cbn [node] in Hp. rewrite Hp. by rewrite N.div_small.
Qed.

(** ** Frontier appends *)

Lemma land_1 i : N.land i 1 = i mod 2.
Proof. change 1 with (N.ones 1). by rewrite N.land_ones. Qed.

Lemma shiftr_1 i : N.shiftr i 1 = i / 2.
Proof. by rewrite N.shiftr_div_pow2. Qed.

(** The leaves after an append at position [n]. *)
Definition leaf_set (leaf : N -> F) (n : N) (cm : F) : N -> F :=
  fun i => if i =? n then cm else leaf i.

Section Frontier.
Context (zh : list F) (Hzh : zero_hashes_ok zh).
Context (leaf : N -> F) (n : N) (cm : F).
Context (Hleaf : forall i, n <= i -> leaf i = ZERO).

Let leaf' := leaf_set leaf n cm.

Lemma node_left d :
  node leaf' d (n / 2 ^ N.of_nat d - 1) = node leaf d (n / 2 ^ N.of_nat d - 1) \/
  n / 2 ^ N.of_nat d = 0.
Proof.
  destruct (N.eq_dec (n / 2 ^ N.of_nat d) 0) as [|Hn]; [by right|left].
  apply node_ext. intros j Hj. unfold leaf', leaf_set.
  destruct (N.eqb_spec j n) as [->|]; [|done].
  pose proof (N.Div0.mul_div_le n (2 ^ N.of_nat d)) as H0.
  exfalso. remember (n / 2 ^ N.of_nat d) as q. remember (2 ^ N.of_nat d) as p.
  clear -Hn Hj H0. nia.
Qed.

Lemma node_right_empty d i :
  n < i * 2 ^ N.of_nat d -> node leaf' d i = zeros d.
Proof.
  intros Hi. apply node_empty. intros j Hj. unfold leaf', leaf_set.
  destruct (N.eqb_spec j n); [lia|]. apply Hleaf. lia.
Qed.

Lemma div_lt_next d : n < (n / 2 ^ N.of_nat d + 1) * 2 ^ N.of_nat d.
Proof.
  pose proof (N.pow_nonzero 2 (N.of_nat d)) as Hp.
  pose proof (N.mul_succ_div_gt n (2 ^ N.of_nat d)). lia.
Qed.

Lemma div_step d : n / 2 ^ N.of_nat d / 2 = n / 2 ^ N.of_nat (S d).
Proof. rewrite N.Div0.div_div, Nat2N.inj_succ, N.pow_succ_r'. f_equal. lia. Qed.

(** The value carried up from level [d] on, and the slots it leaves behind. *)
Lemma frontier_loop_spec k d branches :
  (d + k = DEPTH)%nat -> length branches = DEPTH ->
  (forall l, (d <= l < DEPTH)%nat -> N.odd (n / 2 ^ N.of_nat l) = true ->
     branches !! l = Some (Some (node leaf l (n / 2 ^ N.of_nat l - 1)))) ->
  exists branches',
    frontier_loop zh (seq d k) (n / 2 ^ N.of_nat d) (node leaf' d (n / 2 ^ N.of_nat d))
      branches = (branches', Ok (node leaf' DEPTH (n / 2 ^ N.of_nat DEPTH))) /\
    length branches' = DEPTH /\
    forall l, branches' !! l =
      if (d <=? l)%nat && (l <? DEPTH)%nat && N.even (n / 2 ^ N.of_nat l)
      then Some (Some (node leaf' l (n / 2 ^ N.of_nat l)))
      else branches !! l.
Proof.
  revert d branches. induction k as [|k IH]; intros d br Hd Hlen Hbr;
    cbn [seq frontier_loop].
  - replace DEPTH with d in * by lia. exists br. split; [done|]. split; [done|].
    intros l. destruct (Nat.leb_spec d l), (Nat.ltb_spec l d); try done; lia.
  - rewrite land_1, shiftr_1, div_step.
    destruct (N.even (n / 2 ^ N.of_nat d)) eqn:Ev.
    + assert (n / 2 ^ N.of_nat d mod 2 = 0) as ->
        by (apply N.even_spec in Ev as [m ->]; by rewrite N.mul_comm, N.Div0.mod_mul).
      cbn [N.eqb]. unfold mbind at 1, ST_bind at 1. unfold mbind at 1, ST_bind at 1.
      rewrite (proj2 (Nat.ltb_lt d (length br))) by lia. cbn [panic_unless mret ST_ret].
      rewrite Hzh by lia.
      rewrite <-(node_right_empty d (n / 2 ^ N.of_nat d + 1)) by apply div_lt_next.
      pose proof (node_step leaf' d (n / 2 ^ N.of_nat d)) as Hs.
      rewrite lxor_1, Ev, div_step in Hs. rewrite <-Hs.
      destruct (IH (S d) (<[d:=Some (node leaf' d (n / 2 ^ N.of_nat d))]> br))
        as (br' & Hr & Hl' & Hb'); [lia | by rewrite length_insert | |].
      { intros l Hl Ho. rewrite list_lookup_insert_ne by lia. apply Hbr; [lia|done]. }
      exists br'. split; [exact Hr|]. split; [done|]. intros l. rewrite Hb'.
      destruct (decide (l = d)) as [->|Hne].
      * rewrite Ev. destruct (Nat.leb_spec (S d) d), (Nat.leb_spec d d); try lia.
        rewrite (proj2 (Nat.ltb_lt d DEPTH)) by lia. cbn.
        by rewrite list_lookup_insert_eq by lia.
      * rewrite list_lookup_insert_ne by done.
        by destruct (Nat.leb_spec (S d) l), (Nat.leb_spec d l); try lia.
    + assert (N.odd (n / 2 ^ N.of_nat d) = true) as Od by (by rewrite <-N.negb_even, Ev).
      assert (n / 2 ^ N.of_nat d mod 2 = 1) as ->.
      { apply N.odd_spec in Od as [m ->]. rewrite N.add_comm, N.mul_comm, N.Div0.mod_add.
        reflexivity. }
      cbn [N.eqb Pos.eqb]. unfold mbind at 1, ST_bind at 1. unfold mbind at 1, ST_bind at 1.
      unfold reads at 1, index_at. rewrite Hbr by (lia || done).
      unfold mbind at 1, ST_bind at 1, lift at 1. cbn [ok_or mret ST_ret].
      destruct (node_left d) as [<-|Hz0];
        [|exfalso; rewrite Hz0 in Od; done].
      pose proof (node_step leaf' d (n / 2 ^ N.of_nat d)) as Hs.
      rewrite lxor_1, Ev, div_step in Hs. rewrite <-Hs.
      destruct (IH (S d) br) as (br' & Hr & Hl' & Hb'); [lia | done | |].
      { intros l Hl Ho. apply Hbr; [lia|done]. }
      exists br'. split; [exact Hr|]. split; [done|]. intros l. rewrite Hb'.
      destruct (decide (l = d)) as [->|Hne].
      * rewrite Ev, !andb_false_r. done.
      * by destruct (Nat.leb_spec (S d) l), (Nat.leb_spec d l); try lia.
Qed.

Lemma testbit_odd m l : N.testbit m (N.of_nat l) = N.odd (m / 2 ^ N.of_nat l).
Proof. by rewrite N.testbit_odd, N.shiftr_div_pow2. Qed.

(** Incrementing [n]: where the quotient of [n + 1] is odd, the one of [n] is either
    the same odd number or the even number before it. *)
Lemma div_succ_odd l :
  N.odd ((n + 1) / 2 ^ N.of_nat l) = true ->
  (n + 1) / 2 ^ N.of_nat l =
    if N.even (n / 2 ^ N.of_nat l) then n / 2 ^ N.of_nat l + 1 else n / 2 ^ N.of_nat l.
Proof.
  intros Ho. set (p := 2 ^ N.of_nat l) in *.
  assert (p <> 0) as Hp by by apply N.pow_nonzero.
  assert ((n + 1) / p = n / p \/ (n + 1) / p = n / p + 1) as Hcase.
  { pose proof (N.Div0.div_le_mono n (n + 1) p ltac:(lia)) as H1.
    pose proof (N.Div0.div_le_mono (n + 1) (n + 1 * p) p ltac:(lia)) as H2.
    rewrite N.div_add in H2 by done. lia. }
  destruct Hcase as [E|E]; rewrite E in *.
  - by rewrite <-N.negb_odd, Ho.
  - rewrite N.add_1_r, N.odd_succ in Ho. by rewrite Ho.
Qed.

Lemma frontier_append_spec branches :
  n < 2 ^ N.of_nat DEPTH -> frontier_ok leaf n branches ->
  exists branches',
    simulate_frontier_append zh n cm branches = (branches', Ok (node leaf' DEPTH 0)) /\
    frontier_ok leaf' (n + 1) branches'.
Proof.
  intros Hn [Hlen Hbr].
  destruct (frontier_loop_spec DEPTH 0 branches) as (br' & Hr & Hl' & Hb');
    [done | done | |].
  { intros l Hl Ho. rewrite <-N.shiftr_div_pow2. apply Hbr; [lia|]. by rewrite testbit_odd. }
  change (2 ^ N.of_nat 0) with 1 in Hr. rewrite N.div_1_r in Hr.
  exists br'. split.
  - rewrite (N.div_small n) in Hr by done. rewrite <-Hr. unfold simulate_frontier_append.
    f_equal. cbn. unfold leaf', leaf_set. by rewrite N.eqb_refl.
  - split; [done|]. intros l Hl Hbit. rewrite testbit_odd in Hbit.
    rewrite N.shiftr_div_pow2, Hb', (div_succ_odd l Hbit).
    rewrite (proj2 (Nat.ltb_lt l DEPTH)) by done. cbn [Nat.leb andb].
    destruct (N.even (n / 2 ^ N.of_nat l)) eqn:Ev.
    + by rewrite N.add_sub.
    + assert (N.odd (n / 2 ^ N.of_nat l) = true) as Od by by rewrite <-N.negb_even, Ev.
      rewrite Hbr by (rewrite ?testbit_odd; done). rewrite N.shiftr_div_pow2.
      destruct (node_left l) as [->|E0]; [done|]. by rewrite E0 in Od.
Qed.
End Frontier.

Lemma leaf_of_app l cm i :
  leaf_set (leaf_of l) (N.of_nat (length l)) cm i = leaf_of (l ++ [cm]) i.
Proof.
  unfold leaf_set, leaf_of. destruct (N.eqb_spec i (N.of_nat (length l))) as [->|Hne].
  - rewrite Nat2N.id. by rewrite lookup_app_r, Nat.sub_diag by lia.
  - destruct (decide (N.to_nat i < length l)%nat) as [Hi|Hi].
    + by rewrite lookup_app_l.
    + rewrite !lookup_ge_None_2; [done|rewrite length_app; cbn; lia|lia].
Qed.

Lemma leaf_of_ge l i : N.of_nat (length l) <= i -> leaf_of l i = ZERO.
Proof. intros Hi. unfold leaf_of. by rewrite lookup_ge_None_2 by lia. Qed.

Lemma frontier_ok_ext f g n br :
  (forall i, f i = g i) -> frontier_ok f n br -> frontier_ok g n br.
Proof.
  intros E [Hl Hb]. split; [done|]. intros l H1 H2. rewrite Hb by done.
  do 2 f_equal. apply node_ext. intros j _. apply E.
Qed.

Lemma frontier_ok_nil leaf : frontier_ok leaf 0 (replicate DEPTH None).
Proof. split; [apply length_replicate|]. intros l _ Hb. by rewrite N.bits_0 in Hb. Qed.

Lemma frontier_append_leaves (zh leaves : list F) (cm : F)
    (branches : list (option F)) :
  zero_hashes_ok zh -> N.of_nat (length leaves) < 2 ^ N.of_nat DEPTH ->
  frontier_ok (leaf_of leaves) (N.of_nat (length leaves)) branches ->
  exists branches',
    simulate_frontier_append zh (N.of_nat (length leaves)) cm branches =
      (branches', Ok (tree_root (from_leaves (leaves ++ [cm])))) /\
    frontier_ok (leaf_of (leaves ++ [cm])) (N.of_nat (length (leaves ++ [cm]))) branches'.
Proof.
  intros Hz Hn Hf.
  destruct (frontier_append_spec zh Hz (leaf_of leaves) (N.of_nat (length leaves)) cm
    (leaf_of_ge leaves) branches Hn Hf) as (br' & Hr & Hf').
  exists br'. rewrite tree_root_node. split.
  - rewrite Hr. do 2 f_equal. apply node_ext. intros j _. apply leaf_of_app.
  - rewrite length_app, Nat2N.inj_add. cbn [length].
    eapply frontier_ok_ext; [apply leaf_of_app | exact Hf'].
Qed.

(** C38: appending with the frontier computes the root of the full tree with
    the new leaf, in any tree that still has room, and leaves a frontier for the next
    append; the empty tree's frontier is empty. *)
Theorem frontier_append_is_tree_append (zh leaves : list F) (cm : F)
    (branches : list (option F)) :
  zero_hashes_ok zh -> N.of_nat (length leaves) < 2 ^ N.of_nat DEPTH ->
  frontier_ok (leaf_of leaves) (N.of_nat (length leaves)) branches ->
  exists branches',
    simulate_frontier_append zh (N.of_nat (length leaves)) cm branches =
      (branches', Ok (tree_root (from_leaves (leaves ++ [cm])))) /\
    frontier_ok (leaf_of (leaves ++ [cm])) (N.of_nat (length (leaves ++ [cm]))) branches'.
Proof. apply frontier_append_leaves. Qed.

(** ** The frontier check *)

Lemma check_frontier_spec branches size k d n :
  length branches = (d + k)%nat ->
  check_frontier branches size (seq d k) (n / 2 ^ N.of_nat d) = Ok tt <->
  forall l, (d <= l < d + k)%nat -> N.testbit n (N.of_nat l) = true ->
    exists f, branches !! l = Some (Some f).
Proof.
  revert d. induction k as [|k IH]; intros d Hl; cbn [seq check_frontier].
  - split; [intros _ l ?; lia|done].
  - rewrite land_1, shiftr_1, (div_step n).
    rewrite bind_Ok. setoid_rewrite IH; [|lia].
    assert ((n / 2 ^ N.of_nat d mod 2 =? 1) = N.testbit n (N.of_nat d)) as ->.
    { rewrite testbit_odd. destruct (N.odd (n / 2 ^ N.of_nat d)) eqn:Ho.
      - apply N.odd_spec in Ho as [m ->].
        by rewrite N.add_comm, N.mul_comm, N.Div0.mod_add.
      - rewrite <-N.negb_even in Ho. apply negb_false_iff, N.even_spec in Ho as [m ->].
        by rewrite N.mul_comm, N.Div0.mod_mul. }
    split.
    + intros ([] & H1 & H2) l Hrange Hb. destruct (decide (l = d)) as [->|].
      * rewrite Hb in H1. result_inv. apply bool_decide_eq_false in H1.
        destruct a; [by eexists|done].
      * apply H2; [lia|done].
    + intros Hall. exists tt. split.
      * destruct (N.testbit n (N.of_nat d)) eqn:Hb; [|done].
        destruct (Hall d) as [f Hf]; [lia|done|]. unfold index_at. rewrite Hf. done.
      * intros l Hrange. apply Hall. lia.
Qed.

Lemma frontier_check_iff (branches : list (option F)) (n : N) :
  length branches = DEPTH ->
  assert_frontier_matches_tree_size branches n = Ok tt <->
  forall l, (l < DEPTH)%nat -> N.testbit n (N.of_nat l) = true ->
    exists f, branches !! l = Some (Some f).
Proof.
  intros Hl. unfold assert_frontier_matches_tree_size.
  rewrite <-(N.div_1_r n) at 2. change 1 with (2 ^ N.of_nat 0).
  rewrite (check_frontier_spec branches n DEPTH 0 n) by done.
  split; intros Hall l ?; apply Hall; lia.
Qed.

Lemma frontier_check_ok leaf (branches : list (option F)) (n : N) :
  frontier_ok leaf n branches -> assert_frontier_matches_tree_size branches n = Ok tt.
Proof.
  intros [Hl Hb]. apply frontier_check_iff; [done|]. intros l Hr Ht. eexists. by apply Hb.
Qed.

(** The kernel's consistency check accepts a frontier exactly when
    every level that the next append reads has a node; it passes on the frontier of
    every tree the kernel built. *)
Theorem frontier_check_correct (branches : list (option F)) (n : N) :
  length branches = DEPTH ->
  (assert_frontier_matches_tree_size branches n = Ok tt <->
   forall l, (l < DEPTH)%nat -> N.testbit n (N.of_nat l) = true ->
     exists f, branches !! l = Some (Some f)) /\
  forall leaf, frontier_ok leaf n branches ->
    assert_frontier_matches_tree_size branches n = Ok tt.
Proof.
  intros Hl. split; [by apply frontier_check_iff|]. intros leaf. apply frontier_check_ok.
Qed.

(** ** Appends to [MerkleTree] *)

Lemma tree_append_spec `{Target} leaf self :
  N.of_nat (length (mt_leaves self)) < tree_limit ->
  tree_append leaf self =
    ({| mt_leaves := mt_leaves self ++ [leaf]; mt_zero_hashes := mt_zero_hashes self |},
     Ok (N.of_nat (length (mt_leaves self)))).
Proof.
  intros Hn. unfold tree_append. apply N.ltb_lt in Hn. rewrite Hn. done.
Qed.
End Merkle.

(** ** Witnesses *)

Definition sample_leaves : list F := [u64_to_felt 3; u64_to_felt 5; u64_to_felt 7].

Lemma auth_path_correct_witness :
  exists siblings,
    @auth_path toy_blake2s (@from_leaves toy_blake2s sample_leaves) 1 =
      (siblings, @tree_root toy_blake2s (@from_leaves toy_blake2s sample_leaves)) /\
    length siblings = DEPTH /\
    @path_root toy_blake2s (leaf_of sample_leaves 1) 1 siblings =
      @tree_root toy_blake2s (@from_leaves toy_blake2s sample_leaves).
Proof. apply (@auth_path_correct toy_blake2s). reflexivity. Defined.

Lemma frontier_append_is_tree_append_witness :
  exists branches',
    @simulate_frontier_append toy_blake2s (@new_zero_hashes toy_blake2s) 0 (u64_to_felt 3)
      (replicate DEPTH None) =
      (branches', Ok (@tree_root toy_blake2s
        (@from_leaves toy_blake2s ([] ++ [u64_to_felt 3])))) /\
    @frontier_ok toy_blake2s (leaf_of ([] ++ [u64_to_felt 3])) 1 branches'.
Proof.
  apply (@frontier_append_is_tree_append toy_blake2s (@new_zero_hashes toy_blake2s) []);
    [apply new_zero_hashes_ok | reflexivity | apply frontier_ok_nil].
Defined.

Lemma frontier_check_correct_witness :
  assert_frontier_matches_tree_size (replicate DEPTH None) 0 = Ok tt.
Proof.
  apply (proj2 (@frontier_check_correct toy_blake2s (replicate DEPTH None) 0
    (length_replicate _ _)) (fun _ => ZERO)).
  apply frontier_ok_nil.
Defined.
