(* ===== verification/Ledger.v ===== *)
(** * Ledger: the transaction state machine of [core/src/lib.rs]

    The [LedgerState] trait and the four transitions written against it: deposit,
    shield, transfer and unshield.  A reading method is a function of the state; a
    method on [&mut self] is an [ST] computation, which keeps the state it reached
    when it fails. *)

From S2P Require Import Prelude Felt Externals Concrete Recipients Types Hashing Outputs.

(** [pub trait LedgerState]. *)
Class LedgerState (S : Type) := {
  ls_auth_domain : S -> result F;
  ls_required_tx_fee : S -> result N;
  ls_has_valid_root : S -> F -> result bool;
  ls_has_nullifier : S -> F -> result bool;
  ls_insert_nullifier : F -> ST S unit;
  ls_ensure_note_capacity : S -> N -> result unit;
  ls_append_note : F -> EncryptedNote -> ST S N;
  ls_snapshot_root : ST S unit;
  ls_enqueue_withdrawal : string -> N -> ST S N;
  ls_note_private_tx_applied : S -> S;
  ls_deposit_balance : S -> F -> result (option N);
  ls_credit_deposit : F -> N -> ST S unit;
  ls_debit_deposit : F -> N -> ST S unit;
  ls_has_applied_shield : S -> F -> result bool;
  ls_mark_applied_shield : F -> ST S unit
}.

(** What a shield and an unshield hand from validation to commit. *)
Record PreparedShield := {
  ps_pubkey_hash : F;
  ps_debit : N;
  ps_client_cm : F;
  ps_client_enc : EncryptedNote;
  ps_producer_cm : F;
  ps_producer_enc : EncryptedNote
}.

Record PreparedUnshield := {
  pu_change_note : option (F * EncryptedNote);
  pu_producer_note : F * EncryptedNote;
  pu_nullifiers : list F;
  pu_recipient : string;
  pu_amount : N
}.

Section Ledger.
Context `{Blake2s, Hex, TezosContracts, Target}.
Context {S : Type} `{LedgerState S}.

(** ** Checks shared by the transitions *)

(** [if fee < required_fee { return Err(..) }]. *)
Definition check_fee (s : S) (fee : N) : result unit :=
  required_fee ← ls_required_tx_fee s;
  fail_if (fee <? required_fee)%N
    ("fee below minimum: " +:+ show_N fee +:+ " < " +:+ show_N required_fee).

(** [enc.validate().map_err(|e| format!("{what}: {e}"))]. *)
Definition validate_as (what : string) (enc : EncryptedNote) : result unit :=
  map_err (fun e => what +:+ ": " +:+ e) (EncryptedNote_validate enc).

Definition check_root (s : S) (root : F) : result unit :=
  valid ← ls_has_valid_root s root;
  fail_if (negb valid) "invalid root".

(** [for nf in &req.nullifiers { if state.has_nullifier(nf)? { .. } }]. *)
Fixpoint check_unspent (s : S) (nullifiers : list F) : result unit :=
  match nullifiers with
  | [] => mret tt
  | nf :: nullifiers =>
      spent ← ls_has_nullifier s nf;
      fail_if spent ("nullifier " +:+ short nf +:+ " already spent") ;;
      check_unspent s nullifiers
  end.

(** [if tail[i] != x { return Err(msg) }]. *)
Definition expect_output (tail : list F) (i : nat) (x : F) (msg : string) : result unit :=
  got ← index_at tail i;
  fail_if (negb (bool_decide (got = x))) msg.

(** [for (i, nf) in nullifiers.iter().enumerate() { if tail[2 + i] != *nf { .. } }]. *)
Fixpoint expect_nullifiers (tail : list F) (i : nat) (nullifiers : list F) : result unit :=
  match nullifiers with
  | [] => mret tt
  | nf :: nullifiers =>
      expect_output tail (2 + i) nf ("proof nullifier " +:+ show_nat i +:+ " mismatch") ;;
      expect_nullifiers tail (1 + i) nullifiers
  end.

Definition check_nullifier_count (nullifiers : list F) : result unit :=
  let n := length nullifiers in
  fail_if ((n =? 0)%nat || (7 <? n)%nat) "bad nullifier count".

(** ** Deposits *)

Definition apply_deposit (recipient : string) (amount : N) : ST S unit :=
  pubkey_hash ← lift (parse_deposit_recipient_pubkey_hash recipient);
  ls_credit_deposit pubkey_hash amount.

(** ** Shields *)

Definition check_shield_outputs (auth_domain mh_recipient mh_producer : F)
    (req : ShieldReq) : result unit :=
  match sr_proof req with
  | TrustMeBro => mret tt
  | Stark _ output_preimage =>
      public_outputs ← transition_public_outputs output_preimage 9;
      fail_if (negb (length public_outputs =? 9)%nat)
        ("shield public output length mismatch: " +:+ show_nat (length public_outputs) +:+
         " != 9") ;;
      expect_output public_outputs 0 auth_domain "proof auth_domain mismatch" ;;
      expect_output public_outputs 1 (sr_pubkey_hash req) "proof pubkey_hash mismatch" ;;
      expect_output public_outputs 2 (u64_to_felt (sr_v req)) "proof note value mismatch" ;;
      expect_output public_outputs 3 (u64_to_felt (sr_fee req)) "proof fee mismatch" ;;
      expect_output public_outputs 4 (u64_to_felt (sr_producer_fee req))
        "proof producer_fee mismatch" ;;
      expect_output public_outputs 5 (sr_client_cm req) "proof cm mismatch" ;;
      expect_output public_outputs 6 (sr_producer_cm req) "proof producer_cm mismatch" ;;
      expect_output public_outputs 7 mh_recipient "proof memo_ct_hash mismatch" ;;
      expect_output public_outputs 8 mh_producer "proof producer memo_ct_hash mismatch"
  end.

Definition shield_debit (req : ShieldReq) : result N :=
  ok_or (checked_add_u64 (sr_v req) (sr_fee req) ≫= fun value =>
         checked_add_u64 value (sr_producer_fee req))
    "shield debit overflow".

Definition prepare_shield (req : ShieldReq) (s : S) : result PreparedShield :=
  check_fee s (sr_fee req) ;;
  fail_if (sr_producer_fee req =? 0)%N "producer fee must be greater than zero" ;;
  fail_if (bool_decide (sr_client_cm req = ZERO)) "shield requires non-zero client_cm" ;;
  fail_if (bool_decide (sr_producer_cm req = ZERO)) "shield requires non-zero producer_cm" ;;
  applied ← ls_has_applied_shield s (sr_client_cm req);
  fail_if applied
    ("shield replay: cm " +:+ hex_str (sr_client_cm req) +:+ " already applied") ;;
  validate_as "invalid client encrypted note" (sr_client_enc req) ;;
  validate_as "invalid producer encrypted note" (sr_producer_enc req) ;;
  auth_domain ← ls_auth_domain s;
  let mh_recipient := memo_ct_hash (sr_client_enc req) in
  let mh_producer := memo_ct_hash (sr_producer_enc req) in
  debit ← shield_debit req;
  pool ← ls_deposit_balance s (sr_pubkey_hash req);
  pool_balance ← ok_or pool
    ("no deposit pool for pubkey_hash " +:+ hex_str (sr_pubkey_hash req) +:+
     "; submit an L1 bridge deposit first");
  fail_if (pool_balance <? debit)%N
    ("deposit pool balance (" +:+ show_N pool_balance +:+
     ") too small for v + fee + producer_fee (" +:+ show_N debit +:+ ")") ;;
  check_shield_outputs auth_domain mh_recipient mh_producer req ;;
  ls_ensure_note_capacity s 2 ;;
  mret {| ps_pubkey_hash := sr_pubkey_hash req;
          ps_debit := debit;
          ps_client_cm := sr_client_cm req;
          ps_client_enc := sr_client_enc req;
          ps_producer_cm := sr_producer_cm req;
          ps_producer_enc := sr_producer_enc req |}.

Definition commit_prepared_shield (p : PreparedShield) : ST S ShieldResp :=
  ls_debit_deposit (ps_pubkey_hash p) (ps_debit p) ;;
  ls_mark_applied_shield (ps_client_cm p) ;;
  index ← ls_append_note (ps_client_cm p) (ps_client_enc p);
  producer_index ← ls_append_note (ps_producer_cm p) (ps_producer_enc p);
  ls_snapshot_root ;;
  writes ls_note_private_tx_applied ;;
  mret {| sp_cm := ps_client_cm p; sp_index := index;
          sp_producer_cm := ps_producer_cm p; sp_producer_index := producer_index |}.

Definition apply_shield (req : ShieldReq) : ST S ShieldResp :=
  prepared ← reads (prepare_shield req);
  commit_prepared_shield prepared.

(** ** Transfers *)

Definition check_transfer_outputs (s : S) (req : TransferReq) : result unit :=
  match tr_proof req with
  | TrustMeBro => mret tt
  | Stark _ output_preimage =>
      let n := length (tr_nullifiers req) in
      tail ← transition_public_outputs output_preimage (2 + n + 7);
      auth_domain ← ls_auth_domain s;
      expect_output tail 0 auth_domain "proof auth_domain mismatch" ;;
      expect_output tail 1 (tr_root req) "proof root mismatch" ;;
      expect_nullifiers tail 0 (tr_nullifiers req) ;;
      let fee_pos := (2 + n)%nat in
      expect_output tail fee_pos (u64_to_felt (tr_fee req)) "proof fee mismatch" ;;
      let cm1_pos := (fee_pos + 1)%nat in
      expect_output tail cm1_pos (tr_cm_1 req) "proof cm_1 mismatch" ;;
      expect_output tail (cm1_pos + 1) (tr_cm_2 req) "proof cm_2 mismatch" ;;
      expect_output tail (cm1_pos + 2) (tr_cm_3 req) "proof cm_3 mismatch" ;;
      expect_output tail (cm1_pos + 3) (memo_ct_hash (tr_enc_1 req))
        "proof memo_ct_hash_1 mismatch — encrypted note tampered" ;;
      expect_output tail (cm1_pos + 4) (memo_ct_hash (tr_enc_2 req))
        "proof memo_ct_hash_2 mismatch — encrypted note tampered" ;;
      expect_output tail (cm1_pos + 5) (memo_ct_hash (tr_enc_3 req))
        "proof memo_ct_hash_3 mismatch — encrypted note tampered"
  end.

(** Everything [apply_transfer] does before its first write. *)
Definition prepare_transfer (req : TransferReq) (s : S) : result unit :=
  check_fee s (tr_fee req) ;;
  check_nullifier_count (tr_nullifiers req) ;;
  validate_as "invalid output note 1" (tr_enc_1 req) ;;
  validate_as "invalid output note 2" (tr_enc_2 req) ;;
  validate_as "invalid output note 3" (tr_enc_3 req) ;;
  check_root s (tr_root req) ;;
  check_unspent s (tr_nullifiers req) ;;
  fail_if (has_duplicate (tr_nullifiers req)) "duplicate nullifier" ;;
  check_transfer_outputs s req ;;
  ls_ensure_note_capacity s 3.

(** Its writes. *)
Definition commit_transfer (req : TransferReq) : ST S TransferResp :=
  index_1 ← ls_append_note (tr_cm_1 req) (tr_enc_1 req);
  index_2 ← ls_append_note (tr_cm_2 req) (tr_enc_2 req);
  index_3 ← ls_append_note (tr_cm_3 req) (tr_enc_3 req);
  for_each ls_insert_nullifier (tr_nullifiers req) ;;
  ls_snapshot_root ;;
  writes ls_note_private_tx_applied ;;
  mret {| tp_index_1 := index_1; tp_index_2 := index_2; tp_index_3 := index_3 |}.

Definition apply_transfer (req : TransferReq) : ST S TransferResp :=
  reads (prepare_transfer req) ;;
  commit_transfer req.

(** ** Unshields *)

Definition check_change_note (req : UnshieldReq) : result unit :=
  match bool_decide (ur_cm_change req = ZERO), ur_enc_change req with
  | true, Some _ => Err "change note data provided with zero cm_change"
  | false, Some enc => validate_as "invalid change note" enc
  | _, _ => mret tt
  end.

Definition check_unshield_outputs (s : S) (recipient : string) (req : UnshieldReq)
    : result unit :=
  match ur_proof req with
  | TrustMeBro => mret tt
  | Stark _ output_preimage =>
      let n := length (ur_nullifiers req) in
      tail ← transition_public_outputs output_preimage (2 + n + 7);
      auth_domain ← ls_auth_domain s;
      expect_output tail 0 auth_domain "proof auth_domain mismatch" ;;
      expect_output tail 1 (ur_root req) "proof root mismatch" ;;
      expect_nullifiers tail 0 (ur_nullifiers req) ;;
      expect_output tail (2 + n) (u64_to_felt (ur_v_pub req)) "proof v_pub mismatch" ;;
      expect_output tail (3 + n) (u64_to_felt (ur_fee req)) "proof fee mismatch" ;;
      expect_output tail (4 + n) (hash (str_bytes recipient)) "proof recipient mismatch" ;;
      expect_output tail (5 + n) (ur_cm_change req) "proof cm_change mismatch" ;;
      match ur_enc_change req with
      | Some enc =>
          expect_output tail (6 + n) (memo_ct_hash enc) "proof memo_ct_hash_change mismatch"
      | None =>
          expect_output tail (6 + n) ZERO
            "proof memo_ct_hash_change should be 0 when no change"
      end ;;
      expect_output tail (7 + n) (ur_cm_fee req) "proof cm_fee mismatch" ;;
      expect_output tail (8 + n) (memo_ct_hash (ur_enc_fee req))
        "proof memo_ct_hash_fee mismatch"
  end.

Definition prepare_unshield (req : UnshieldReq) (s : S) : result PreparedUnshield :=
  recipient ← validate_l1_withdrawal_recipient (ur_recipient req);
  check_fee s (ur_fee req) ;;
  check_nullifier_count (ur_nullifiers req) ;;
  check_change_note req ;;
  validate_as "invalid producer fee note" (ur_enc_fee req) ;;
  fail_if (bool_decide (ur_cm_fee req = ZERO))
    "producer fee note must have non-zero commitment" ;;
  check_root s (ur_root req) ;;
  check_unspent s (ur_nullifiers req) ;;
  fail_if (has_duplicate (ur_nullifiers req)) "duplicate nullifier" ;;
  check_unshield_outputs s recipient req ;;
  let has_change := negb (bool_decide (ur_cm_change req = ZERO)) in
  ls_ensure_note_capacity s ((if has_change then 1 else 0) + 1)%N ;;
  change_note ←
    (if has_change then
       enc ← ok_or (ur_enc_change req) "change cm without encrypted note";
       mret (Some (ur_cm_change req, enc))
     else mret None);
  mret {| pu_change_note := change_note;
          pu_producer_note := (ur_cm_fee req, ur_enc_fee req);
          pu_nullifiers := ur_nullifiers req;
          pu_recipient := recipient;
          pu_amount := ur_v_pub req |}.

Definition commit_prepared_unshield (p : PreparedUnshield) : ST S UnshieldResp :=
  ls_enqueue_withdrawal (pu_recipient p) (pu_amount p) ;;
  change_index ←
    match pu_change_note p with
    | Some (cm, enc) => i ← ls_append_note cm enc; mret (Some i)
    | None => mret None
    end;
  for_each ls_insert_nullifier (pu_nullifiers p) ;;
  producer_index ← ls_append_note (fst (pu_producer_note p)) (snd (pu_producer_note p));
  ls_snapshot_root ;;
  writes ls_note_private_tx_applied ;;
  mret {| up_change_index := change_index; up_producer_index := producer_index |}.

Definition apply_unshield (req : UnshieldReq) : ST S UnshieldResp :=
  prepared ← reads (prepare_unshield req);
  commit_prepared_unshield prepared.
End Ledger.
