(* ===== verification/LedgerSpec.v ===== *)
(** * LedgerSpec: what the state machine promises, over any ledger state

    [View] is the abstract state of a ledger; [LedgerLaws] says what an
    implementation of [LedgerState] must do to it.  The theorems here are proved once
    against those laws: each transition succeeds exactly on the requests its
    acceptance predicate admits, then has exactly the stated effect, and otherwise
    returns an error and leaves the state alone. *)

From S2P Require Import Prelude Felt Externals Concrete Recipients Types Hashing Outputs.
From S2P Require Import Merkle Ledger.

(** ** The abstract state *)

Record View := {
  v_auth_domain : F;
  v_nullifiers : gset F;
  v_roots : gset F;
  v_notes : list (F * EncryptedNote);
  v_withdrawals : list WithdrawalRecord;
  v_balances : gmap F N;
  v_shields : gset F
}.

Definition with_nullifiers (x : gset F) (v : View) : View :=
  {| v_auth_domain := v_auth_domain v; v_nullifiers := x; v_roots := v_roots v;
     v_notes := v_notes v; v_withdrawals := v_withdrawals v; v_balances := v_balances v;
     v_shields := v_shields v |}.

Definition with_roots (x : gset F) (v : View) : View :=
  {| v_auth_domain := v_auth_domain v; v_nullifiers := v_nullifiers v; v_roots := x;
     v_notes := v_notes v; v_withdrawals := v_withdrawals v; v_balances := v_balances v;
     v_shields := v_shields v |}.

Definition with_notes (x : list (F * EncryptedNote)) (v : View) : View :=
  {| v_auth_domain := v_auth_domain v; v_nullifiers := v_nullifiers v; v_roots := v_roots v;
     v_notes := x; v_withdrawals := v_withdrawals v; v_balances := v_balances v;
     v_shields := v_shields v |}.

Definition with_withdrawals (x : list WithdrawalRecord) (v : View) : View :=
  {| v_auth_domain := v_auth_domain v; v_nullifiers := v_nullifiers v; v_roots := v_roots v;
     v_notes := v_notes v; v_withdrawals := x; v_balances := v_balances v;
     v_shields := v_shields v |}.

Definition with_balances (x : gmap F N) (v : View) : View :=
  {| v_auth_domain := v_auth_domain v; v_nullifiers := v_nullifiers v; v_roots := v_roots v;
     v_notes := v_notes v; v_withdrawals := v_withdrawals v; v_balances := x;
     v_shields := v_shields v |}.

Definition with_shields (x : gset F) (v : View) : View :=
  {| v_auth_domain := v_auth_domain v; v_nullifiers := v_nullifiers v; v_roots := v_roots v;
     v_notes := v_notes v; v_withdrawals := v_withdrawals v; v_balances := v_balances v;
     v_shields := x |}.

(** The balances after [amount] leaves pool [k]: an emptied pool is removed. *)
Definition debited (k : F) (amount : N) (b : gmap F N) : gmap F N :=
  let rest := (default 0 (b !! k) - amount)%N in
  if (rest =? 0)%N then delete k b else <[k := rest]> b.

(** The root of the commitment tree of a view. *)
Definition v_root `{Blake2s} (v : View) : F := tree_root (from_leaves (fst <$> v_notes v)).

(** A set of accepted roots after a snapshot: the current root is in, old roots may
    have expired, nothing else came in. *)
Definition snapshot_of (root : F) (old new : gset F) : Prop :=
  root ∈ new /\ new ⊆ {[root]} ∪ old.

(** How many entries a view has: an implementation with fixed-width indices works as
    long as this fits them. *)
Definition view_size (v : View) : N :=
  N.of_nat (length (v_notes v) + size (v_nullifiers v) + size (v_roots v) +
            length (v_withdrawals v)).

(** One request adds at most three notes, seven nullifiers, a withdrawal and a root. *)
Definition OP_GROWTH : N := 12.

(** ** The laws of an implementation *)

Class LedgerLaws `{Blake2s} (S : Type) `{LedgerState S} := {
  ll_view : S -> View;
  ll_fee : S -> N;
  ll_inv : S -> Prop;
  (** the number of notes the implementation has room for *)
  ll_capacity : N;
  (** the sizes its indices can number *)
  ll_fits : N -> Prop;
  ll_fits_le m n : (m <= n)%N -> ll_fits n -> ll_fits m;

  ll_auth_domain s : ll_inv s -> ls_auth_domain s = Ok (v_auth_domain (ll_view s));
  ll_required_fee s : ll_inv s -> ls_required_tx_fee s = Ok (ll_fee s);
  ll_valid_root s r : ll_inv s ->
    ls_has_valid_root s r = Ok (bool_decide (r ∈ v_roots (ll_view s)));
  ll_nullifier s nf : ll_inv s ->
    ls_has_nullifier s nf = Ok (bool_decide (nf ∈ v_nullifiers (ll_view s)));
  ll_applied s cm : ll_inv s ->
    ls_has_applied_shield s cm = Ok (bool_decide (cm ∈ v_shields (ll_view s)));
  ll_balance s k : ll_inv s ->
    ls_deposit_balance s k = Ok (v_balances (ll_view s) !! k);
  ll_ensure_ok s n : ll_inv s ->
    ls_ensure_note_capacity s n = Ok tt <->
    (N.of_nat (length (v_notes (ll_view s))) + n <= ll_capacity)%N;
  ll_ensure_no_panic s n : ll_inv s -> is_panic (ls_ensure_note_capacity s n) = false;

  ll_insert_nullifier s nf : ll_inv s -> ll_fits (view_size (ll_view s) + 1) -> exists s',
    ls_insert_nullifier nf s = (s', Ok tt) /\ ll_inv s' /\
    ll_view s' = with_nullifiers ({[nf]} ∪ v_nullifiers (ll_view s)) (ll_view s);
  ll_append_note s cm enc : ll_inv s -> note_shape enc ->
    (N.of_nat (length (v_notes (ll_view s))) < ll_capacity)%N ->
    ll_fits (view_size (ll_view s) + 1) -> exists s',
    ls_append_note cm enc s = (s', Ok (N.of_nat (length (v_notes (ll_view s))))) /\
    ll_inv s' /\
    ll_view s' = with_notes (v_notes (ll_view s) ++ [(cm, enc)]) (ll_view s);
  ll_snapshot_root s : ll_inv s -> ll_fits (view_size (ll_view s) + 1) -> exists s' roots,
    ls_snapshot_root s = (s', Ok tt) /\ ll_inv s' /\
    ll_view s' = with_roots roots (ll_view s) /\
    snapshot_of (v_root (ll_view s)) (v_roots (ll_view s)) roots;
  ll_enqueue s r a : ll_inv s -> is_u64 a -> ll_fits (view_size (ll_view s) + 1) -> exists s',
    ls_enqueue_withdrawal r a s =
      (s', Ok (N.of_nat (length (v_withdrawals (ll_view s))))) /\ ll_inv s' /\
    ll_view s' =
      with_withdrawals (v_withdrawals (ll_view s) ++ [{| wr_recipient := r; wr_amount := a |}])
        (ll_view s);
  ll_note_applied s : ll_inv s ->
    ll_inv (ls_note_private_tx_applied s) /\
    ll_view (ls_note_private_tx_applied s) = ll_view s;
  ll_credit s k a : ll_inv s -> is_u64 a ->
    match checked_add_u64 (default 0%N (v_balances (ll_view s) !! k)) a with
    | Some next => exists s',
        ls_credit_deposit k a s = (s', Ok tt) /\ ll_inv s' /\
        ll_view s' = with_balances (<[k := next]> (v_balances (ll_view s))) (ll_view s)
    | None => exists e, ls_credit_deposit k a s = (s, Err e)
    end;
  ll_debit s k a b : ll_inv s -> v_balances (ll_view s) !! k = Some b -> (a <= b)%N ->
    exists s',
    ls_debit_deposit k a s = (s', Ok tt) /\ ll_inv s' /\
    ll_view s' = with_balances (debited k a (v_balances (ll_view s))) (ll_view s);
  ll_mark s cm : ll_inv s -> exists s',
    ls_mark_applied_shield cm s = (s', Ok tt) /\ ll_inv s' /\
    ll_view s' = with_shields ({[cm]} ∪ v_shields (ll_view s)) (ll_view s)
}.

(** ** Sizes *)

Lemma size_union_le (a b : gset F) : (size (a ∪ b) <= size a + size b)%nat.
Proof.
  rewrite size_union_alt. assert (size (b ∖ a) <= size b)%nat; [|lia].
  apply subseteq_size. set_solver.
Qed.

Lemma size_list_to_set_le (l : list F) : (size (list_to_set l : gset F) <= length l)%nat.
Proof.
  induction l as [|x l IH]; cbn; [by rewrite size_empty|].
  pose proof (size_union_le {[x]} (list_to_set l)) as Hu. rewrite size_singleton in Hu. lia.
Qed.

Lemma view_size_nullifiers l v :
  (view_size (with_nullifiers (list_to_set l ∪ v_nullifiers v) v) <=
   view_size v + N.of_nat (length l))%N.
Proof.
  unfold view_size. cbn [v_notes v_nullifiers v_roots v_withdrawals with_nullifiers].
  pose proof (size_union_le (list_to_set l) (v_nullifiers v)).
  pose proof (size_list_to_set_le l). lia.
Qed.

Lemma view_size_roots root roots v :
  snapshot_of root (v_roots v) roots -> (view_size (with_roots roots v) <= view_size v + 1)%N.
Proof.
  intros [_ Hs%subseteq_size]. unfold view_size.
  cbn [v_notes v_nullifiers v_roots v_withdrawals with_roots].
  pose proof (size_union_le {[root]} (v_roots v)) as Hu. rewrite size_singleton in Hu. lia.
Qed.

(** ** Acceptance *)

(** A proof carries the expected public outputs; [TrustMeBro] carries none and is
    let through here (the verifier in front of the ledger refuses it). *)
Definition outputs_bind `{Target} (proof : Proof_) (expected : list F) : Prop :=
  match proof with
  | TrustMeBro => True
  | Stark _ pre => transition_public_outputs pre (length expected) = Ok expected
  end.

Section Acceptance.
Context `{Blake2s, Hex, TezosContracts, Target}.

Definition shield_outputs (auth_domain : F) (req : ShieldReq) : list F :=
  [auth_domain; sr_pubkey_hash req; u64_to_felt (sr_v req); u64_to_felt (sr_fee req);
   u64_to_felt (sr_producer_fee req); sr_client_cm req; sr_producer_cm req;
   memo_ct_hash (sr_client_enc req); memo_ct_hash (sr_producer_enc req)].

Definition shield_cost (req : ShieldReq) : N :=
  (sr_v req + sr_fee req + sr_producer_fee req)%N.

Record shield_accepts (fee capacity : N) (v : View) (req : ShieldReq) : Prop := {
  sa_fee : (fee <= sr_fee req)%N;
  sa_producer_fee : sr_producer_fee req <> 0%N;
  sa_cms : sr_client_cm req <> ZERO /\ sr_producer_cm req <> ZERO;
  sa_fresh : sr_client_cm req ∉ v_shields v;
  sa_notes : note_shape (sr_client_enc req) /\ note_shape (sr_producer_enc req);
  sa_funds : exists b, v_balances v !! sr_pubkey_hash req = Some b /\
                       (shield_cost req <= b)%N;
  sa_cost : is_u64 (shield_cost req);
  sa_outputs : outputs_bind (sr_proof req) (shield_outputs (v_auth_domain v) req);
  sa_room : (N.of_nat (length (v_notes v)) + 2 <= capacity)%N
}.

Definition transfer_outputs (auth_domain : F) (req : TransferReq) : list F :=
  [auth_domain; tr_root req] ++ tr_nullifiers req ++
  [u64_to_felt (tr_fee req); tr_cm_1 req; tr_cm_2 req; tr_cm_3 req;
   memo_ct_hash (tr_enc_1 req); memo_ct_hash (tr_enc_2 req); memo_ct_hash (tr_enc_3 req)].

(** The nullifiers of a transfer or an unshield: one to seven, distinct, unspent, and
    against an accepted root. *)
Record spends_ok (v : View) (root : F) (nullifiers : list F) : Prop := {
  so_count : (1 <= length nullifiers <= 7)%nat;
  so_root : root ∈ v_roots v;
  so_unspent : forall nf, nf ∈ nullifiers -> nf ∉ v_nullifiers v;
  so_distinct : NoDup nullifiers
}.

Record transfer_accepts (fee capacity : N) (v : View) (req : TransferReq) : Prop := {
  ta_fee : (fee <= tr_fee req)%N;
  ta_notes : note_shape (tr_enc_1 req) /\ note_shape (tr_enc_2 req) /\
             note_shape (tr_enc_3 req);
  ta_spends : spends_ok v (tr_root req) (tr_nullifiers req);
  ta_outputs : outputs_bind (tr_proof req) (transfer_outputs (v_auth_domain v) req);
  ta_room : (N.of_nat (length (v_notes v)) + 3 <= capacity)%N
}.

Definition unshield_outputs (auth_domain : F) (recipient : string) (req : UnshieldReq)
    : list F :=
  [auth_domain; ur_root req] ++ ur_nullifiers req ++
  [u64_to_felt (ur_v_pub req); u64_to_felt (ur_fee req); hash (str_bytes recipient);
   ur_cm_change req; from_option memo_ct_hash ZERO (ur_enc_change req);
   ur_cm_fee req; memo_ct_hash (ur_enc_fee req)].

(** The notes an unshield appends before and after its nullifiers: the change note,
    present exactly when its commitment is not zero, and the producer's note. *)
Definition unshield_change (req : UnshieldReq) : option (F * EncryptedNote) :=
  if decide (ur_cm_change req = ZERO) then None
  else (fun enc => (ur_cm_change req, enc)) <$> ur_enc_change req.

Definition change_consistent (req : UnshieldReq) : Prop :=
  match ur_enc_change req with
  | Some enc => ur_cm_change req <> ZERO /\ note_shape enc
  | None => ur_cm_change req = ZERO
  end.

Definition new_notes (req : UnshieldReq) : list (F * EncryptedNote) :=
  option_list (unshield_change req) ++ [(ur_cm_fee req, ur_enc_fee req)].

Record unshield_accepts (fee capacity : N) (v : View) (req : UnshieldReq)
    (recipient : string) : Prop := {
  ua_recipient : validate_l1_withdrawal_recipient (ur_recipient req) = Ok recipient;
  ua_fee : (fee <= ur_fee req)%N;
  ua_change : change_consistent req;
  ua_fee_note : note_shape (ur_enc_fee req) /\ ur_cm_fee req <> ZERO;
  ua_spends : spends_ok v (ur_root req) (ur_nullifiers req);
  ua_outputs : outputs_bind (ur_proof req) (unshield_outputs (v_auth_domain v) recipient req);
  ua_room : (N.of_nat (length (v_notes v)) + N.of_nat (length (new_notes req)) <= capacity)%N
}.

(** ** Effects *)

(** The view after a transition, up to the set of accepted roots. *)
Definition root_snapshot (before v' : View) : Prop :=
  exists roots, v' = with_roots roots before /\
    snapshot_of (v_root before) (v_roots before) roots.

Definition shield_effect (req : ShieldReq) (v : View) : View :=
  with_notes (v_notes v ++ [(sr_client_cm req, sr_client_enc req);
                            (sr_producer_cm req, sr_producer_enc req)])
    (with_shields ({[sr_client_cm req]} ∪ v_shields v)
      (with_balances (debited (sr_pubkey_hash req) (shield_cost req) (v_balances v)) v)).

Definition transfer_effect (req : TransferReq) (v : View) : View :=
  with_nullifiers (list_to_set (tr_nullifiers req) ∪ v_nullifiers v)
    (with_notes (v_notes v ++ [(tr_cm_1 req, tr_enc_1 req); (tr_cm_2 req, tr_enc_2 req);
                               (tr_cm_3 req, tr_enc_3 req)]) v).

Definition unshield_effect (req : UnshieldReq) (recipient : string) (v : View) : View :=
  with_nullifiers (list_to_set (ur_nullifiers req) ∪ v_nullifiers v)
    (with_notes (v_notes v ++ new_notes req)
      (with_withdrawals
        (v_withdrawals v ++ [{| wr_recipient := recipient; wr_amount := ur_v_pub req |}]) v)).

Definition shield_resp (req : ShieldReq) (v : View) : ShieldResp :=
  let i := N.of_nat (length (v_notes v)) in
  {| sp_cm := sr_client_cm req; sp_index := i;
     sp_producer_cm := sr_producer_cm req; sp_producer_index := i + 1 |}.

Definition transfer_resp (v : View) : TransferResp :=
  let i := N.of_nat (length (v_notes v)) in
  {| tp_index_1 := i; tp_index_2 := i + 1; tp_index_3 := i + 2 |}.

Definition unshield_resp (req : UnshieldReq) (v : View) : UnshieldResp :=
  let i := N.of_nat (length (v_notes v)) in
  match unshield_change req with
  | Some _ => {| up_change_index := Some i; up_producer_index := i + 1 |}
  | None => {| up_change_index := None; up_producer_index := i |}
  end.
End Acceptance.

(** ** The checks, as propositions *)
Section Checks.
Context `{Blake2s, Hex, TezosContracts, Target}.

Lemma expect_output_Ok tail i x msg u :
  expect_output tail i x msg = Ok u <-> tail !! i = Some x.
Proof.
  unfold expect_output. rewrite bind_Ok. setoid_rewrite index_at_Ok.
  setoid_rewrite fail_if_Ok. setoid_rewrite negb_false_iff.
  setoid_rewrite bool_decide_eq_true. naive_solver.
Qed.

Lemma expect_nullifiers_Ok tail i l u :
  expect_nullifiers tail i l = Ok u <->
  forall j nf, l !! j = Some nf -> tail !! (2 + i + j)%nat = Some nf.
Proof.
  revert i. induction l as [|nf l IH]; intros i; cbn [expect_nullifiers].
  - split; [by intros _ j nf|]. intros _. by destruct u.
  - rewrite seq_Ok, expect_output_Ok, IH. split.
    + intros [Hh Hl] [|j] nf' Hj; cbn in Hj; simplify_eq.
      * by rewrite Nat.add_0_r.
      * replace (2 + i + S j)%nat with (2 + (1 + i) + j)%nat by lia. by apply Hl.
    + intros Hl. split.
      * replace (2 + i)%nat with (2 + i + 0)%nat by lia. by apply Hl.
      * intros j nf' Hj. replace (2 + (1 + i) + j)%nat with (2 + i + S j)%nat by lia.
        by apply Hl.
Qed.

Lemma expect_output_no_panic tail i x msg :
  (i < length tail)%nat -> is_panic (expect_output tail i x msg) = false.
Proof. intros. unfold expect_output. auto with no_panic. Qed.

Lemma expect_nullifiers_no_panic tail i l :
  (2 + i + length l <= length tail)%nat -> is_panic (expect_nullifiers tail i l) = false.
Proof.
  revert i. induction l as [|nf l IH]; intros i Hl; cbn [expect_nullifiers length] in *.
  - done.
  - apply no_panic_bind; [apply expect_output_no_panic; lia|]. intros _ _. apply IH. lia.
Qed.

Lemma outputs_split (tail : list F) n k :
  length tail = (2 + n + k)%nat ->
  exists a b l r, tail = a :: b :: l ++ r /\ length l = n /\ length r = k.
Proof.
  intros Hl. destruct tail as [|a [|b t]]; try discriminate.
  exists a, b, (take n t), (drop n t). cbn in Hl.
  rewrite take_drop, length_take, length_drop. split; [done|]. lia.
Qed.

Lemma lookup_outputs (a b : F) l r i k :
  i = (2 + length l + k)%nat -> (a :: b :: l ++ r) !! i = r !! k.
Proof.
  intros ->. change ((l ++ r) !! (length l + k)%nat = r !! k).
  rewrite lookup_app_r by lia. f_equal. lia.
Qed.

Lemma expect_nullifiers_exact a b l r nfs u :
  length l = length nfs -> expect_nullifiers (a :: b :: l ++ r) 0 nfs = Ok u <-> l = nfs.
Proof.
  intros Hl. rewrite expect_nullifiers_Ok. split.
  - intros Hall. apply (list_eq_same_length _ _ _ eq_refl); [done|].
    intros j x y Hj Hx Hy. apply Hall in Hy.
    change ((l ++ r) !! j = Some y) in Hy. rewrite lookup_app_l in Hy by lia. congruence.
  - intros -> j nf Hj. change ((nfs ++ r) !! j = Some nf). rewrite lookup_app_l by by eapply lookup_lt_Some. done.
Qed.

(** Rewrites every check of a conjunction into what it means. *)
Create Rewrite HintDb checks.
#[local] Hint Rewrite @seq_Ok @expect_output_Ok @fail_if_Ok @negb_false_iff : checks.

Lemma shield_outputs_Ok d req :
  check_shield_outputs d (memo_ct_hash (sr_client_enc req))
    (memo_ct_hash (sr_producer_enc req)) req = Ok tt <->
  outputs_bind (sr_proof req) (shield_outputs d req).
Proof.
  unfold check_shield_outputs, outputs_bind. destruct (sr_proof req) as [|pb pre]; [done|].
  change (length (shield_outputs d req)) with 9%nat. rewrite bind_Ok. split.
  - intros (tail & Ht & Hc). rewrite Ht. f_equal.
    apply transition_public_outputs_length in Ht. autorewrite with checks in Hc.
    do 9 (destruct tail as [|? tail]; [discriminate|]). destruct tail; [|discriminate].
    cbn in Hc. unfold shield_outputs. naive_solver.
  - intros Ht. eexists. split; [exact Ht|]. autorewrite with checks. done.
Qed.

(** The layout shared by transfers and unshields: two felts, the nullifiers, seven
    felts. *)
Lemma outputs_layout tail nfs d root i0 i1 i2 i3 i4 i5 i6 x0 x1 x2 x3 x4 x5 x6 :
  let n := length nfs in
  length tail = (2 + n + 7)%nat ->
  i0 = (2 + n + 0)%nat -> i1 = (2 + n + 1)%nat -> i2 = (2 + n + 2)%nat ->
  i3 = (2 + n + 3)%nat -> i4 = (2 + n + 4)%nat -> i5 = (2 + n + 5)%nat ->
  i6 = (2 + n + 6)%nat ->
  (tail !! 0%nat = Some d /\ tail !! 1%nat = Some root /\
   expect_nullifiers tail 0 nfs = Ok tt /\
   tail !! i0 = Some x0 /\ tail !! i1 = Some x1 /\ tail !! i2 = Some x2 /\
   tail !! i3 = Some x3 /\ tail !! i4 = Some x4 /\ tail !! i5 = Some x5 /\
   tail !! i6 = Some x6) <->
  tail = [d; root] ++ nfs ++ [x0; x1; x2; x3; x4; x5; x6].
Proof.
  cbn zeta. intros Ht Hi0 Hi1 Hi2 Hi3 Hi4 Hi5 Hi6.
  apply outputs_split in Ht as (a & b & l & r & -> & Hl & Hr).
  rewrite expect_nullifiers_exact by done. rewrite <-Hl in *.
  rewrite (lookup_outputs _ _ _ _ _ _ Hi0), (lookup_outputs _ _ _ _ _ _ Hi1),
    (lookup_outputs _ _ _ _ _ _ Hi2), (lookup_outputs _ _ _ _ _ _ Hi3),
    (lookup_outputs _ _ _ _ _ _ Hi4), (lookup_outputs _ _ _ _ _ _ Hi5),
    (lookup_outputs _ _ _ _ _ _ Hi6).
  do 7 (destruct r as [|? r]; [discriminate|]). destruct r; [|discriminate].
  cbn. split; [naive_solver|]. intros E. apply cons_inj in E as [-> E].
  apply cons_inj in E as [-> E]. apply app_inj_1 in E as [-> E]; [|done].
  list_injection E. by subst.
Qed.

Lemma transfer_outputs_Ok {S : Type} `{LedgerState S} (s : S) d req :
  ls_auth_domain s = Ok d ->
  check_transfer_outputs s req = Ok tt <->
  outputs_bind (tr_proof req) (transfer_outputs d req).
Proof.
  intros Hd. unfold check_transfer_outputs, outputs_bind.
  destruct (tr_proof req) as [|pb pre]; [done|]. rewrite Hd.
  replace (length (transfer_outputs d req)) with (2 + length (tr_nullifiers req) + 7)%nat
    by (unfold transfer_outputs; rewrite !length_app; cbn; lia).
  rewrite bind_Ok. cbn [mbind result_bind]. split.
  - intros (tail & Ht & Hc). rewrite Ht. f_equal.
    apply transition_public_outputs_length in Ht. autorewrite with checks in Hc.
    apply outputs_layout in Hc; [done|done|lia..].
  - intros Ht. eexists. split; [exact Ht|]. apply transition_public_outputs_length in Ht.
    autorewrite with checks. apply outputs_layout; [done|lia..|done].
Qed.

Lemma unshield_outputs_Ok {S : Type} `{LedgerState S} (s : S) d recipient req :
  ls_auth_domain s = Ok d ->
  check_unshield_outputs s recipient req = Ok tt <->
  outputs_bind (ur_proof req) (unshield_outputs d recipient req).
Proof.
  intros Hd. unfold check_unshield_outputs, outputs_bind.
  destruct (ur_proof req) as [|pb pre]; [done|]. rewrite Hd.
  replace (length (unshield_outputs d recipient req))
    with (2 + length (ur_nullifiers req) + 7)%nat
    by (unfold unshield_outputs; rewrite !length_app; cbn; lia).
  rewrite bind_Ok. cbn [mbind result_bind].
  assert (forall tail, match ur_enc_change req with
    | Some enc => expect_output tail (6 + length (ur_nullifiers req)) (memo_ct_hash enc)
        "proof memo_ct_hash_change mismatch"
    | None => expect_output tail (6 + length (ur_nullifiers req)) ZERO
        "proof memo_ct_hash_change should be 0 when no change" end = Ok tt <->
    tail !! (6 + length (ur_nullifiers req))%nat =
      Some (from_option memo_ct_hash ZERO (ur_enc_change req))) as Hch.
  { intros tail. by destruct (ur_enc_change req); rewrite expect_output_Ok. }
  split.
  - intros (tail & Ht & Hc). rewrite Ht. f_equal.
    apply transition_public_outputs_length in Ht. autorewrite with checks in Hc.
    rewrite Hch in Hc. apply outputs_layout in Hc; [done|done|lia..].
  - intros Ht. eexists. split; [exact Ht|]. apply transition_public_outputs_length in Ht.
    autorewrite with checks. rewrite Hch. apply outputs_layout; [done|lia..|done].
Qed.
End Checks.
