(* ===== verification/LedgerCorrect.v ===== *)
(** * LedgerCorrect: the transitions meet their specification

    Every theorem of this file holds for any implementation of [LedgerLaws]. *)

From S2P Require Import Prelude Felt Externals Concrete Recipients Types Hashing Outputs.
From S2P Require Import Merkle Ledger LedgerSpec.

Section Correct.
Context `{Blake2s, Hex, TezosContracts, Target}.
Context {S : Type} `{!LedgerState S} `{!LedgerLaws S}.
Implicit Types s : S.

(** ** Validation *)

Lemma check_fee_Ok s fee u :
  ll_inv s -> check_fee s fee = Ok u <-> (ll_fee s <= fee)%N.
Proof.
  intros Hs. unfold check_fee. rewrite ll_required_fee by done.
  cbn [mbind result_bind]. by rewrite fail_if_Ok, N.ltb_ge.
Qed.

Lemma check_fee_no_panic s fee : ll_inv s -> is_panic (check_fee s fee) = false.
Proof. intros Hs. unfold check_fee. rewrite ll_required_fee by done. no_panic. Qed.

Lemma validate_as_Ok what e u : validate_as what e = Ok u <-> note_shape e.
Proof. unfold validate_as. by rewrite map_err_Ok, validate_Ok. Qed.

Lemma validate_as_no_panic what e : is_panic (validate_as what e) = false.
Proof. unfold validate_as. no_panic. Qed.

Lemma check_root_Ok s root u :
  ll_inv s -> check_root s root = Ok u <-> root ∈ v_roots (ll_view s).
Proof.
  intros Hs. unfold check_root. rewrite ll_valid_root by done. cbn [mbind result_bind].
  by rewrite fail_if_Ok, negb_false_iff, bool_decide_eq_true.
Qed.

Lemma check_root_no_panic s root : ll_inv s -> is_panic (check_root s root) = false.
Proof. intros Hs. unfold check_root. rewrite ll_valid_root by done. no_panic. Qed.

Lemma check_unspent_Ok s l :
  ll_inv s ->
  check_unspent s l = Ok tt <-> forall nf, nf ∈ l -> nf ∉ v_nullifiers (ll_view s).
Proof.
  intros Hs. induction l as [|nf l IH]; cbn [check_unspent].
  - split; [intros _ nf Hin; by apply not_elem_of_nil in Hin | done].
  - rewrite ll_nullifier by done. cbn [mbind result_bind].
    rewrite seq_Ok, fail_if_Ok, IH, bool_decide_eq_false.
    setoid_rewrite elem_of_cons. naive_solver.
Qed.

Lemma check_unspent_no_panic s l : ll_inv s -> is_panic (check_unspent s l) = false.
Proof.
  intros Hs. induction l as [|nf l IH]; cbn [check_unspent]; [done|].
  rewrite ll_nullifier by done. no_panic.
Qed.

Lemma check_count_Ok l u :
  check_nullifier_count l = Ok u <-> (1 <= length l <= 7)%nat.
Proof.
  unfold check_nullifier_count. rewrite fail_if_Ok, orb_false_iff, Nat.eqb_neq, Nat.ltb_ge.
  lia.
Qed.

Lemma check_count_no_panic l : is_panic (check_nullifier_count l) = false.
Proof. unfold check_nullifier_count. no_panic. Qed.

Lemma outputs_no_panic pre n k :
  (forall tail, length tail = n -> is_panic (k tail) = false) ->
  is_panic (transition_public_outputs pre n ≫= (k : list F -> result unit)) = false.
Proof.
  intros Hk. apply no_panic_bind; [apply transition_public_outputs_no_panic|].
  intros tail Ht. eapply Hk, transition_public_outputs_length, Ht.
Qed.

Lemma ensure_no_panic s n : ll_inv s -> is_panic (ls_ensure_note_capacity s n) = false.
Proof. apply ll_ensure_no_panic. Qed.

Hint Resolve check_fee_no_panic validate_as_no_panic check_root_no_panic
  check_unspent_no_panic check_count_no_panic ensure_no_panic : no_panic.
Hint Extern 2 (is_panic (expect_output _ _ _ _) = false) =>
  apply expect_output_no_panic; lia : no_panic.
Hint Extern 2 (is_panic (expect_nullifiers _ _ _) = false) =>
  apply expect_nullifiers_no_panic; lia : no_panic.

Lemma shield_outputs_no_panic d m1 m2 req :
  is_panic (check_shield_outputs d m1 m2 req) = false.
Proof.
  unfold check_shield_outputs. destruct (sr_proof req); [done|].
  apply outputs_no_panic. intros tail Ht. no_panic.
Qed.

Lemma transfer_outputs_no_panic s req :
  ll_inv s -> is_panic (check_transfer_outputs s req) = false.
Proof.
  intros Hs. unfold check_transfer_outputs. destruct (tr_proof req); [done|].
  apply outputs_no_panic. intros tail Ht. rewrite ll_auth_domain by done.
  no_panic.
Qed.

Lemma unshield_outputs_no_panic s r req :
  ll_inv s -> is_panic (check_unshield_outputs s r req) = false.
Proof.
  intros Hs. unfold check_unshield_outputs. destruct (ur_proof req); [done|].
  apply outputs_no_panic. intros tail Ht. rewrite ll_auth_domain by done.
  destruct (ur_enc_change req); no_panic.
Qed.

Hint Resolve shield_outputs_no_panic transfer_outputs_no_panic unshield_outputs_no_panic
  : no_panic.

Lemma shield_debit_Ok req d :
  shield_debit req = Ok d <-> d = shield_cost req /\ is_u64 (shield_cost req).
Proof.
  unfold shield_debit, shield_cost, is_u64. rewrite ok_or_Ok, bind_Some.
  unfold checked_add_u64. setoid_rewrite checked_add_Some. split.
  - intros (x & [-> Hx] & -> & Hd). done.
  - intros [-> Hd]. eexists. repeat split; lia.
Qed.

Definition prepared_shield (req : ShieldReq) : PreparedShield :=
  {| ps_pubkey_hash := sr_pubkey_hash req; ps_debit := shield_cost req;
     ps_client_cm := sr_client_cm req; ps_client_enc := sr_client_enc req;
     ps_producer_cm := sr_producer_cm req; ps_producer_enc := sr_producer_enc req |}.

Lemma prepare_shield_Ok s req p :
  ll_inv s ->
  prepare_shield req s = Ok p <->
  shield_accepts (ll_fee s) ll_capacity (ll_view s) req /\ p = prepared_shield req.
Proof.
  intros Hs. unfold prepare_shield.
  rewrite seq_Ok, check_fee_Ok by done. rewrite !seq_Ok, !fail_if_Ok.
  rewrite ll_applied by done. cbn [mbind result_bind].
  rewrite !seq_Ok, !fail_if_Ok, !validate_as_Ok, !bool_decide_eq_false, N.eqb_neq.
  rewrite ll_auth_domain by done. cbn [mbind result_bind].
  rewrite bind_Ok. setoid_rewrite shield_debit_Ok.
  rewrite ll_balance by done. cbn [mbind result_bind]. setoid_rewrite bind_Ok.
  setoid_rewrite ok_or_Ok. setoid_rewrite seq_Ok. setoid_rewrite fail_if_Ok.
  setoid_rewrite N.ltb_ge. setoid_rewrite seq_Ok. setoid_rewrite shield_outputs_Ok.
  setoid_rewrite seq_Ok. setoid_rewrite (ll_ensure_ok s); [|done]. split.
  - intros (Hfee & Hpf & Hc & Hp & Hf & Hn1 & Hn2 & d & [-> Hd] & b & Hb & Hle & Ho & Hr & E).
    injection E as <-. split; [|done]. constructor; try done. by exists b.
  - intros [[Hfee Hpf [Hc Hp] Hf [Hn1 Hn2] (b & Hb & Hle) Hd Ho Hr] ->].
    repeat (split; [done|]). eexists. split; [done|]. by exists b.
Qed.

Lemma prepare_shield_no_panic s req : ll_inv s -> is_panic (prepare_shield req s) = false.
Proof.
  intros Hs. unfold prepare_shield. rewrite ll_applied, ll_auth_domain, ll_balance by done.
  unfold shield_debit. no_panic.
Qed.

Lemma spends_checks s root l :
  ll_inv s ->
  check_nullifier_count l = Ok tt /\ check_root s root = Ok tt /\
  check_unspent s l = Ok tt /\ has_duplicate l = false <->
  spends_ok (ll_view s) root l.
Proof.
  intros Hs. rewrite check_count_Ok, check_root_Ok, check_unspent_Ok, has_duplicate_false by done.
  split; [by intros (?&?&?&?) | by intros []].
Qed.

Lemma prepare_transfer_Ok s req :
  ll_inv s ->
  prepare_transfer req s = Ok tt <->
  transfer_accepts (ll_fee s) ll_capacity (ll_view s) req.
Proof.
  intros Hs. unfold prepare_transfer.
  rewrite seq_Ok, check_fee_Ok by done.
  rewrite !seq_Ok, !validate_as_Ok, fail_if_Ok, ll_ensure_ok by done.
  rewrite (transfer_outputs_Ok s (v_auth_domain (ll_view s))) by by apply ll_auth_domain.
  pose proof (spends_checks s (tr_root req) (tr_nullifiers req) Hs) as Hsp.
  split; [|intros [? (?&?&?) ? ? ?]]; intuition.
  by constructor; intuition.
Qed.

Lemma prepare_transfer_no_panic s req :
  ll_inv s -> is_panic (prepare_transfer req s) = false.
Proof. intros Hs. unfold prepare_transfer. no_panic. Qed.

Definition prepared_unshield (req : UnshieldReq) (recipient : string) : PreparedUnshield :=
  {| pu_change_note := unshield_change req;
     pu_producer_note := (ur_cm_fee req, ur_enc_fee req);
     pu_nullifiers := ur_nullifiers req;
     pu_recipient := recipient;
     pu_amount := ur_v_pub req |}.

Definition change_step (req : UnshieldReq) : result (option (F * EncryptedNote)) :=
  if negb (bool_decide (ur_cm_change req = ZERO))
  then enc ← ok_or (ur_enc_change req) "change cm without encrypted note";
       mret (Some (ur_cm_change req, enc))
  else mret None.

Lemma change_Ok req c :
  check_change_note req = Ok tt /\ change_step req = Ok c <->
  change_consistent req /\ c = unshield_change req.
Proof.
  unfold check_change_note, change_step, change_consistent, unshield_change.
  case_bool_decide as E; destruct (ur_enc_change req) as [enc|]; cbn;
    rewrite ?validate_as_Ok; destruct (decide _); try done; cbn.
  - split; [by intros [? _] | by intros [[? _] _]].
  - split; [by intros [_ [= <-]] | by intros [_ ->]].
  - split; [by intros [? [= <-]] | by intros [[_ ?] ->]].
  - split; [by intros [_ ?] | by intros [? _]].
Qed.

Lemma new_notes_length req :
  change_consistent req ->
  ((if negb (bool_decide (ur_cm_change req = ZERO)) then 1 else 0) + 1 =
   N.of_nat (length (new_notes req)))%N.
Proof.
  unfold change_consistent, new_notes, unshield_change. intros Hc.
  case_bool_decide as E; destruct (decide _); try done;
    by destruct (ur_enc_change req) as [enc|]; [destruct Hc|].
Qed.

Lemma prepare_unshield_Ok s req p :
  ll_inv s ->
  prepare_unshield req s = Ok p <->
  exists r, unshield_accepts (ll_fee s) ll_capacity (ll_view s) req r /\
            p = prepared_unshield req r.
Proof.
  intros Hs. unfold prepare_unshield. fold (change_step req). rewrite bind_Ok.
  apply exist_proper. intros r.
  rewrite seq_Ok, check_fee_Ok by done.
  rewrite !seq_Ok, !validate_as_Ok, !fail_if_Ok, bool_decide_eq_false, ll_ensure_ok by done.
  rewrite (unshield_outputs_Ok s (v_auth_domain (ll_view s))) by by apply ll_auth_domain.
  rewrite bind_Ok. pose proof (spends_checks s (ur_root req) (ur_nullifiers req) Hs) as Hsp.
  pose proof (change_Ok req) as Hch. pose proof (new_notes_length req) as Hlen. split.
  - intros (Hr & Hfee & Hc & Hn & Hfn & Hz & Hrt & Hu & Hd & Ho & Hroom & c & Hcs & [= <-]).
    destruct (proj1 (Hch c) (conj Hn Hcs)) as [Hcc ->]. rewrite (Hlen Hcc) in Hroom.
    split; [|done]. constructor; try done. by apply Hsp.
  - intros [[Hr Hfee Hcc [Hfn Hz] Hspend Ho Hroom] ->].
    apply Hsp in Hspend as (?&?&?&?). rewrite <-(Hlen Hcc) in Hroom.
    destruct (proj2 (Hch _) (conj Hcc eq_refl)) as [Hn Hcs].
    repeat (split; [done|]). by eexists.
Qed.

Lemma prepare_unshield_no_panic s req :
  ll_inv s -> is_panic (prepare_unshield req s) = false.
Proof.
  intros Hs. unfold prepare_unshield, validate_l1_withdrawal_recipient, check_change_note.
  fold (change_step req). no_panic.
  - by destruct (contract_from_b58check _).
  - destruct (bool_decide (ur_cm_change req = ZERO)), (ur_enc_change req); no_panic.
  - unfold change_step. destruct (negb _); no_panic.
Qed.

(** ** Commits *)

(** Sizes on the way stay below the one the whole request reaches. *)
Lemma fits_below s m n :
  ll_fits (view_size (ll_view s) + n) -> (m <= n)%N -> ll_fits (view_size (ll_view s) + m).
Proof. intros Hf Hle. eapply ll_fits_le; [|exact Hf]. lia. Qed.

(** [Hf : ll_fits (..)] bounds the size of the view that [V] describes. *)
Ltac fits Hf V :=
  eapply ll_fits_le; [|exact Hf]; rewrite V; unfold view_size, OP_GROWTH;
  cbn [v_notes v_nullifiers v_roots v_withdrawals with_notes with_nullifiers with_withdrawals
       with_balances with_shields];
  rewrite ?length_app; cbn [length]; lia.

Lemma insert_nullifiers s l :
  ll_inv s -> ll_fits (view_size (ll_view s) + N.of_nat (length l)) -> exists s',
    for_each ls_insert_nullifier l s = (s', Ok tt) /\ ll_inv s' /\
    ll_view s' = with_nullifiers (list_to_set l ∪ v_nullifiers (ll_view s)) (ll_view s).
Proof.
  revert s. induction l as [|nf l IH]; intros s Hs Hf; cbn [for_each].
  - exists s. split; [done|]. split; [done|]. cbn. rewrite union_empty_l_L. by destruct (ll_view s).
  - destruct (ll_insert_nullifier s nf Hs) as (s1 & E1 & I1 & V1);
      [eapply fits_below; [exact Hf|cbn; lia]|].
    destruct (IH s1 I1) as (s2 & E2 & I2 & V2).
    { eapply ll_fits_le; [|exact Hf]. rewrite V1.
      pose proof (view_size_nullifiers [nf] (ll_view s)) as Hv. cbn in *.
      rewrite union_empty_r_L in Hv. lia. }
    st_run E1.
    exists s2. split; [done|]. split; [done|]. rewrite V2, V1.
    unfold with_nullifiers. cbn. f_equal. set_solver.
Qed.

(** The last two steps of every commit. *)
Lemma finish {A} s (resp : A) :
  ll_inv s -> ll_fits (view_size (ll_view s) + 1) -> exists s',
    (ls_snapshot_root ;; writes ls_note_private_tx_applied ;; mret resp) s = (s', Ok resp) /\
    ll_inv s' /\ root_snapshot (ll_view s) (ll_view s').
Proof.
  intros Hs Hf. destruct (ll_snapshot_root s Hs Hf) as (s1 & roots & E1 & I1 & V1 & R1).
  destruct (ll_note_applied s1 I1) as [I2 V2].
  exists (ls_note_private_tx_applied s1). st_run E1. split; [done|].
  split; [done|]. exists roots. by rewrite V2, V1.
Qed.

Lemma commit_shield_Ok s req :
  ll_inv s -> ll_fits (view_size (ll_view s) + OP_GROWTH) ->
  shield_accepts (ll_fee s) ll_capacity (ll_view s) req ->
  exists s',
    commit_prepared_shield (prepared_shield req) s = (s', Ok (shield_resp req (ll_view s))) /\
    ll_inv s' /\ root_snapshot (shield_effect req (ll_view s)) (ll_view s').
Proof.
  intros Hs Hf [_ _ _ _ [Hn1 Hn2] (b & Hb & Hle) _ _ Hroom]. unfold commit_prepared_shield.
  destruct (ll_debit s _ _ b Hs Hb Hle) as (s1 & E1 & I1 & V1).
  cbn [ps_pubkey_hash ps_debit ps_client_cm ps_client_enc ps_producer_cm ps_producer_enc
    prepared_shield].
  st_run E1.
  destruct (ll_mark s1 (sr_client_cm req) I1) as (s2 & E2 & I2 & V2).
  st_run E2. rewrite V1 in V2. cbn in V2.
  destruct (ll_append_note s2 (sr_client_cm req) (sr_client_enc req) I2 Hn1) as (s3 & E3 & I3 & V3);
    [rewrite V2; cbn; lia|fits Hf V2|].
  st_run E3. rewrite V2 in V3. cbn in V3.
  destruct (ll_append_note s3 (sr_producer_cm req) (sr_producer_enc req) I3 Hn2) as (s4 & E4 & I4 & V4);
    [rewrite V3; cbn; rewrite length_app; cbn; lia|fits Hf V3|].
  st_run E4. rewrite V3 in V4. cbn in V4.
  match goal with |- context [mret ?r] => destruct (finish s4 r I4) as (s5 & E5 & I5 & V5) end;
    [fits Hf V4|].
  exists s5. split; [|split; [done|]].
  - rewrite E5, V3, V2. cbn. rewrite length_app. cbn. unfold shield_resp.
    do 3 f_equal; lia.
  - rewrite V4 in V5. rewrite <-app_assoc in V5. exact V5.
Qed.

Lemma commit_transfer_Ok s req :
  ll_inv s -> ll_fits (view_size (ll_view s) + OP_GROWTH) ->
  transfer_accepts (ll_fee s) ll_capacity (ll_view s) req ->
  exists s',
    commit_transfer req s = (s', Ok (transfer_resp (ll_view s))) /\
    ll_inv s' /\ root_snapshot (transfer_effect req (ll_view s)) (ll_view s').
Proof.
  intros Hs Hf [_ (Hn1 & Hn2 & Hn3) [Hcount _ _ _] _ Hroom]. unfold commit_transfer.
  destruct (ll_append_note s (tr_cm_1 req) (tr_enc_1 req) Hs Hn1) as (s1 & E1 & I1 & V1);
    [lia|by eapply fits_below|].
  st_run E1.
  destruct (ll_append_note s1 (tr_cm_2 req) (tr_enc_2 req) I1 Hn2) as (s2 & E2 & I2 & V2);
    [rewrite V1; cbn; rewrite length_app; cbn; lia|fits Hf V1|].
  st_run E2. rewrite V1 in V2. cbn in V2. rewrite <-app_assoc in V2. cbn in V2.
  destruct (ll_append_note s2 (tr_cm_3 req) (tr_enc_3 req) I2 Hn3) as (s3 & E3 & I3 & V3);
    [rewrite V2; cbn; rewrite length_app; cbn; lia|fits Hf V2|].
  st_run E3. rewrite V2 in V3. cbn in V3. rewrite <-app_assoc in V3. cbn in V3.
  destruct (insert_nullifiers s3 (tr_nullifiers req) I3) as (s4 & E4 & I4 & V4); [fits Hf V3|].
  pose proof (view_size_nullifiers (tr_nullifiers req) (ll_view s3)) as Hsz.
  rewrite <-V4 in Hsz.
  st_run E4. rewrite V3 in V4. cbn in V4.
  match goal with |- context [mret ?r] => destruct (finish s4 r I4) as (s5 & E5 & I5 & V5) end.
  { eapply ll_fits_le; [|exact Hf]. rewrite V3 in Hsz. unfold view_size, OP_GROWTH in *.
    cbn [v_notes v_nullifiers v_roots v_withdrawals with_notes] in Hsz.
    rewrite length_app in Hsz. cbn [length] in Hsz. lia. }
  exists s5. split; [|split; [done|by rewrite V4 in V5]].
  rewrite E5, V1, V2. cbn. rewrite !length_app. cbn. unfold transfer_resp.
  do 3 f_equal; lia.
Qed.

(** The optional change note of an unshield. *)
Lemma append_change s s1 req :
  ll_inv s1 -> change_consistent req ->
  v_notes (ll_view s1) = v_notes (ll_view s) -> ll_fits (view_size (ll_view s1) + 1) ->
  (N.of_nat (length (v_notes (ll_view s))) + N.of_nat (length (new_notes req)) <= ll_capacity)%N ->
  exists s2,
    match unshield_change req with
    | Some (cm, enc) => i ← ls_append_note cm enc; mret (Some i)
    | None => mret None
    end s1 = (s2, Ok (up_change_index (unshield_resp req (ll_view s)))) /\ ll_inv s2 /\
    ll_view s2 = with_notes (v_notes (ll_view s) ++ option_list (unshield_change req))
      (ll_view s1).
Proof.
  intros I1 Hcc Hnotes Hf Hroom. unfold unshield_resp, new_notes in *.
  destruct (unshield_change req) as [[cm enc]|] eqn:Ec.
  - destruct (ll_append_note s1 cm enc I1) as (s2 & E2 & I2 & V2).
    + unfold unshield_change, change_consistent in *.
      destruct (decide _), (ur_enc_change req); naive_solver.
    + rewrite Hnotes. cbn in *. lia.
    + done.
    + exists s2. st_run E2. rewrite Hnotes in *. by cbn in *.
  - exists s1. split; [done|]. split; [done|]. cbn. rewrite app_nil_r, <-Hnotes.
    by destruct (ll_view s1).
Qed.

Lemma commit_unshield_Ok s req r :
  ll_inv s -> is_u64 (ur_v_pub req) -> ll_fits (view_size (ll_view s) + OP_GROWTH) ->
  unshield_accepts (ll_fee s) ll_capacity (ll_view s) req r ->
  exists s',
    commit_prepared_unshield (prepared_unshield req r) s =
      (s', Ok (unshield_resp req (ll_view s))) /\
    ll_inv s' /\ root_snapshot (unshield_effect req r (ll_view s)) (ll_view s').
Proof.
  intros Hs Hv Hf [_ _ Hcc [Hfn _] [Hcount _ _ _] _ Hroom].
  unfold commit_prepared_unshield, prepared_unshield.
  cbn [pu_change_note pu_producer_note pu_nullifiers pu_recipient pu_amount fst snd].
  assert (length (option_list (unshield_change req)) <= 1)%nat as Hch
    by (destruct (unshield_change req); cbn; lia).
  destruct (ll_enqueue s r (ur_v_pub req) Hs Hv) as (s1 & E1 & I1 & V1); [by eapply fits_below|].
  st_run E1.
  destruct (append_change s s1 req I1 Hcc) as (s2 & E2 & I2 & V2);
    [by rewrite V1|fits Hf V1|done|].
  st_run E2. rewrite V1 in V2. cbn in V2.
  destruct (insert_nullifiers s2 (ur_nullifiers req) I2) as (s3 & E3 & I3 & V3); [fits Hf V2|].
  pose proof (view_size_nullifiers (ur_nullifiers req) (ll_view s2)) as Hsz.
  rewrite <-V3, V2 in Hsz. unfold view_size in Hsz at 2.
  cbn [v_notes v_nullifiers v_roots v_withdrawals with_notes with_withdrawals] in Hsz.
  rewrite !length_app in Hsz. cbn [length] in Hsz.
  st_run E3. rewrite V2 in V3. cbn in V3.
  destruct (ll_append_note s3 (ur_cm_fee req) (ur_enc_fee req) I3 Hfn) as (s4 & E4 & I4 & V4).
  { rewrite V3. cbn. unfold new_notes in Hroom. rewrite length_app in *. cbn in *. lia. }
  { eapply ll_fits_le; [|exact Hf]. unfold view_size at 2, OP_GROWTH. lia. }
  assert (view_size (ll_view s4) = view_size (ll_view s3) + 1)%N as Hsz4.
  { rewrite V4. unfold view_size. cbn [v_notes v_nullifiers v_roots v_withdrawals with_notes].
    rewrite length_app. cbn. lia. }
  st_run E4. rewrite V3 in V4. cbn in V4.
  match goal with |- context [mret ?r] => destruct (finish s4 r I4) as (s5 & E5 & I5 & V5) end.
  { eapply ll_fits_le; [|exact Hf]. rewrite Hsz4. unfold view_size at 2, OP_GROWTH. lia. }
  exists s5. split; [|split; [done|]].
  - rewrite E5, V3. cbn. rewrite length_app. unfold unshield_resp.
    destruct (unshield_change req); cbn; do 3 f_equal; lia.
  - rewrite V4 in V5. rewrite <-app_assoc in V5. exact V5.
Qed.

(** ** Deposits *)

Lemma parse_deposit_no_panic r :
  (forall b, is_panic (hex_decode b) = false) ->
  is_panic (parse_deposit_recipient_pubkey_hash r) = false.
Proof. intros Hh. unfold parse_deposit_recipient_pubkey_hash. no_panic. Qed.

(** ** The four transitions *)

(** Validation followed by the writes it prepared. *)
Lemma apply_shield_run s req p :
  prepare_shield req s = Ok p -> apply_shield req s = commit_prepared_shield p s.
Proof. intros E. unfold apply_shield, mbind, ST_bind, reads. by rewrite E. Qed.

Lemma apply_transfer_run s req :
  prepare_transfer req s = Ok tt -> apply_transfer req s = commit_transfer req s.
Proof. intros E. unfold apply_transfer, mbind, ST_bind, reads. by rewrite E. Qed.

Lemma apply_unshield_run s req p :
  prepare_unshield req s = Ok p -> apply_unshield req s = commit_prepared_unshield p s.
Proof. intros E. unfold apply_unshield, mbind, ST_bind, reads. by rewrite E. Qed.

Lemma apply_shield_outcome s (req : ShieldReq) :
  ll_inv s ->
  (shield_accepts (ll_fee s) ll_capacity (ll_view s) req ->
   ll_fits (view_size (ll_view s) + OP_GROWTH) -> exists s',
     apply_shield req s = (s', Ok (shield_resp req (ll_view s))) /\ ll_inv s' /\
     root_snapshot (shield_effect req (ll_view s)) (ll_view s')) /\
  (~ shield_accepts (ll_fee s) ll_capacity (ll_view s) req -> exists e,
     apply_shield req s = (s, Err e)).
Proof.
  intros Hs. split.
  - intros Ha Hf.
    rewrite (apply_shield_run _ _ _ (proj2 (prepare_shield_Ok s req _ Hs) (conj Ha eq_refl))).
    by apply commit_shield_Ok.
  - intros Hn. unfold apply_shield, mbind, ST_bind, reads. destruct (not_ok_Err (prepare_shield req s)) as [e ->];
      [by apply prepare_shield_no_panic | | by exists e].
    intros p Hp. by apply prepare_shield_Ok in Hp as [? _].
Qed.

(** C7: a shield succeeds exactly on an admissible request; it then debits
    [v + fee + producer_fee] from the pool once, records the client commitment and
    appends both notes; any other request is an error that changes nothing. *)
Theorem apply_shield_correct s (req : ShieldReq) :
  ll_inv s ->
  (shield_accepts (ll_fee s) ll_capacity (ll_view s) req ->
   ll_fits (view_size (ll_view s) + OP_GROWTH) -> exists s',
     apply_shield req s = (s', Ok (shield_resp req (ll_view s))) /\ ll_inv s' /\
     root_snapshot (shield_effect req (ll_view s)) (ll_view s')) /\
  (~ shield_accepts (ll_fee s) ll_capacity (ll_view s) req -> exists e,
     apply_shield req s = (s, Err e)).
Proof. apply apply_shield_outcome. Qed.

Lemma apply_transfer_outcome s (req : TransferReq) :
  ll_inv s ->
  (transfer_accepts (ll_fee s) ll_capacity (ll_view s) req ->
   ll_fits (view_size (ll_view s) + OP_GROWTH) -> exists s',
     apply_transfer req s = (s', Ok (transfer_resp (ll_view s))) /\ ll_inv s' /\
     root_snapshot (transfer_effect req (ll_view s)) (ll_view s')) /\
  (~ transfer_accepts (ll_fee s) ll_capacity (ll_view s) req -> exists e,
     apply_transfer req s = (s, Err e)).
Proof.
  intros Hs. split.
  - intros Ha Hf. rewrite apply_transfer_run by by apply prepare_transfer_Ok.
    by apply commit_transfer_Ok.
  - intros Hn. unfold apply_transfer, mbind, ST_bind, reads. destruct (not_ok_Err (prepare_transfer req s)) as [e ->];
      [by apply prepare_transfer_no_panic | | by exists e].
    intros [] Hp. by apply prepare_transfer_Ok in Hp.
Qed.

(** C6: a transfer succeeds exactly on an admissible request; it then spends
    its nullifiers and appends its three notes in order; any other request is an error
    that changes nothing. *)
Theorem apply_transfer_correct s (req : TransferReq) :
  ll_inv s ->
  (transfer_accepts (ll_fee s) ll_capacity (ll_view s) req ->
   ll_fits (view_size (ll_view s) + OP_GROWTH) -> exists s',
     apply_transfer req s = (s', Ok (transfer_resp (ll_view s))) /\ ll_inv s' /\
     root_snapshot (transfer_effect req (ll_view s)) (ll_view s')) /\
  (~ transfer_accepts (ll_fee s) ll_capacity (ll_view s) req -> exists e,
     apply_transfer req s = (s, Err e)).
Proof. apply apply_transfer_outcome. Qed.

Lemma apply_unshield_outcome s (req : UnshieldReq) :
  ll_inv s -> is_u64 (ur_v_pub req) ->
  (forall r, unshield_accepts (ll_fee s) ll_capacity (ll_view s) req r ->
   ll_fits (view_size (ll_view s) + OP_GROWTH) -> exists s',
     apply_unshield req s = (s', Ok (unshield_resp req (ll_view s))) /\ ll_inv s' /\
     root_snapshot (unshield_effect req r (ll_view s)) (ll_view s')) /\
  ((forall r, ~ unshield_accepts (ll_fee s) ll_capacity (ll_view s) req r) -> exists e,
     apply_unshield req s = (s, Err e)).
Proof.
  intros Hs Hv. split.
  - intros r Ha Hf. rewrite (apply_unshield_run _ _ (prepared_unshield req r))
      by (apply prepare_unshield_Ok; eauto).
    by apply commit_unshield_Ok.
  - intros Hn. unfold apply_unshield, mbind, ST_bind, reads. destruct (not_ok_Err (prepare_unshield req s)) as [e ->];
      [by apply prepare_unshield_no_panic | | by exists e].
    intros p Hp. apply prepare_unshield_Ok in Hp as (r & Ha & _); [|done]. by apply (Hn r).
Qed.

(** C5: an unshield succeeds exactly on an admissible request; it then queues
    one withdrawal of [v_pub] to the validated recipient, spends its nullifiers and
    appends the change note, if any, and the producer's note; any other request is an
    error that changes nothing. *)
Theorem apply_unshield_correct s (req : UnshieldReq) :
  ll_inv s -> is_u64 (ur_v_pub req) ->
  (forall r, unshield_accepts (ll_fee s) ll_capacity (ll_view s) req r ->
   ll_fits (view_size (ll_view s) + OP_GROWTH) -> exists s',
     apply_unshield req s = (s', Ok (unshield_resp req (ll_view s))) /\ ll_inv s' /\
     root_snapshot (unshield_effect req r (ll_view s)) (ll_view s')) /\
  ((forall r, ~ unshield_accepts (ll_fee s) ll_capacity (ll_view s) req r) -> exists e,
     apply_unshield req s = (s, Err e)).
Proof. apply apply_unshield_outcome. Qed.

(** ** Histories *)

Inductive op :=
| ODeposit (recipient : string) (amount : N)
| OShield (req : ShieldReq)
| OTransfer (req : TransferReq)
| OUnshield (req : UnshieldReq).

Definition exec (o : op) : ST S unit :=
  match o with
  | ODeposit recipient amount => apply_deposit recipient amount
  | OShield req => apply_shield req ;; mret tt
  | OTransfer req => apply_transfer req ;; mret tt
  | OUnshield req => apply_unshield req ;; mret tt
  end.

(** A ledger serves requests one after the other; a rejected one is dropped.  The
    result is the last state and the accepted requests, oldest first. *)
Fixpoint serve (ops : list op) (s : S) : S * list op :=
  match ops with
  | [] => (s, [])
  | o :: ops =>
      let '(s1, r) := exec o s in
      let '(s2, accepted) := serve ops s1 in
      (s2, if is_ok r then o :: accepted else accepted)
  end.

(** Deposited and withdrawn amounts are [u64]s. *)
Definition op_ok (o : op) : Prop :=
  match o with
  | ODeposit _ amount => is_u64 amount
  | OUnshield req => is_u64 (ur_v_pub req)
  | _ => True
  end.

(** The abstract transition an accepted request takes. *)
Definition op_step (fee : N) (v : View) (o : op) (v' : View) : Prop :=
  match o with
  | ODeposit recipient amount => exists k next,
      parse_deposit_recipient_pubkey_hash recipient = Ok k /\
      checked_add_u64 (default 0%N (v_balances v !! k)) amount = Some next /\
      v' = with_balances (<[k := next]> (v_balances v)) v
  | OShield req =>
      shield_accepts fee ll_capacity v req /\ root_snapshot (shield_effect req v) v'
  | OTransfer req =>
      transfer_accepts fee ll_capacity v req /\ root_snapshot (transfer_effect req v) v'
  | OUnshield req => exists r,
      unshield_accepts fee ll_capacity v req r /\ root_snapshot (unshield_effect req r v) v'
  end.

(** What the hex crate is assumed to do on any input: return. *)
Context (hex_total : forall b, is_panic (hex_decode b) = false).

Lemma exec_cases s (o : op) :
  ll_inv s -> op_ok o -> ll_fits (view_size (ll_view s) + OP_GROWTH) ->
  (exists s', exec o s = (s', Ok tt) /\ ll_inv s' /\ op_step (ll_fee s) (ll_view s) o (ll_view s')) \/
  (exists e, exec o s = (s, Err e)).
Proof.
  intros Hs Ho Hf. destruct o as [r a|req|req|req]; cbn [exec op_step op_ok] in *.
  - unfold apply_deposit. destruct (parse_deposit_recipient_pubkey_hash r) as [k|e|w] eqn:Ep.
    + unfold mbind, ST_bind, lift. pose proof (ll_credit s k a Hs Ho) as Hc.
      destruct (checked_add_u64 _ a) as [next|] eqn:Ea; [|by right].
      destruct Hc as (s' & E & I & V). left. exists s'. split; [done|]. split; [done|]. eauto.
    + right. by exists e.
    + pose proof (parse_deposit_no_panic r hex_total) as Hp. by rewrite Ep in Hp.
  - destruct (prepare_shield req s) as [p|e|w] eqn:Ep.
    + pose proof (apply_shield_run _ _ _ Ep) as Er.
      apply prepare_shield_Ok in Ep as [Ha ->]; [|done]. left.
      destruct (commit_shield_Ok s req Hs Hf Ha) as (s' & E & I & V). rewrite <-Er in E.
      exists s'. by rewrite (ST_run _ _ _ _ _ E).
    + right. exists e. unfold apply_shield, mbind, ST_bind, reads. by rewrite Ep.
    + pose proof (prepare_shield_no_panic s req Hs) as Hp. by rewrite Ep in Hp.
  - destruct (prepare_transfer req s) as [[]|e|w] eqn:Ep.
    + pose proof (apply_transfer_run _ _ Ep) as Er.
      apply prepare_transfer_Ok in Ep as Ha; [|done]. left.
      destruct (commit_transfer_Ok s req Hs Hf Ha) as (s' & E & I & V). rewrite <-Er in E.
      exists s'. by rewrite (ST_run _ _ _ _ _ E).
    + right. exists e. unfold apply_transfer, mbind, ST_bind, reads. by rewrite Ep.
    + pose proof (prepare_transfer_no_panic s req Hs) as Hp. by rewrite Ep in Hp.
  - destruct (prepare_unshield req s) as [p|e|w] eqn:Ep.
    + pose proof (apply_unshield_run _ _ _ Ep) as Er.
      apply prepare_unshield_Ok in Ep as (r & Ha & ->); [|done]. left.
      destruct (commit_unshield_Ok s req r Hs Ho Hf Ha) as (s' & E & I & V). rewrite <-Er in E.
      exists s'. rewrite (ST_run _ _ _ _ _ E). eauto.
    + right. exists e. unfold apply_unshield, mbind, ST_bind, reads. by rewrite Ep.
    + pose proof (prepare_unshield_no_panic s req Hs) as Hp. by rewrite Ep in Hp.
Qed.

(** A step adds a bounded number of entries. *)
Lemma op_step_size fee v o v' :
  op_step fee v o v' -> (view_size v' <= view_size v + OP_GROWTH)%N.
Proof.
  assert (forall before : View, root_snapshot before v' -> (view_size v' <= view_size before + 1)%N)
    as Hroot.
  { intros before (roots & -> & Hr). by eapply view_size_roots. }
  destruct o as [r a|req|req|req]; cbn [op_step].
  - intros (k & next & _ & _ & ->). unfold view_size, OP_GROWTH. cbn. lia.
  - intros [_ Hv%Hroot]. etransitivity; [exact Hv|]. unfold view_size, OP_GROWTH.
    cbn [v_notes v_nullifiers v_roots v_withdrawals shield_effect with_notes with_shields
         with_balances]. rewrite length_app. cbn [length]. lia.
  - intros [[_ _ [Hc _ _ _] _ _] Hv%Hroot]. etransitivity; [exact Hv|].
    pose proof (view_size_nullifiers (tr_nullifiers req)
      (with_notes (v_notes v ++ [(tr_cm_1 req, tr_enc_1 req); (tr_cm_2 req, tr_enc_2 req);
                                 (tr_cm_3 req, tr_enc_3 req)]) v)) as Hsz.
    unfold transfer_effect. etransitivity; [apply N.add_le_mono_r; exact Hsz|].
    unfold view_size, OP_GROWTH. cbn [v_notes v_nullifiers v_roots v_withdrawals with_notes].
    rewrite length_app. cbn [length]. lia.
  - intros (r & [_ _ _ _ [Hc _ _ _] _ _] & Hv%Hroot). etransitivity; [exact Hv|].
    pose proof (view_size_nullifiers (ur_nullifiers req)
      (with_notes (v_notes v ++ new_notes req)
        (with_withdrawals
          (v_withdrawals v ++ [{| wr_recipient := r; wr_amount := ur_v_pub req |}]) v))) as Hsz.
    unfold unshield_effect. etransitivity; [apply N.add_le_mono_r; exact Hsz|].
    assert (length (new_notes req) <= 2)%nat
      by (unfold new_notes; destruct (unshield_change req); cbn; lia).
    unfold view_size, OP_GROWTH.
    cbn [v_notes v_nullifiers v_roots v_withdrawals with_notes with_withdrawals].
    rewrite !length_app. cbn [length]. lia.
Qed.

(** Executing a request either takes the abstract step of that request
    and keeps the invariant, or returns an error and leaves the state as it was. *)
Theorem exec_refines s (o : op) :
  ll_inv s -> op_ok o -> ll_fits (view_size (ll_view s) + OP_GROWTH) ->
  (exists s', exec o s = (s', Ok tt) /\ ll_inv s' /\ op_step (ll_fee s) (ll_view s) o (ll_view s')) \/
  (exists e, exec o s = (s, Err e)).
Proof. apply exec_cases. Qed.
End Correct.
