(* ===== verification/LedgerHistory.v ===== *)
(** * LedgerHistory: what holds after any sequence of requests

    Rule induction over the abstract steps of [LedgerCorrect.exec_refines]: whatever
    requests are served, in whatever order and however many are rejected, no nullifier
    is spent twice, no shield is replayed, every pool's balance is what was credited
    minus what was debited, and notes and withdrawals are only appended. *)

From S2P Require Import Prelude Felt Externals Concrete Recipients Types Hashing Outputs.
From S2P Require Import Merkle Ledger LedgerSpec LedgerCorrect.

Section History.
Context `{Blake2s, Hex, TezosContracts, Target}.
Context {S : Type} `{!LedgerState S} `{!LedgerLaws S}.
Implicit Types s : S.
Context (hex_total : forall b, is_panic (hex_decode b) = false).

(** ** What one accepted request contributes *)

Definition op_nullifiers (o : op) : list F :=
  match o with
  | OTransfer req => tr_nullifiers req
  | OUnshield req => ur_nullifiers req
  | _ => []
  end.

Definition op_client_cms (o : op) : list F :=
  match o with OShield req => [sr_client_cm req] | _ => [] end.

Definition op_notes (o : op) : list (F * EncryptedNote) :=
  match o with
  | ODeposit _ _ => []
  | OShield req => [(sr_client_cm req, sr_client_enc req);
                    (sr_producer_cm req, sr_producer_enc req)]
  | OTransfer req => [(tr_cm_1 req, tr_enc_1 req); (tr_cm_2 req, tr_enc_2 req);
                      (tr_cm_3 req, tr_enc_3 req)]
  | OUnshield req => new_notes req
  end.

Definition op_withdrawals (o : op) : list WithdrawalRecord :=
  match o with
  | OUnshield req =>
      match validate_l1_withdrawal_recipient (ur_recipient req) with
      | Ok r => [{| wr_recipient := r; wr_amount := ur_v_pub req |}]
      | _ => []
      end
  | _ => []
  end.

Definition op_credit (k : F) (o : op) : N :=
  match o with
  | ODeposit r a =>
      match parse_deposit_recipient_pubkey_hash r with
      | Ok k' => if decide (k' = k) then a else 0
      | _ => 0
      end
  | _ => 0
  end%N.

Definition op_debit (k : F) (o : op) : N :=
  match o with
  | OShield req => if decide (sr_pubkey_hash req = k) then shield_cost req else 0
  | _ => 0
  end%N.

Definition total (f : op -> N) (l : list op) : N := foldr (fun o n => (f o + n)%N) 0%N l.

(** ** Induction over served requests *)

(** The implementation's indices can number everything the requests may add. *)
Definition run_fits s (ops : list op) : Prop :=
  ll_fits (view_size (ll_view s) + N.of_nat (length ops) * OP_GROWTH).

Lemma serve_ind (P : View -> list op -> View -> Prop) :
  (forall v, P v [] v) ->
  (forall fee v o v1 acc v2, op_step fee v o v1 -> P v1 acc v2 -> P v (o :: acc) v2) ->
  forall ops s, ll_inv s -> Forall op_ok ops -> run_fits s ops ->
    ll_inv (fst (serve ops s)) /\ P (ll_view s) (snd (serve ops s)) (ll_view (fst (serve ops s))).
Proof.
  intros Hnil Hcons ops. induction ops as [|o ops IH]; intros s Hs Hok Hf; cbn [serve].
  - split; [done|apply Hnil].
  - inversion Hok as [|? ? Ho Hok']; subst. unfold run_fits in *. cbn [length] in Hf.
    destruct (exec_cases hex_total s o Hs Ho) as [(s1 & E & I & St)|[e E]]; [|rewrite E..].
    + eapply ll_fits_le; [|exact Hf]. lia.
    + specialize (IH s1 I Hok'). destruct (serve ops s1) as [s2 acc].
      destruct IH as [IH1 IH2].
      { eapply ll_fits_le; [|exact Hf]. apply op_step_size in St. lia. }
      split; [exact IH1|]. eapply Hcons; [exact St | exact IH2].
    + specialize (IH s Hs Hok'). destruct (serve ops s) as [s2 acc]. apply IH.
      eapply ll_fits_le; [|exact Hf]. lia.
Qed.

Lemma op_step_nullifiers fee v o v' :
  op_step fee v o v' ->
  NoDup (op_nullifiers o) /\ (forall nf, nf ∈ op_nullifiers o -> nf ∉ v_nullifiers v) /\
  v_nullifiers v' = list_to_set (op_nullifiers o) ∪ v_nullifiers v.
Proof.
  destruct o as [r a|req|req|req]; cbn [op_step op_nullifiers].
  - intros (k & next & _ & _ & ->). split; [constructor|].
    split; [by intros nf Hn%not_elem_of_nil|]. cbn. set_solver.
  - intros [_ (roots & -> & _)]. split; [constructor|].
    split; [by intros nf Hn%not_elem_of_nil|]. cbn. set_solver.
  - intros [[_ _ [_ _ Hu Hd] _ _] (roots & -> & _)]. done.
  - intros (r & [_ _ _ _ [_ _ Hu Hd] _ _] & (roots & -> & _)). done.
Qed.

(** C10: over any sequence of requests the nullifiers of the accepted
    transfers and unshields are pairwise distinct and were unspent at the start, and
    the spent set is exactly the initial one with them added. *)
Theorem no_double_spend s (ops : list op) :
  ll_inv s -> Forall op_ok ops -> run_fits s ops ->
  let spent := snd (serve ops s) ≫= op_nullifiers in
  NoDup spent /\
  (forall nf, nf ∈ spent -> nf ∉ v_nullifiers (ll_view s)) /\
  v_nullifiers (ll_view (fst (serve ops s))) =
    list_to_set spent ∪ v_nullifiers (ll_view s).
Proof.
  intros Hs Hok Hfit. cbn zeta.
  apply (serve_ind (fun v acc v' =>
    NoDup (acc ≫= op_nullifiers) /\
    (forall nf, nf ∈ (acc ≫= op_nullifiers) -> nf ∉ v_nullifiers v) /\
    v_nullifiers v' = list_to_set (acc ≫= op_nullifiers) ∪ v_nullifiers v)); [| |done..].
  - intros v. cbn. split; [constructor|]. split; [by intros nf Hn%not_elem_of_nil|]. set_solver.
  - intros fee v o v1 acc v2 St (Hn & Hf & Hv).
    apply op_step_nullifiers in St as (Hn1 & Hf1 & Hv1). cbn. rewrite Hv1 in Hf, Hv.
    split; [apply NoDup_app; split; [done|]; split; [|done]|split].
    + intros nf Hin Hin2. specialize (Hf nf Hin2). set_solver.
    + intros nf [Hin|Hin]%elem_of_app; [by apply Hf1|]. specialize (Hf nf Hin). set_solver.
    + rewrite Hv, list_to_set_app_L. set_solver.
Qed.

Lemma op_step_shields fee v o v' :
  op_step fee v o v' ->
  (forall cm, cm ∈ op_client_cms o -> cm ∉ v_shields v) /\
  v_shields v' = list_to_set (op_client_cms o) ∪ v_shields v.
Proof.
  destruct o as [r a|req|req|req]; cbn [op_step op_client_cms].
  - intros (k & next & _ & _ & ->). split; [by intros cm Hn%not_elem_of_nil|]. cbn. set_solver.
  - intros [[_ _ _ Hfr _ _ _ _ _] (roots & -> & _)]. split; [|cbn; set_solver].
    by intros cm ->%list_elem_of_singleton.
  - intros [_ (roots & -> & _)]. split; [by intros cm Hn%not_elem_of_nil|]. cbn. set_solver.
  - intros (r & _ & (roots & -> & _)). split; [by intros cm Hn%not_elem_of_nil|]. cbn. set_solver.
Qed.

(** Over any sequence of requests the client commitments of the accepted
    shields are pairwise distinct and new: topping a pool up and resubmitting a shield
    does not mint its notes again. *)
Theorem no_shield_replay s (ops : list op) :
  ll_inv s -> Forall op_ok ops -> run_fits s ops ->
  let minted := snd (serve ops s) ≫= op_client_cms in
  NoDup minted /\
  (forall cm, cm ∈ minted -> cm ∉ v_shields (ll_view s)) /\
  v_shields (ll_view (fst (serve ops s))) = list_to_set minted ∪ v_shields (ll_view s).
Proof.
  intros Hs Hok Hfit. cbn zeta.
  apply (serve_ind (fun v acc v' =>
    NoDup (acc ≫= op_client_cms) /\
    (forall cm, cm ∈ (acc ≫= op_client_cms) -> cm ∉ v_shields v) /\
    v_shields v' = list_to_set (acc ≫= op_client_cms) ∪ v_shields v)); [| |done..].
  - intros v. cbn. split; [constructor|]. split; [by intros nf Hn%not_elem_of_nil|]. set_solver.
  - intros fee v o v1 acc v2 St (Hn & Hf & Hv).
    apply op_step_shields in St as (Hf1 & Hv1). cbn. rewrite Hv1 in Hf, Hv.
    split; [apply NoDup_app; split; [|split; [|done]]|split].
    + destruct o; cbn; [constructor|apply NoDup_singleton|constructor..].
    + intros cm Hin Hin2. specialize (Hf cm Hin2). set_solver.
    + intros cm [Hin|Hin]%elem_of_app; [by apply Hf1|]. specialize (Hf cm Hin). set_solver.
    + rewrite Hv, list_to_set_app_L. set_solver.
Qed.

Lemma debited_lookup k d b k' :
  default 0%N (debited k d b !! k') =
  (if decide (k = k') then default 0 (b !! k') - d else default 0 (b !! k'))%N.
Proof.
  unfold debited. destruct (decide (k = k')) as [<-|Hne].
  - destruct (N.eqb_spec (default 0%N (b !! k) - d) 0) as [E|E].
    + by rewrite lookup_delete_eq, E.
    + by rewrite lookup_insert_eq.
  - destruct (_ =? 0)%N; [by rewrite lookup_delete_ne | by rewrite lookup_insert_ne].
Qed.

Lemma op_step_balance fee v o v' k :
  op_step fee v o v' ->
  (default 0 (v_balances v' !! k) + op_debit k o = default 0 (v_balances v !! k) + op_credit k o)%N.
Proof.
  destruct o as [r a|req|req|req]; cbn [op_step op_debit op_credit].
  - intros (k' & next & -> & Hn & ->). cbn. apply checked_add_Some in Hn as [-> _].
    destruct (decide (k' = k)) as [->|Hne]; cbn.
    + rewrite lookup_insert_eq. cbn. lia.
    + rewrite lookup_insert_ne by done. lia.
  - intros [[_ _ _ _ _ (b & Hb & Hle) _ _ _] (roots & -> & _)].
    cbn [v_balances with_roots shield_effect with_notes with_shields with_balances].
    rewrite debited_lookup.
    destruct (decide (sr_pubkey_hash req = k)) as [<-|]; [|lia].
    rewrite Hb. cbn [default from_option id]. lia.
  - intros [_ (roots & -> & _)]. cbn. lia.
  - intros (r & _ & (roots & -> & _)). cbn. lia.
Qed.

(** C11: at any point each pool holds its initial balance plus every
    accepted deposit to it, minus the value and fees of every accepted shield from it:
    no request makes or loses public value. *)
Theorem pool_conservation s (ops : list op) (k : F) :
  ll_inv s -> Forall op_ok ops -> run_fits s ops ->
  let accepted := snd (serve ops s) in
  (default 0 (v_balances (ll_view (fst (serve ops s))) !! k) + total (op_debit k) accepted =
   default 0 (v_balances (ll_view s) !! k) + total (op_credit k) accepted)%N.
Proof.
  intros Hs Hok Hfit. cbn zeta.
  apply (serve_ind (fun v acc v' =>
    default 0 (v_balances v' !! k) + total (op_debit k) acc =
    default 0 (v_balances v !! k) + total (op_credit k) acc)%N); [| |done..].
  - done.
  - intros fee v o v1 acc v2 St Hv. apply (op_step_balance _ _ _ _ k) in St.
    unfold total in *. cbn [foldr]. lia.
Qed.

Lemma op_step_appends fee v o v' :
  op_step fee v o v' ->
  v_notes v' = v_notes v ++ op_notes o /\
  v_withdrawals v' = v_withdrawals v ++ op_withdrawals o /\
  v_auth_domain v' = v_auth_domain v.
Proof.
  destruct o as [r a|req|req|req]; cbn [op_step op_notes op_withdrawals].
  - intros (k & next & _ & _ & ->). cbn. by rewrite !app_nil_r.
  - intros [_ (roots & -> & _)]. cbn. by rewrite app_nil_r.
  - intros [_ (roots & -> & _)]. cbn. by rewrite app_nil_r.
  - intros (r & [Hr _ _ _ _ _ _] & (roots & -> & _)). cbn. by rewrite Hr.
Qed.

(** The note list and the withdrawal queue only grow, by exactly the
    notes and the withdrawals of the accepted requests in order, so a note keeps its
    position for ever. *)
Theorem append_only s (ops : list op) :
  ll_inv s -> Forall op_ok ops -> run_fits s ops ->
  let accepted := snd (serve ops s) in
  let v := ll_view s in
  let v' := ll_view (fst (serve ops s)) in
  v_notes v' = v_notes v ++ (accepted ≫= op_notes) /\
  v_withdrawals v' = v_withdrawals v ++ (accepted ≫= op_withdrawals) /\
  v_auth_domain v' = v_auth_domain v.
Proof.
  intros Hs Hok Hfit. cbn zeta.
  apply (serve_ind (fun v acc v' =>
    v_notes v' = v_notes v ++ (acc ≫= op_notes) /\
    v_withdrawals v' = v_withdrawals v ++ (acc ≫= op_withdrawals) /\
    v_auth_domain v' = v_auth_domain v)); [| |done..].
  - intros v. cbn. by rewrite !app_nil_r.
  - intros fee v o v1 acc v2 St (Hn & Hw & Hd).
    apply op_step_appends in St as (Hn1 & Hw1 & Hd1).
    cbn. by rewrite Hn, Hw, Hd, Hn1, Hw1, Hd1, !app_assoc.
Qed.
End History.
