(* ===== verification/LedgerMem.v ===== *)
(** * LedgerMem: the in-memory ledger of [core/src/lib.rs]

    [struct Ledger], its [LedgerState] implementation, its window of accepted roots,
    and the proof that it satisfies [LedgerLaws]; the witnesses of the generic
    theorems run on it. *)

From S2P Require Import Prelude Felt Externals Concrete Recipients Types Hashing Outputs.
From S2P Require Import Merkle Ledger LedgerSpec LedgerCorrect LedgerHistory.

Record Ledger := {
  lg_auth_domain : F;
  lg_tree : MerkleTree;
  lg_nullifiers : gset F;
  lg_valid_roots : gset F;
  lg_root_history : list F;
  lg_memos : list (F * EncryptedNote);
  lg_withdrawals : list WithdrawalRecord;
  lg_deposit_balances : gmap F N;
  lg_applied_shield_cms : gset F
}.

(** Field updates. *)
Definition set_tree (x : MerkleTree) (l : Ledger) : Ledger :=
  {| lg_auth_domain := lg_auth_domain l; lg_tree := x; lg_nullifiers := lg_nullifiers l;
     lg_valid_roots := lg_valid_roots l; lg_root_history := lg_root_history l;
     lg_memos := lg_memos l; lg_withdrawals := lg_withdrawals l;
     lg_deposit_balances := lg_deposit_balances l;
     lg_applied_shield_cms := lg_applied_shield_cms l |}.

Definition set_nullifiers (x : gset F) (l : Ledger) : Ledger :=
  {| lg_auth_domain := lg_auth_domain l; lg_tree := lg_tree l; lg_nullifiers := x;
     lg_valid_roots := lg_valid_roots l; lg_root_history := lg_root_history l;
     lg_memos := lg_memos l; lg_withdrawals := lg_withdrawals l;
     lg_deposit_balances := lg_deposit_balances l;
     lg_applied_shield_cms := lg_applied_shield_cms l |}.

Definition set_roots (x : gset F) (h : list F) (l : Ledger) : Ledger :=
  {| lg_auth_domain := lg_auth_domain l; lg_tree := lg_tree l;
     lg_nullifiers := lg_nullifiers l; lg_valid_roots := x; lg_root_history := h;
     lg_memos := lg_memos l; lg_withdrawals := lg_withdrawals l;
     lg_deposit_balances := lg_deposit_balances l;
     lg_applied_shield_cms := lg_applied_shield_cms l |}.

Definition set_memos (x : list (F * EncryptedNote)) (l : Ledger) : Ledger :=
  {| lg_auth_domain := lg_auth_domain l; lg_tree := lg_tree l;
     lg_nullifiers := lg_nullifiers l; lg_valid_roots := lg_valid_roots l;
     lg_root_history := lg_root_history l; lg_memos := x;
     lg_withdrawals := lg_withdrawals l; lg_deposit_balances := lg_deposit_balances l;
     lg_applied_shield_cms := lg_applied_shield_cms l |}.

Definition set_withdrawals (x : list WithdrawalRecord) (l : Ledger) : Ledger :=
  {| lg_auth_domain := lg_auth_domain l; lg_tree := lg_tree l;
     lg_nullifiers := lg_nullifiers l; lg_valid_roots := lg_valid_roots l;
     lg_root_history := lg_root_history l; lg_memos := lg_memos l; lg_withdrawals := x;
     lg_deposit_balances := lg_deposit_balances l;
     lg_applied_shield_cms := lg_applied_shield_cms l |}.

Definition set_balances (x : gmap F N) (l : Ledger) : Ledger :=
  {| lg_auth_domain := lg_auth_domain l; lg_tree := lg_tree l;
     lg_nullifiers := lg_nullifiers l; lg_valid_roots := lg_valid_roots l;
     lg_root_history := lg_root_history l; lg_memos := lg_memos l;
     lg_withdrawals := lg_withdrawals l; lg_deposit_balances := x;
     lg_applied_shield_cms := lg_applied_shield_cms l |}.

Definition set_shields (x : gset F) (l : Ledger) : Ledger :=
  {| lg_auth_domain := lg_auth_domain l; lg_tree := lg_tree l;
     lg_nullifiers := lg_nullifiers l; lg_valid_roots := lg_valid_roots l;
     lg_root_history := lg_root_history l; lg_memos := lg_memos l;
     lg_withdrawals := lg_withdrawals l; lg_deposit_balances := lg_deposit_balances l;
     lg_applied_shield_cms := x |}.

Section LedgerMem.
Context `{Blake2s, Hex, Target}.

(** ** Operations *)

Definition with_auth_domain (auth_domain : F) : Ledger :=
  let tree := MerkleTree_new in
  let root := tree_root tree in
  {| lg_auth_domain := auth_domain; lg_tree := tree; lg_nullifiers := ∅;
     lg_valid_roots := {[root]}; lg_root_history := [root]; lg_memos := [];
     lg_withdrawals := []; lg_deposit_balances := ∅; lg_applied_shield_cms := ∅ |}.

Definition Ledger_new : Ledger := with_auth_domain default_auth_domain.

(** [while history.len() > max { let oldest = history.pop_front(); roots.remove(oldest) }]. *)
Fixpoint expire (max : nat) (roots : gset F) (history : list F) : gset F * list F :=
  match history with
  | [] => (roots, [])
  | oldest :: rest =>
      if (max <? length history)%nat then expire max (roots ∖ {[oldest]}) rest
      else (roots, history)
  end.

Definition record_valid_root_with_limit (root : F) (max_valid_roots : nat) (self : Ledger)
    : Ledger :=
  if decide (root ∈ lg_valid_roots self) then
    if decide (lg_root_history self = [])
    then set_roots (lg_valid_roots self) [root] self
    else self
  else
    let '(roots, history) :=
      expire max_valid_roots ({[root]} ∪ lg_valid_roots self) (lg_root_history self ++ [root]) in
    set_roots roots history self.

Definition snapshot_root_local (self : Ledger) : Ledger :=
  record_valid_root_with_limit (tree_root (lg_tree self)) MAX_VALID_ROOTS self.

Definition post_note_local (cm : F) (enc : EncryptedNote) (self : Ledger) : Ledger :=
  set_memos (lg_memos self ++ [(cm, enc)]) self.

(** [1usize.checked_shl(k)]. *)
Definition checked_shl_1 (k : N) : option N :=
  if (k <? usize_bits)%N then Some (N.shiftl 1 k) else None.

Definition mem_ensure_note_capacity (self : Ledger) (additional : N) : result unit :=
  limit ← ok_or (checked_shl_1 (N.of_nat DEPTH))
    ("Merkle tree capacity exceeds usize for depth " +:+ show_nat DEPTH);
  next ← ok_or (checked_add usize_limit (N.of_nat (length (mt_leaves (lg_tree self)))) additional)
    "Merkle tree size overflow";
  fail_if (limit <? next)%N ("Merkle tree full: 2^" +:+ show_nat DEPTH +:+ " leaves").

Definition mem_append_note (cm : F) (enc : EncryptedNote) : ST Ledger N :=
  index ← (fun self => let '(t, r) := tree_append cm (lg_tree self) in (set_tree t self, r));
  writes (post_note_local cm enc) ;;
  mret index.

Definition mem_enqueue_withdrawal (recipient : string) (amount : N) : ST Ledger N :=
  fun self =>
    (set_withdrawals
       (lg_withdrawals self ++ [{| wr_recipient := recipient; wr_amount := amount |}]) self,
     Ok (N.of_nat (length (lg_withdrawals self)))).

(** [entry(k).or_insert(0)], then a checked addition in place. *)
Definition mem_credit_deposit (pubkey_hash : F) (amount : N) : ST Ledger unit :=
  fun self =>
    let entry := default 0%N (lg_deposit_balances self !! pubkey_hash) in
    match checked_add_u64 entry amount with
    | Some v => (set_balances (<[pubkey_hash := v]> (lg_deposit_balances self)) self, Ok tt)
    | None =>
        (set_balances (<[pubkey_hash := entry]> (lg_deposit_balances self)) self,
         Err "deposit balance overflow")
    end.

Definition mem_debit_deposit (pubkey_hash : F) (amount : N) : ST Ledger unit :=
  fun self =>
    match lg_deposit_balances self !! pubkey_hash with
    | None => (self, Err ("deposit pool " +:+ hex_str pubkey_hash +:+ " does not exist"))
    | Some balance =>
        if (balance <? amount)%N then
          (self, Err ("deposit pool " +:+ hex_str pubkey_hash +:+ " balance " +:+
                      show_N balance +:+ " too small to debit " +:+ show_N amount))
        else
          let balance := (balance - amount)%N in
          (set_balances
             (if (balance =? 0)%N then delete pubkey_hash (lg_deposit_balances self)
              else <[pubkey_hash := balance]> (lg_deposit_balances self)) self,
           Ok tt)
    end.

#[export] Instance Ledger_state : LedgerState Ledger := {|
  ls_auth_domain := fun self => Ok (lg_auth_domain self);
  ls_required_tx_fee := fun _ => Ok MIN_TX_FEE;
  ls_has_valid_root := fun self root => Ok (bool_decide (root ∈ lg_valid_roots self));
  ls_has_nullifier := fun self nf => Ok (bool_decide (nf ∈ lg_nullifiers self));
  ls_insert_nullifier := fun nf => writes (fun l => set_nullifiers ({[nf]} ∪ lg_nullifiers l) l);
  ls_ensure_note_capacity := mem_ensure_note_capacity;
  ls_append_note := mem_append_note;
  ls_snapshot_root := writes snapshot_root_local;
  ls_enqueue_withdrawal := mem_enqueue_withdrawal;
  ls_note_private_tx_applied := id;
  ls_deposit_balance := fun self k => Ok (lg_deposit_balances self !! k);
  ls_credit_deposit := mem_credit_deposit;
  ls_debit_deposit := mem_debit_deposit;
  ls_has_applied_shield := fun self cm => Ok (bool_decide (cm ∈ lg_applied_shield_cms self));
  ls_mark_applied_shield := fun cm =>
    writes (fun l => set_shields ({[cm]} ∪ lg_applied_shield_cms l) l)
|}.

(** ** The window of accepted roots *)

Lemma elem_of_drop {A} (x : A) n l : x ∈ drop n l -> x ∈ l.
Proof. intros Hx. rewrite <-(take_drop n l). apply elem_of_app. by right. Qed.


(** The accepted roots are exactly the recorded ones, each once, at most [max]. *)
Record roots_inv (max : nat) (l : Ledger) : Prop := {
  ri_set : lg_valid_roots l = list_to_set (lg_root_history l);
  ri_nodup : NoDup (lg_root_history l);
  ri_bound : (length (lg_root_history l) <= max)%nat;
  ri_nonempty : lg_root_history l <> []
}.

Lemma expire_spec max roots history :
  NoDup history -> roots = list_to_set history ->
  expire max roots history =
    (list_to_set (drop (length history - max) history), drop (length history - max) history).
Proof.
  revert roots. induction history as [|oldest rest IH]; intros roots Hn ->; cbn [expire].
  - done.
  - inversion Hn as [|? ? Hin Hn']; subst.
    destruct (Nat.ltb_spec max (length (oldest :: rest))) as [Hlt|Hge].
    + rewrite IH; [|done|set_solver].
      cbn [length] in *. rewrite Nat.sub_succ_l by lia. done.
    + replace (length (oldest :: rest) - max)%nat with 0%nat by lia. done.
Qed.

Lemma drop_last_elem {A} (l : list A) x k : (k <= length l)%nat -> x ∈ drop k (l ++ [x]).
Proof. intros Hk. rewrite drop_app_le by done. set_solver. Qed.

Lemma record_root_keeps (self : Ledger) (root : F) (max : nat) :
  roots_inv max self -> (0 < max)%nat ->
  let self' := record_valid_root_with_limit root max self in
  roots_inv max self' /\
  root ∈ lg_valid_roots self' /\
  (root ∉ lg_valid_roots self ->
   lg_root_history self' =
     drop (length (lg_root_history self) + 1 - max) (lg_root_history self ++ [root])) /\
  (root ∈ lg_valid_roots self -> self' = self).
Proof.
  intros [Hs Hn Hb Hne] Hmax. cbn zeta.
  unfold record_valid_root_with_limit. destruct (decide (root ∈ lg_valid_roots self)) as [Hin|Hin].
  - rewrite decide_False by done. done.
  - assert (root ∉ lg_root_history self) as Hnh by (rewrite Hs in Hin; set_solver).
    assert (NoDup (lg_root_history self ++ [root])) as Hnd.
    { apply NoDup_app. split; [done|]. split; [set_solver|apply NoDup_singleton]. }
    rewrite expire_spec by (done || set_solver). rewrite length_app. cbn [length].
    assert (root ∈ drop (length (lg_root_history self) + 1 - max) (lg_root_history self ++ [root]))
      as Hmem by (apply drop_last_elem; lia).
    split; [constructor; cbn; try done|].
    + eapply sublist_NoDup, sublist_drop. done.
    + rewrite length_drop, length_app. cbn. lia.
    + intros E. rewrite E in Hmem. set_solver.
    + cbn. split; [set_solver|]. done.
Qed.

(** The ledger keeps the most recent [max] roots: recording a new root drops
    exactly the oldest ones beyond [max], the set of accepted roots is the recorded
    history, and the new root is accepted. *)
Theorem record_root_window (self : Ledger) (root : F) (max : nat) :
  roots_inv max self -> (0 < max)%nat ->
  let self' := record_valid_root_with_limit root max self in
  roots_inv max self' /\
  root ∈ lg_valid_roots self' /\
  (root ∉ lg_valid_roots self ->
   lg_root_history self' =
     drop (length (lg_root_history self) + 1 - max) (lg_root_history self ++ [root])) /\
  (root ∈ lg_valid_roots self -> self' = self).
Proof. apply record_root_keeps. Qed.

Lemma max_valid_roots_pos : (0 < MAX_VALID_ROOTS)%nat.
Proof. apply Nat.ltb_lt. reflexivity. Qed.

#[local] Opaque MAX_VALID_ROOTS new_zero_hashes DEPTH compute_level.

(** ** The laws *)

(** A target whose [usize] holds [2^DEPTH], as every host does. *)
Class HostTarget : Prop := host_usize : (N.of_nat DEPTH < usize_bits)%N.

Definition mem_view (l : Ledger) : View :=
  {| v_auth_domain := lg_auth_domain l; v_nullifiers := lg_nullifiers l;
     v_roots := lg_valid_roots l; v_notes := lg_memos l; v_withdrawals := lg_withdrawals l;
     v_balances := lg_deposit_balances l; v_shields := lg_applied_shield_cms l |}.

(** The memo list and the tree agree on every leaf, and the root window is sound. *)
Record mem_inv (l : Ledger) : Prop := {
  mi_tree : lg_tree l = from_leaves (fst <$> lg_memos l);
  mi_roots : roots_inv MAX_VALID_ROOTS l
}.

Definition mem_capacity : N := 2 ^ N.of_nat DEPTH.

Context {Hhost : HostTarget}.

Lemma tree_limit_host : tree_limit = mem_capacity.
Proof.
  unfold tree_limit, mem_capacity. apply N.mod_small. unfold usize_limit.
  apply N.pow_lt_mono_r; [lia|exact Hhost].
Qed.

Lemma leaves_of_inv l : mem_inv l -> length (mt_leaves (lg_tree l)) = length (lg_memos l).
Proof. intros [-> _]. cbn. by rewrite length_fmap. Qed.

Lemma mem_ensure_spec l n :
  mem_inv l -> mem_ensure_note_capacity l n = Ok tt <->
  (N.of_nat (length (lg_memos l)) + n <= mem_capacity)%N.
Proof.
  intros Hl. unfold mem_ensure_note_capacity, checked_shl_1.
  rewrite (proj2 (N.ltb_lt _ _) Hhost). cbn [ok_or mbind result_bind].
  rewrite leaves_of_inv by done. rewrite N.shiftl_1_l. fold mem_capacity.
  assert (mem_capacity < usize_limit)%N as Hc
    by (unfold mem_capacity, usize_limit; apply N.pow_lt_mono_r; [lia|exact Hhost]).
  rewrite bind_Ok. setoid_rewrite ok_or_Ok. setoid_rewrite checked_add_Some.
  setoid_rewrite fail_if_Ok. setoid_rewrite N.ltb_ge. split.
  - by intros (x & [-> _] & Hle).
  - intros Hle. eexists. split; [split; [done|lia]|done].
Qed.

Lemma mem_ensure_no_panic l n : is_panic (mem_ensure_note_capacity l n) = false.
Proof. unfold mem_ensure_note_capacity. no_panic. Qed.

Lemma mem_append_spec l cm enc :
  mem_inv l -> (N.of_nat (length (lg_memos l)) < mem_capacity)%N -> exists l',
    mem_append_note cm enc l = (l', Ok (N.of_nat (length (lg_memos l)))) /\ mem_inv l' /\
    mem_view l' = with_notes (lg_memos l ++ [(cm, enc)]) (mem_view l).
Proof.
  intros Hl Hc. unfold mem_append_note, mbind at 1, ST_bind at 1.
  rewrite tree_append_spec by by rewrite tree_limit_host, leaves_of_inv.
  rewrite leaves_of_inv by done. eexists. split; [reflexivity|]. split; [|done].
  destruct Hl as [Ht [Hr1 Hr2 Hr3 Hr4]]. constructor; [|by constructor].
  cbn [lg_tree lg_memos set_memos set_tree post_note_local]. rewrite Ht, fmap_app.
  reflexivity.
Qed.

Lemma mem_snapshot_spec l :
  mem_inv l -> exists roots,
    mem_inv (snapshot_root_local l) /\
    mem_view (snapshot_root_local l) = with_roots roots (mem_view l) /\
    snapshot_of (v_root (mem_view l)) (lg_valid_roots l) roots.
Proof.
  intros [Ht Hr]. unfold snapshot_root_local.
  assert (v_root (mem_view l) = tree_root (lg_tree l)) as -> by by rewrite Ht.
  destruct (record_root_keeps l (tree_root (lg_tree l)) MAX_VALID_ROOTS Hr) as (Hr' & Hin & Hnew & Hold);
    [apply max_valid_roots_pos|].
  set (l' := record_valid_root_with_limit (tree_root (lg_tree l)) MAX_VALID_ROOTS l) in *.
  assert (exists roots h, l' = set_roots roots h l) as (roots & h & E).
  { unfold l', record_valid_root_with_limit. repeat case_decide; [by eexists _, _| |].
    - exists (lg_valid_roots l), (lg_root_history l). by destruct l.
    - destruct (expire _ _ _) as [r h]. by eexists _, _. }
  exists roots. rewrite E in *. split; [by constructor|]. split; [done|]. cbn in *.
  split; [done|]. destruct (decide (tree_root (lg_tree l) ∈ lg_valid_roots l)) as [Hi|Hi].
  - assert (roots = lg_valid_roots l) as -> by (by rewrite <-(Hold Hi)).
    set_solver.
  - specialize (Hnew Hi). destruct Hr' as [Hs' _ _ _].
    destruct Hr as [Hset _ _ _]. cbn in Hs', Hnew. rewrite Hs', Hnew.
    intros x Hx%elem_of_list_to_set. apply elem_of_drop in Hx. set_solver.
Qed.

#[export] Program Instance Ledger_laws : LedgerLaws Ledger := {|
  ll_view := mem_view;
  ll_fee := fun _ => MIN_TX_FEE;
  ll_inv := mem_inv;
  ll_capacity := mem_capacity;
  ll_fits := fun _ => True
|}.
Solve Obligations with try done.
Next Obligation. intros l n Hl. by apply mem_ensure_spec. Qed.
Next Obligation. intros l n Hl. apply mem_ensure_no_panic. Qed.
Next Obligation.
  intros l nf [Ht [? ? ? ?]] _. eexists. split; [reflexivity|]. split; [|done].
  by constructor.
Qed.
Next Obligation. intros l cm enc Hl _ Hc _. by apply mem_append_spec. Qed.
Next Obligation.
  intros l Hl _. destruct (mem_snapshot_spec l Hl) as (roots & Hi & Hv & Hs).
  by exists (snapshot_root_local l), roots.
Qed.
Next Obligation.
  intros l r a [Ht [? ? ? ?]] _ _. eexists. split; [reflexivity|]. split; [|done]. by constructor.
Qed.
Next Obligation.
  intros l k a Hl Ha. cbn. unfold mem_credit_deposit.
  destruct (checked_add_u64 _ a) as [next|] eqn:Ea.
  - eexists. split; [reflexivity|]. split; [|done]. destruct Hl as [Ht [? ? ? ?]]. by constructor.
  - eexists. f_equal. destruct (lg_deposit_balances l !! k) as [b|] eqn:Eb; cbn in *.
    + rewrite insert_id by done. by destruct l.
    + unfold checked_add_u64, checked_add in Ea. rewrite N.add_0_l in Ea.
      by rewrite (proj2 (N.ltb_lt _ _) Ha) in Ea.
Qed.
Next Obligation.
  intros l k a b [Ht [? ? ? ?]] Hb Hle. cbn in *. unfold mem_debit_deposit. rewrite Hb.
  rewrite (proj2 (N.ltb_ge _ _) Hle). eexists. split; [reflexivity|].
  split; [by constructor|]. unfold debited. by rewrite Hb.
Qed.
Next Obligation.
  intros l cm [Ht [? ? ? ?]]. eexists. split; [reflexivity|]. split; [|done]. by constructor.
Qed.

Lemma with_auth_domain_inv d : mem_inv (with_auth_domain d).
Proof.
  constructor; [done|]. constructor; cbn.
  - set_solver.
  - apply NoDup_singleton.
  - apply max_valid_roots_pos.
  - done.
Qed.
End LedgerMem.
