(* ===== verification/LedgerWitness.v ===== *)
(** * LedgerWitness: the ledger theorems at concrete ledgers

    A funded in-memory ledger and one request of each kind, over the instances of
    [Concrete]; each lemma applies one theorem of the ledger files to them. *)

From S2P Require Import Prelude Felt Externals Concrete Recipients Types Hashing Binding.
From S2P Require Import Outputs Merkle Ledger LedgerSpec LedgerCorrect LedgerHistory LedgerMem.

#[local] Existing Instances toy_blake2s toy_hex toy_contracts host_target.

#[local] Instance host_target_ok : HostTarget.
Proof. reflexivity. Qed.

Definition pool_key : F := felt_n 1.

Definition empty_ledger : Ledger := with_auth_domain (felt_n 9).

Definition funded_ledger : Ledger := set_balances {[pool_key := 1000000%N]} empty_ledger.

Lemma empty_inv : ll_inv empty_ledger.
Proof. apply with_auth_domain_inv. Qed.

Lemma funded_inv : ll_inv funded_ledger.
Proof. destruct empty_inv as [Ht [? ? ? ?]]. constructor; [exact Ht|]. by constructor. Qed.

Definition sample_shield : ShieldReq :=
  {| sr_pubkey_hash := pool_key; sr_fee := 100000; sr_v := 5000; sr_producer_fee := 7;
     sr_proof := TrustMeBro; sr_client_cm := felt_n 20; sr_client_enc := sample_enc;
     sr_producer_cm := felt_n 21; sr_producer_enc := sample_enc |}.

Definition sample_transfer : TransferReq :=
  {| tr_root := tree_root MerkleTree_new; tr_nullifiers := [felt_n 30; felt_n 31];
     tr_fee := 100000; tr_cm_1 := felt_n 22; tr_cm_2 := felt_n 23; tr_cm_3 := felt_n 24;
     tr_enc_1 := sample_enc; tr_enc_2 := sample_enc; tr_enc_3 := sample_enc;
     tr_proof := TrustMeBro |}.

Definition sample_unshield : UnshieldReq :=
  {| ur_root := tree_root MerkleTree_new; ur_nullifiers := [felt_n 32]; ur_v_pub := 77;
     ur_fee := 100000; ur_recipient := "tz1abc"; ur_cm_change := ZERO;
     ur_enc_change := None; ur_cm_fee := felt_n 25; ur_enc_fee := sample_enc;
     ur_proof := TrustMeBro |}.

(** Distinct small felts. *)
Lemma felt_n_ne a b : is_u64 a -> is_u64 b -> a <> b -> felt_n a <> felt_n b.
Proof. intros Ha Hb Hn E. by apply u64_to_felt_inj in E. Qed.

Lemma felt_n_0 : felt_n 0 = ZERO.
Proof. by apply F_eq. Qed.

Lemma felt_n_nonzero a : is_u64 a -> a <> 0%N -> felt_n a <> ZERO.
Proof. rewrite <-felt_n_0. intros Ha Hn. by apply felt_n_ne. Qed.

Lemma sample_shield_accepted :
  shield_accepts (ll_fee funded_ledger) ll_capacity (ll_view funded_ledger) sample_shield.
Proof.
  constructor.
  - discriminate.
  - discriminate.
  - split; by apply felt_n_nonzero.
  - by apply not_elem_of_empty.
  - split; apply sample_enc_shape.
  - exists 1000000%N. split; [apply lookup_singleton_eq|discriminate].
  - reflexivity.
  - exact I.
  - discriminate.
Qed.

Lemma apply_shield_correct_witness : exists s',
  apply_shield sample_shield funded_ledger =
    (s', Ok (shield_resp sample_shield (ll_view funded_ledger))) /\ ll_inv s' /\
  root_snapshot (shield_effect sample_shield (ll_view funded_ledger)) (ll_view s').
Proof.
  apply (proj1 (apply_shield_correct funded_ledger sample_shield funded_inv)).
  - exact sample_shield_accepted.
  - exact I.
Defined.

Lemma in_singleton (x : F) : x ∈ ({[x]} : gset F).
Proof. set_solver. Qed.

Lemma root_accepted : tree_root MerkleTree_new ∈ ({[tree_root MerkleTree_new]} : gset F).
Proof. apply in_singleton. Qed.

Lemma sample_transfer_accepted :
  transfer_accepts (ll_fee empty_ledger) ll_capacity (ll_view empty_ledger) sample_transfer.
Proof.
  constructor.
  - discriminate.
  - repeat split; apply sample_enc_shape.
  - constructor.
    + cbn. lia.
    + exact root_accepted.
    + intros nf _. by apply not_elem_of_empty.
    + apply NoDup_cons. split; [|apply NoDup_singleton].
      intros E%list_elem_of_singleton. by apply felt_n_ne in E.
  - exact I.
  - discriminate.
Qed.

Lemma apply_transfer_correct_witness : exists s',
  apply_transfer sample_transfer empty_ledger =
    (s', Ok (transfer_resp (ll_view empty_ledger))) /\ ll_inv s' /\
  root_snapshot (transfer_effect sample_transfer (ll_view empty_ledger)) (ll_view s').
Proof.
  apply (proj1 (apply_transfer_correct empty_ledger sample_transfer empty_inv)).
  - exact sample_transfer_accepted.
  - exact I.
Defined.

Lemma sample_unshield_accepted :
  unshield_accepts (ll_fee empty_ledger) ll_capacity (ll_view empty_ledger) sample_unshield
    "tz1abc".
Proof.
  constructor.
  - reflexivity.
  - discriminate.
  - reflexivity.
  - split; [apply sample_enc_shape|by apply felt_n_nonzero].
  - constructor.
    + cbn. lia.
    + exact root_accepted.
    + intros nf _. by apply not_elem_of_empty.
    + apply NoDup_singleton.
  - exact I.
  - discriminate.
Qed.

Lemma apply_unshield_correct_witness : exists s',
  apply_unshield sample_unshield empty_ledger =
    (s', Ok (unshield_resp sample_unshield (ll_view empty_ledger))) /\ ll_inv s' /\
  root_snapshot (unshield_effect sample_unshield "tz1abc" (ll_view empty_ledger)) (ll_view s').
Proof.
  apply (proj1 (apply_unshield_correct empty_ledger sample_unshield empty_inv eq_refl)).
  - exact sample_unshield_accepted.
  - exact I.
Defined.

Definition sample_ops : list op :=
  [OShield sample_shield; OShield sample_shield; OTransfer sample_transfer;
   OUnshield sample_unshield].

Lemma sample_ops_ok : Forall op_ok sample_ops.
Proof. repeat constructor. Qed.

Lemma exec_refines_witness :
  (exists s', exec (OShield sample_shield) funded_ledger = (s', Ok tt) /\ ll_inv s' /\
     op_step (ll_fee funded_ledger) (ll_view funded_ledger) (OShield sample_shield) (ll_view s')) \/
  (exists e, exec (OShield sample_shield) funded_ledger = (funded_ledger, Err e)).
Proof. apply (exec_refines toy_hex_total); [exact funded_inv|exact I|exact I]. Defined.

Lemma no_double_spend_witness :
  NoDup (snd (serve sample_ops funded_ledger) ≫= op_nullifiers).
Proof.
  apply (no_double_spend toy_hex_total funded_ledger sample_ops); [exact funded_inv|exact sample_ops_ok|].
  exact I.
Defined.

Lemma no_shield_replay_witness :
  NoDup (snd (serve sample_ops funded_ledger) ≫= op_client_cms).
Proof.
  apply (no_shield_replay toy_hex_total funded_ledger sample_ops); [exact funded_inv|exact sample_ops_ok|].
  exact I.
Defined.

Lemma pool_conservation_witness :
  (default 0 (v_balances (ll_view (fst (serve sample_ops funded_ledger))) !! pool_key) +
   total (op_debit pool_key) (snd (serve sample_ops funded_ledger)) =
   default 0 (v_balances (ll_view funded_ledger) !! pool_key) +
   total (op_credit pool_key) (snd (serve sample_ops funded_ledger)))%N.
Proof.
  apply (pool_conservation toy_hex_total funded_ledger sample_ops pool_key);
    [exact funded_inv|exact sample_ops_ok|exact I].
Defined.

Lemma append_only_witness :
  v_notes (ll_view (fst (serve sample_ops funded_ledger))) =
    v_notes (ll_view funded_ledger) ++ (snd (serve sample_ops funded_ledger) ≫= op_notes).
Proof.
  exact (proj1 (append_only toy_hex_total funded_ledger sample_ops funded_inv sample_ops_ok I)).
Defined.

Lemma record_root_window_witness :
  felt_n 3 ∈ lg_valid_roots (record_valid_root_with_limit (felt_n 3) MAX_VALID_ROOTS empty_ledger).
Proof.
  apply (record_root_window empty_ledger (felt_n 3) MAX_VALID_ROOTS);
    [apply empty_inv | apply max_valid_roots_pos].
Defined.
