(* ===== verification/Wots.v ===== *)
(** * Wots: the WOTS+ signatures and XMSS trees of [core/src/lib.rs]

    One-time keys with base-4 digits and a checksum, the L-tree that compresses a
    public key to a leaf, and the XMSS tree over the leaves.  Signature verification
    by the kernel ([verify_wots_signature_against_leaf]) is proved to accept what
    [wots_sign] signs, the checksum is proved to do its job, and the in-place leaf
    computation is proved equal to the reference one. *)

From S2P Require Import Prelude Felt Externals Concrete Types Hashing Merkle.

Local Open Scope N_scope.

Definition AUTH_DEPTH : nat := 16.
Definition WOTS_W : N := 4.
Definition WOTS_CHAINS : nat := 133.
Definition TAG_XMSS_CHAIN_U64 : N := 0x0068632D73736D78.
Definition TAG_XMSS_LTREE_U64 : N := 0x00746C2D73736D78.
Definition TAG_XMSS_TREE_U64 : N := 0x0072742D73736D78.

(** ** Digits *)

(** [for _ in 0..n { digits.push(v & 3); v >>= 2 }]. *)
Fixpoint push_digits (n : nat) (v : N) : list N :=
  match n with
  | O => []
  | S n => N.land v 3 :: push_digits n (N.shiftr v 2)
  end.

Definition msg_digits (msg_hash : F) : list N :=
  F_bytes msg_hash ≫= fun b => push_digits 4 (Byte.to_N b).

(** [digits.iter().map(|d| WOTS_W - 1 - d).sum()]. *)
Definition digit_checksum (digits : list N) : N :=
  foldr (fun d sum => (WOTS_W - 1 - d) + sum) 0 digits.

Definition wots_digits (msg_hash : F) : list N :=
  let digits := msg_digits msg_hash in
  take WOTS_CHAINS (digits ++ push_digits 5 (digit_checksum digits)).

Section Wots.
Context `{Blake2s}.

(** ** Keys and addresses *)

Definition auth_key_seed (ask_j : F) (key_idx : N) : F :=
  blake2s_parts [felt_tag "xmss-sk"; ask_j; felt_from_u32 key_idx].

Definition derive_auth_pub_seed (ask_j : F) : F :=
  blake2s_parts [felt_tag "xmss-ps"; ask_j].

Definition wots_sk_chain (ask_j : F) (key_idx chain_idx : N) : F :=
  hash_two (auth_key_seed ask_j key_idx) (felt_from_u32 chain_idx).

Definition pack_adrs (tag key_idx a b c : N) : F :=
  mask251 (mkF (le_bytes 8 tag ++ le_bytes 4 key_idx ++ le_bytes 4 a ++ le_bytes 4 b ++
                le_bytes 4 c)).

Definition hash1_wots (data : F) : F := blake2s "wotsSP__" (F_bytes data).

Definition hash_chain (x : F) (n : nat) : F := foldl (fun cur _ => hash1_wots cur) x (seq 0 n).

Definition xmss_chain_step (x pub_seed : F) (key_idx chain_idx step : N) : F :=
  blake2s_parts [pub_seed; pack_adrs TAG_XMSS_CHAIN_U64 key_idx chain_idx step 0; x].

Definition xmss_hash_chain (x pub_seed : F) (key_idx chain_idx : N) (start steps : nat) : F :=
  foldl (fun cur step => xmss_chain_step cur pub_seed key_idx chain_idx (N.of_nat step))
    x (seq start steps).

Definition xmss_node_hash (pub_seed : F) (tag key_idx level node_idx : N) (left right : F) : F :=
  blake2s_parts [pub_seed; pack_adrs tag key_idx level node_idx 0; left; right].

Definition xmss_ltree_node_hash (pub_seed : F) (key_idx level node_idx : N) (left right : F) : F :=
  xmss_node_hash pub_seed TAG_XMSS_LTREE_U64 key_idx level node_idx left right.

Definition xmss_tree_node_hash (pub_seed : F) (level node_idx : N) (left right : F) : F :=
  xmss_node_hash pub_seed TAG_XMSS_TREE_U64 0 level node_idx left right.

(** ** One-time signatures *)

Definition wots_pk (ask_j : F) (key_idx : N) : list F :=
  let pub_seed := derive_auth_pub_seed ask_j in
  (fun j => xmss_hash_chain (wots_sk_chain ask_j key_idx (N.of_nat j)) pub_seed key_idx
     (N.of_nat j) 0 (N.to_nat (WOTS_W - 1))) <$> seq 0 WOTS_CHAINS.

(** One round over [current.chunks(2)]. *)
Fixpoint ltree_level (pub_seed : F) (key_idx level node_idx : N) (current : list F) : list F :=
  match current with
  | [] => []
  | [x] => [x]
  | x :: y :: current =>
      xmss_ltree_node_hash pub_seed key_idx level node_idx x y ::
      ltree_level pub_seed key_idx level (node_idx + 1) current
  end.

(** [while current.len() > 1]; [length pk] rounds are enough. *)
Fixpoint ltree_loop (fuel : nat) (pub_seed : F) (key_idx level : N) (current : list F)
    : list F :=
  match fuel with
  | O => current
  | S fuel =>
      if (1 <? length current)%nat
      then ltree_loop fuel pub_seed key_idx (level + 1)
             (ltree_level pub_seed key_idx level 0 current)
      else current
  end.

Definition wots_pk_to_leaf (pub_seed : F) (key_idx : N) (pk : list F) : result F :=
  index_at (ltree_loop (length pk) pub_seed key_idx 0 pk) 0.

Definition wots_sign (ask_j : F) (key_idx : N) (msg_hash : F) : list F * list F * list N :=
  let pub_seed := derive_auth_pub_seed ask_j in
  let digits := wots_digits msg_hash in
  let sig :=
    (fun j => xmss_hash_chain (wots_sk_chain ask_j key_idx (N.of_nat j)) pub_seed key_idx
       (N.of_nat j) 0 (N.to_nat (digits !!! j))) <$> seq 0 WOTS_CHAINS in
  (sig, wots_pk ask_j key_idx, digits).

Definition recover_wots_pk (msg_hash pub_seed : F) (key_idx : N) (sig : list F) : list F :=
  imap (fun chain_idx '(sig_part, digit) =>
      xmss_hash_chain sig_part pub_seed key_idx (N.of_nat chain_idx) (N.to_nat digit)
        (N.to_nat (WOTS_W - 1 - digit)))
    (zip sig (wots_digits msg_hash)).

Definition verify_wots_signature_against_leaf (msg_hash pub_seed : F) (key_idx : N)
    (sig : list F) (expected_leaf : F) : result unit :=
  fail_if (negb (length sig =? WOTS_CHAINS)%nat)
    ("bad WOTS signature length: got " +:+ show_nat (length sig) +:+ ", expected " +:+
     show_nat WOTS_CHAINS) ;;
  let recovered_pk := recover_wots_pk msg_hash pub_seed key_idx sig in
  recovered_leaf ← wots_pk_to_leaf pub_seed key_idx recovered_pk;
  fail_if (negb (bool_decide (recovered_leaf = expected_leaf)))
    "configuration signature verification failed".

(** ** The in-place leaf *)

(** The loop over [read], [write] and [node_idx] on the array [current]. *)
Fixpoint inplace_round (fuel : nat) (pub_seed : F) (key_idx level : N) (len : nat)
    (current : list F) (write read : nat) (node_idx : N) : list F * nat :=
  match fuel with
  | O => (current, write)
  | S fuel =>
      if (read <? len)%nat then
        let '(current, node_idx) :=
          if (read + 1 =? len)%nat
          then (<[write := current !!! read]> current, node_idx)
          else (<[write := xmss_ltree_node_hash pub_seed key_idx level node_idx
                   (current !!! read) (current !!! (read + 1)%nat)]> current, node_idx + 1) in
        inplace_round fuel pub_seed key_idx level len current (write + 1) (read + 2) node_idx
      else (current, write)
  end.

Fixpoint inplace_loop (fuel : nat) (pub_seed : F) (key_idx level : N) (len : nat)
    (current : list F) : list F :=
  match fuel with
  | O => current
  | S fuel =>
      if (1 <? len)%nat then
        let '(current, write) :=
          inplace_round (S len) pub_seed key_idx level len current 0 0 0 in
        inplace_loop fuel pub_seed key_idx (level + 1) write current
      else current
  end.

Definition auth_leaf_hash_with_pub_seed (ask_j pub_seed : F) (key_idx : N) : F :=
  let current :=
    (fun chain_idx =>
       xmss_hash_chain (wots_sk_chain ask_j key_idx (N.of_nat chain_idx)) pub_seed key_idx
         (N.of_nat chain_idx) 0 (N.to_nat (WOTS_W - 1))) <$> seq 0 WOTS_CHAINS in
  inplace_loop WOTS_CHAINS pub_seed key_idx 0 WOTS_CHAINS current !!! 0%nat.

Definition auth_leaf_hash (ask_j : F) (key_idx : N) : F :=
  auth_leaf_hash_with_pub_seed ask_j (derive_auth_pub_seed ask_j) key_idx.

(** ** XMSS trees *)

(** The environment forbids a full rebuild: [TZEL_TRAP_FULL_XMSS_REBUILDS] is set and
    [TZEL_ALLOW_FULL_XMSS_REBUILD] is not. *)
Variable rebuild_trapped : bool.

Definition assert_full_xmss_rebuild_allowed : result unit :=
  panic_unless (negb rebuild_trapped) "unexpected full depth-16 XMSS rebuild".

(** [u32] shifts and sums of a release build: the count is taken modulo 32. *)
Definition shl1_u32 (k : nat) : N := N.shiftl 1 (N.of_nat k mod 32).
Definition shr_u32 (v : N) (k : nat) : N := N.shiftr v (N.of_nat k mod 32).
Definition add_u32 (a b : N) : N := (a + b) mod U32_LIMIT.

Definition is_full_rebuild (start : N) (height : nat) : bool :=
  (height =? AUTH_DEPTH)%nat && (start =? 0).

Fixpoint xmss_subtree_root (ask_j pub_seed : F) (start : N) (height : nat) : result F :=
  (if is_full_rebuild start height then assert_full_xmss_rebuild_allowed else mret tt) ;;
  match height with
  | O => wots_pk_to_leaf pub_seed start (wots_pk ask_j start)
  | S h =>
      left ← xmss_subtree_root ask_j pub_seed start h;
      right ← xmss_subtree_root ask_j pub_seed (add_u32 start (shl1_u32 h)) h;
      mret (xmss_tree_node_hash pub_seed (N.of_nat h) (shr_u32 start height) left right)
  end.

Fixpoint xmss_root_and_path_inner (ask_j pub_seed : F) (start : N) (height : nat) (target : N)
    : result (F * option (list F)) :=
  (if is_full_rebuild start height then assert_full_xmss_rebuild_allowed else mret tt) ;;
  match height with
  | O =>
      leaf ← wots_pk_to_leaf pub_seed start (wots_pk ask_j start);
      mret (leaf, if start =? target then Some [] else None)
  | S h =>
      let mid := add_u32 start (shl1_u32 h) in
      '(lroot, left_path) ←
        (if target <? mid then xmss_root_and_path_inner ask_j pub_seed start h target
         else l ← xmss_subtree_root ask_j pub_seed start h; mret (l, None));
      '(rroot, right_path) ←
        (if mid <=? target then xmss_root_and_path_inner ask_j pub_seed mid h target
         else r ← xmss_subtree_root ask_j pub_seed mid h; mret (r, None));
      let root :=
        xmss_tree_node_hash pub_seed (N.of_nat h) (shr_u32 start height) lroot rroot in
      let path :=
        match left_path with
        | Some path => Some (path ++ [rroot])
        | None =>
            match right_path with
            | Some path => Some (path ++ [lroot])
            | None => None
            end
        end in
      mret (root, path)
  end.

Definition build_auth_tree (ask_j : F) : result F :=
  assert_full_xmss_rebuild_allowed ;;
  xmss_subtree_root ask_j (derive_auth_pub_seed ask_j) 0 AUTH_DEPTH.

(** [index as u32] of a [usize], then [path.expect(..)]. *)
Definition auth_root_and_path (ask_j : F) (index : N) : result (F * list F) :=
  assert_full_xmss_rebuild_allowed ;;
  '(root, path) ← xmss_root_and_path_inner ask_j (derive_auth_pub_seed ask_j) 0 AUTH_DEPTH
    (index mod U32_LIMIT);
  match path with
  | Some path => Ok (root, path)
  | None => Panic "target leaf must be within auth tree"
  end.

Definition auth_tree_path (ask_j : F) (index : N) : result (list F) :=
  assert_full_xmss_rebuild_allowed ;;
  '(_, path) ← xmss_root_and_path_inner ask_j (derive_auth_pub_seed ask_j) 0 AUTH_DEPTH
    (index mod U32_LIMIT);
  match path with
  | Some path => Ok path
  | None => Panic "target leaf must be within auth tree"
  end.

End Wots.

(** ** Lemmas on digits *)

Fixpoint val4 (l : list N) : N :=
  match l with
  | [] => 0
  | d :: l => d + 4 * val4 l
  end.

Lemma length_push_digits n v : length (push_digits n v) = n.
Proof. revert v. induction n as [|n IH]; intros v; cbn; [done|]. by rewrite IH. Qed.

Lemma land_3 v : N.land v 3 = v mod 4.
Proof. change 3 with (N.ones 2). by rewrite N.land_ones. Qed.

Lemma push_digits_bound n v : Forall (fun d => d < 4) (push_digits n v).
Proof.
  revert v. induction n as [|n IH]; intros v; cbn; constructor; [|apply IH].
  rewrite land_3. by apply N.mod_lt.
Qed.

Lemma val4_push_digits n v : val4 (push_digits n v) = v mod 4 ^ N.of_nat n.
Proof.
  revert v. induction n as [|n IH]; intros v; cbn [push_digits val4].
  - by rewrite N.mod_1_r.
  - rewrite IH, land_3, N.shiftr_div_pow2, Nat2N.inj_succ, N.pow_succ_r'.
    symmetry. apply N.Div0.mod_mul_r.
Qed.

Lemma val4_mono l k : Forall2 N.le l k -> val4 l <= val4 k.
Proof. induction 1; cbn [val4]; lia. Qed.

Lemma msg_bytes_length (b : bytes) :
  length (b ≫= fun x => push_digits 4 (Byte.to_N x)) = (4 * length b)%nat.
Proof.
  induction b as [|x b IH]; [done|].
  change (length (push_digits 4 (Byte.to_N x) ++ (b ≫= fun x => push_digits 4 (Byte.to_N x))) =
          4 * length (x :: b))%nat.
  rewrite length_app, length_push_digits, IH. cbn. lia.
Qed.

Lemma msg_digits_length m : length (msg_digits m) = 128%nat.
Proof. unfold msg_digits. by rewrite msg_bytes_length, length_F_bytes. Qed.

Lemma msg_digits_bound m : Forall (fun d => d < 4) (msg_digits m).
Proof. apply Forall_bind, Forall_forall. intros b _. apply push_digits_bound. Qed.

Lemma msg_digits_inj m m' : msg_digits m = msg_digits m' -> m = m'.
Proof.
  unfold msg_digits. intros E. apply F_eq. revert E.
  assert (length (F_bytes m) = length (F_bytes m')) as Hl by by rewrite !length_F_bytes.
  revert Hl. generalize (F_bytes m) (F_bytes m'). clear m m'.
  intros b. induction b as [|x b IH]; intros [|y b'] Hl E; try discriminate; [done|].
  change (push_digits 4 (Byte.to_N x) ++ (b ≫= fun x => push_digits 4 (Byte.to_N x)) =
          push_digits 4 (Byte.to_N y) ++ (b' ≫= fun x => push_digits 4 (Byte.to_N x))) in E.
  apply app_inj_l in E as [E1 E2]; [|by rewrite !length_push_digits].
  injection Hl as Hl. f_equal; [|by apply IH].
  apply (f_equal val4) in E1. rewrite !val4_push_digits in E1. apply byte_to_N_inj.
  change (4 ^ N.of_nat 4) with 256 in E1.
  by rewrite !N.mod_small in E1 by apply byte_to_N_bound.
Qed.

Lemma checksum_bound l :
  digit_checksum l <= 3 * N.of_nat (length l).
Proof. induction l as [|d l IH]; cbn [digit_checksum foldr length]; [done|]. unfold digit_checksum, WOTS_W in *. lia. Qed.

Lemma checksum_cancel l k :
  Forall2 N.le l k -> Forall (fun d => d < 4) k ->
  digit_checksum k <= digit_checksum l /\ (digit_checksum l <= digit_checksum k -> l = k).
Proof.
  unfold digit_checksum, WOTS_W. induction 1 as [|d e l k Hd Hf IH]; intros Hk; cbn [foldr]; [done|].
  inversion Hk as [|? ? He Hk']; subst. destruct (IH Hk') as [IH1 IH2]. split; [lia|].
  intros Hle. assert (d = e) as -> by lia. f_equal. apply IH2. lia.
Qed.

Lemma wots_digits_eq m :
  wots_digits m = msg_digits m ++ push_digits 5 (digit_checksum (msg_digits m)).
Proof.
  unfold wots_digits. apply take_ge.
  rewrite length_app, msg_digits_length, length_push_digits. unfold WOTS_CHAINS. lia.
Qed.

Lemma wots_digits_length m : length (wots_digits m) = WOTS_CHAINS.
Proof. by rewrite wots_digits_eq, length_app, msg_digits_length, length_push_digits. Qed.

Lemma wots_digits_bound m : Forall (fun d => d < 4) (wots_digits m).
Proof.
  rewrite wots_digits_eq. apply Forall_app. split; [apply msg_digits_bound|apply push_digits_bound].
Qed.

(** The checksum makes signatures unforgeable by walking chains forward: if
    every digit of [m'] is at least the digit of [m], the two messages are equal; so a
    signature of [m] never yields one of a different [m'] without inverting a chain. *)
Theorem wots_digits_no_domination (m m' : F) :
  Forall2 N.le (wots_digits m) (wots_digits m') -> m = m'.
Proof.
  rewrite !wots_digits_eq. intros Hf.
  apply Forall2_app_inv in Hf as [Hm Hc]; [|by rewrite !msg_digits_length].
  apply msg_digits_inj, checksum_cancel; [done|apply msg_digits_bound|].
  apply val4_mono in Hc. rewrite !val4_push_digits in Hc.
  change (4 ^ N.of_nat 5) with 1024 in Hc.
  pose proof (checksum_bound (msg_digits m)) as B1.
  pose proof (checksum_bound (msg_digits m')) as B2.
  rewrite msg_digits_length in B1, B2. rewrite !N.mod_small in Hc by lia. done.
Qed.

Section Signatures.
Context `{Blake2s}.

(** ** Signatures *)

Lemma xmss_hash_chain_compose x ps k c a b :
  xmss_hash_chain (xmss_hash_chain x ps k c 0 a) ps k c a b = xmss_hash_chain x ps k c 0 (a + b).
Proof. unfold xmss_hash_chain. by rewrite seq_app, foldl_app. Qed.

Lemma recover_wots_sign ask key m :
  recover_wots_pk m (derive_auth_pub_seed ask) key (fst (fst (wots_sign ask key m))) =
  wots_pk ask key.
Proof.
  unfold recover_wots_pk, wots_sign, wots_pk. cbn [fst].
  apply list_eq. intros j. rewrite list_lookup_imap, list_lookup_fmap.
  destruct (decide (j < WOTS_CHAINS)%nat) as [Hj|Hj].
  - rewrite lookup_seq_lt by done. cbn [fmap option_fmap option_map].
    assert (exists d, wots_digits m !! j = Some d) as [d Hd]
      by (apply lookup_lt_is_Some_2; by rewrite wots_digits_length).
    pose proof (Forall_lookup_1 _ _ _ _ (wots_digits_bound m) Hd) as Hb. cbn in Hb.
    erewrite lookup_zip_with, list_lookup_fmap, lookup_seq_lt by done. rewrite Hd. cbn.
    rewrite (list_lookup_total_correct _ _ _ Hd), xmss_hash_chain_compose.
    do 2 f_equal. unfold WOTS_W in *. lia.
  - rewrite (lookup_ge_None_2 (seq 0 WOTS_CHAINS)) by (rewrite length_seq; lia).
    rewrite lookup_ge_None_2; [done|].
    rewrite length_zip_with, length_fmap, length_seq. lia.
Qed.

Lemma ltree_level_length ps k lev idx l :
  length (ltree_level ps k lev idx l) = Nat.div2 (S (length l)).
Proof.
  revert idx. induction l as [| |x y l IH] using list_pair_ind; intros idx; cbn; [done..|].
  by rewrite IH.
Qed.

(** Half, rounded up: smaller above one, and never zero. *)
Lemma div2_S_bounds n :
  ((1 < n -> Nat.div2 (S n) < n) /\ (0 < n -> 0 < Nat.div2 (S n)))%nat.
Proof. rewrite Nat.div2_div. split; intros; [apply Nat.div_lt_upper_bound|apply Nat.div_str_pos]; lia. Qed.

Lemma ltree_loop_length fuel ps k lev l :
  (0 < length l <= fuel)%nat -> length (ltree_loop fuel ps k lev l) = 1%nat.
Proof.
  revert lev l. induction fuel as [|fuel IH]; intros lev l Hl; cbn [ltree_loop]; [lia|].
  destruct (Nat.ltb_spec 1 (length l)) as [H1|H1]; [|lia].
  apply IH. rewrite ltree_level_length. destruct (div2_S_bounds (length l)). lia.
Qed.

(** The fuel does not matter once it covers the length. *)
Lemma ltree_loop_fuel fuel fuel' ps k lev l :
  (length l <= fuel)%nat -> (length l <= fuel')%nat ->
  ltree_loop fuel ps k lev l = ltree_loop fuel' ps k lev l.
Proof.
  revert fuel' lev l. induction fuel as [|fuel IH]; intros [|fuel'] lev l H1 H2;
    cbn [ltree_loop]; try done;
    try (destruct (Nat.ltb_spec 1 (length l)); [lia|done]).
  destruct (Nat.ltb_spec 1 (length l)); [|done].
  apply IH; rewrite ltree_level_length; destruct (div2_S_bounds (length l)); lia.
Qed.

Lemma wots_pk_to_leaf_Ok ps k pk :
  pk <> [] -> exists leaf, wots_pk_to_leaf ps k pk = Ok leaf.
Proof.
  intros Hpk. unfold wots_pk_to_leaf, index_at.
  assert (length (ltree_loop (length pk) ps k 0 pk) = 1%nat) as Hl
    by (apply ltree_loop_length; destruct pk; [done|cbn; lia]).
  destruct (ltree_loop _ _ _ _ _) as [|x [|]]; try discriminate. by exists x.
Qed.

Lemma length_wots_pk ask k : length (wots_pk ask k) = WOTS_CHAINS.
Proof. unfold wots_pk. by rewrite length_fmap, length_seq. Qed.

(** What [wots_sign] signs, the verifier accepts against the leaf of the same
    key: the recovered public key is the signer's, for every message and key index. *)
Theorem wots_sign_verify (ask_j msg_hash : F) (key_idx : N) :
  exists leaf,
    wots_pk_to_leaf (derive_auth_pub_seed ask_j) key_idx (wots_pk ask_j key_idx) = Ok leaf /\
    verify_wots_signature_against_leaf msg_hash (derive_auth_pub_seed ask_j) key_idx
      (fst (fst (wots_sign ask_j key_idx msg_hash))) leaf = Ok tt.
Proof.
  destruct (wots_pk_to_leaf_Ok (derive_auth_pub_seed ask_j) key_idx (wots_pk ask_j key_idx))
    as [leaf Hl].
  { intros E. pose proof (length_wots_pk ask_j key_idx) as Hlen. by rewrite E in Hlen. }
  exists leaf. split; [done|]. unfold verify_wots_signature_against_leaf.
  rewrite recover_wots_sign, Hl. unfold wots_sign. cbn [fst].
  rewrite length_fmap, length_seq, Nat.eqb_refl. cbn [negb fail_if mbind result_bind].
  by rewrite bool_decide_eq_true_2.
Qed.

Lemma verify_wots_no_panic (msg_hash pub_seed : F) (key_idx : N) (sig : list F) (leaf : F) :
  is_panic (verify_wots_signature_against_leaf msg_hash pub_seed key_idx sig leaf) = false.
Proof.
  unfold verify_wots_signature_against_leaf.
  destruct (Nat.eqb_spec (length sig) WOTS_CHAINS) as [E|E]; [|done].
  cbn [negb fail_if mbind result_bind].
  destruct (wots_pk_to_leaf_Ok pub_seed key_idx (recover_wots_pk msg_hash pub_seed key_idx sig))
    as [l ->]; [|apply no_panic_fail_if].
  intros E'. apply (f_equal length) in E'. unfold recover_wots_pk in E'.
  rewrite length_imap, length_zip_with, wots_digits_length, E in E'. discriminate.
Qed.

(** A signature is accepted exactly when it has 133 chains and its
    recovered public key compresses to the expected leaf; anything else, of any length,
    is an error and never a panic. *)
Theorem verify_wots_exact (msg_hash pub_seed : F) (key_idx : N) (sig : list F) (leaf : F) :
  is_panic (verify_wots_signature_against_leaf msg_hash pub_seed key_idx sig leaf) = false /\
  (verify_wots_signature_against_leaf msg_hash pub_seed key_idx sig leaf = Ok tt <->
   length sig = WOTS_CHAINS /\
   wots_pk_to_leaf pub_seed key_idx (recover_wots_pk msg_hash pub_seed key_idx sig) = Ok leaf).
Proof.
  split; [apply verify_wots_no_panic|]. unfold verify_wots_signature_against_leaf.
  rewrite seq_Ok, fail_if_Ok, negb_false_iff, Nat.eqb_eq. cbv zeta.
  rewrite bind_Ok. setoid_rewrite fail_if_Ok. setoid_rewrite negb_false_iff.
  setoid_rewrite bool_decide_eq_true. naive_solver.
Qed.

(** ** The in-place leaf *)

Lemma take_lookup_total (l : list F) r n :
  (r < n)%nat -> (n <= length l)%nat ->
  drop r (take n l) = (l !!! r) :: drop (S r) (take n l).
Proof.
  intros Hr Hn. apply drop_S. rewrite lookup_take_lt by done.
  by apply list_lookup_lookup_total_lt, (Nat.lt_le_trans _ n).
Qed.

Lemma inplace_round_spec fuel ps k lev len current w r idx :
  (len <= length current)%nat -> (w <= r)%nat -> (len < r + 2 * fuel)%nat -> (w <= len)%nat ->
  let '(current', w') := inplace_round fuel ps k lev len current w r idx in
  length current' = length current /\ (w' <= len)%nat /\
  take w' current' = take w current ++ ltree_level ps k lev idx (drop r (take len current)).
Proof.
  revert current w r idx. induction fuel as [|fuel IH]; intros cur w r idx Hlen Hwr Hf Hw;
    cbn [inplace_round].
  - split; [done|]. split; [lia|]. rewrite drop_ge by (rewrite length_take; lia).
    by rewrite app_nil_r.
  - destruct (Nat.ltb_spec r len) as [Hr|Hr].
    + assert (forall x i, (w < length cur)%nat -> (w < i)%nat ->
        drop i (take len (<[w:=x]> cur)) = drop i (take len cur)) as Hdrop.
      { intros x i Hwl Hi. apply list_eq. intros j. rewrite !lookup_drop.
        destruct (decide (i + j < len)%nat).
        - rewrite !lookup_take_lt by done. by rewrite list_lookup_insert_ne by lia.
        - by rewrite !lookup_take_ge by lia. }
      assert (forall x, (w < length cur)%nat ->
        take (w + 1) (<[w:=x]> cur) = take w cur ++ [x]) as Htake.
      { intros x Hwl. rewrite Nat.add_1_r.
        rewrite (take_S_r _ _ x) by by apply list_lookup_insert_eq.
        by rewrite take_insert_ge by lia. }
      rewrite (take_lookup_total cur r len) by lia.
      destruct (Nat.eqb_spec (r + 1) len) as [E|E].
      * specialize (IH (<[w := cur !!! r]> cur) (w + 1)%nat (r + 2)%nat idx).
        rewrite length_insert in IH.
        destruct (inplace_round fuel ps k lev len _ _ _ _) as [cur' w'].
        destruct IH as (L & W & T); [lia..|]. split; [done|]. split; [done|].
        rewrite T, Htake by lia. rewrite !drop_ge by (rewrite length_take; lia).
        cbn [ltree_level]. by rewrite <-app_assoc.
      * rewrite (take_lookup_total cur (S r) len) by lia.
        specialize (IH (<[w := xmss_ltree_node_hash ps k lev idx (cur !!! r) (cur !!! (r + 1)%nat)]> cur)
          (w + 1)%nat (r + 2)%nat (idx + 1)).
        rewrite length_insert in IH.
        destruct (inplace_round fuel ps k lev len _ _ _ _) as [cur' w'].
        destruct IH as (L & W & T); [lia..|]. split; [done|]. split; [done|].
        rewrite T, Htake, Hdrop by lia. cbn [ltree_level].
        replace (r + 1)%nat with (S r) by lia. replace (r + 2)%nat with (S (S r)) by lia.
        by rewrite <-app_assoc.
    + split; [done|]. split; [lia|]. rewrite drop_ge by (rewrite length_take; lia).
      cbn. by rewrite app_nil_r.
Qed.

Lemma inplace_loop_spec fuel ps k lev len current :
  (0 < len <= length current)%nat -> (len <= fuel)%nat ->
  inplace_loop fuel ps k lev len current !!! 0%nat =
  ltree_loop fuel ps k lev (take len current) !!! 0%nat.
Proof.
  revert lev len current. induction fuel as [|fuel IH]; intros lev len cur Hl Hf;
    cbn [inplace_loop ltree_loop]; [lia|].
  rewrite length_take, Nat.min_l by lia.
  destruct (Nat.ltb_spec 1 len) as [H1|H1].
  - pose proof (inplace_round_spec (S len) ps k lev len cur 0 0 0 ltac:(lia) ltac:(lia)
      ltac:(lia) ltac:(lia)) as Hr.
    destruct (inplace_round (S len) ps k lev len cur 0 0 0) as [cur' w'].
    destruct Hr as (L & W & T). cbn [app] in T. rewrite drop_0, take_0 in T. cbn [app] in T.
    assert (w' = Nat.div2 (S len)) as Hw.
    { apply (f_equal length) in T. rewrite length_take, ltree_level_length, length_take in T.
      rewrite (Nat.min_l len), Nat.min_l in T by lia. done. }
    destruct (div2_S_bounds len). rewrite IH by lia. by rewrite T.
  - replace len with 1%nat by lia. by destruct cur.
Qed.

Lemma auth_leaf_hash_unfold ask k :
  auth_leaf_hash ask k =
  inplace_loop WOTS_CHAINS (derive_auth_pub_seed ask) k 0 WOTS_CHAINS (wots_pk ask k) !!! 0%nat.
Proof. unfold auth_leaf_hash, auth_leaf_hash_with_pub_seed, wots_pk. reflexivity. Qed.

Lemma leaf_hash_inplace (ask_j : F) (key_idx : N) :
  wots_pk_to_leaf (derive_auth_pub_seed ask_j) key_idx (wots_pk ask_j key_idx) =
  Ok (auth_leaf_hash ask_j key_idx).
Proof.
  rewrite auth_leaf_hash_unfold.
  rewrite inplace_loop_spec by (rewrite ?length_wots_pk; unfold WOTS_CHAINS; lia).
  rewrite take_ge by by rewrite length_wots_pk.
  unfold wots_pk_to_leaf, index_at. rewrite length_wots_pk.
  destruct (ltree_loop _ _ _ _ _) as [|x l] eqn:E; [|done].
  pose proof (ltree_loop_length WOTS_CHAINS (derive_auth_pub_seed ask_j) key_idx 0
    (wots_pk ask_j key_idx)) as Hl.
  rewrite E, length_wots_pk in Hl. discriminate Hl. unfold WOTS_CHAINS. lia.
Qed.

(** The allocation-free leaf computation returns exactly the leaf of the
    reference one, [wots_pk] compressed by [wots_pk_to_leaf]. *)
Theorem auth_leaf_hash_inplace (ask_j : F) (key_idx : N) :
  wots_pk_to_leaf (derive_auth_pub_seed ask_j) key_idx (wots_pk ask_j key_idx) =
  Ok (auth_leaf_hash ask_j key_idx).
Proof. apply leaf_hash_inplace. Qed.
End Signatures.

(** A number whose half is [i] is [2 * i] or [2 * i + 1]. *)
Lemma half_below q i : q / 2 = i -> q = 2 * i \/ q = 2 * i + 1.
Proof.
  intros <-. pose proof (N.div_mod' q 2) as E. pose proof (N.mod_lt q 2 ltac:(done)) as L.
  revert E L. generalize (q mod 2) (q / 2). intros; lia.
Qed.

Section Trees.
Context `{Blake2s}.
Context (ask_j pub_seed : F).

(** ** XMSS trees *)

Definition xleaf (i : N) : F :=
  match wots_pk_to_leaf pub_seed i (wots_pk ask_j i) with Ok leaf => leaf | _ => ZERO end.

(** The tree over the leaves [i * 2^h ..]. *)
Fixpoint xnode (h : nat) (i : N) : F :=
  match h with
  | O => xleaf i
  | S h => xmss_tree_node_hash pub_seed (N.of_nat h) i (xnode h (2 * i)) (xnode h (2 * i + 1))
  end.

(** The siblings of leaf [t], lowest first. *)
Definition xpath (h : nat) (t : N) : list F :=
  (fun d => xnode d (N.lxor (t / 2 ^ N.of_nat d) 1)) <$> seq 0 h.

(** The root a path leads to from level [d] on, as a verifier recomputes it. *)
Fixpoint xpath_root (d : nat) (cur : F) (idx : N) (path : list F) : F :=
  match path with
  | [] => cur
  | sib :: path =>
      xpath_root (S d)
        (if N.even idx then xmss_tree_node_hash pub_seed (N.of_nat d) (idx / 2) cur sib
         else xmss_tree_node_hash pub_seed (N.of_nat d) (idx / 2) sib cur)
        (idx / 2) path
  end.

Lemma xleaf_Ok i : wots_pk_to_leaf pub_seed i (wots_pk ask_j i) = Ok (xleaf i).
Proof.
  unfold xleaf. destruct (wots_pk_to_leaf_Ok pub_seed i (wots_pk ask_j i)) as [l ->]; [|done].
  intros E. pose proof (length_wots_pk ask_j i) as Hlen. by rewrite E in Hlen.
Qed.

Lemma rebuild_allowed start h :
  (if is_full_rebuild start h then assert_full_xmss_rebuild_allowed false else mret tt) = Ok tt.
Proof. by destruct (is_full_rebuild _ _). Qed.

(** The [u32] arithmetic of a step, where nothing wraps. *)
Lemma subtree_arith i h :
  (S h < 32)%nat -> (i + 1) * 2 ^ N.of_nat (S h) <= U32_LIMIT ->
  i * 2 ^ N.of_nat (S h) = 2 * i * 2 ^ N.of_nat h /\
  add_u32 (i * 2 ^ N.of_nat (S h)) (shl1_u32 h) = (2 * i + 1) * 2 ^ N.of_nat h /\
  shr_u32 (i * 2 ^ N.of_nat (S h)) (S h) = i /\
  (2 * i + 1) * 2 ^ N.of_nat h <= U32_LIMIT /\
  (2 * i + 1 + 1) * 2 ^ N.of_nat h <= U32_LIMIT.
Proof.
  intros Hh Hle. unfold add_u32, shl1_u32, shr_u32.
  rewrite !N.mod_small with (b := 32) by lia. rewrite N.shiftl_1_l, N.shiftr_div_pow2.
  rewrite N.div_mul by by apply N.pow_nonzero.
  rewrite Nat2N.inj_succ, N.pow_succ_r' in *.
  pose proof (N.pow_nonzero 2 (N.of_nat h)).
  split; [lia|]. split; [rewrite N.mod_small; nia|]. split; [done|]. nia.
Qed.

Lemma xmss_subtree_root_spec i h :
  (h < 32)%nat -> (i + 1) * 2 ^ N.of_nat h <= U32_LIMIT ->
  xmss_subtree_root false ask_j pub_seed (i * 2 ^ N.of_nat h) h = Ok (xnode h i).
Proof.
  revert i. induction h as [|h IH]; intros i Hh Hle; cbn [xmss_subtree_root];
    rewrite rebuild_allowed; cbn [mbind result_bind].
  - change (2 ^ N.of_nat 0) with 1. by rewrite N.mul_1_r, xleaf_Ok.
  - destruct (subtree_arith i h Hh Hle) as (E1 & -> & -> & L1 & L2).
    rewrite E1, !IH by lia. done.
Qed.

Lemma xmss_root_and_path_spec i h t :
  (h < 32)%nat -> (i + 1) * 2 ^ N.of_nat h <= U32_LIMIT ->
  xmss_root_and_path_inner false ask_j pub_seed (i * 2 ^ N.of_nat h) h t =
    Ok (xnode h i, if decide (t / 2 ^ N.of_nat h = i) then Some (xpath h t) else None).
Proof.
  revert i. induction h as [|h IH]; intros i Hh Hle; cbn [xmss_root_and_path_inner];
    rewrite rebuild_allowed; cbn [mbind result_bind].
  - change (2 ^ N.of_nat 0) with 1. rewrite N.mul_1_r, xleaf_Ok, N.div_1_r.
    cbn [mbind result_bind]. destruct (N.eqb_spec i t) as [->|Hne].
    + by rewrite decide_True.
    + by rewrite decide_False by done.
  - destruct (subtree_arith i h Hh Hle) as (E1 & -> & -> & L1 & L2). rewrite E1.
    rewrite !xmss_subtree_root_spec, !IH by lia. cbn [mbind result_bind].
    set (q := t / 2 ^ N.of_nat h).
    assert (t / 2 ^ N.of_nat (S h) = q / 2) as ->
      by (unfold q; rewrite N.Div0.div_div, Nat2N.inj_succ, N.pow_succ_r'; f_equal; lia).
    assert (t < (2 * i + 1) * 2 ^ N.of_nat h <-> q < 2 * i + 1) as Hlt.
    { unfold q. pose proof (N.pow_nonzero 2 (N.of_nat h)).
      pose proof (N.Div0.mul_div_le t (2 ^ N.of_nat h)).
      pose proof (N.mul_succ_div_gt t (2 ^ N.of_nat h)). nia. }
    unfold xpath. rewrite seq_S, fmap_app. cbn [fmap list_fmap plus]. fold q.
    destruct (N.ltb_spec t ((2 * i + 1) * 2 ^ N.of_nat h)) as [H1|H1].
    + rewrite (proj2 (N.leb_gt _ _)) by done. cbn [mbind result_bind].
      apply Hlt in H1. cbn [xnode]. destruct (decide (q = 2 * i)) as [->|Hne].
      * rewrite decide_True by (symmetry; apply (N.div_unique _ _ _ 0); lia). rewrite lxor_1.
        assert (N.even (2 * i) = true) as -> by (apply N.even_spec; by exists i). done.
      * rewrite decide_False; [done|]. intros E. apply Hne. apply half_below in E; lia.
    + rewrite (proj2 (N.leb_le _ _)) by done. cbn [mbind result_bind].
      assert (~ q < 2 * i + 1) as Hge by (rewrite <-Hlt; lia).
      cbn [xnode]. destruct (decide (q = 2 * i + 1)) as [->|Hne].
      * rewrite decide_True by (symmetry; apply (N.div_unique _ _ _ 1); lia). rewrite lxor_1.
        assert (N.even (2 * i + 1) = false) as ->
          by (rewrite <-N.negb_odd, (proj2 (N.odd_spec _)); [done|by exists i]).
        by rewrite N.add_sub.
      * rewrite decide_False; [done|]. intros E. apply Hne. apply half_below in E; lia.
Qed.

Lemma xnode_step d idx :
  xnode (S d) (idx / 2) =
  if N.even idx
  then xmss_tree_node_hash pub_seed (N.of_nat d) (idx / 2) (xnode d idx) (xnode d (N.lxor idx 1))
  else xmss_tree_node_hash pub_seed (N.of_nat d) (idx / 2) (xnode d (N.lxor idx 1)) (xnode d idx).
Proof.
  rewrite lxor_1. cbn [xnode]. destruct (N.even idx) eqn:E.
  - apply N.even_spec in E as [m ->].
    by replace (2 * m / 2) with m by (apply (N.div_unique _ _ _ 0); lia).
  - assert (N.odd idx = true) as O by (by rewrite <-N.negb_even, E).
    apply N.odd_spec in O as [m ->].
    replace ((2 * m + 1) / 2) with m by (apply (N.div_unique _ _ _ 1); lia).
    by replace (2 * m + 1 - 1) with (2 * m) by lia.
Qed.

Lemma xpath_root_spec k d t :
  xpath_root d (xnode d (t / 2 ^ N.of_nat d)) (t / 2 ^ N.of_nat d)
    ((fun d => xnode d (N.lxor (t / 2 ^ N.of_nat d) 1)) <$> seq d k) =
  xnode (d + k) (t / 2 ^ N.of_nat (d + k)).
Proof.
  revert d. induction k as [|k IH]; intros d; cbn [seq fmap list_fmap xpath_root].
  - by rewrite Nat.add_0_r.
  - rewrite <-xnode_step.
    assert (t / 2 ^ N.of_nat d / 2 = t / 2 ^ N.of_nat (S d)) as ->
      by (rewrite N.Div0.div_div, Nat2N.inj_succ, N.pow_succ_r'; f_equal; lia).
    rewrite IH. by rewrite Nat.add_succ_r.
Qed.
End Trees.

Section AuthTree.
Context `{Blake2s}.

Lemma auth_depth_small : (AUTH_DEPTH < 32)%nat.
Proof. unfold AUTH_DEPTH. lia. Qed.

Lemma auth_depth_u32 : (0 + 1) * 2 ^ N.of_nat AUTH_DEPTH <= U32_LIMIT.
Proof. vm_compute. discriminate. Qed.

#[local] Opaque AUTH_DEPTH.

(** The tree of any height over the first leaves. *)
Lemma xmss_path_correct ask_j h index :
  (h < 32)%nat -> (0 + 1) * 2 ^ N.of_nat h <= U32_LIMIT ->
  let pub_seed := derive_auth_pub_seed ask_j in
  (index < 2 ^ N.of_nat h -> exists root path,
    xmss_root_and_path_inner false ask_j pub_seed 0 h index = Ok (root, Some path) /\
    xmss_subtree_root false ask_j pub_seed 0 h = Ok root /\
    length path = h /\
    xpath_root pub_seed 0 (auth_leaf_hash ask_j index) index path = root) /\
  (2 ^ N.of_nat h <= index -> exists root,
    xmss_root_and_path_inner false ask_j pub_seed 0 h index = Ok (root, None)).
Proof.
  intros Hh Hu. cbn zeta. set (ps := derive_auth_pub_seed ask_j).
  pose proof (xmss_root_and_path_spec ask_j ps 0 h index Hh Hu) as Hp.
  pose proof (xmss_subtree_root_spec ask_j ps 0 h Hh Hu) as Hs.
  rewrite N.mul_0_l in Hp, Hs. rewrite Hp, Hs. clear Hp Hs. split.
  - intros Hi. rewrite decide_True by by apply N.div_small.
    eexists _, _. split; [reflexivity|]. split; [reflexivity|].
    split; [unfold xpath; by rewrite length_fmap, length_seq|].
    pose proof (xpath_root_spec ask_j ps h 0 index) as Hr.
    change (2 ^ N.of_nat 0) with 1 in Hr. rewrite N.div_1_r in Hr. cbn [xnode plus] in Hr.
    assert (xleaf ask_j ps index = auth_leaf_hash ask_j index) as Hl
      by (unfold xleaf, ps; by rewrite leaf_hash_inplace).
    rewrite Hl in Hr. unfold xpath. rewrite Hr. by rewrite N.div_small.
  - intros Hge. rewrite decide_False; [by eexists|].
    intros E. apply N.div_small_iff in E; [lia|by apply N.pow_nonzero].
Qed.

(** For every key index of the 65536 of an address, the served root is the root
    of [build_auth_tree] and the 16 siblings recompute it from that key's leaf; an
    index outside the tree panics, as the source says it does. *)
Theorem auth_root_and_path_correct (ask_j : F) (index : N) :
  let pub_seed := derive_auth_pub_seed ask_j in
  (index < 2 ^ N.of_nat AUTH_DEPTH -> exists root path,
    auth_root_and_path false ask_j index = Ok (root, path) /\
    build_auth_tree false ask_j = Ok root /\
    length path = AUTH_DEPTH /\
    xpath_root pub_seed 0 (auth_leaf_hash ask_j index) index path = root) /\
  (2 ^ N.of_nat AUTH_DEPTH <= index < U32_LIMIT ->
    is_panic (auth_root_and_path false ask_j index) = true).
Proof.
  unfold auth_root_and_path, build_auth_tree.
  generalize auth_depth_small, auth_depth_u32. generalize AUTH_DEPTH. intros d Hd Hu.
  unfold assert_full_xmss_rebuild_allowed. cbn [negb panic_unless mbind result_bind].
  destruct (xmss_path_correct ask_j d index Hd Hu) as [Hin Hout]. split.
  - intros Hi. destruct (Hin Hi) as (root & path & Hp & Hs & Hl & Hr).
    exists root, path. rewrite N.mod_small by lia.
    rewrite Hp. split; [reflexivity|]. split; [exact Hs|]. split; [exact Hl|exact Hr].
  - intros [Hge Hlt]. rewrite N.mod_small by exact Hlt. destruct (Hout Hge) as [root Hp].
    rewrite Hp. reflexivity.
Qed.
End AuthTree.

(** ** Witnesses *)

Lemma wots_digits_no_domination_witness : felt_tag "a" = felt_tag "a".
Proof.
  apply wots_digits_no_domination. apply Forall2_same_length_lookup.
  split; [done|]. intros i x y Hx Hy. rewrite Hx in Hy. injection Hy as ->. apply N.le_refl.
Defined.
