(* ===== verification/Notes.v ===== *)
(** * Notes: encrypted notes of [core/src/lib.rs]

    ML-KEM detection and viewing, the AEAD payload, and the sender's outgoing-recovery
    record.  The two crates behind them are the classes [MlKem] and [Aead]; their laws
    are what the round trips use. *)

From S2P Require Import Prelude Felt Externals Concrete Types Hashing.

Local Open Scope N_scope.

(** ** Outgoing recovery records *)

Inductive OutgoingNoteRole :=
| ShieldOutput | ProducerFee | TransferRecipient | TransferChange | UnshieldChange.

Definition role_as_u8 (r : OutgoingNoteRole) : N :=
  match r with
  | ShieldOutput => 1
  | ProducerFee => 2
  | TransferRecipient => 3
  | TransferChange => 4
  | UnshieldChange => 5
  end.

Definition role_from_u8 (value : N) : option OutgoingNoteRole :=
  match value with
  | 1 => Some ShieldOutput
  | 2 => Some ProducerFee
  | 3 => Some TransferRecipient
  | 4 => Some TransferChange
  | 5 => Some UnshieldChange
  | _ => None
  end.

Definition role_as_str (r : OutgoingNoteRole) : string :=
  match r with
  | ShieldOutput => "shield_output"
  | ProducerFee => "producer_fee"
  | TransferRecipient => "transfer_recipient"
  | TransferChange => "transfer_change"
  | UnshieldChange => "unshield_change"
  end.

Record OutgoingRecoveryPlaintext := {
  or_role : OutgoingNoteRole;
  or_value : N;
  or_rseed : F;
  or_d_j : F;
  or_auth_root : F;
  or_auth_pub_seed : F;
  or_nk_tag : F
}.

Definition outgoing_encode (p : OutgoingRecoveryPlaintext) : bytes :=
  [byte_of_N (role_as_u8 (or_role p))] ++ le_bytes 8 (or_value p) ++ F_bytes (or_rseed p) ++
  F_bytes (or_d_j p) ++ F_bytes (or_auth_root p) ++ F_bytes (or_auth_pub_seed p) ++
  F_bytes (or_nk_tag p).

(** [&bytes[a..b]]. *)
Definition slice (b : bytes) (from to : nat) : bytes := take (to - from) (drop from b).

Definition outgoing_decode (b : bytes) : option OutgoingRecoveryPlaintext :=
  if negb (length b =? OUTGOING_RECOVERY_PLAINTEXT_BYTES)%nat then None
  else
    tag ← head b;
    role ← role_from_u8 (Byte.to_N tag);
    Some {| or_role := role;
            or_value := le_val (slice b 1 9);
            or_rseed := mkF (slice b 9 41);
            or_d_j := mkF (slice b 41 73);
            or_auth_root := mkF (slice b 73 105);
            or_auth_pub_seed := mkF (slice b 105 137);
            or_nk_tag := mkF (slice b 137 169) |}.

Definition empty_outgoing_recovery_ct : bytes := replicate OUTGOING_RECOVERY_CT_BYTES Byte.x00.

(** [ct_eq_u16]. *)
Definition ct_eq_u16 (a b : N) : bool :=
  let x := N.lxor a b in
  let diff := 0 in
  let diff := N.lor diff (x mod 256) in
  let diff := N.lor diff (N.shiftr x 8 mod 256) in
  diff =? 0.

(** [&x[..len]] copied into [MEMO_SIZE] zero bytes; no memo is marked by [0xF6]. *)
Definition pad_memo (user_memo : option bytes) : bytes :=
  match user_memo with
  | Some m => resize MEMO_SIZE Byte.x00 m
  | None => Byte.xf6 :: replicate (MEMO_SIZE - 1) Byte.x00
  end.

(** [result.unwrap()] of a fallible crate call. *)
Definition unwrap {A} (o : option A) : result A :=
  match o with Some a => Ok a | None => Panic "called `Result::unwrap()` on an `Err` value" end.

Section Notes.
Context `{Blake2s, MlKem, Aead}.

Definition outgoing_commitment (p : OutgoingRecoveryPlaintext) : F :=
  let rcm := derive_rcm (or_rseed p) in
  let owner := owner_tag (or_auth_root p) (or_auth_pub_seed p) (or_nk_tag p) in
  commit (or_d_j p) (or_value p) rcm owner.

Definition encrypt_outgoing_recovery (outgoing_seed cm : F) (plaintext : OutgoingRecoveryPlaintext)
    : result bytes :=
  let key := derive_outgoing_recovery_key outgoing_seed cm in
  let nonce := derive_outgoing_recovery_nonce key cm in
  unwrap (aead_encrypt key nonce (outgoing_encode plaintext)).

Definition decrypt_outgoing_recovery (outgoing_seed cm : F) (outgoing_ct : bytes)
    : option OutgoingRecoveryPlaintext :=
  if negb (length outgoing_ct =? OUTGOING_RECOVERY_CT_BYTES)%nat then None
  else
    let key := derive_outgoing_recovery_key outgoing_seed cm in
    let nonce := derive_outgoing_recovery_nonce key cm in
    plaintext ← aead_decrypt key nonce outgoing_ct;
    outgoing_decode plaintext.

(** ** Keys *)

Definition kem_keygen_from_seed (seed : bytes) : Ek * Dk :=
  let dk := kem_dk_from_seed seed in
  (kem_encapsulation_key dk, dk).

Definition derive_kem_keys (incoming_seed : F) (j : N) : Ek * Dk * Ek * Dk :=
  let sv := derive_kem_view_seed incoming_seed j in
  let sd := derive_kem_detect_seed incoming_seed j in
  let '(ek_v, dk_v) := kem_keygen_from_seed sv in
  let '(ek_d, dk_d) := kem_keygen_from_seed sd in
  (ek_v, dk_v, ek_d, dk_d).

Definition derive_kem_detect_keys_from_root (detect_root : F) (j : N) : Ek * Dk :=
  kem_keygen_from_seed (kem_seed "mlkem-d" "mlkem-d2" detect_root j).

(** ** Note encryption *)

(** The detection tag of a shared secret: its hash's first ten bits. *)
Definition detection_tag (ss : bytes) : N :=
  N.land (le_val (take 2 (F_bytes (hash ss)))) (N.shiftl 1 (N.of_nat DETECT_K) - 1).

Definition note_plaintext (v : N) (rseed : F) (user_memo : option bytes) : bytes :=
  le_bytes 8 v ++ F_bytes rseed ++ pad_memo user_memo.

Definition encrypt_note_deterministic (v : N) (rseed : F) (user_memo : option bytes)
    (ek_v ek_d : Ek) (detect_ephemeral view_ephemeral : F) : result EncryptedNote :=
  let '(ct_d, ss_d) := kem_encapsulate_deterministic ek_d detect_ephemeral in
  let tag := detection_tag ss_d in
  let plaintext := note_plaintext v rseed user_memo in
  let '(ct_v, ss_v) := kem_encapsulate_deterministic ek_v view_ephemeral in
  let key := hash ss_v in
  let nonce := derive_note_aead_nonce key plaintext in
  encrypted_data ← unwrap (aead_encrypt key nonce plaintext);
  mret {| en_ct_d := ct_d; en_tag := tag; en_ct_v := ct_v; en_nonce := nonce;
          en_encrypted_data := encrypted_data; en_outgoing_ct := empty_outgoing_recovery_ct |}.

(** [encrypt_note] draws the two ephemerals; on [wasm32] it is unreachable. *)
Definition encrypt_note (wasm : bool) (v : N) (rseed : F) (user_memo : option bytes)
    (ek_v ek_d : Ek) (random_detect random_view : F) : result EncryptedNote :=
  if wasm
  then Panic "encrypt_note is not available on wasm32; use client-provided shield notes"
  else encrypt_note_deterministic v rseed user_memo ek_v ek_d random_detect random_view.

(** [ml_kem_768::Ciphertext::try_from(slice)]. *)
Definition ciphertext_try_from (b : bytes) : option bytes :=
  if (length b =? ML_KEM768_CIPHERTEXT_BYTES)%nat then Some b else None.

Definition detect (enc : EncryptedNote) (dk_d : Dk) : result bool :=
  match ciphertext_try_from (en_ct_d enc) with
  | None => Ok false
  | Some ct =>
      ss ← unwrap (kem_try_decapsulate dk_d ct);
      mret (ct_eq_u16 (detection_tag ss) (en_tag enc))
  end.

(** [Nonce::from_slice] panics on a slice that is not twelve bytes long. *)
Definition decrypt_memo (enc : EncryptedNote) (dk_v : Dk) : result (option (N * F * bytes)) :=
  match ct ← ciphertext_try_from (en_ct_v enc); kem_try_decapsulate dk_v ct with
  | None => Ok None
  | Some ss =>
      let key := hash ss in
      panic_unless (length (en_nonce enc) =? NOTE_AEAD_NONCE_BYTES)%nat
        "assertion failed: slice length" ;;
      match aead_decrypt key (en_nonce enc) (en_encrypted_data enc) with
      | None => Ok None
      | Some pt =>
          if negb (length pt =? 8 + 32 + MEMO_SIZE)%nat then Ok None
          else Ok (Some (le_val (take 8 pt), mkF (slice pt 8 40), drop 40 pt))
      end
  end.

(** ** Outgoing records round trip *)

Lemma role_roundtrip r : role_from_u8 (role_as_u8 r) = Some r.
Proof. by destruct r. Qed.

Lemma role_from_u8_Some v r : role_from_u8 v = Some r -> v = role_as_u8 r.
Proof.
  destruct v as [|[[[p|p|]|[p|p|]|]|[[p|p|]|[p|p|]|]|]]; cbn; intros Hr; try done;
    by injection Hr as <-.
Qed.

Lemma length_outgoing_encode p :
  length (outgoing_encode p) = OUTGOING_RECOVERY_PLAINTEXT_BYTES.
Proof.
  unfold outgoing_encode. rewrite !length_app, length_le_bytes, !length_F_bytes. reflexivity.
Qed.

(** Cutting a concatenation: the slice that starts after [a] and is as long as [x]. *)
Lemma slice_app (a x r : bytes) from to :
  length a = from -> (from + length x = to)%nat -> slice (a ++ x ++ r) from to = x.
Proof.
  intros Ha Hx. unfold slice. rewrite drop_app_exact by done. apply take_app_exact. lia.
Qed.

Lemma length_slice b from to : (to <= length b)%nat -> length (slice b from to) = (to - from)%nat.
Proof. intros Hl. unfold slice. rewrite length_take, length_drop. lia. Qed.

Lemma take_drop_slice b from to :
  (from <= to)%nat -> drop from b = slice b from to ++ drop to b.
Proof.
  intros Hle. unfold slice. rewrite <-(take_drop (to - from) (drop from b)) at 1.
  rewrite drop_drop. do 2 f_equal. lia.
Qed.

Lemma outgoing_decode_encode p : is_u64 (or_value p) -> outgoing_decode (outgoing_encode p) = Some p.
Proof.
  intros Hv. unfold outgoing_decode. rewrite length_outgoing_encode, Nat.eqb_refl. cbn [negb].
  destruct p as [role v f1 f2 f3 f4 f5]; cbn [or_value] in Hv. unfold outgoing_encode.
  cbn [or_role or_value or_rseed or_d_j or_auth_root or_auth_pub_seed or_nk_tag].
  set (t := [byte_of_N (role_as_u8 role)]).
  assert (length t = 1%nat) as Ht by done.
  assert (head (t ++ le_bytes 8 v ++ F_bytes f1 ++ F_bytes f2 ++ F_bytes f3 ++ F_bytes f4 ++
    F_bytes f5) = Some (byte_of_N (role_as_u8 role))) as -> by done.
  cbn [mbind option_bind]. rewrite byte_to_of_N, N.mod_small by by destruct role.
  rewrite role_roundtrip. cbn [mbind option_bind].
  rewrite (slice_app t) by (rewrite ?length_le_bytes; done).
  rewrite le_val_roundtrip by done.
  rewrite (app_assoc t). rewrite slice_app by (rewrite ?length_app, ?length_le_bytes, ?length_F_bytes; done).
  rewrite (app_assoc (_ ++ _)). rewrite slice_app by (rewrite ?length_app, ?length_le_bytes, ?length_F_bytes; done).
  rewrite (app_assoc (_ ++ _)). rewrite slice_app by (rewrite ?length_app, ?length_le_bytes, ?length_F_bytes; done).
  rewrite (app_assoc (_ ++ _)). rewrite slice_app by (rewrite ?length_app, ?length_le_bytes, ?length_F_bytes; done).
  rewrite (app_assoc (_ ++ _)). rewrite <-(app_nil_r (F_bytes f5)).
  rewrite slice_app by (rewrite ?length_app, ?length_le_bytes, ?length_F_bytes; done).
  by rewrite !mkF_F_bytes.
Qed.

Lemma outgoing_encode_decode b p : outgoing_decode b = Some p -> outgoing_encode p = b.
Proof.
  unfold outgoing_decode. destruct (Nat.eqb_spec (length b) OUTGOING_RECOVERY_PLAINTEXT_BYTES) as [Hl|];
    cbn [negb]; [|done].
  unfold OUTGOING_RECOVERY_PLAINTEXT_BYTES in Hl. cbn in Hl.
  destruct b as [|t b]; [done|]. cbn [head mbind option_bind].
  destruct (role_from_u8 (Byte.to_N t)) as [role|] eqn:Er; [|done]. cbn [mbind option_bind].
  apply role_from_u8_Some in Er. intros [= <-]. unfold outgoing_encode.
  cbn [or_role or_value or_rseed or_d_j or_auth_root or_auth_pub_seed or_nk_tag].
  rewrite <-Er, byte_of_to_N. set (b0 := t :: b) in *.
  assert (le_bytes 8 (le_val (slice b0 1 9)) = slice b0 1 9) as ->.
  { rewrite <-(length_slice b0 1 9) at 1 by lia. apply le_bytes_le_val. }
  rewrite !F_bytes_mkF by (rewrite length_slice; lia).
  transitivity (take 1 b0 ++ drop 1 b0); [|apply take_drop]. f_equal.
  rewrite (take_drop_slice b0 1 9), (take_drop_slice b0 9 41), (take_drop_slice b0 41 73),
    (take_drop_slice b0 73 105), (take_drop_slice b0 105 137), (take_drop_slice b0 137 169) by lia.
  by rewrite (drop_ge b0 169), app_nil_r by lia.
Qed.

(** The 169-byte recovery record is a canonical encoding: every record with
    a [u64] value decodes to itself, and a byte string decodes to a record only if it is
    that record's encoding. *)
Theorem outgoing_recovery_canonical (p : OutgoingRecoveryPlaintext) (b : bytes) :
  is_u64 (or_value p) -> outgoing_decode b = Some p <-> b = outgoing_encode p.
Proof.
  intros Hv. split; [intros Hd; by rewrite (outgoing_encode_decode b p)|].
  intros ->. by apply outgoing_decode_encode.
Qed.

(** ** Encryption round trips *)

Lemma length_nonce_of (f : F) : length (take NOTE_AEAD_NONCE_BYTES (F_bytes f)) = 12%nat.
Proof. rewrite length_take, length_F_bytes. reflexivity. Qed.

(** The sender recovers the record it sealed under its own outgoing
    seed and the note's commitment; the ciphertext has the length the note's shape
    check demands, and sealing never panics. *)
Theorem outgoing_recovery_roundtrip `{!AeadLaws} (outgoing_seed cm : F)
    (p : OutgoingRecoveryPlaintext) :
  is_u64 (or_value p) ->
  exists ct,
    encrypt_outgoing_recovery outgoing_seed cm p = Ok ct /\
    length ct = OUTGOING_RECOVERY_CT_BYTES /\
    decrypt_outgoing_recovery outgoing_seed cm ct = Some p.
Proof.
  intros Hv. unfold encrypt_outgoing_recovery, decrypt_outgoing_recovery.
  destruct (aead_encrypt_total (derive_outgoing_recovery_key outgoing_seed cm)
    (derive_outgoing_recovery_nonce (derive_outgoing_recovery_key outgoing_seed cm) cm)
    (outgoing_encode p)) as [ct Hct].
  { apply length_nonce_of. }
  { by rewrite length_outgoing_encode. }
  exists ct. rewrite Hct. split; [done|].
  assert (length ct = OUTGOING_RECOVERY_CT_BYTES) as Hl
    by (by rewrite (length_aead_encrypt _ _ _ _ Hct), length_outgoing_encode).
  split; [done|]. rewrite Hl, Nat.eqb_refl. cbn [negb].
  rewrite (aead_decrypt_encrypt _ _ _ _ Hct). by apply outgoing_decode_encode.
Qed.

Lemma length_pad_memo m : length (pad_memo m) = MEMO_SIZE.
Proof. destruct m as [m|]; [apply length_resize|]. cbn [pad_memo length]. by rewrite length_replicate. Qed.

Lemma length_note_plaintext v rseed m :
  length (note_plaintext v rseed m) = (8 + 32 + MEMO_SIZE)%nat.
Proof.
  unfold note_plaintext. by rewrite !length_app, length_le_bytes, length_F_bytes, length_pad_memo.
Qed.

Lemma detection_tag_bound ss : detection_tag ss < 2 ^ N.of_nat DETECT_K.
Proof.
  unfold detection_tag. rewrite N.shiftl_1_l.
  change (2 ^ N.of_nat DETECT_K - 1) with (N.ones (N.of_nat DETECT_K)). rewrite N.land_ones.
  by apply N.mod_lt.
Qed.

Lemma lor_zero a b : N.lor a b = 0 <-> a = 0 /\ b = 0.
Proof. apply N.lor_eq_0_iff. Qed.

(** The branch-free comparison is equality on [u16]. *)
Theorem ct_eq_u16_correct (a b : N) :
  a < 2 ^ 16 -> b < 2 ^ 16 -> ct_eq_u16 a b = true <-> a = b.
Proof.
  intros Ha Hb. unfold ct_eq_u16. rewrite N.eqb_eq, N.lor_0_l, lor_zero.
  rewrite N.shiftr_div_pow2. change (2 ^ 8) with 256. split.
  - intros [H1' H2']. apply N.lxor_eq.
    assert (N.lxor a b < 2 ^ 16) as Hx.
    { destruct (N.eq_dec (N.lxor a b) 0) as [->|Hne]; [done|].
      apply N.log2_lt_pow2; [lia|]. eapply N.le_lt_trans; [apply N.log2_lxor|].
      apply N.max_lub_lt;
        [destruct (N.eq_dec a 0) as [->|]|destruct (N.eq_dec b 0) as [->|]];
        try done; apply N.log2_lt_pow2; lia. }
    pose proof (N.div_mod' (N.lxor a b) 256) as E. rewrite H1' in E.
    rewrite N.mod_small in H2'; [lia|]. apply N.Div0.div_lt_upper_bound. exact Hx.
  - intros ->. by rewrite N.lxor_nilpotent.
Qed.

Lemma ct_eq_u16_refl a : ct_eq_u16 a a = true.
Proof. unfold ct_eq_u16. by rewrite N.lxor_nilpotent. Qed.

(** A note encrypted to an address passes the ledger's shape check, is flagged
    by the address's detection key, and opens under its viewing key to the value, the
    seed and the padded memo. *)
Theorem encrypt_note_correct `{!AeadLaws, !MlKemLaws} (v : N) (rseed : F) (memo : option bytes)
    (seed_v seed_d : bytes) (m_d m_v : F) :
  is_u64 v ->
  let '(ek_v, dk_v) := kem_keygen_from_seed seed_v in
  let '(ek_d, dk_d) := kem_keygen_from_seed seed_d in
  exists enc,
    encrypt_note_deterministic v rseed memo ek_v ek_d m_d m_v = Ok enc /\
    note_shape enc /\
    detect enc dk_d = Ok true /\
    decrypt_memo enc dk_v = Ok (Some (v, rseed, pad_memo memo)).
Proof.
  intros Hv. unfold kem_keygen_from_seed, encrypt_note_deterministic.
  set (dk_v := kem_dk_from_seed seed_v). set (dk_d := kem_dk_from_seed seed_d).
  destruct (kem_encapsulate_deterministic (kem_encapsulation_key dk_d) m_d) as [ct_d ss_d] eqn:Ed.
  destruct (kem_encapsulate_deterministic (kem_encapsulation_key dk_v) m_v) as [ct_v ss_v] eqn:Ev.
  pose proof (length_kem_ciphertext (kem_encapsulation_key dk_d) m_d) as Ld. rewrite Ed in Ld.
  pose proof (length_kem_ciphertext (kem_encapsulation_key dk_v) m_v) as Lv. rewrite Ev in Lv.
  cbn [fst] in Ld, Lv. set (pt := note_plaintext v rseed memo).
  destruct (aead_encrypt_total (hash ss_v) (derive_note_aead_nonce (hash ss_v) pt) pt) as [ct Hct].
  { apply length_nonce_of. }
  { unfold pt. by rewrite length_note_plaintext. }
  rewrite Hct. eexists. split; [reflexivity|]. split; [|split].
  - constructor; cbn [en_ct_d en_ct_v en_nonce en_encrypted_data en_outgoing_ct en_tag].
    + exact Ld.
    + exact Lv.
    + apply length_nonce_of.
    + rewrite (length_aead_encrypt _ _ _ _ Hct). unfold pt. by rewrite length_note_plaintext.
    + apply length_replicate.
    + apply detection_tag_bound.
  - unfold detect, ciphertext_try_from. cbn [en_ct_d en_tag]. rewrite Ld.
    rewrite Nat.eqb_refl, (kem_decapsulate_encapsulate _ _ _ _ Ed). cbn [unwrap mbind result_bind].
    by rewrite ct_eq_u16_refl.
  - unfold decrypt_memo, ciphertext_try_from. cbn [en_ct_v en_nonce en_encrypted_data].
    rewrite Lv, Nat.eqb_refl. cbn [mbind option_bind].
    rewrite (kem_decapsulate_encapsulate _ _ _ _ Ev).
    rewrite (length_nonce_of _ : length (derive_note_aead_nonce _ _) = _).
    rewrite Nat.eqb_refl, (aead_decrypt_encrypt _ _ _ _ Hct).
    cbn [panic_unless mbind result_bind].
    unfold pt at 1. rewrite length_note_plaintext, Nat.eqb_refl. cbn [negb].
    unfold pt, note_plaintext.
    rewrite take_app_exact by apply length_le_bytes. rewrite le_val_roundtrip by done.
    rewrite slice_app by (rewrite ?length_le_bytes, ?length_F_bytes; done).
    rewrite app_assoc, drop_app_exact by (by rewrite length_app, length_le_bytes, length_F_bytes).
    by rewrite mkF_F_bytes.
Qed.

(** The holder of the detection root derives, for every address index,
    exactly the address's detection keys. *)
Theorem detect_keys_from_root (incoming_seed : F) (j : N) :
  let '(_, _, ek_d, dk_d) := derive_kem_keys incoming_seed j in
  derive_kem_detect_keys_from_root (derive_detect_root incoming_seed) j = (ek_d, dk_d).
Proof. reflexivity. Qed.

(** Opening a note panics only on a nonce of the wrong length, which the
    shape check excludes. *)
Theorem decrypt_memo_no_panic (enc : EncryptedNote) (dk_v : Dk) :
  (is_panic (decrypt_memo enc dk_v) = true -> length (en_nonce enc) <> NOTE_AEAD_NONCE_BYTES) /\
  (note_shape enc -> is_panic (decrypt_memo enc dk_v) = false).
Proof.
  assert (length (en_nonce enc) = NOTE_AEAD_NONCE_BYTES -> is_panic (decrypt_memo enc dk_v) = false)
    as Hok.
  { intros Hn. unfold decrypt_memo. destruct (_ ≫= _) as [ss|]; [|done].
    rewrite Hn, Nat.eqb_refl. cbn [panic_unless mbind result_bind].
    destruct (aead_decrypt _ _ _) as [pt|]; [|done]. by destruct (negb _). }
  split; [|intros Hs; apply Hok; apply Hs].
  intros Hp Hn. by rewrite Hok in Hp.
Qed.
End Notes.

(** ** Witnesses *)

Definition sample_recovery : OutgoingRecoveryPlaintext :=
  {| or_role := TransferChange; or_value := 77; or_rseed := u64_to_felt 1;
     or_d_j := u64_to_felt 2; or_auth_root := u64_to_felt 3; or_auth_pub_seed := u64_to_felt 4;
     or_nk_tag := u64_to_felt 5 |}.

Lemma outgoing_recovery_canonical_witness :
  outgoing_decode (outgoing_encode sample_recovery) = Some sample_recovery.
Proof.
  apply (proj2 (outgoing_recovery_canonical sample_recovery (outgoing_encode sample_recovery)
    eq_refl)).
  reflexivity.
Defined.

Lemma outgoing_recovery_roundtrip_witness : exists ct,
  @encrypt_outgoing_recovery toy_blake2s toy_aead (u64_to_felt 8) (u64_to_felt 9) sample_recovery = Ok ct /\
  length ct = OUTGOING_RECOVERY_CT_BYTES /\
  @decrypt_outgoing_recovery toy_blake2s toy_aead (u64_to_felt 8) (u64_to_felt 9) ct = Some sample_recovery.
Proof.
  apply (@outgoing_recovery_roundtrip toy_blake2s toy_aead toy_aead_laws). reflexivity.
Defined.

Lemma ct_eq_u16_correct_witness : ct_eq_u16 513 513 = true <-> 513 = 513.
Proof. apply ct_eq_u16_correct; reflexivity. Defined.

Lemma encrypt_note_correct_witness : exists enc,
  @encrypt_note_deterministic toy_blake2s toy_kem toy_aead 5 (u64_to_felt 1) None []
    [] (u64_to_felt 2) (u64_to_felt 3) = Ok enc /\
  note_shape enc /\
  @detect toy_blake2s toy_kem enc [] = Ok true /\
  @decrypt_memo toy_blake2s toy_kem toy_aead enc [] = Ok (Some (5, u64_to_felt 1, pad_memo None)).
Proof.
  apply (@encrypt_note_correct toy_blake2s toy_kem toy_aead toy_aead_laws toy_kem_laws
    5 (u64_to_felt 1) None [] [] (u64_to_felt 2) (u64_to_felt 3)).
  reflexivity.
Defined.

Definition short_nonce_note : EncryptedNote :=
  {| en_ct_d := replicate 1088 Byte.x01; en_tag := 5; en_ct_v := replicate 1088 Byte.x02;
     en_nonce := []; en_encrypted_data := []; en_outgoing_ct := [] |}.

Lemma decrypt_memo_no_panic_witness :
  length (en_nonce short_nonce_note) <> NOTE_AEAD_NONCE_BYTES.
Proof.
  apply (proj1 (@decrypt_memo_no_panic toy_blake2s toy_kem toy_aead short_nonce_note [])).
  vm_compute. reflexivity.
Defined.
