(* ===== verification/CanonicalWire.v ===== *)
(** * CanonicalWire: [core/src/canonical_wire.rs]

    The byte formats of payment addresses, encrypted notes, note memos and published
    notes.  The codecs of the wire structs are generated by the derive macros of
    [tezos_data_encoding] and are parameters ([Tze]); the one law used is that a
    reader reads back what a writer wrote, and stops there. *)

From S2P Require Import Prelude Felt Externals Concrete Types.

Local Open Scope N_scope.

(** [BinWriter] and [NomReader]; an error is its [{:?}] text. *)
Class Tze (T : Type) := {
  bin_write : T -> result bytes;
  nom_read : bytes -> result (bytes * T)
}.

Class TzeLaws (T : Type) `{Tze T} : Prop := {
  nom_read_bin_write : forall v b rest,
    bin_write v = Ok b -> nom_read (b ++ rest) = Ok (rest, v)
}.

(** ** Wire structs *)

Record WireFelt := { wf_bytes : bytes }.
Record WireU64Le := { wu64_bytes : bytes }.
Record WireU16Le := { wu16_bytes : bytes }.

Record WirePaymentAddress := {
  wpa_d_j : WireFelt;
  wpa_auth_root : WireFelt;
  wpa_auth_pub_seed : WireFelt;
  wpa_nk_tag : WireFelt;
  wpa_ek_v : bytes;
  wpa_ek_d : bytes
}.

Record WireEncryptedNote := {
  wen_ct_d : bytes;
  wen_tag : WireU16Le;
  wen_ct_v : bytes;
  wen_nonce : bytes;
  wen_encrypted_data : bytes;
  wen_outgoing_ct : bytes
}.

Record WireNoteMemo := {
  wnm_index : WireU64Le;
  wnm_cm : WireFelt;
  wnm_enc : WireEncryptedNote
}.

Record WirePublishedNote := {
  wpn_cm : WireFelt;
  wpn_enc : WireEncryptedNote
}.

(** ** Scalars *)

Definition felt_to_wire (f : F) : WireFelt := {| wf_bytes := F_bytes f |}.

Definition wire_to_felt (w : WireFelt) : result F :=
  felt_of_slice (wf_bytes w)
    ("bad felt length: got " +:+ show_nat (length (wf_bytes w)) +:+ " bytes, expected 32").

Definition u64_to_wire (v : N) : WireU64Le := {| wu64_bytes := le_bytes 8 v |}.

Definition wire_to_u64 (w : WireU64Le) : result N :=
  fail_if (negb (length (wu64_bytes w) =? 8)%nat)
    ("bad u64 length: got " +:+ show_nat (length (wu64_bytes w)) +:+ " bytes, expected 8") ;;
  mret (le_val (wu64_bytes w)).

Definition u16_to_wire (v : N) : WireU16Le := {| wu16_bytes := le_bytes 2 v |}.

Definition wire_to_u16 (w : WireU16Le) : result N :=
  fail_if (negb (length (wu16_bytes w) =? 2)%nat)
    ("bad u16 length: got " +:+ show_nat (length (wu16_bytes w)) +:+ " bytes, expected 2") ;;
  mret (le_val (wu16_bytes w)).

(** [usize::try_into::<u64>()]. *)
Definition to_u64 (v : N) : option N := if v <? U64_LIMIT then Some v else None.

Definition encode_tze {T} `{Tze T} (value : T) : result bytes :=
  map_err (fun e => "tezos_data_encoding write failed: " +:+ e) (bin_write value).

Definition decode_tze {T} `{Tze T} (b : bytes) : result T :=
  '(rest, decoded) ←
    map_err (fun e => "tezos_data_encoding read failed: " +:+ e) (nom_read b);
  fail_if (negb (bool_decide (rest = [])))
    ("tezos_data_encoding decode left " +:+ show_nat (length rest) +:+ " trailing bytes") ;;
  mret decoded.

Section CanonicalWire.
Context `{Tze WirePaymentAddress, Tze WireEncryptedNote, Tze WireNoteMemo, Tze WirePublishedNote}.

(** ** Addresses *)

Definition encode_payment_address (addr : PaymentAddress) : result bytes :=
  encode_tze
    {| wpa_d_j := felt_to_wire (pa_d_j addr);
       wpa_auth_root := felt_to_wire (pa_auth_root addr);
       wpa_auth_pub_seed := felt_to_wire (pa_auth_pub_seed addr);
       wpa_nk_tag := felt_to_wire (pa_nk_tag addr);
       wpa_ek_v := pa_ek_v addr;
       wpa_ek_d := pa_ek_d addr |}.

Definition decode_payment_address (b : bytes) : result PaymentAddress :=
  wire ← decode_tze (T := WirePaymentAddress) b;
  d_j ← wire_to_felt (wpa_d_j wire);
  auth_root ← wire_to_felt (wpa_auth_root wire);
  auth_pub_seed ← wire_to_felt (wpa_auth_pub_seed wire);
  nk_tag ← wire_to_felt (wpa_nk_tag wire);
  mret {| pa_d_j := d_j; pa_auth_root := auth_root; pa_auth_pub_seed := auth_pub_seed;
          pa_nk_tag := nk_tag; pa_ek_v := wpa_ek_v wire; pa_ek_d := wpa_ek_d wire |}.

(** ** Notes *)

(** The struct literal every note encoder builds. *)
Definition note_to_wire (enc : EncryptedNote) : WireEncryptedNote :=
  {| wen_ct_d := en_ct_d enc; wen_tag := u16_to_wire (en_tag enc); wen_ct_v := en_ct_v enc;
     wen_nonce := en_nonce enc; wen_encrypted_data := en_encrypted_data enc;
     wen_outgoing_ct := en_outgoing_ct enc |}.

(** The struct literal every note decoder builds, and its validation. *)
Definition note_from_wire (wire : WireEncryptedNote) : result EncryptedNote :=
  tag ← wire_to_u16 (wen_tag wire);
  let enc :=
    {| en_ct_d := wen_ct_d wire; en_tag := tag; en_ct_v := wen_ct_v wire;
       en_nonce := wen_nonce wire; en_encrypted_data := wen_encrypted_data wire;
       en_outgoing_ct := wen_outgoing_ct wire |} in
  EncryptedNote_validate enc ;;
  mret enc.

Definition encode_encrypted_note (enc : EncryptedNote) : result bytes :=
  EncryptedNote_validate enc ;;
  encode_tze (note_to_wire enc).

Definition decode_encrypted_note (b : bytes) : result EncryptedNote :=
  wire ← decode_tze (T := WireEncryptedNote) b;
  note_from_wire wire.

Definition encode_note_memo (note : NoteMemo) : result bytes :=
  index ← ok_or (to_u64 (nm_index note))
    ("note index " +:+ show_N (nm_index note) +:+ " does not fit in u64");
  encode_tze
    {| wnm_index := u64_to_wire index; wnm_cm := felt_to_wire (nm_cm note);
       wnm_enc := note_to_wire (nm_enc note) |}.

Definition decode_note_memo `{Target} (b : bytes) : result NoteMemo :=
  wire ← decode_tze (T := WireNoteMemo) b;
  index64 ← wire_to_u64 (wnm_index wire);
  index ← ok_or (to_usize index64) "note index does not fit in usize";
  enc ← note_from_wire (wnm_enc wire);
  cm ← wire_to_felt (wnm_cm wire);
  mret {| nm_index := index; nm_cm := cm; nm_enc := enc |}.

Definition encode_published_note (cm : F) (enc : EncryptedNote) : result bytes :=
  EncryptedNote_validate enc ;;
  encode_tze {| wpn_cm := felt_to_wire cm; wpn_enc := note_to_wire enc |}.

Definition decode_published_note (b : bytes) : result (F * EncryptedNote) :=
  wire ← decode_tze (T := WirePublishedNote) b;
  enc ← note_from_wire (wpn_enc wire);
  cm ← wire_to_felt (wpn_cm wire);
  mret (cm, enc).
End CanonicalWire.

(** ** Scalar round trips *)

Lemma wire_felt_roundtrip f : wire_to_felt (felt_to_wire f) = Ok f.
Proof. unfold wire_to_felt. by apply felt_of_slice_Ok. Qed.

Lemma wire_u64_roundtrip v : is_u64 v -> wire_to_u64 (u64_to_wire v) = Ok v.
Proof.
  intros Hv. unfold wire_to_u64, u64_to_wire. cbn [wu64_bytes]. rewrite length_le_bytes.
  cbn [Nat.eqb negb fail_if mbind result_bind]. unfold mret, result_ret. f_equal.
  by apply (le_val_roundtrip 8).
Qed.

Lemma wire_u16_roundtrip v : v < 2 ^ 16 -> wire_to_u16 (u16_to_wire v) = Ok v.
Proof.
  intros Hv. unfold wire_to_u16, u16_to_wire. cbn [wu16_bytes]. rewrite length_le_bytes.
  cbn [Nat.eqb negb fail_if mbind result_bind]. unfold mret, result_ret. f_equal.
  by apply (le_val_roundtrip 2).
Qed.

Lemma wire_to_u64_bound w v : wire_to_u64 w = Ok v -> is_u64 v.
Proof.
  unfold wire_to_u64. intros Hw. result_inv. apply negb_false_iff, Nat.eqb_eq in Ha.
  pose proof (le_val_bound (wu64_bytes w)) as Hb. rewrite Ha in Hb. exact Hb.
Qed.

Lemma decode_encode_tze {T} `{TzeLaws T} (v : T) b :
  encode_tze v = Ok b -> decode_tze b = Ok v.
Proof.
  unfold encode_tze, decode_tze. intros Hw%map_err_Ok.
  pose proof (nom_read_bin_write v b [] Hw) as Hr. rewrite app_nil_r in Hr. by rewrite Hr.
Qed.

Lemma shape_tag_u16 e : note_shape e -> en_tag e < 2 ^ 16.
Proof.
  intros [_ _ _ _ _ Ht]. eapply N.lt_trans; [exact Ht|]. unfold DETECT_K. reflexivity.
Qed.

Lemma note_wire_roundtrip e : note_shape e -> note_from_wire (note_to_wire e) = Ok e.
Proof.
  intros Hs. unfold note_from_wire, note_to_wire. cbn [wen_tag].
  rewrite wire_u16_roundtrip by by apply shape_tag_u16.
  cbn [mbind result_bind wen_ct_d wen_ct_v wen_nonce wen_encrypted_data wen_outgoing_ct].
  assert ({| en_ct_d := en_ct_d e; en_tag := en_tag e; en_ct_v := en_ct_v e;
    en_nonce := en_nonce e; en_encrypted_data := en_encrypted_data e;
    en_outgoing_ct := en_outgoing_ct e |} = e) as -> by by destruct e.
  by rewrite (proj2 (validate_Ok e tt) Hs).
Qed.

Lemma note_from_wire_shape w e : note_from_wire w = Ok e -> note_shape e.
Proof. unfold note_from_wire. intros Hw. result_inv. by apply validate_Ok in Ha0. Qed.

Section RoundTrips.
Context `{TzeLaws WirePaymentAddress, TzeLaws WireEncryptedNote, TzeLaws WireNoteMemo,
  TzeLaws WirePublishedNote, Target}.

Lemma published_note_Ok (cm : F) (enc : EncryptedNote) (b : bytes) :
  encode_published_note cm enc = Ok b ->
  note_shape enc /\ decode_published_note b = Ok (cm, enc).
Proof.
  unfold encode_published_note. intros He. apply seq_Ok in He as [Hs%validate_Ok He].
  split; [done|]. unfold decode_published_note. rewrite (decode_encode_tze _ _ He).
  cbn [mbind result_bind wpn_enc wpn_cm].
  by rewrite note_wire_roundtrip, wire_felt_roundtrip.
Qed.

(** What the kernel publishes for a note, and a wallet scans, decodes to the
    same commitment and note; every encoder that validates only emits well-formed
    notes, and every decoder only returns them. *)
Theorem published_note_roundtrip (cm : F) (enc : EncryptedNote) (b : bytes) :
  encode_published_note cm enc = Ok b ->
  note_shape enc /\ decode_published_note b = Ok (cm, enc).
Proof. apply published_note_Ok. Qed.

(** Addresses, notes and note memos decode to themselves; the memo needs an
    index that fits the reader's [usize] and a well-formed note, which its encoder does
    not check. *)
Theorem canonical_wire_roundtrip :
  (forall addr b, encode_payment_address addr = Ok b -> decode_payment_address b = Ok addr) /\
  (forall enc b, encode_encrypted_note enc = Ok b -> decode_encrypted_note b = Ok enc) /\
  (forall note b, encode_note_memo note = Ok b -> nm_index note < usize_limit ->
     note_shape (nm_enc note) -> decode_note_memo b = Ok note).
Proof.
  split; [|split].
  - intros addr b He. unfold decode_payment_address. rewrite (decode_encode_tze _ _ He).
    cbn [mbind result_bind wpa_d_j wpa_auth_root wpa_auth_pub_seed wpa_nk_tag wpa_ek_v wpa_ek_d].
    rewrite !wire_felt_roundtrip. by destruct addr.
  - intros enc b He. apply seq_Ok in He as [Hs%validate_Ok He].
    unfold decode_encrypted_note. rewrite (decode_encode_tze _ _ He).
    by apply note_wire_roundtrip.
  - intros note b He Hi Hs. unfold encode_note_memo in He. apply bind_Ok in He as (i & Hi' & He).
    apply ok_or_Ok in Hi'. unfold to_u64 in Hi'.
    destruct (N.ltb_spec (nm_index note) U64_LIMIT); [|done]. injection Hi' as <-.
    unfold decode_note_memo. rewrite (decode_encode_tze _ _ He).
    cbn [mbind result_bind wnm_index wnm_enc wnm_cm].
    rewrite wire_u64_roundtrip by done. cbn [mbind result_bind]. unfold to_usize.
    rewrite (proj2 (N.ltb_lt _ _) Hi). cbn [ok_or mbind result_bind].
    rewrite note_wire_roundtrip, wire_felt_roundtrip by done. by destruct note.
Qed.
End RoundTrips.
