(* ===== verification/KernelWire.v ===== *)
(** * KernelWire: [core/src/kernel_wire.rs]

    Inbox messages and results of the rollup kernel.  The derive-generated codecs are
    gathered in the class [WireCodecs]; the proof payload, which the source encodes by
    hand, and the concatenated transfer and unshield payloads are modelled byte by
    byte. *)

From S2P Require Import Prelude Felt Externals Concrete Types Hashing Merkle Wots.
From S2P Require Import CanonicalWire.

Local Open Scope N_scope.

Definition KERNEL_WIRE_VERSION : N := 17.
Definition KERNEL_VERIFIER_CONFIG_KEY_INDEX : N := 0.
Definition KERNEL_BRIDGE_CONFIG_KEY_INDEX : N := 1.
Definition MAX_PROOF_BYTES : N := 8 * 1024 * 1024.
Definition MAX_OUTPUT_PREIMAGE_ITEMS : N := 1024.
Definition MAX_DAL_CHUNK_POINTERS : N := 256.

(** ** Messages *)

Record KernelVerifierConfig := {
  kvc_auth_domain : F;
  kvc_verified_program_hashes : ProgramHashes
}.

Record KernelSignedVerifierConfig := {
  ksvc_config : KernelVerifierConfig;
  ksvc_signature : list F
}.

Record KernelBridgeConfig := { kbc_ticketer : string }.

Record KernelSignedBridgeConfig := {
  ksbc_config : KernelBridgeConfig;
  ksbc_signature : list F
}.

Record KernelStarkProof := {
  ksp_proof_bytes : bytes;
  ksp_output_preimage : list F
}.

Record KernelShieldReq := {
  ksr_pubkey_hash : F;
  ksr_fee : N;
  ksr_v : N;
  ksr_producer_fee : N;
  ksr_proof : KernelStarkProof;
  ksr_client_cm : F;
  ksr_client_enc : EncryptedNote;
  ksr_producer_cm : F;
  ksr_producer_enc : EncryptedNote
}.

Record KernelTransferReq := {
  ktr_root : F;
  ktr_nullifiers : list F;
  ktr_fee : N;
  ktr_cm_1 : F;
  ktr_cm_2 : F;
  ktr_cm_3 : F;
  ktr_enc_1 : EncryptedNote;
  ktr_enc_2 : EncryptedNote;
  ktr_enc_3 : EncryptedNote;
  ktr_proof : KernelStarkProof
}.

Record KernelUnshieldReq := {
  kur_root : F;
  kur_nullifiers : list F;
  kur_v_pub : N;
  kur_fee : N;
  kur_recipient : string;
  kur_cm_change : F;
  kur_enc_change : option EncryptedNote;
  kur_cm_fee : F;
  kur_enc_fee : EncryptedNote;
  kur_proof : KernelStarkProof
}.

Inductive KernelDalPayloadKind :=
| KDConfigureVerifier | KDConfigureBridge | KDShield | KDTransfer | KDUnshield.

#[export] Instance KernelDalPayloadKind_eq_dec : EqDecision KernelDalPayloadKind.
Proof. solve_decision. Defined.

Record KernelDalChunkPointer := {
  kdc_published_level : N;
  kdc_slot_index : N;      (* u8 *)
  kdc_payload_len : N
}.

Record KernelDalPayloadPointer := {
  kdp_kind : KernelDalPayloadKind;
  kdp_chunks : list KernelDalChunkPointer;
  kdp_payload_len : N;
  kdp_payload_hash : F
}.

Inductive KernelInboxMessage :=
| KIConfigureVerifier (cfg : KernelSignedVerifierConfig)
| KIConfigureBridge (cfg : KernelSignedBridgeConfig)
| KIShield (req : KernelShieldReq)
| KITransfer (req : KernelTransferReq)
| KIUnshield (req : KernelUnshieldReq)
| KIDalPointer (pointer : KernelDalPayloadPointer).

Inductive KernelResult :=
| KRConfigured
| KRDeposit
| KRShield (resp : ShieldResp)
| KRTransfer (resp : TransferResp)
| KRUnshield (resp : UnshieldResp)
| KRError (message : string).

(** ** Wire structs *)

Record WireProgramHashes := {
  wph_shield : WireFelt; wph_transfer : WireFelt; wph_unshield : WireFelt
}.
Record WireFeltList := { wfl_items : list WireFelt }.
Record WireEncodedNote := { wenc_bytes : bytes }.
Record WireEncodedProof := { wep_bytes : bytes }.
Record WireEncodedFeltList := { wefl_bytes : bytes }.
Record WireEncodedDalChunkList := { wedl_bytes : bytes }.
Record WireStarkProof := { wsp_bytes : bytes }.
Record WireKernelVerifierConfig := {
  wvc_auth_domain : WireFelt;
  wvc_verified_program_hashes : WireProgramHashes
}.
Record WireSignedKernelVerifierConfig := {
  wsvc_config : WireKernelVerifierConfig;
  wsvc_signature : WireEncodedFeltList
}.
Record WireKernelBridgeConfig := { wbc_ticketer : string }.
Record WireSignedKernelBridgeConfig := {
  wsbc_config : WireKernelBridgeConfig;
  wsbc_signature : WireEncodedFeltList
}.
Record WireKernelShieldReq := {
  wsr_pubkey_hash : WireFelt;
  wsr_fee : WireU64Le;
  wsr_v : WireU64Le;
  wsr_producer_fee : WireU64Le;
  wsr_proof : WireEncodedProof;
  wsr_client_cm : WireFelt;
  wsr_client_enc : WireEncryptedNote;
  wsr_producer_cm : WireFelt;
  wsr_producer_enc : WireEncryptedNote
}.
Record WireShieldResp := {
  wsh_cm : WireFelt; wsh_index : WireU64Le;
  wsh_producer_cm : WireFelt; wsh_producer_index : WireU64Le
}.
Record WireKernelTransferReq := { wtr_bytes : bytes }.
Record WireTransferResp := {
  wtp_index_1 : WireU64Le; wtp_index_2 : WireU64Le; wtp_index_3 : WireU64Le
}.
Record WireKernelUnshieldReq := { wur_bytes : bytes }.
Inductive WireKernelDalPayloadKind :=
| WKDShield | WKDTransfer | WKDUnshield | WKDConfigureVerifier | WKDConfigureBridge.
Record WireKernelDalChunkPointer := {
  wdc_published_level : WireU64Le; wdc_slot_index : N; wdc_payload_len : WireU64Le
}.
Record WireKernelDalChunkList := { wdl_items : list WireKernelDalChunkPointer }.
Record WireKernelDalPayloadPointer := {
  wdp_kind : WireKernelDalPayloadKind;
  wdp_chunks : WireEncodedDalChunkList;
  wdp_payload_hash : WireFelt;
  wdp_payload_len : WireU64Le
}.
Record WireUnshieldResp := {
  wup_change_index : option WireU64Le; wup_producer_index : WireU64Le
}.
Record WireErrorMessage := { wem_message : string }.
Record WireAccountId := { wai_value : string }.
Record WireOptionalEncodedNote := { won_note : option WireEncodedNote }.

Inductive WireKernelInboxMessage :=
| WKIConfigureVerifier (cfg : WireSignedKernelVerifierConfig)
| WKIConfigureBridge (cfg : WireSignedKernelBridgeConfig)
| WKIShield (req : WireKernelShieldReq)
| WKITransfer (req : WireKernelTransferReq)
| WKIUnshield (req : WireKernelUnshieldReq)
| WKIDalPointer (pointer : WireKernelDalPayloadPointer).

Record WireKernelInboxEnvelope := {
  wie_version : WireU16Le; wie_message : WireKernelInboxMessage
}.

Inductive WireKernelResult :=
| WKRConfigured
| WKRDeposit
| WKRShield (resp : WireShieldResp)
| WKRTransfer (resp : WireTransferResp)
| WKRUnshield (resp : WireUnshieldResp)
| WKRError (err : WireErrorMessage).

Record WireKernelResultEnvelope := {
  wre_version : WireU16Le; wre_result : WireKernelResult
}.

(** Every derive-generated codec this file uses, and the round-trip law of each. *)
Class WireCodecs := {
  wc_felt :: Tze WireFelt;
  wc_u64 :: Tze WireU64Le;
  wc_note :: Tze WireEncryptedNote;
  wc_felt_list :: Tze WireFeltList;
  wc_encoded_note :: Tze WireEncodedNote;
  wc_encoded_proof :: Tze WireEncodedProof;
  wc_encoded_felt_list :: Tze WireEncodedFeltList;
  wc_verifier_config :: Tze WireKernelVerifierConfig;
  wc_bridge_config :: Tze WireKernelBridgeConfig;
  wc_chunk_list :: Tze WireKernelDalChunkList;
  wc_account :: Tze WireAccountId;
  wc_optional_note :: Tze WireOptionalEncodedNote;
  wc_inbox :: Tze WireKernelInboxEnvelope;
  wc_result :: Tze WireKernelResultEnvelope;
  wc_published :: Tze WirePublishedNote
}.

Class WireLaws `{WireCodecs} : Prop := {
  wl_felt :: TzeLaws WireFelt;
  wl_u64 :: TzeLaws WireU64Le;
  wl_note :: TzeLaws WireEncryptedNote;
  wl_felt_list :: TzeLaws WireFeltList;
  wl_encoded_note :: TzeLaws WireEncodedNote;
  wl_encoded_proof :: TzeLaws WireEncodedProof;
  wl_encoded_felt_list :: TzeLaws WireEncodedFeltList;
  wl_verifier_config :: TzeLaws WireKernelVerifierConfig;
  wl_bridge_config :: TzeLaws WireKernelBridgeConfig;
  wl_chunk_list :: TzeLaws WireKernelDalChunkList;
  wl_account :: TzeLaws WireAccountId;
  wl_optional_note :: TzeLaws WireOptionalEncodedNote;
  wl_inbox :: TzeLaws WireKernelInboxEnvelope;
  wl_result :: TzeLaws WireKernelResultEnvelope;
  wl_published :: TzeLaws WirePublishedNote
}.

(** ** Reading by hand *)

(** [take_bytes(&mut rest, len, label)]: the bytes taken and the rest. *)
Definition take_bytes (b : bytes) (len : N) (label : string) : result (bytes * bytes) :=
  fail_if (N.of_nat (length b) <? len)
    ("kernel proof payload truncated while reading " +:+ label +:+ ": need " +:+
     show_N len +:+ " bytes, have " +:+ show_nat (length b)) ;;
  mret (take (N.to_nat len) b, drop (N.to_nat len) b).

Definition take_u32_be_len (b : bytes) (label : string) : result (N * bytes) :=
  '(raw, rest) ← take_bytes b 4 label;
  mret (be_val raw, rest).

(** [for _ in 0..n { take_bytes(&mut rest, 32, ..) }]. *)
Fixpoint take_felts (n : nat) (b : bytes) : result (list F * bytes) :=
  match n with
  | O => mret ([], b)
  | S n =>
      '(felt_bytes, rest) ← take_bytes b 32 "output_preimage felt";
      '(felts, rest) ← take_felts n rest;
      mret (mkF felt_bytes :: felts, rest)
  end.

Definition decode_tze_prefix {T} `{Tze T} (b : bytes) : result (bytes * T) :=
  map_err (fun e => "tezos_data_encoding read failed: " +:+ e) (nom_read b).

(** ** Proofs *)

Definition kernel_proof_to_wire (proof : KernelStarkProof) : result WireStarkProof :=
  fail_if (MAX_PROOF_BYTES <? N.of_nat (length (ksp_proof_bytes proof)))
    ("proof too large for kernel wire: " +:+ show_nat (length (ksp_proof_bytes proof)) +:+
     " > " +:+ show_N MAX_PROOF_BYTES) ;;
  fail_if (MAX_OUTPUT_PREIMAGE_ITEMS <? N.of_nat (length (ksp_output_preimage proof)))
    ("output_preimage too long for kernel wire: " +:+
     show_nat (length (ksp_output_preimage proof)) +:+ " > " +:+
     show_N MAX_OUTPUT_PREIMAGE_ITEMS) ;;
  mret {| wsp_bytes :=
    be_bytes 4 (N.of_nat (length (ksp_proof_bytes proof))) ++ ksp_proof_bytes proof ++
    be_bytes 4 (N.of_nat (length (ksp_output_preimage proof))) ++
    concat_felts (ksp_output_preimage proof) |}.

Definition kernel_proof_from_wire (proof : WireStarkProof) : result KernelStarkProof :=
  '(proof_len, rest) ← take_u32_be_len (wsp_bytes proof) "proof_bytes length";
  fail_if (MAX_PROOF_BYTES <? proof_len)
    ("proof too large for kernel wire: " +:+ show_N proof_len +:+ " > " +:+
     show_N MAX_PROOF_BYTES) ;;
  '(proof_bytes, rest) ← take_bytes rest proof_len "proof_bytes";
  '(output_preimage_len, rest) ← take_u32_be_len rest "output_preimage length";
  fail_if (MAX_OUTPUT_PREIMAGE_ITEMS <? output_preimage_len)
    ("output_preimage too long for kernel wire: " +:+ show_N output_preimage_len +:+ " > " +:+
     show_N MAX_OUTPUT_PREIMAGE_ITEMS) ;;
  '(output_preimage, rest) ← take_felts (N.to_nat output_preimage_len) rest;
  fail_if (negb (bool_decide (rest = [])))
    ("kernel proof payload left " +:+ show_nat (length rest) +:+ " trailing bytes") ;;
  mret {| ksp_proof_bytes := proof_bytes; ksp_output_preimage := output_preimage |}.

Definition encoded_proof_to_wire (proof : KernelStarkProof) : result WireEncodedProof :=
  w ← kernel_proof_to_wire proof;
  mret {| wep_bytes := wsp_bytes w |}.

Definition encoded_proof_from_wire (wire : WireEncodedProof) : result KernelStarkProof :=
  kernel_proof_from_wire {| wsp_bytes := wep_bytes wire |}.

(** ** To host requests *)

Definition kernel_proof_to_host (proof : KernelStarkProof) : Proof_ :=
  Stark (ksp_proof_bytes proof) (ksp_output_preimage proof).

Definition kernel_shield_req_to_host (req : KernelShieldReq) : ShieldReq :=
  {| sr_pubkey_hash := ksr_pubkey_hash req; sr_fee := ksr_fee req; sr_v := ksr_v req;
     sr_producer_fee := ksr_producer_fee req; sr_proof := kernel_proof_to_host (ksr_proof req);
     sr_client_cm := ksr_client_cm req; sr_client_enc := ksr_client_enc req;
     sr_producer_cm := ksr_producer_cm req; sr_producer_enc := ksr_producer_enc req |}.

Definition kernel_transfer_req_to_host (req : KernelTransferReq) : TransferReq :=
  {| tr_root := ktr_root req; tr_nullifiers := ktr_nullifiers req; tr_fee := ktr_fee req;
     tr_cm_1 := ktr_cm_1 req; tr_cm_2 := ktr_cm_2 req; tr_cm_3 := ktr_cm_3 req;
     tr_enc_1 := ktr_enc_1 req; tr_enc_2 := ktr_enc_2 req; tr_enc_3 := ktr_enc_3 req;
     tr_proof := kernel_proof_to_host (ktr_proof req) |}.

Definition kernel_unshield_req_to_host (req : KernelUnshieldReq) : UnshieldReq :=
  {| ur_root := kur_root req; ur_nullifiers := kur_nullifiers req; ur_v_pub := kur_v_pub req;
     ur_fee := kur_fee req; ur_recipient := kur_recipient req;
     ur_cm_change := kur_cm_change req; ur_enc_change := kur_enc_change req;
     ur_cm_fee := kur_cm_fee req; ur_enc_fee := kur_enc_fee req;
     ur_proof := kernel_proof_to_host (kur_proof req) |}.

(** ** Structs without codecs of their own *)

Definition program_hashes_to_wire (h : ProgramHashes) : WireProgramHashes :=
  {| wph_shield := felt_to_wire (ph_shield h); wph_transfer := felt_to_wire (ph_transfer h);
     wph_unshield := felt_to_wire (ph_unshield h) |}.

Definition program_hashes_from_wire (wire : WireProgramHashes) : result ProgramHashes :=
  shield ← wire_to_felt (wph_shield wire);
  transfer ← wire_to_felt (wph_transfer wire);
  unshield ← wire_to_felt (wph_unshield wire);
  mret {| ph_shield := shield; ph_transfer := transfer; ph_unshield := unshield |}.

Definition config_to_wire (config : KernelVerifierConfig) : WireKernelVerifierConfig :=
  {| wvc_auth_domain := felt_to_wire (kvc_auth_domain config);
     wvc_verified_program_hashes := program_hashes_to_wire (kvc_verified_program_hashes config) |}.

Definition config_from_wire (wire : WireKernelVerifierConfig) : result KernelVerifierConfig :=
  auth_domain ← wire_to_felt (wvc_auth_domain wire);
  hashes ← program_hashes_from_wire (wvc_verified_program_hashes wire);
  mret {| kvc_auth_domain := auth_domain; kvc_verified_program_hashes := hashes |}.

Definition bridge_config_to_wire (config : KernelBridgeConfig) : WireKernelBridgeConfig :=
  {| wbc_ticketer := kbc_ticketer config |}.

Definition bridge_config_from_wire (wire : WireKernelBridgeConfig) : result KernelBridgeConfig :=
  mret {| kbc_ticketer := wbc_ticketer wire |}.

Definition kernel_dal_payload_kind_to_wire (kind : KernelDalPayloadKind)
    : WireKernelDalPayloadKind :=
  match kind with
  | KDConfigureVerifier => WKDConfigureVerifier
  | KDConfigureBridge => WKDConfigureBridge
  | KDShield => WKDShield
  | KDTransfer => WKDTransfer
  | KDUnshield => WKDUnshield
  end.

Definition kernel_dal_payload_kind_from_wire (kind : WireKernelDalPayloadKind)
    : result KernelDalPayloadKind :=
  mret match kind with
  | WKDConfigureVerifier => KDConfigureVerifier
  | WKDConfigureBridge => KDConfigureBridge
  | WKDShield => KDShield
  | WKDTransfer => KDTransfer
  | WKDUnshield => KDUnshield
  end.

Definition kernel_dal_chunk_pointer_to_wire (pointer : KernelDalChunkPointer)
    : WireKernelDalChunkPointer :=
  {| wdc_published_level := u64_to_wire (kdc_published_level pointer);
     wdc_slot_index := kdc_slot_index pointer;
     wdc_payload_len := u64_to_wire (kdc_payload_len pointer) |}.

Definition kernel_dal_chunk_pointer_from_wire (wire : WireKernelDalChunkPointer)
    : result KernelDalChunkPointer :=
  published_level ← wire_to_u64 (wdc_published_level wire);
  payload_len ← wire_to_u64 (wdc_payload_len wire);
  mret {| kdc_published_level := published_level; kdc_slot_index := wdc_slot_index wire;
          kdc_payload_len := payload_len |}.

Definition encrypted_note_to_wire (enc : EncryptedNote) : result WireEncryptedNote :=
  EncryptedNote_validate enc ;;
  mret (note_to_wire enc).

Definition encrypted_note_from_wire (wire : WireEncryptedNote) : result EncryptedNote :=
  note_from_wire wire.

Section KernelWire.
Context `{WireCodecs}.

(** ** Nested encodings *)

Definition encoded_note_to_wire (enc : EncryptedNote) : result WireEncodedNote :=
  w ← encrypted_note_to_wire enc;
  b ← encode_tze w;
  mret {| wenc_bytes := b |}.

Definition encoded_note_from_wire (wire : WireEncodedNote) : result EncryptedNote :=
  inner ← decode_tze (T := WireEncryptedNote) (wenc_bytes wire);
  encrypted_note_from_wire inner.

Definition encoded_felt_list_to_wire (values : list F) : result WireEncodedFeltList :=
  b ← encode_tze {| wfl_items := felt_to_wire <$> values |};
  mret {| wefl_bytes := b |}.

Definition encoded_felt_list_from_wire (wire : WireEncodedFeltList) : result (list F) :=
  inner ← decode_tze (T := WireFeltList) (wefl_bytes wire);
  map_result wire_to_felt (wfl_items inner).

Definition signed_config_to_wire (config : KernelSignedVerifierConfig)
    : result WireSignedKernelVerifierConfig :=
  signature ← encoded_felt_list_to_wire (ksvc_signature config);
  mret {| wsvc_config := config_to_wire (ksvc_config config); wsvc_signature := signature |}.

Definition signed_config_from_wire (wire : WireSignedKernelVerifierConfig)
    : result KernelSignedVerifierConfig :=
  config ← config_from_wire (wsvc_config wire);
  signature ← encoded_felt_list_from_wire (wsvc_signature wire);
  mret {| ksvc_config := config; ksvc_signature := signature |}.

Definition signed_bridge_config_to_wire (config : KernelSignedBridgeConfig)
    : result WireSignedKernelBridgeConfig :=
  signature ← encoded_felt_list_to_wire (ksbc_signature config);
  mret {| wsbc_config := bridge_config_to_wire (ksbc_config config);
          wsbc_signature := signature |}.

Definition signed_bridge_config_from_wire (wire : WireSignedKernelBridgeConfig)
    : result KernelSignedBridgeConfig :=
  config ← bridge_config_from_wire (wsbc_config wire);
  signature ← encoded_felt_list_from_wire (wsbc_signature wire);
  mret {| ksbc_config := config; ksbc_signature := signature |}.

(** The bounds on a pointer's chunk list, on both sides of the wire. *)
Definition check_chunk_count {A} (chunks : list A) : result unit :=
  fail_if (length chunks =? 0)%nat "kernel DAL pointer requires at least one chunk" ;;
  fail_if (MAX_DAL_CHUNK_POINTERS <? N.of_nat (length chunks))
    ("kernel DAL pointer has too many chunks: " +:+ show_nat (length chunks) +:+ " > " +:+
     show_N MAX_DAL_CHUNK_POINTERS).

Definition kernel_dal_payload_pointer_to_wire (pointer : KernelDalPayloadPointer)
    : result WireKernelDalPayloadPointer :=
  check_chunk_count (kdp_chunks pointer) ;;
  b ← encode_tze {| wdl_items := kernel_dal_chunk_pointer_to_wire <$> kdp_chunks pointer |};
  mret {| wdp_kind := kernel_dal_payload_kind_to_wire (kdp_kind pointer);
          wdp_chunks := {| wedl_bytes := b |};
          wdp_payload_hash := felt_to_wire (kdp_payload_hash pointer);
          wdp_payload_len := u64_to_wire (kdp_payload_len pointer) |}.

Definition kernel_dal_payload_pointer_from_wire (wire : WireKernelDalPayloadPointer)
    : result KernelDalPayloadPointer :=
  chunks ← decode_tze (T := WireKernelDalChunkList) (wedl_bytes (wdp_chunks wire));
  check_chunk_count (wdl_items chunks) ;;
  kind ← kernel_dal_payload_kind_from_wire (wdp_kind wire);
  pointers ← map_result kernel_dal_chunk_pointer_from_wire (wdl_items chunks);
  payload_hash ← wire_to_felt (wdp_payload_hash wire);
  payload_len ← wire_to_u64 (wdp_payload_len wire);
  mret {| kdp_kind := kind; kdp_chunks := pointers; kdp_payload_len := payload_len;
          kdp_payload_hash := payload_hash |}.

(** ** Requests *)

Definition kernel_shield_req_to_wire (req : KernelShieldReq) : result WireKernelShieldReq :=
  proof ← encoded_proof_to_wire (ksr_proof req);
  client_enc ← encrypted_note_to_wire (ksr_client_enc req);
  producer_enc ← encrypted_note_to_wire (ksr_producer_enc req);
  mret {| wsr_pubkey_hash := felt_to_wire (ksr_pubkey_hash req);
          wsr_fee := u64_to_wire (ksr_fee req); wsr_v := u64_to_wire (ksr_v req);
          wsr_producer_fee := u64_to_wire (ksr_producer_fee req); wsr_proof := proof;
          wsr_client_cm := felt_to_wire (ksr_client_cm req); wsr_client_enc := client_enc;
          wsr_producer_cm := felt_to_wire (ksr_producer_cm req);
          wsr_producer_enc := producer_enc |}.

Definition kernel_shield_req_from_wire (wire : WireKernelShieldReq) : result KernelShieldReq :=
  pubkey_hash ← wire_to_felt (wsr_pubkey_hash wire);
  fee ← wire_to_u64 (wsr_fee wire);
  v ← wire_to_u64 (wsr_v wire);
  producer_fee ← wire_to_u64 (wsr_producer_fee wire);
  proof ← encoded_proof_from_wire (wsr_proof wire);
  client_cm ← wire_to_felt (wsr_client_cm wire);
  client_enc ← encrypted_note_from_wire (wsr_client_enc wire);
  producer_cm ← wire_to_felt (wsr_producer_cm wire);
  producer_enc ← encrypted_note_from_wire (wsr_producer_enc wire);
  mret {| ksr_pubkey_hash := pubkey_hash; ksr_fee := fee; ksr_v := v;
          ksr_producer_fee := producer_fee; ksr_proof := proof; ksr_client_cm := client_cm;
          ksr_client_enc := client_enc; ksr_producer_cm := producer_cm;
          ksr_producer_enc := producer_enc |}.

(** The payload is a concatenation of encodings, in the order they are read back. *)
Definition kernel_transfer_req_to_wire (req : KernelTransferReq)
    : result WireKernelTransferReq :=
  b_root ← encode_tze (felt_to_wire (ktr_root req));
  nullifiers ← encoded_felt_list_to_wire (ktr_nullifiers req);
  b_nullifiers ← encode_tze nullifiers;
  b_fee ← encode_tze (u64_to_wire (ktr_fee req));
  b_cm_1 ← encode_tze (felt_to_wire (ktr_cm_1 req));
  b_cm_2 ← encode_tze (felt_to_wire (ktr_cm_2 req));
  b_cm_3 ← encode_tze (felt_to_wire (ktr_cm_3 req));
  proof ← encoded_proof_to_wire (ktr_proof req);
  b_proof ← encode_tze proof;
  enc_1 ← encoded_note_to_wire (ktr_enc_1 req);
  b_enc_1 ← encode_tze enc_1;
  enc_2 ← encoded_note_to_wire (ktr_enc_2 req);
  b_enc_2 ← encode_tze enc_2;
  enc_3 ← encoded_note_to_wire (ktr_enc_3 req);
  b_enc_3 ← encode_tze enc_3;
  mret {| wtr_bytes := b_root ++ b_nullifiers ++ b_fee ++ b_cm_1 ++ b_cm_2 ++ b_cm_3 ++
    b_proof ++ b_enc_1 ++ b_enc_2 ++ b_enc_3 |}.

Definition kernel_transfer_req_from_wire (wire : WireKernelTransferReq)
    : result KernelTransferReq :=
  '(rest, root) ← decode_tze_prefix (T := WireFelt) (wtr_bytes wire);
  '(rest, nullifiers) ← decode_tze_prefix (T := WireEncodedFeltList) rest;
  '(rest, fee) ← decode_tze_prefix (T := WireU64Le) rest;
  '(rest, cm_1) ← decode_tze_prefix (T := WireFelt) rest;
  '(rest, cm_2) ← decode_tze_prefix (T := WireFelt) rest;
  '(rest, cm_3) ← decode_tze_prefix (T := WireFelt) rest;
  '(rest, proof) ← decode_tze_prefix (T := WireEncodedProof) rest;
  '(rest, enc_1) ← decode_tze_prefix (T := WireEncodedNote) rest;
  '(rest, enc_2) ← decode_tze_prefix (T := WireEncodedNote) rest;
  '(rest, enc_3) ← decode_tze_prefix (T := WireEncodedNote) rest;
  fail_if (negb (bool_decide (rest = [])))
    ("kernel transfer payload left " +:+ show_nat (length rest) +:+ " trailing bytes") ;;
  root ← wire_to_felt root;
  nullifiers ← encoded_felt_list_from_wire nullifiers;
  fee ← wire_to_u64 fee;
  cm_1 ← wire_to_felt cm_1;
  cm_2 ← wire_to_felt cm_2;
  cm_3 ← wire_to_felt cm_3;
  proof ← encoded_proof_from_wire proof;
  enc_1 ← encoded_note_from_wire enc_1;
  enc_2 ← encoded_note_from_wire enc_2;
  enc_3 ← encoded_note_from_wire enc_3;
  mret {| ktr_root := root; ktr_nullifiers := nullifiers; ktr_fee := fee; ktr_cm_1 := cm_1;
          ktr_cm_2 := cm_2; ktr_cm_3 := cm_3; ktr_enc_1 := enc_1; ktr_enc_2 := enc_2;
          ktr_enc_3 := enc_3; ktr_proof := proof |}.

(** [opt.map(f).transpose()?]. *)
Definition transpose_map {A B} (f : A -> result B) (o : option A) : result (option B) :=
  match o with Some a => b ← f a; mret (Some b) | None => mret None end.

Definition kernel_unshield_req_to_wire (req : KernelUnshieldReq)
    : result WireKernelUnshieldReq :=
  b_root ← encode_tze (felt_to_wire (kur_root req));
  nullifiers ← encoded_felt_list_to_wire (kur_nullifiers req);
  b_nullifiers ← encode_tze nullifiers;
  b_v_pub ← encode_tze (u64_to_wire (kur_v_pub req));
  b_fee ← encode_tze (u64_to_wire (kur_fee req));
  b_recipient ← encode_tze {| wai_value := kur_recipient req |};
  b_cm_change ← encode_tze (felt_to_wire (kur_cm_change req));
  proof ← encoded_proof_to_wire (kur_proof req);
  b_proof ← encode_tze proof;
  change ← transpose_map encoded_note_to_wire (kur_enc_change req);
  b_change ← encode_tze {| won_note := change |};
  b_cm_fee ← encode_tze (felt_to_wire (kur_cm_fee req));
  fee_note ← encoded_note_to_wire (kur_enc_fee req);
  b_fee_note ← encode_tze fee_note;
  mret {| wur_bytes := b_root ++ b_nullifiers ++ b_v_pub ++ b_fee ++ b_recipient ++
    b_cm_change ++ b_proof ++ b_change ++ b_cm_fee ++ b_fee_note |}.

Definition kernel_unshield_req_from_wire (wire : WireKernelUnshieldReq)
    : result KernelUnshieldReq :=
  '(rest, root) ← decode_tze_prefix (T := WireFelt) (wur_bytes wire);
  '(rest, nullifiers) ← decode_tze_prefix (T := WireEncodedFeltList) rest;
  '(rest, v_pub) ← decode_tze_prefix (T := WireU64Le) rest;
  '(rest, fee) ← decode_tze_prefix (T := WireU64Le) rest;
  '(rest, recipient) ← decode_tze_prefix (T := WireAccountId) rest;
  '(rest, cm_change) ← decode_tze_prefix (T := WireFelt) rest;
  '(rest, proof) ← decode_tze_prefix (T := WireEncodedProof) rest;
  '(rest, enc_change) ← decode_tze_prefix (T := WireOptionalEncodedNote) rest;
  '(rest, cm_fee) ← decode_tze_prefix (T := WireFelt) rest;
  '(rest, enc_fee) ← decode_tze_prefix (T := WireEncodedNote) rest;
  fail_if (negb (bool_decide (rest = [])))
    ("kernel unshield payload left " +:+ show_nat (length rest) +:+ " trailing bytes") ;;
  root ← wire_to_felt root;
  nullifiers ← encoded_felt_list_from_wire nullifiers;
  v_pub ← wire_to_u64 v_pub;
  fee ← wire_to_u64 fee;
  cm_change ← wire_to_felt cm_change;
  proof ← encoded_proof_from_wire proof;
  enc_change ← transpose_map encoded_note_from_wire (won_note enc_change);
  cm_fee ← wire_to_felt cm_fee;
  enc_fee ← encoded_note_from_wire enc_fee;
  mret {| kur_root := root; kur_nullifiers := nullifiers; kur_v_pub := v_pub; kur_fee := fee;
          kur_recipient := wai_value recipient; kur_cm_change := cm_change;
          kur_enc_change := enc_change; kur_cm_fee := cm_fee; kur_enc_fee := enc_fee;
          kur_proof := proof |}.

(** ** Responses *)

Definition shield_resp_to_wire (resp : ShieldResp) : result WireShieldResp :=
  index ← ok_or (to_u64 (sp_index resp)) "shield index does not fit in u64";
  producer_index ← ok_or (to_u64 (sp_producer_index resp))
    "shield producer_index does not fit in u64";
  mret {| wsh_cm := felt_to_wire (sp_cm resp); wsh_index := u64_to_wire index;
          wsh_producer_cm := felt_to_wire (sp_producer_cm resp);
          wsh_producer_index := u64_to_wire producer_index |}.

Definition transfer_resp_to_wire (resp : TransferResp) : result WireTransferResp :=
  index_1 ← ok_or (to_u64 (tp_index_1 resp)) "transfer index_1 does not fit in u64";
  index_2 ← ok_or (to_u64 (tp_index_2 resp)) "transfer index_2 does not fit in u64";
  index_3 ← ok_or (to_u64 (tp_index_3 resp)) "transfer index_3 does not fit in u64";
  mret {| wtp_index_1 := u64_to_wire index_1; wtp_index_2 := u64_to_wire index_2;
          wtp_index_3 := u64_to_wire index_3 |}.

Definition unshield_resp_to_wire (resp : UnshieldResp) : result WireUnshieldResp :=
  change_index ← transpose_map
    (fun index => i ← ok_or (to_u64 index) "change index does not fit in u64";
                  mret (u64_to_wire i)) (up_change_index resp);
  producer_index ← ok_or (to_u64 (up_producer_index resp)) "producer index does not fit in u64";
  mret {| wup_change_index := change_index; wup_producer_index := u64_to_wire producer_index |}.

(** [wire_to_u64(w)?.try_into::<usize>()]. *)
Definition wire_to_usize `{Target} (w : WireU64Le) (msg : string) : result N :=
  v ← wire_to_u64 w; ok_or (to_usize v) msg.

Definition shield_resp_from_wire `{Target} (wire : WireShieldResp) : result ShieldResp :=
  cm ← wire_to_felt (wsh_cm wire);
  index ← wire_to_usize (wsh_index wire) "shield index does not fit in usize";
  producer_cm ← wire_to_felt (wsh_producer_cm wire);
  producer_index ← wire_to_usize (wsh_producer_index wire)
    "shield producer_index does not fit in usize";
  mret {| sp_cm := cm; sp_index := index; sp_producer_cm := producer_cm;
          sp_producer_index := producer_index |}.

Definition transfer_resp_from_wire `{Target} (wire : WireTransferResp) : result TransferResp :=
  index_1 ← wire_to_usize (wtp_index_1 wire) "transfer index_1 does not fit in usize";
  index_2 ← wire_to_usize (wtp_index_2 wire) "transfer index_2 does not fit in usize";
  index_3 ← wire_to_usize (wtp_index_3 wire) "transfer index_3 does not fit in usize";
  mret {| tp_index_1 := index_1; tp_index_2 := index_2; tp_index_3 := index_3 |}.

Definition unshield_resp_from_wire `{Target} (wire : WireUnshieldResp) : result UnshieldResp :=
  change_index ← transpose_map
    (fun index => wire_to_usize index "change index does not fit in usize")
    (wup_change_index wire);
  producer_index ← wire_to_usize (wup_producer_index wire)
    "producer index does not fit in usize";
  mret {| up_change_index := change_index; up_producer_index := producer_index |}.

(** ** Envelopes *)

Definition inbox_message_to_wire (message : KernelInboxMessage) : result WireKernelInboxMessage :=
  match message with
  | KIConfigureVerifier cfg => w ← signed_config_to_wire cfg; mret (WKIConfigureVerifier w)
  | KIConfigureBridge cfg => w ← signed_bridge_config_to_wire cfg; mret (WKIConfigureBridge w)
  | KIShield req => w ← kernel_shield_req_to_wire req; mret (WKIShield w)
  | KITransfer req => w ← kernel_transfer_req_to_wire req; mret (WKITransfer w)
  | KIUnshield req => w ← kernel_unshield_req_to_wire req; mret (WKIUnshield w)
  | KIDalPointer pointer => w ← kernel_dal_payload_pointer_to_wire pointer; mret (WKIDalPointer w)
  end.

Definition encode_kernel_inbox_message (message : KernelInboxMessage) : result bytes :=
  w ← inbox_message_to_wire message;
  encode_tze {| wie_version := u16_to_wire KERNEL_WIRE_VERSION; wie_message := w |}.

Definition inbox_message_from_wire (wire : WireKernelInboxMessage) : result KernelInboxMessage :=
  match wire with
  | WKIConfigureVerifier cfg => m ← signed_config_from_wire cfg; mret (KIConfigureVerifier m)
  | WKIConfigureBridge cfg => m ← signed_bridge_config_from_wire cfg; mret (KIConfigureBridge m)
  | WKIShield req => m ← kernel_shield_req_from_wire req; mret (KIShield m)
  | WKITransfer req => m ← kernel_transfer_req_from_wire req; mret (KITransfer m)
  | WKIUnshield req => m ← kernel_unshield_req_from_wire req; mret (KIUnshield m)
  | WKIDalPointer pointer => m ← kernel_dal_payload_pointer_from_wire pointer; mret (KIDalPointer m)
  end.

Definition decode_kernel_inbox_message (b : bytes) : result KernelInboxMessage :=
  wire ← decode_tze (T := WireKernelInboxEnvelope) b;
  version ← wire_to_u16 (wie_version wire);
  fail_if (negb (version =? KERNEL_WIRE_VERSION))
    ("unsupported kernel inbox wire version: got " +:+ show_N version +:+ ", expected " +:+
     show_N KERNEL_WIRE_VERSION) ;;
  inbox_message_from_wire (wie_message wire).

Definition kernel_result_to_wire (r : KernelResult) : result WireKernelResult :=
  match r with
  | KRConfigured => mret WKRConfigured
  | KRDeposit => mret WKRDeposit
  | KRShield resp => w ← shield_resp_to_wire resp; mret (WKRShield w)
  | KRTransfer resp => w ← transfer_resp_to_wire resp; mret (WKRTransfer w)
  | KRUnshield resp => w ← unshield_resp_to_wire resp; mret (WKRUnshield w)
  | KRError message => mret (WKRError {| wem_message := message |})
  end.

Definition encode_kernel_result (r : KernelResult) : result bytes :=
  w ← kernel_result_to_wire r;
  encode_tze {| wre_version := u16_to_wire KERNEL_WIRE_VERSION; wre_result := w |}.

Definition kernel_result_from_wire `{Target} (wire : WireKernelResult) : result KernelResult :=
  match wire with
  | WKRConfigured => mret KRConfigured
  | WKRDeposit => mret KRDeposit
  | WKRShield resp => r ← shield_resp_from_wire resp; mret (KRShield r)
  | WKRTransfer resp => r ← transfer_resp_from_wire resp; mret (KRTransfer r)
  | WKRUnshield resp => r ← unshield_resp_from_wire resp; mret (KRUnshield r)
  | WKRError err => mret (KRError (wem_message err))
  end.

Definition decode_kernel_result `{Target} (b : bytes) : result KernelResult :=
  wire ← decode_tze (T := WireKernelResultEnvelope) b;
  version ← wire_to_u16 (wre_version wire);
  fail_if (negb (version =? KERNEL_WIRE_VERSION))
    ("unsupported kernel result wire version: got " +:+ show_N version +:+ ", expected " +:+
     show_N KERNEL_WIRE_VERSION) ;;
  kernel_result_from_wire (wre_result wire).

(** ** Configuration *)

Definition encode_kernel_verifier_config (config : KernelVerifierConfig) : result bytes :=
  encode_tze (config_to_wire config).

Definition decode_kernel_verifier_config (b : bytes) : result KernelVerifierConfig :=
  wire ← decode_tze (T := WireKernelVerifierConfig) b;
  config_from_wire wire.

Definition kernel_verifier_config_sighash `{Blake2s} (config : KernelVerifierConfig) : result F :=
  encoded ← encode_kernel_verifier_config config;
  mret (hash (str_bytes "tzel-config-verifier" ++ encoded)).

Definition kernel_bridge_config_sighash `{Blake2s} (config : KernelBridgeConfig) : result F :=
  encoded ← encode_tze (bridge_config_to_wire config);
  mret (hash (str_bytes "tzel-config-bridge" ++ encoded)).

Definition sign_kernel_verifier_config `{Blake2s} (ask : F) (config : KernelVerifierConfig)
    : result KernelSignedVerifierConfig :=
  sighash ← kernel_verifier_config_sighash config;
  mret {| ksvc_config := config;
          ksvc_signature := fst (fst (wots_sign ask KERNEL_VERIFIER_CONFIG_KEY_INDEX sighash)) |}.

Definition sign_kernel_bridge_config `{Blake2s} (ask : F) (config : KernelBridgeConfig)
    : result KernelSignedBridgeConfig :=
  sighash ← kernel_bridge_config_sighash config;
  mret {| ksbc_config := config;
          ksbc_signature := fst (fst (wots_sign ask KERNEL_BRIDGE_CONFIG_KEY_INDEX sighash)) |}.
End KernelWire.
