(* ===== verification/KernelWireFacts.v ===== *)
(** * KernelWireFacts: the rollup kernel's wire formats are faithful

    The hand-written proof codec is canonical (each byte string that decodes is the
    encoding of what it decodes to); inbox messages and results decode to the value
    that was encoded; and whatever decodes satisfies the shape and bounds that the
    kernel's handlers rely on. *)

From S2P Require Import Prelude Felt Externals Concrete Types Hashing Merkle Wots.
From S2P Require Import CanonicalWire KernelWire.

Local Open Scope N_scope.

(** ** Well-formed messages *)

Definition u64_chunk (c : KernelDalChunkPointer) : Prop :=
  is_u64 (kdc_published_level c) /\ is_u64 (kdc_payload_len c).

Definition proof_bounded (p : KernelStarkProof) : Prop :=
  N.of_nat (length (ksp_proof_bytes p)) <= MAX_PROOF_BYTES /\
  N.of_nat (length (ksp_output_preimage p)) <= MAX_OUTPUT_PREIMAGE_ITEMS.

(** The integer fields are [u64]s, as their Rust type says. *)
Definition message_typed (m : KernelInboxMessage) : Prop :=
  match m with
  | KIConfigureVerifier _ | KIConfigureBridge _ => True
  | KIShield r => is_u64 (ksr_fee r) /\ is_u64 (ksr_v r) /\ is_u64 (ksr_producer_fee r)
  | KITransfer r => is_u64 (ktr_fee r)
  | KIUnshield r => is_u64 (kur_v_pub r) /\ is_u64 (kur_fee r)
  | KIDalPointer p => is_u64 (kdp_payload_len p) /\ Forall u64_chunk (kdp_chunks p)
  end.

(** What the encoder checks and the decoder re-checks. *)
Definition message_bounded (m : KernelInboxMessage) : Prop :=
  match m with
  | KIConfigureVerifier _ | KIConfigureBridge _ => True
  | KIShield r =>
      proof_bounded (ksr_proof r) /\ note_shape (ksr_client_enc r) /\
      note_shape (ksr_producer_enc r)
  | KITransfer r =>
      proof_bounded (ktr_proof r) /\ note_shape (ktr_enc_1 r) /\ note_shape (ktr_enc_2 r) /\
      note_shape (ktr_enc_3 r)
  | KIUnshield r =>
      proof_bounded (kur_proof r) /\ note_shape (kur_enc_fee r) /\
      (forall e, kur_enc_change r = Some e -> note_shape e)
  | KIDalPointer p =>
      (0 < length (kdp_chunks p))%nat /\
      N.of_nat (length (kdp_chunks p)) <= MAX_DAL_CHUNK_POINTERS
  end.

Definition response_typed `{Target} (r : KernelResult) : Prop :=
  match r with
  | KRShield p => sp_index p < usize_limit /\ sp_producer_index p < usize_limit
  | KRTransfer p =>
      tp_index_1 p < usize_limit /\ tp_index_2 p < usize_limit /\ tp_index_3 p < usize_limit
  | KRUnshield p =>
      (forall i, up_change_index p = Some i -> i < usize_limit) /\
      up_producer_index p < usize_limit
  | _ => True
  end.

(** ** Reading by hand *)

Lemma be_bytes_be_val (b : bytes) : be_bytes (length b) (be_val b) = b.
Proof.
  unfold be_bytes, be_val. rewrite <-(length_rev b), le_bytes_le_val.
  apply rev_involutive.
Qed.

Lemma take_bytes_Ok b len label x y :
  take_bytes b len label = Ok (x, y) <-> N.of_nat (length x) = len /\ b = x ++ y.
Proof.
  unfold take_bytes. rewrite seq_Ok, fail_if_Ok, N.ltb_ge. split.
  - intros [Hl [= <- <-]]. rewrite take_drop, length_take. split; [lia|done].
  - intros [<- ->]. rewrite Nat2N.id, take_app_length, drop_app_length.
    split; [rewrite length_app; lia | done].
Qed.

Lemma take_felts_Ok n b l r :
  take_felts n b = Ok (l, r) <-> length l = n /\ b = concat_felts l ++ r.
Proof.
  revert b l r. induction n as [|n IH]; intros b l r; cbn [take_felts].
  - split; [by intros [= <- <-]|]. intros [Hl ->]. by destruct l.
  - rewrite bind_Ok. split.
    + intros ([fb rest] & [Hf ->]%take_bytes_Ok & ([fs rest'] & [Hl ->]%IH & Hr)%bind_Ok).
      injection Hr as <- <-. split; [cbn; lia|]. unfold concat_felts. cbn [mbind list_bind].
      rewrite F_bytes_mkF by lia. by rewrite app_assoc.
    + destruct l as [|f l]; intros [Hl ->]; [done|].
      exists (F_bytes f, concat_felts l ++ r). split.
      * apply take_bytes_Ok. rewrite length_F_bytes. split; [done|].
        unfold concat_felts. cbn [mbind list_bind]. by rewrite app_assoc.
      * apply bind_Ok. exists (l, r). split; [apply IH; split; [cbn in Hl; lia|done]|].
        cbn. by rewrite mkF_F_bytes.
Qed.

Lemma take_u32_Ok b label v r :
  take_u32_be_len b label = Ok (v, r) <-> v < U32_LIMIT /\ b = be_bytes 4 v ++ r.
Proof.
  unfold take_u32_be_len. rewrite bind_Ok. split.
  - intros ([raw rest] & [Hl ->]%take_bytes_Ok & [= <- <-]).
    assert (length raw = 4%nat) as H4 by lia. rewrite <-H4, be_bytes_be_val. split; [|done].
    unfold be_val. pose proof (le_val_bound (rev raw)) as Hb.
    rewrite length_rev, H4 in Hb. exact Hb.
  - intros [Hv ->]. exists (be_bytes 4 v, r). split.
    + apply take_bytes_Ok. by rewrite length_be_bytes.
    + unfold mret, result_ret. do 2 f_equal. by apply be_val_roundtrip.
Qed.

Lemma proof_to_wire_Ok p w :
  kernel_proof_to_wire p = Ok w <->
  proof_bounded p /\
  wsp_bytes w = be_bytes 4 (N.of_nat (length (ksp_proof_bytes p))) ++ ksp_proof_bytes p ++
    be_bytes 4 (N.of_nat (length (ksp_output_preimage p))) ++
    concat_felts (ksp_output_preimage p).
Proof.
  unfold kernel_proof_to_wire, proof_bounded. rewrite !seq_Ok, !fail_if_Ok, !N.ltb_ge.
  split.
  - by intros (? & ? & [= <-]).
  - intros [[? ?] Hw]. split_and!; [done..|]. destruct w as [wb]. cbn in Hw. by rewrite Hw.
Qed.

Lemma proof_from_wire_Ok w p :
  kernel_proof_from_wire w = Ok p <->
  proof_bounded p /\
  wsp_bytes w = be_bytes 4 (N.of_nat (length (ksp_proof_bytes p))) ++ ksp_proof_bytes p ++
    be_bytes 4 (N.of_nat (length (ksp_output_preimage p))) ++
    concat_felts (ksp_output_preimage p).
Proof.
  unfold kernel_proof_from_wire, proof_bounded. split.
  - intros Hw. apply bind_Ok in Hw as ([n r0] & [_ Hw0]%take_u32_Ok & Hw).
    apply seq_Ok in Hw as [Hn%fail_if_Ok Hw].
    apply bind_Ok in Hw as ([pb r1] & [Hpb ->]%take_bytes_Ok & Hw).
    apply bind_Ok in Hw as ([m r2] & [_ ->]%take_u32_Ok & Hw).
    apply seq_Ok in Hw as [Hm%fail_if_Ok Hw].
    apply bind_Ok in Hw as ([l r3] & [Hl ->]%take_felts_Ok & Hw).
    apply seq_Ok in Hw as [Hr%fail_if_Ok Hw]. injection Hw as <-.
    cbn [ksp_proof_bytes ksp_output_preimage].
    apply negb_false_iff, bool_decide_eq_true in Hr. subst r3.
    apply N.ltb_ge in Hn, Hm. rewrite app_nil_r in Hw0. subst n.
    rewrite Hl, N2Nat.id. split; [split; lia|done].
  - intros [[Hp Ho] Hw]. rewrite Hw.
    assert (MAX_PROOF_BYTES < U32_LIMIT /\ MAX_OUTPUT_PREIMAGE_ITEMS < U32_LIMIT) as [? ?]
      by done.
    apply bind_Ok. eexists (_, _). split; [apply take_u32_Ok; split; [|done]; lia|].
    apply seq_Ok. split; [by apply fail_if_Ok, N.ltb_ge|].
    apply bind_Ok. eexists (_, _). split; [by apply take_bytes_Ok|].
    apply bind_Ok. eexists (_, _). split; [apply take_u32_Ok; split; [|done]; lia|].
    apply seq_Ok. split; [by apply fail_if_Ok, N.ltb_ge|].
    apply bind_Ok. eexists (ksp_output_preimage p, []). split.
    { apply take_felts_Ok. by rewrite Nat2N.id, app_nil_r. }
    by destruct p.
Qed.

(** The proof payload, which is encoded by hand, is canonical: a wire
    proof decodes to [p] exactly when it is the encoding of [p].  So every proof within
    the bounds survives the wire, no two byte strings carry the same proof, and a
    truncated, oversized or trailing payload is never accepted. *)
Theorem proof_wire_canonical (w : WireStarkProof) (p : KernelStarkProof) :
  kernel_proof_from_wire w = Ok p <-> kernel_proof_to_wire p = Ok w.
Proof. by rewrite proof_to_wire_Ok, proof_from_wire_Ok. Qed.

(** ** Round trips of the parts *)

Lemma encoded_proof_roundtrip p w :
  encoded_proof_to_wire p = Ok w -> proof_bounded p /\ encoded_proof_from_wire w = Ok p.
Proof.
  unfold encoded_proof_to_wire, encoded_proof_from_wire. intros (u & Hu & [= <-])%bind_Ok.
  apply proof_to_wire_Ok in Hu as [Hb Hw]. split; [done|].
  by apply proof_from_wire_Ok.
Qed.

Lemma encoded_proof_bounded w p : encoded_proof_from_wire w = Ok p -> proof_bounded p.
Proof. unfold encoded_proof_from_wire. by intros [? _]%proof_from_wire_Ok. Qed.

Lemma map_result_roundtrip {A B} (f : A -> B) (g : B -> result A) (P : A -> Prop) l :
  (forall a, P a -> g (f a) = Ok a) -> Forall P l -> map_result g (f <$> l) = Ok l.
Proof.
  intros Hfg Hl. apply map_result_Ok. induction Hl as [|a l Ha Hl IH]; cbn; [constructor|].
  constructor; [by apply Hfg|done].
Qed.

Lemma map_result_Forall {A B} (f : A -> result B) (P : B -> Prop) l l' :
  (forall a b, f a = Ok b -> P b) -> map_result f l = Ok l' -> Forall P l'.
Proof.
  intros Hf Hl%map_result_Ok. induction Hl as [|a b l l' Hab Hl IH]; constructor; eauto.
Qed.

Lemma chunk_roundtrip c :
  u64_chunk c ->
  kernel_dal_chunk_pointer_from_wire (kernel_dal_chunk_pointer_to_wire c) = Ok c.
Proof.
  intros [H1 H2]. unfold kernel_dal_chunk_pointer_from_wire, kernel_dal_chunk_pointer_to_wire.
  cbn [wdc_published_level wdc_slot_index wdc_payload_len].
  rewrite !wire_u64_roundtrip by done. by destruct c.
Qed.

Lemma chunk_from_wire_u64 w c :
  kernel_dal_chunk_pointer_from_wire w = Ok c -> u64_chunk c.
Proof.
  unfold kernel_dal_chunk_pointer_from_wire. intros Hw. result_inv.
  split; eapply wire_to_u64_bound; eassumption.
Qed.

Lemma config_wire_roundtrip c : config_from_wire (config_to_wire c) = Ok c.
Proof.
  unfold config_from_wire, config_to_wire, program_hashes_from_wire, program_hashes_to_wire.
  cbn [wvc_auth_domain wvc_verified_program_hashes wph_shield wph_transfer wph_unshield].
  rewrite !wire_felt_roundtrip. by destruct c as [? []].
Qed.

Lemma encrypted_note_wire_Ok e w :
  encrypted_note_to_wire e = Ok w -> note_shape e /\ encrypted_note_from_wire w = Ok e.
Proof.
  unfold encrypted_note_to_wire. rewrite seq_Ok. intros [Hs%validate_Ok [= <-]].
  split; [done|]. by apply note_wire_roundtrip.
Qed.

Section Roundtrips.
Context `{WireLaws}.

Lemma encoded_note_wire_Ok e w :
  encoded_note_to_wire e = Ok w -> note_shape e /\ encoded_note_from_wire w = Ok e.
Proof.
  unfold encoded_note_to_wire. intros (u & [Hs Hu]%encrypted_note_wire_Ok & Hw)%bind_Ok.
  apply bind_Ok in Hw as (b & Hb & [= <-]). split; [done|].
  unfold encoded_note_from_wire. cbn [wenc_bytes]. by rewrite (decode_encode_tze _ _ Hb).
Qed.

Lemma encoded_felt_list_wire_Ok l w :
  encoded_felt_list_to_wire l = Ok w -> encoded_felt_list_from_wire w = Ok l.
Proof.
  unfold encoded_felt_list_to_wire. intros (b & Hb & [= <-])%bind_Ok.
  unfold encoded_felt_list_from_wire. cbn [wefl_bytes]. rewrite (decode_encode_tze _ _ Hb).
  cbn [mbind result_bind wfl_items].
  apply (map_result_roundtrip _ _ (fun _ => True)); [|by apply Forall_true].
  intros. apply wire_felt_roundtrip.
Qed.

Lemma optional_note_wire_Ok o w :
  transpose_map encoded_note_to_wire o = Ok w ->
  (forall e, o = Some e -> note_shape e) /\ transpose_map encoded_note_from_wire w = Ok o.
Proof.
  destruct o as [e|]; cbn [transpose_map].
  - intros (u & [Hs Hu]%encoded_note_wire_Ok & [= <-])%bind_Ok.
    split; [by intros ? [= <-]|]. cbn [transpose_map]. by rewrite Hu.
  - intros [= <-]. split; [done|]. reflexivity.
Qed.

(** Reading one field off the front of a concatenated payload. *)
Lemma decode_prefix {T} `{TzeLaws T} (v : T) b rest :
  encode_tze v = Ok b -> decode_tze_prefix (b ++ rest) = Ok (rest, v).
Proof.
  unfold encode_tze, decode_tze_prefix. intros Hw%map_err_Ok.
  by rewrite (nom_read_bin_write v b rest Hw).
Qed.

Lemma decode_prefix_end {T} `{TzeLaws T} (v : T) b :
  encode_tze v = Ok b -> decode_tze_prefix b = Ok ([], v).
Proof. intros Hw. rewrite <-(app_nil_r b) at 1. by apply decode_prefix. Qed.

Ltac prefix_steps :=
  repeat match goal with
  | E : encode_tze ?v = Ok ?b |- context [decode_tze_prefix (?b ++ _)] =>
      rewrite (decode_prefix v b _ E); cbn [mbind result_bind]
  | E : encode_tze ?v = Ok ?b |- context [decode_tze_prefix ?b] =>
      rewrite (decode_prefix_end v b E); cbn [mbind result_bind]
  end.

(** Inverts the fields of an encoder, keeping what each sub-encoder guarantees. *)
Ltac encoder_inv :=
  result_inv;
  repeat match goal with
  | E : encoded_proof_to_wire _ = Ok _ |- _ => apply encoded_proof_roundtrip in E as [? ?]
  | E : encoded_note_to_wire _ = Ok _ |- _ => apply encoded_note_wire_Ok in E as [? ?]
  | E : encrypted_note_to_wire _ = Ok _ |- _ => apply encrypted_note_wire_Ok in E as [? ?]
  | E : encoded_felt_list_to_wire _ = Ok _ |- _ => apply encoded_felt_list_wire_Ok in E
  | E : transpose_map encoded_note_to_wire _ = Ok _ |- _ =>
      apply optional_note_wire_Ok in E as [? ?]
  end.

(** Runs the decoder on what the encoder wrote. *)
Ltac decoder_run :=
  repeat (first
    [ rewrite wire_felt_roundtrip
    | rewrite wire_u64_roundtrip by done
    | match goal with
      | E : encoded_proof_from_wire _ = Ok _ |- _ => rewrite E
      | E : encoded_note_from_wire _ = Ok _ |- _ => rewrite E
      | E : encrypted_note_from_wire _ = Ok _ |- _ => rewrite E
      | E : encoded_felt_list_from_wire _ = Ok _ |- _ => rewrite E
      | E : transpose_map encoded_note_from_wire _ = Ok _ |- _ => rewrite E
      end ]; cbn [mbind result_bind]).

Lemma shield_req_wire_Ok r w :
  message_typed (KIShield r) -> kernel_shield_req_to_wire r = Ok w ->
  message_bounded (KIShield r) /\ kernel_shield_req_from_wire w = Ok r.
Proof.
  intros (? & ? & ?) Hw. unfold kernel_shield_req_to_wire in Hw. encoder_inv.
  split; [done|]. unfold kernel_shield_req_from_wire.
  cbn [wsr_pubkey_hash wsr_fee wsr_v wsr_producer_fee wsr_proof wsr_client_cm wsr_client_enc
       wsr_producer_cm wsr_producer_enc].
  decoder_run. by destruct r.
Qed.

Lemma transfer_req_wire_Ok r w :
  message_typed (KITransfer r) -> kernel_transfer_req_to_wire r = Ok w ->
  message_bounded (KITransfer r) /\ kernel_transfer_req_from_wire w = Ok r.
Proof.
  intros ? Hw. cbn in *. unfold kernel_transfer_req_to_wire in Hw. encoder_inv.
  split; [done|]. unfold kernel_transfer_req_from_wire. cbn [wtr_bytes]. prefix_steps.
  rewrite bool_decide_true by done. cbn [negb fail_if mbind result_bind].
  decoder_run. by destruct r.
Qed.

Lemma unshield_req_wire_Ok r w :
  message_typed (KIUnshield r) -> kernel_unshield_req_to_wire r = Ok w ->
  message_bounded (KIUnshield r) /\ kernel_unshield_req_from_wire w = Ok r.
Proof.
  intros [? ?] Hw. unfold kernel_unshield_req_to_wire in Hw. encoder_inv.
  split; [done|]. unfold kernel_unshield_req_from_wire. cbn [wur_bytes]. prefix_steps.
  rewrite bool_decide_true by done. cbn [negb fail_if mbind result_bind won_note wai_value].
  decoder_run. by destruct r.
Qed.

Lemma check_chunk_count_Ok {A} (l : list A) u :
  check_chunk_count l = Ok u <->
  (0 < length l)%nat /\ N.of_nat (length l) <= MAX_DAL_CHUNK_POINTERS.
Proof.
  destruct u. unfold check_chunk_count.
  rewrite seq_Ok, !fail_if_Ok, N.ltb_ge, Nat.eqb_neq. split; intros [? ?]; split; lia.
Qed.

Lemma dal_pointer_wire_Ok p w :
  message_typed (KIDalPointer p) -> kernel_dal_payload_pointer_to_wire p = Ok w ->
  message_bounded (KIDalPointer p) /\ kernel_dal_payload_pointer_from_wire w = Ok p.
Proof.
  intros [Hl Hc] Hw. unfold kernel_dal_payload_pointer_to_wire in Hw.
  apply seq_Ok in Hw as [Hn Hw]. apply bind_Ok in Hw as (b & Hb & [= <-]).
  split; [by apply check_chunk_count_Ok in Hn|].
  unfold kernel_dal_payload_pointer_from_wire.
  cbn [wdp_chunks wedl_bytes wdp_kind wdp_payload_hash wdp_payload_len].
  rewrite (decode_encode_tze _ _ Hb). cbn [mbind result_bind wdl_items].
  assert (check_chunk_count (kernel_dal_chunk_pointer_to_wire <$> kdp_chunks p) = Ok tt) as ->.
  { apply check_chunk_count_Ok in Hn. apply check_chunk_count_Ok. by rewrite length_fmap. }
  cbn [mbind result_bind].
  rewrite (map_result_roundtrip _ _ u64_chunk) by (done || apply chunk_roundtrip).
  unfold kernel_dal_payload_kind_from_wire. cbn [mbind result_bind mret result_ret].
  rewrite wire_felt_roundtrip, wire_u64_roundtrip by done.
  destruct p as [k ? ? ?]; by destruct k.
Qed.

Lemma signed_config_wire_Ok c w :
  signed_config_to_wire c = Ok w -> signed_config_from_wire w = Ok c.
Proof.
  unfold signed_config_to_wire. intros Hw. encoder_inv. unfold signed_config_from_wire.
  cbn [wsvc_config wsvc_signature]. rewrite config_wire_roundtrip. cbn [mbind result_bind].
  decoder_run. by destruct c.
Qed.

Lemma signed_bridge_config_wire_Ok c w :
  signed_bridge_config_to_wire c = Ok w -> signed_bridge_config_from_wire w = Ok c.
Proof.
  unfold signed_bridge_config_to_wire. intros Hw. encoder_inv.
  unfold signed_bridge_config_from_wire, bridge_config_from_wire, bridge_config_to_wire.
  cbn [wsbc_config wsbc_signature wbc_ticketer mbind result_bind mret result_ret].
  decoder_run. by destruct c as [[?] ?].
Qed.

Lemma inbox_message_wire_Ok m w :
  message_typed m -> inbox_message_to_wire m = Ok w ->
  message_bounded m /\ inbox_message_from_wire w = Ok m.
Proof.
  destruct m; intros Ht Hw; cbn in Hw; apply bind_Ok in Hw as (x & Hx & [= <-]);
    cbn [inbox_message_from_wire].
  - by rewrite (signed_config_wire_Ok _ _ Hx).
  - by rewrite (signed_bridge_config_wire_Ok _ _ Hx).
  - apply shield_req_wire_Ok in Hx as [Hb ->]; done.
  - apply transfer_req_wire_Ok in Hx as [Hb ->]; done.
  - apply unshield_req_wire_Ok in Hx as [Hb ->]; done.
  - apply dal_pointer_wire_Ok in Hx as [Hb ->]; done.
Qed.

Lemma inbox_codec (m : KernelInboxMessage) (b : bytes) :
  message_typed m -> encode_kernel_inbox_message m = Ok b ->
  message_bounded m /\ decode_kernel_inbox_message b = Ok m.
Proof.
  intros Ht Hb. unfold encode_kernel_inbox_message in Hb.
  apply bind_Ok in Hb as (w & Hw & Hb).
  apply inbox_message_wire_Ok in Hw as [Hm Hw]; [|done]. split; [done|].
  unfold decode_kernel_inbox_message. rewrite (decode_encode_tze _ _ Hb).
  cbn [mbind result_bind wie_version]. rewrite wire_u16_roundtrip by done.
  cbn [mbind result_bind wie_message]. rewrite N.eqb_refl. done.
Qed.

(** C39: every inbox message that encodes decodes to itself, and was within the
    bounds the format imposes (proof and preimage sizes, note shapes, chunk counts). *)
Theorem inbox_roundtrip (m : KernelInboxMessage) (b : bytes) :
  message_typed m -> encode_kernel_inbox_message m = Ok b ->
  message_bounded m /\ decode_kernel_inbox_message b = Ok m.
Proof. apply inbox_codec. Qed.

(** ** What a decoded message guarantees *)

Lemma encoded_note_shape w e : encoded_note_from_wire w = Ok e -> note_shape e.
Proof.
  unfold encoded_note_from_wire, encrypted_note_from_wire. intros Hw. result_inv.
  by eapply note_from_wire_shape.
Qed.

Lemma optional_note_shape w o e :
  transpose_map encoded_note_from_wire w = Ok o -> o = Some e -> note_shape e.
Proof.
  destruct w as [w|]; cbn [transpose_map]; [|by intros [= <-]].
  intros (x & Hx & [= <-])%bind_Ok [= <-]. by eapply encoded_note_shape.
Qed.

(** [result_inv] through the pairs a prefix reader returns. *)
Ltac tuple_inv :=
  repeat first
    [ result_inv_step; subst
    | match goal with x : (_ * _)%type |- _ => destruct x; cbn beta iota in * end ].

Create HintDb wire_bounds.
#[local] Hint Resolve wire_to_u64_bound encoded_proof_bounded encoded_note_shape
  note_from_wire_shape optional_note_shape : wire_bounds.

Lemma inbox_decoded (b : bytes) (m : KernelInboxMessage) :
  decode_kernel_inbox_message b = Ok m ->
  message_typed m /\ message_bounded m /\
  exists w, decode_tze b = Ok w /\ wire_to_u16 (wie_version w) = Ok KERNEL_WIRE_VERSION.
Proof.
  unfold decode_kernel_inbox_message. intros Hb.
  apply bind_Ok in Hb as (env & Henv & Hb). apply bind_Ok in Hb as (v & Hv & Hb).
  apply seq_Ok in Hb as [Hver Hb].
  apply fail_if_Ok, negb_false_iff, N.eqb_eq in Hver. subst v.
  enough (message_typed m /\ message_bounded m) as [??] by eauto.
  destruct (wie_message env) as [c|c|r|r|r|p]; cbn in Hb;
    apply bind_Ok in Hb as (x & Hx & [= <-]); cbn [message_typed message_bounded].
  - done.
  - done.
  - unfold kernel_shield_req_from_wire, encrypted_note_from_wire in Hx. result_inv.
    split_and!; cbn; eauto with wire_bounds.
  - unfold kernel_transfer_req_from_wire in Hx. tuple_inv.
    split_and!; cbn; eauto with wire_bounds.
  - unfold kernel_unshield_req_from_wire in Hx. tuple_inv.
    split_and!; cbn; eauto with wire_bounds.
  - unfold kernel_dal_payload_pointer_from_wire in Hx. result_inv. cbn.
    split; [split; [by eapply wire_to_u64_bound|]|].
    + eapply map_result_Forall; [|exact Ha2]. apply chunk_from_wire_u64.
    + apply check_chunk_count_Ok in Ha0. apply map_result_Ok, Forall2_length in Ha2.
      by rewrite <-Ha2.
Qed.

(** C40: whatever bytes arrive, a message that decodes has [u64] amounts,
    proofs within 8 MiB and 1024 outputs, well-formed notes and 1 to 256 DAL chunks,
    and carries the current wire version. *)
Theorem inbox_decoded_bounded (b : bytes) (m : KernelInboxMessage) :
  decode_kernel_inbox_message b = Ok m ->
  message_typed m /\ message_bounded m /\
  exists w, decode_tze b = Ok w /\ wire_to_u16 (wie_version w) = Ok KERNEL_WIRE_VERSION.
Proof. apply inbox_decoded. Qed.

(** ** Results *)

Lemma usize_wire_Ok `{Target} v i msg :
  to_u64 v = Some i -> v < usize_limit -> wire_to_usize (u64_to_wire i) msg = Ok v.
Proof.
  unfold to_u64, wire_to_usize. intros Hi Hv.
  destruct (N.ltb_spec v U64_LIMIT); [|done]. injection Hi as <-.
  rewrite wire_u64_roundtrip by done. cbn [mbind result_bind]. unfold to_usize.
  by rewrite (proj2 (N.ltb_lt _ _) Hv).
Qed.

Ltac usize_run :=
  repeat match goal with
  | E : to_u64 _ = Some ?i |- context [wire_to_usize (u64_to_wire ?i) ?m] =>
      rewrite (usize_wire_Ok _ _ m E) by auto; cbn [mbind result_bind]
  end.

Lemma result_wire_Ok `{Target} r w :
  response_typed r -> kernel_result_to_wire r = Ok w -> kernel_result_from_wire w = Ok r.
Proof.
  destruct r as [| |p|p|p|msg]; cbn; intros Ht Hw.
  - by injection Hw as <-.
  - by injection Hw as <-.
  - destruct Ht as [? ?]. unfold shield_resp_to_wire in Hw. result_inv.
    cbn [kernel_result_from_wire]. unfold shield_resp_from_wire.
    cbn [wsh_cm wsh_index wsh_producer_cm wsh_producer_index].
    rewrite !wire_felt_roundtrip. cbn [mbind result_bind]. usize_run. by destruct p.
  - destruct Ht as (? & ? & ?). unfold transfer_resp_to_wire in Hw. result_inv.
    cbn [kernel_result_from_wire]. unfold transfer_resp_from_wire.
    cbn [wtp_index_1 wtp_index_2 wtp_index_3]. usize_run. by destruct p.
  - destruct Ht as [Hc ?], p as [[c|] i]; unfold unshield_resp_to_wire in Hw;
      cbn [up_change_index up_producer_index transpose_map] in *; result_inv;
      cbn [kernel_result_from_wire]; unfold unshield_resp_from_wire;
      cbn [wup_change_index wup_producer_index transpose_map mbind result_bind mret result_ret].
    + assert (c < usize_limit) by by apply Hc. by usize_run.
    + by usize_run.
  - by injection Hw as <-.
Qed.

(** A result the kernel publishes decodes to the value it encoded, on any
    reader whose [usize] holds its indices. *)
Theorem kernel_result_roundtrip `{Target} (r : KernelResult) (b : bytes) :
  response_typed r -> encode_kernel_result r = Ok b -> decode_kernel_result b = Ok r.
Proof.
  intros Ht Hb. unfold encode_kernel_result in Hb. apply bind_Ok in Hb as (w & Hw & Hb).
  unfold decode_kernel_result. rewrite (decode_encode_tze _ _ Hb).
  cbn [mbind result_bind wre_version]. rewrite wire_u16_roundtrip by done.
  cbn [mbind result_bind wre_result]. rewrite N.eqb_refl. by apply result_wire_Ok.
Qed.
End Roundtrips.
