(* ===== verification/ConcreteWire.v ===== *)
(** * ConcreteWire: concrete codecs for the wire structs

    A family of self-delimiting codecs, built from combinators, that instantiates the
    codecs generated by [tezos_data_encoding] and satisfies their law; and the round-trip
    theorems applied to concrete values under it. *)

From S2P Require Import Prelude Felt Externals Concrete Types Binding CanonicalWire KernelWire.
From S2P Require Import KernelWireFacts.

(** ** Combinators *)

Record codec (A : Type) := {
  cw : A -> bytes;
  cr : bytes -> option (bytes * A);
  cr_cw : forall v rest, cr (cw v ++ rest) = Some (rest, v)
}.
Arguments cw {_} _ _.
Arguments cr {_} _ _.

(** A number in binary, its lowest digit first and its highest one last. *)
Fixpoint write_pos (p : positive) : bytes :=
  match p with
  | xH => [Byte.x01]
  | xO p => Byte.x02 :: write_pos p
  | xI p => Byte.x03 :: write_pos p
  end.

Fixpoint read_pos (b : bytes) : option (bytes * positive) :=
  match b with
  | Byte.x01 :: r => Some (r, xH)
  | Byte.x02 :: r => '(r, p) ← read_pos r; Some (r, xO p)
  | Byte.x03 :: r => '(r, p) ← read_pos r; Some (r, xI p)
  | _ => None
  end.

Lemma read_pos_write p rest : read_pos (write_pos p ++ rest) = Some (rest, p).
Proof. induction p as [p IH|p IH|]; cbn; rewrite ?IH; done. Qed.

Definition write_N (n : N) : bytes := match n with N0 => [Byte.x00] | Npos p => write_pos p end.
Definition read_N (b : bytes) : option (bytes * N) :=
  match b with
  | Byte.x00 :: r => Some (r, N0)
  | _ => '(r, p) ← read_pos b; Some (r, Npos p)
  end.

Lemma read_N_write n rest : read_N (write_N n ++ rest) = Some (rest, n).
Proof.
  destruct n as [|p]; cbn; [done|]. pose proof (read_pos_write p rest) as E.
  unfold read_N. destruct p; cbn [write_pos app] in *; by rewrite E.
Qed.

Definition c_N : codec N := {| cw := write_N; cr := read_N; cr_cw := read_N_write |}.

Program Definition codec_iso {A B} (c : codec A) (f : B -> A) (g : A -> B)
    (fg : forall b, g (f b) = b) : codec B := {|
  cw b := cw c (f b); cr b := '(r, a) ← cr c b; Some (r, g a) |}.
Next Obligation. intros A B c f g fg v rest. cbn. rewrite cr_cw. cbn. by rewrite fg. Qed.

Definition codec_nat : codec nat := codec_iso c_N N.of_nat N.to_nat Nat2N.id.

Program Definition codec_pair {A B} (c : codec A) (d : codec B) : codec (A * B) := {|
  cw p := cw c p.1 ++ cw d p.2;
  cr b := '(r, x) ← cr c b; '(r, y) ← cr d r; Some (r, (x, y)) |}.
Next Obligation.
  intros A B c d [x y] rest. cbn. rewrite <-app_assoc, cr_cw. cbn. by rewrite cr_cw.
Qed.

Definition codec_sum {A B} (c : codec A) (d : codec B) : codec (A + B).
Proof.
  refine {|
    cw s := match s with inl x => Byte.x00 :: cw c x | inr y => Byte.x01 :: cw d y end;
    cr b := match b with
            | Byte.x00 :: r => '(r, x) ← cr c r; Some (r, inl x)
            | Byte.x01 :: r => '(r, y) ← cr d r; Some (r, inr y)
            | _ => None
            end |}.
  intros [x|y] rest; cbn; by rewrite cr_cw.
Defined.

Program Definition codec_unit : codec unit := {| cw _ := []; cr b := Some (b, tt) |}.
Next Obligation. by intros [] rest. Qed.

Fixpoint read_items {A} (c : codec A) (n : nat) (b : bytes) : option (bytes * list A) :=
  match n with
  | O => Some (b, [])
  | S n => '(r, x) ← cr c b; '(r, l) ← read_items c n r; Some (r, x :: l)
  end.

Program Definition codec_list {A} (c : codec A) : codec (list A) := {|
  cw l := cw codec_nat (length l) ++ (l ≫= cw c);
  cr b := '(r, n) ← cr codec_nat b; read_items c n r |}.
Next Obligation.
  intros A c l rest. cbv beta. rewrite <-app_assoc, (cr_cw _ codec_nat). cbn [mbind option_bind].
  induction l as [|x l IH]; cbn; [done|]. rewrite <-app_assoc, cr_cw. cbn. by rewrite IH.
Qed.

Program Definition codec_bytes : codec bytes := {|
  cw b := cw codec_nat (length b) ++ b;
  cr b := '(r, n) ← cr codec_nat b; Some (drop n r, take n r) |}.
Next Obligation.
  intros b rest. cbv beta. rewrite <-app_assoc, (cr_cw _ codec_nat). cbn [mbind option_bind].
  by rewrite take_app_length, drop_app_length.
Qed.

Definition tze_of {A} (c : codec A) : Tze A := {|
  bin_write v := Ok (cw c v);
  nom_read b := ok_or (cr c b) "unexpected end of input" |}.

Lemma tze_of_laws {A} (c : codec A) : @TzeLaws A (tze_of c).
Proof. constructor. cbn. intros v b rest [= <-]. by rewrite cr_cw. Qed.

(** ** The wire structs *)

Definition c_string : codec string := codec_iso codec_bytes str_bytes bytes_str bytes_str_of_str.

Ltac iso := intros []; reflexivity.

Definition c_felt : codec WireFelt.
Proof. refine (codec_iso codec_bytes wf_bytes (fun b => {| wf_bytes := b |}) _). iso. Defined.

Definition c_u64 : codec WireU64Le.
Proof. refine (codec_iso codec_bytes wu64_bytes (fun b => {| wu64_bytes := b |}) _). iso. Defined.

Definition c_u16 : codec WireU16Le.
Proof. refine (codec_iso codec_bytes wu16_bytes (fun b => {| wu16_bytes := b |}) _). iso. Defined.

Definition c_note : codec WireEncryptedNote.
Proof.
  refine (codec_iso
    (codec_pair codec_bytes (codec_pair c_u16 (codec_pair codec_bytes
      (codec_pair codec_bytes (codec_pair codec_bytes codec_bytes)))))
    (fun w => (wen_ct_d w, (wen_tag w, (wen_ct_v w, (wen_nonce w,
      (wen_encrypted_data w, wen_outgoing_ct w))))))
    (fun '(a, (b, (c, (d, (e, f))))) => Build_WireEncryptedNote a b c d e f) _).
  iso.
Defined.

Definition c_address : codec WirePaymentAddress.
Proof.
  refine (codec_iso
    (codec_pair c_felt (codec_pair c_felt (codec_pair c_felt (codec_pair c_felt
      (codec_pair codec_bytes codec_bytes)))))
    (fun w => (wpa_d_j w, (wpa_auth_root w, (wpa_auth_pub_seed w, (wpa_nk_tag w,
      (wpa_ek_v w, wpa_ek_d w))))))
    (fun '(a, (b, (c, (d, (e, f))))) => Build_WirePaymentAddress a b c d e f) _).
  iso.
Defined.

Definition c_memo : codec WireNoteMemo.
Proof.
  refine (codec_iso (codec_pair c_u64 (codec_pair c_felt c_note))
    (fun w => (wnm_index w, (wnm_cm w, wnm_enc w)))
    (fun '(a, (b, c)) => Build_WireNoteMemo a b c) _).
  iso.
Defined.

Definition c_published : codec WirePublishedNote.
Proof.
  refine (codec_iso (codec_pair c_felt c_note) (fun w => (wpn_cm w, wpn_enc w))
    (fun '(a, b) => Build_WirePublishedNote a b) _).
  iso.
Defined.

Definition c_felt_list : codec WireFeltList.
Proof. refine (codec_iso (codec_list c_felt) wfl_items Build_WireFeltList _). iso. Defined.
Definition c_encoded_note : codec WireEncodedNote.
Proof. refine (codec_iso codec_bytes wenc_bytes Build_WireEncodedNote _). iso. Defined.
Definition c_encoded_proof : codec WireEncodedProof.
Proof. refine (codec_iso codec_bytes wep_bytes Build_WireEncodedProof _). iso. Defined.
Definition c_encoded_felt_list : codec WireEncodedFeltList.
Proof. refine (codec_iso codec_bytes wefl_bytes Build_WireEncodedFeltList _). iso. Defined.
Definition c_account : codec WireAccountId.
Proof. refine (codec_iso c_string wai_value Build_WireAccountId _). iso. Defined.
Definition c_bridge_config : codec WireKernelBridgeConfig.
Proof. refine (codec_iso c_string wbc_ticketer Build_WireKernelBridgeConfig _). iso. Defined.

Definition c_verifier_config : codec WireKernelVerifierConfig.
Proof.
  refine (codec_iso (codec_pair c_felt (codec_pair c_felt (codec_pair c_felt c_felt)))
    (fun w => let h := wvc_verified_program_hashes w in
      (wvc_auth_domain w, (wph_shield h, (wph_transfer h, wph_unshield h))))
    (fun '(a, (b, (c, d))) => Build_WireKernelVerifierConfig a (Build_WireProgramHashes b c d)) _).
  intros [? []]; reflexivity.
Defined.

Definition c_option {A} (c : codec A) : codec (option A).
Proof.
  refine (codec_iso (codec_sum codec_unit c)
    (fun o => match o with None => inl tt | Some x => inr x end)
    (fun s => match s with inl _ => None | inr x => Some x end) _).
  iso.
Defined.

Definition c_optional_note : codec WireOptionalEncodedNote.
Proof.
  refine (codec_iso (c_option c_encoded_note) won_note Build_WireOptionalEncodedNote _). iso.
Defined.

Definition c_chunk_list : codec WireKernelDalChunkList.
Proof.
  refine (codec_iso
    (codec_list (codec_iso (codec_pair c_u64 (codec_pair c_N c_u64))
      (fun w => (wdc_published_level w, (wdc_slot_index w, wdc_payload_len w)))
      (fun '(a, (b, c)) => Build_WireKernelDalChunkPointer a b c) _))
    wdl_items Build_WireKernelDalChunkList _).
  all: iso.
Defined.

Definition kind_of_nat (n : nat) : WireKernelDalPayloadKind :=
  match n with
  | 0 => WKDShield | 1 => WKDTransfer | 2 => WKDUnshield | 3 => WKDConfigureVerifier
  | _ => WKDConfigureBridge
  end.

Definition nat_of_kind (k : WireKernelDalPayloadKind) : nat :=
  match k with
  | WKDShield => 0 | WKDTransfer => 1 | WKDUnshield => 2 | WKDConfigureVerifier => 3
  | WKDConfigureBridge => 4
  end.

Definition c_pointer : codec WireKernelDalPayloadPointer.
Proof.
  refine (codec_iso
    (codec_pair (codec_iso codec_nat nat_of_kind kind_of_nat _)
      (codec_pair codec_bytes (codec_pair c_felt c_u64)))
    (fun w => (wdp_kind w, (wedl_bytes (wdp_chunks w), (wdp_payload_hash w, wdp_payload_len w))))
    (fun '(a, (b, (c, d))) =>
      Build_WireKernelDalPayloadPointer a (Build_WireEncodedDalChunkList b) c d) _).
  - iso.
  - intros [? [] ? ?]; reflexivity.
Defined.

Definition c_shield_req : codec WireKernelShieldReq.
Proof.
  refine (codec_iso
    (codec_pair c_felt (codec_pair c_u64 (codec_pair c_u64 (codec_pair c_u64
      (codec_pair c_encoded_proof (codec_pair c_felt (codec_pair c_note
        (codec_pair c_felt c_note))))))))
    (fun w => (wsr_pubkey_hash w, (wsr_fee w, (wsr_v w, (wsr_producer_fee w, (wsr_proof w,
      (wsr_client_cm w, (wsr_client_enc w, (wsr_producer_cm w, wsr_producer_enc w)))))))))
    (fun '(a, (b, (c, (d, (e, (f, (g, (h, i)))))))) =>
      Build_WireKernelShieldReq a b c d e f g h i) _).
  iso.
Defined.

Definition c_message : codec WireKernelInboxMessage.
Proof.
  refine (codec_iso
    (codec_sum (codec_sum (codec_pair c_verifier_config c_encoded_felt_list)
                          (codec_pair c_bridge_config c_encoded_felt_list))
      (codec_sum (codec_sum c_shield_req codec_bytes) (codec_sum codec_bytes c_pointer)))
    (fun m => match m with
      | WKIConfigureVerifier c => inl (inl (wsvc_config c, wsvc_signature c))
      | WKIConfigureBridge c => inl (inr (wsbc_config c, wsbc_signature c))
      | WKIShield r => inr (inl (inl r))
      | WKITransfer r => inr (inl (inr (wtr_bytes r)))
      | WKIUnshield r => inr (inr (inl (wur_bytes r)))
      | WKIDalPointer p => inr (inr (inr p))
      end)
    (fun s => match s with
      | inl (inl (a, b)) => WKIConfigureVerifier (Build_WireSignedKernelVerifierConfig a b)
      | inl (inr (a, b)) => WKIConfigureBridge (Build_WireSignedKernelBridgeConfig a b)
      | inr (inl (inl r)) => WKIShield r
      | inr (inl (inr b)) => WKITransfer (Build_WireKernelTransferReq b)
      | inr (inr (inl b)) => WKIUnshield (Build_WireKernelUnshieldReq b)
      | inr (inr (inr p)) => WKIDalPointer p
      end) _).
  intros [[]|[]|?|[]|[]|?]; reflexivity.
Defined.

Definition c_inbox : codec WireKernelInboxEnvelope.
Proof.
  refine (codec_iso (codec_pair c_u16 c_message) (fun w => (wie_version w, wie_message w))
    (fun '(a, b) => Build_WireKernelInboxEnvelope a b) _).
  iso.
Defined.

Definition c_outcome : codec WireKernelResult.
Proof.
  refine (codec_iso
    (codec_sum (codec_sum codec_unit codec_unit)
      (codec_sum (codec_pair (codec_pair c_felt c_u64) (codec_pair c_felt c_u64))
        (codec_sum (codec_pair c_u64 (codec_pair c_u64 c_u64))
          (codec_sum (codec_pair (c_option c_u64) c_u64) c_string))))
    (fun r => match r with
      | WKRConfigured => inl (inl tt)
      | WKRDeposit => inl (inr tt)
      | WKRShield p =>
          inr (inl ((wsh_cm p, wsh_index p), (wsh_producer_cm p, wsh_producer_index p)))
      | WKRTransfer p => inr (inr (inl (wtp_index_1 p, (wtp_index_2 p, wtp_index_3 p))))
      | WKRUnshield p => inr (inr (inr (inl (wup_change_index p, wup_producer_index p))))
      | WKRError e => inr (inr (inr (inr (wem_message e))))
      end)
    (fun s => match s with
      | inl (inl _) => WKRConfigured
      | inl (inr _) => WKRDeposit
      | inr (inl ((a, b), (c, d))) => WKRShield (Build_WireShieldResp a b c d)
      | inr (inr (inl (a, (b, c)))) => WKRTransfer (Build_WireTransferResp a b c)
      | inr (inr (inr (inl (a, b)))) => WKRUnshield (Build_WireUnshieldResp a b)
      | inr (inr (inr (inr m))) => WKRError (Build_WireErrorMessage m)
      end) _).
  intros [| |[]|[]|[]|[]]; reflexivity.
Defined.

Definition c_result : codec WireKernelResultEnvelope.
Proof.
  refine (codec_iso (codec_pair c_u16 c_outcome) (fun w => (wre_version w, wre_result w))
    (fun '(a, b) => Build_WireKernelResultEnvelope a b) _).
  iso.
Defined.

Definition toy_wire : WireCodecs := {|
  wc_felt := tze_of c_felt; wc_u64 := tze_of c_u64; wc_note := tze_of c_note;
  wc_felt_list := tze_of c_felt_list; wc_encoded_note := tze_of c_encoded_note;
  wc_encoded_proof := tze_of c_encoded_proof;
  wc_encoded_felt_list := tze_of c_encoded_felt_list;
  wc_verifier_config := tze_of c_verifier_config; wc_bridge_config := tze_of c_bridge_config;
  wc_chunk_list := tze_of c_chunk_list; wc_account := tze_of c_account;
  wc_optional_note := tze_of c_optional_note; wc_inbox := tze_of c_inbox;
  wc_result := tze_of c_result; wc_published := tze_of c_published
|}.

Lemma toy_wire_laws : @WireLaws toy_wire.
Proof. constructor; apply tze_of_laws. Qed.

(** ** The theorems at concrete values *)

Definition sample_kernel_proof : KernelStarkProof := {|
  ksp_proof_bytes := [Byte.x01; Byte.x02; Byte.x03];
  ksp_output_preimage := [felt_n 1; felt_n 2] |}.

Definition sample_pointer : KernelDalPayloadPointer := {|
  kdp_kind := KDTransfer;
  kdp_chunks := [{| kdc_published_level := 7; kdc_slot_index := 3; kdc_payload_len := 100 |}];
  kdp_payload_len := 100; kdp_payload_hash := felt_n 9 |}.

Definition sample_wire_unshield : KernelUnshieldReq := {|
  kur_root := felt_n 1; kur_nullifiers := [felt_n 2; felt_n 3]; kur_v_pub := 40;
  kur_fee := 100000; kur_recipient := "tz1"; kur_cm_change := felt_n 4;
  kur_enc_change := Some sample_enc; kur_cm_fee := felt_n 5; kur_enc_fee := sample_enc;
  kur_proof := sample_kernel_proof |}.

Definition sample_memo : NoteMemo := {|
  nm_index := 12; nm_cm := felt_n 6; nm_enc := sample_enc |}.

Definition sample_result : KernelResult :=
  KRUnshield {| up_change_index := Some 4%N; up_producer_index := 5%N |}.

Lemma published_note_roundtrip_witness :
  exists b, @encode_published_note (tze_of c_published) (felt_n 6) sample_enc = Ok b /\
    note_shape sample_enc /\
    @decode_published_note (tze_of c_published) b = Ok (felt_n 6, sample_enc).
Proof.
  eexists. split; [reflexivity|].
  apply (@published_note_roundtrip (tze_of c_published) (tze_of_laws _)). reflexivity.
Defined.

Lemma canonical_wire_roundtrip_witness :
  exists b, @encode_note_memo (tze_of c_memo) sample_memo = Ok b /\
    @decode_note_memo (tze_of c_memo) host_target b = Ok sample_memo.
Proof.
  eexists. split; [reflexivity|].
  apply (@canonical_wire_roundtrip (tze_of c_address) (tze_of_laws _) (tze_of c_note)
    (tze_of_laws _) (tze_of c_memo) (tze_of_laws _) host_target); [reflexivity..|].
  exact sample_enc_shape.
Defined.

Definition sample_inbox_bytes : bytes :=
  match @encode_kernel_inbox_message toy_wire (KIUnshield sample_wire_unshield) with
  | Ok b => b
  | _ => []
  end.

Lemma inbox_roundtrip_witness :
  message_bounded (KIUnshield sample_wire_unshield) /\
  @decode_kernel_inbox_message toy_wire sample_inbox_bytes = Ok (KIUnshield sample_wire_unshield).
Proof.
  apply (@inbox_roundtrip toy_wire toy_wire_laws); [split; reflexivity|reflexivity].
Defined.

Definition sample_pointer_bytes : bytes :=
  match @encode_kernel_inbox_message toy_wire (KIDalPointer sample_pointer) with
  | Ok b => b
  | _ => []
  end.

Lemma inbox_decoded_bounded_witness :
  exists m, @decode_kernel_inbox_message toy_wire sample_pointer_bytes = Ok m /\
    message_typed m /\ message_bounded m /\
    exists w, @decode_tze _ (@wc_inbox toy_wire) sample_pointer_bytes = Ok w /\
      wire_to_u16 (wie_version w) = Ok KERNEL_WIRE_VERSION.
Proof.
  eexists. split; [reflexivity|]. apply (@inbox_decoded_bounded toy_wire). reflexivity.
Defined.

Lemma kernel_result_roundtrip_witness :
  exists b, @encode_kernel_result toy_wire sample_result = Ok b /\
    @decode_kernel_result toy_wire host_target b = Ok sample_result.
Proof.
  eexists. split; [reflexivity|].
  apply (@kernel_result_roundtrip toy_wire toy_wire_laws host_target); [|reflexivity].
  split; [by intros ? [= <-]|reflexivity].
Defined.
