(* ===== verification/Utf8.v ===== *)
(** * Utf8: [String::from_utf8], [is_char_boundary] and [String::truncate]

    A Rust [String] is valid UTF-8; the conversions that check it, and the truncation
    that panics in the middle of a character, are modelled on the bytes. *)

From S2P Require Import Prelude.

Local Open Scope N_scope.

Definition in_range (lo hi : N) (b : Byte.byte) : bool :=
  (lo <=? Byte.to_N b) && (Byte.to_N b <=? hi).

Definition is_continuation (b : Byte.byte) : bool := in_range 0x80 0xBF b.

(** The well-formed byte sequences of the Unicode standard (table 3-7). *)
Fixpoint utf8_valid (s : bytes) : bool :=
  match s with
  | [] => true
  | b :: s1 =>
      if in_range 0 0x7F b then utf8_valid s1
      else
        match s1 with
        | [] => false
        | c :: s2 =>
            if in_range 0xC2 0xDF b then is_continuation c && utf8_valid s2
            else
              match s2 with
              | [] => false
              | d :: s3 =>
                  if in_range 0xE0 0xEF b then
                    in_range (if Byte.to_N b =? 0xE0 then 0xA0 else 0x80)
                             (if Byte.to_N b =? 0xED then 0x9F else 0xBF) c &&
                    is_continuation d && utf8_valid s3
                  else
                    match s3 with
                    | [] => false
                    | e :: s4 =>
                        in_range 0xF0 0xF4 b &&
                        in_range (if Byte.to_N b =? 0xF0 then 0x90 else 0x80)
                                 (if Byte.to_N b =? 0xF4 then 0x8F else 0xBF) c &&
                        is_continuation d && is_continuation e && utf8_valid s4
                    end
              end
        end
  end.

(** [String::from_utf8]. *)
Definition from_utf8 (b : bytes) : option string :=
  if utf8_valid b then Some (bytes_str b) else None.

(** [str::is_char_boundary]. *)
Definition is_char_boundary (s : bytes) (i : nat) : bool :=
  if (i =? 0)%nat || (i =? length s)%nat then true
  else match s !! i with Some b => negb (is_continuation b) | None => false end.

(** [String::truncate]: nothing beyond the length, a panic inside a character. *)
Definition string_truncate (s : string) (new_len : nat) : result string :=
  let b := str_bytes s in
  if (new_len <=? length b)%nat then
    panic_unless (is_char_boundary b new_len) "assertion failed: self.is_char_boundary(new_len)" ;;
    mret (bytes_str (take new_len b))
  else mret s.

Lemma from_utf8_of s : utf8_valid (str_bytes s) = true -> from_utf8 (str_bytes s) = Some s.
Proof. intros Hv. unfold from_utf8. by rewrite Hv, bytes_str_of_str. Qed.

(** Strings of ASCII characters are valid and every position in them is a boundary. *)
Definition is_ascii (b : bytes) : bool := forallb (in_range 0 0x7F) b.

Lemma ascii_valid b : is_ascii b = true -> utf8_valid b = true.
Proof.
  induction b as [|c b IH]; cbn; [done|]. intros [-> Hb]%andb_true_iff. by apply IH.
Qed.

Lemma ascii_boundary b i : is_ascii b = true -> (i <= length b)%nat -> is_char_boundary b i = true.
Proof.
  intros Ha Hi. unfold is_char_boundary.
  destruct (Nat.eqb_spec i 0), (Nat.eqb_spec i (length b)); try done. cbn.
  destruct (lookup_lt_is_Some_2 b i) as [c Hc]; [lia|]. rewrite Hc.
  unfold is_ascii in Ha. rewrite forallb_forall in Ha.
  apply list_elem_of_lookup_2, list_elem_of_In, Ha in Hc. unfold is_continuation, in_range in *.
  apply andb_true_iff in Hc as [_ Hc]. apply N.leb_le in Hc.
  by rewrite (proj2 (N.leb_gt _ _)) by lia.
Qed.
