(* ===== verification/Store.v ===== *)
(** * Store: the rollup host and the kernel's durable paths

    [tezos/rollup-kernel/src/lib.rs]: the [Host] trait, the paths under which the kernel
    keeps its state, and the readers and writers of integers on top of it.  The laws of
    the host are those of the trait as the kernel uses it and as its mock implements it:
    a write replaces the value at a path, and a read returns a prefix of it. *)

From S2P Require Import Prelude Felt Externals.

Local Open Scope N_scope.

(** ** The host *)

Record InputMessage := {
  im_level : Z;      (* i32 *)
  im_id : Z;         (* i32 *)
  im_payload : bytes
}.

Record DalParameters := {
  dal_number_of_slots : N;
  dal_attestation_lag : N;
  dal_slot_size : N;
  dal_page_size : N
}.

(** [trait Host]. *)
Class Host (H : Type) := {
  host_next_input : H -> H * option InputMessage;
  host_read_store : H -> bytes -> N -> option bytes;
  host_write_store : bytes -> bytes -> H -> H;
  host_write_output : bytes -> ST H unit;
  host_write_debug : string -> H -> H;
  host_rollup_address : H -> option bytes;   (* [None]: the host panics *)
  host_reveal_dal_parameters : H -> result DalParameters;
  host_reveal_dal_page : H -> Z -> N -> N -> N -> result bytes
}.

(** The store a host holds, the outbox it has filled and the inbox it has left.  Output
    may be refused.  The inbox of a level is finite and is handed out in order. *)
Class HostLaws (H : Type) `{Host H} := {
  host_store : H -> gmap bytes bytes;
  host_outbox : H -> list bytes;
  host_inbox : H -> list InputMessage;
  host_read h p n : host_read_store h p n = take (N.to_nat n) <$> host_store h !! p;
  host_write_store_eq p v h : host_store (host_write_store p v h) = <[p := v]> (host_store h);
  host_write_outbox p v h : host_outbox (host_write_store p v h) = host_outbox h;
  host_write_inbox p v h : host_inbox (host_write_store p v h) = host_inbox h;
  host_debug_store m h : host_store (host_write_debug m h) = host_store h;
  host_debug_outbox m h : host_outbox (host_write_debug m h) = host_outbox h;
  host_debug_inbox m h : host_inbox (host_write_debug m h) = host_inbox h;
  host_output_cases b h : exists h' r,
    host_write_output b h = (h', r) /\ host_store h' = host_store h /\
    host_inbox h' = host_inbox h /\
    (r = Ok tt /\ host_outbox h' = host_outbox h ++ [b] \/
     (exists e, r = Err e) /\ host_outbox h' = host_outbox h);
  host_input_store h : host_store (fst (host_next_input h)) = host_store h;
  host_input_outbox h : host_outbox (fst (host_next_input h)) = host_outbox h;
  host_input_inbox h : match host_inbox h with
    | [] => snd (host_next_input h) = None /\ host_inbox (fst (host_next_input h)) = []
    | m :: l => snd (host_next_input h) = Some m /\ host_inbox (fst (host_next_input h)) = l
    end
}.

(** ** Hexadecimal formatting *)

Definition hex_digit (n : N) : Byte.byte :=
  if n <? 10 then byte_of_N (0x30 + n) else byte_of_N (0x61 + (n - 10)).

Fixpoint hex_digits_rev (n : nat) (v : N) : bytes :=
  match n with
  | O => []
  | S n => hex_digit (v mod 16) :: hex_digits_rev n (v / 16)
  end.

(** [format!("{:0width$x}", v)]: at least [width] digits. *)
Definition lower_hex (width : nat) (v : N) : bytes :=
  rev (hex_digits_rev (Nat.max width (N.to_nat ((N.size v + 3) / 4))) v).

(** ** Paths *)

Definition PATH_RAW_INPUT_COUNT : bytes := str_bytes "/tzel/v1/stats/raw_input_count".
Definition PATH_RAW_INPUT_BYTES : bytes := str_bytes "/tzel/v1/stats/raw_input_bytes".
Definition PATH_LAST_INPUT_LEVEL : bytes := str_bytes "/tzel/v1/state/last_input_level".
Definition PATH_LAST_INPUT_ID : bytes := str_bytes "/tzel/v1/state/last_input_id".
Definition PATH_LAST_INPUT_LEN : bytes := str_bytes "/tzel/v1/state/last_input_len".
Definition PATH_LAST_INPUT_PAYLOAD : bytes := str_bytes "/tzel/v1/state/last_input_payload".
Definition PATH_PRIVATE_TX_FEE_LEVEL : bytes :=
  str_bytes "/tzel/v1/state/fees/private_tx_level".
Definition PATH_PRIVATE_TX_COUNT_IN_LEVEL : bytes :=
  str_bytes "/tzel/v1/state/fees/private_tx_count_in_level".
Definition PATH_AUTH_DOMAIN : bytes := str_bytes "/tzel/v1/state/auth_domain".
Definition PATH_TREE_SIZE : bytes := str_bytes "/tzel/v1/state/tree/size".
Definition PATH_TREE_ROOT : bytes := str_bytes "/tzel/v1/state/tree/root".
Definition PATH_NULLIFIER_COUNT : bytes := str_bytes "/tzel/v1/state/nullifiers/count".
Definition PATH_VALID_ROOT_COUNT : bytes := str_bytes "/tzel/v1/state/roots/count".
Definition PATH_WITHDRAWAL_COUNT : bytes := str_bytes "/tzel/v1/state/withdrawals/count".
Definition PATH_BRIDGE_TICKETER : bytes := str_bytes "/tzel/v1/state/bridge/ticketer".
Definition PATH_VERIFIER_CONFIG : bytes := str_bytes "/tzel/v1/state/verifier_config.bin".
Definition PATH_LAST_RESULT : bytes := str_bytes "/tzel/v1/state/last_result.bin".
Definition PATH_TREE_BRANCH_PREFIX : bytes := str_bytes "/tzel/v1/state/tree/branch/".
Definition PATH_NOTE_PREFIX : bytes := str_bytes "/tzel/v1/state/notes/".
Definition PATH_NOTE_LEN_SUFFIX : bytes := str_bytes "/len".
Definition PATH_NOTE_CHUNK_PREFIX : bytes := str_bytes "/chunk/".
Definition PATH_NULLIFIER_PREFIX : bytes := str_bytes "/tzel/v1/state/nullifiers/by-key/".
Definition PATH_NULLIFIER_INDEX_PREFIX : bytes :=
  str_bytes "/tzel/v1/state/nullifiers/index/".
Definition PATH_VALID_ROOT_PREFIX : bytes := str_bytes "/tzel/v1/state/roots/by-key/".
Definition PATH_VALID_ROOT_INDEX_PREFIX : bytes := str_bytes "/tzel/v1/state/roots/index/".
Definition PATH_WITHDRAWAL_PREFIX : bytes := str_bytes "/tzel/v1/state/withdrawals/index/".
Definition PATH_DEPOSIT_BALANCE_PREFIX : bytes :=
  str_bytes "/tzel/v1/state/deposits/balance/".
Definition PATH_APPLIED_SHIELD_PREFIX : bytes :=
  str_bytes "/tzel/v1/state/shields/applied_cm/".

Definition indexed_path (prefix : bytes) (index : N) : bytes := prefix ++ lower_hex 16 index.

Definition note_path (index : N) : bytes := indexed_path PATH_NOTE_PREFIX index.
Definition note_length_path (index : N) : bytes := note_path index ++ PATH_NOTE_LEN_SUFFIX.
Definition note_chunk_path (index chunk_index : N) : bytes :=
  note_path index ++ PATH_NOTE_CHUNK_PREFIX ++ lower_hex 8 chunk_index.

Definition branch_path (level : nat) : bytes :=
  PATH_TREE_BRANCH_PREFIX ++ lower_hex 2 (N.of_nat level).

Section KeyedPaths.
Context `{Hex}.
Definition root_marker_path (root : F) : bytes := PATH_VALID_ROOT_PREFIX ++ hex_encode (F_bytes root).
Definition nullifier_path (nf : F) : bytes := PATH_NULLIFIER_PREFIX ++ hex_encode (F_bytes nf).
Definition deposit_balance_path (pubkey_hash : F) : bytes :=
  PATH_DEPOSIT_BALANCE_PREFIX ++ hex_encode (F_bytes pubkey_hash).
Definition applied_shield_path (client_cm : F) : bytes :=
  PATH_APPLIED_SHIELD_PREFIX ++ hex_encode (F_bytes client_cm).
End KeyedPaths.

(** ** Integers in the store *)

(** [i32::to_le_bytes] and [from_le_bytes]: two's complement. *)
Definition i32_le (v : Z) : bytes := le_bytes 4 (Z.to_N (v mod 2 ^ 32)).
Definition i32_of_le (b : bytes) : Z :=
  let n := Z.of_N (le_val b) in (if n <? 2 ^ 31 then n else n - 2 ^ 32)%Z.

Section Reading.
Context {H : Type} `{Host H}.

(** The free functions [read_u64], [read_u32] and [read_i32]: any fault is [None]. *)
Definition read_sized (width : nat) (host : H) (path : bytes) : option bytes :=
  b ← host_read_store host path (N.of_nat width);
  if (length b =? width)%nat then Some b else None.

Definition read_u64 (host : H) (path : bytes) : option N := le_val <$> read_sized 8 host path.
Definition read_u32 (host : H) (path : bytes) : option N := le_val <$> read_sized 4 host path.
Definition read_i32 (host : H) (path : bytes) : option Z := i32_of_le <$> read_sized 4 host path.

Definition increment_u64 (path : bytes) (delta : N) (host : H) : H :=
  let next := saturating_add_u64 (default 0 (read_u64 host path)) delta in
  host_write_store path (u64_le next) host.
End Reading.
