(* ===== verification/StoreKeys.v ===== *)
(** * StoreKeys: no two kinds of durable data share a path

    The kernel's paths as a data type, and the proof that different keys have different
    paths.  Every fact about the durable store is then a fact about keys. *)

From S2P Require Import Prelude Felt Externals Store.

Local Open Scope N_scope.

(** ** Keys *)

Inductive cell :=
| CRawInputCount | CRawInputBytes | CLastInputLevel | CLastInputId | CLastInputLen
| CLastInputPayload | CFeeLevel | CFeeCount | CAuthDomain | CTreeSize | CTreeRoot
| CNullifierCount | CValidRootCount | CWithdrawalCount | CBridgeTicketer | CVerifierConfig
| CLastResult.

#[export] Instance cell_eq_dec : EqDecision cell.
Proof. solve_decision. Defined.

Inductive key :=
| KCell (c : cell)
| KBranch (level : nat)
| KNote (index : N)
| KNoteLen (index : N)
| KNoteChunk (index chunk : N)
| KNullifierAt (index : N)
| KRootAt (index : N)
| KWithdrawal (index : N)
| KNullifier (nf : F)
| KRoot (root : F)
| KBalance (pubkey_hash : F)
| KShield (cm : F).

#[export] Instance key_eq_dec : EqDecision key.
Proof. solve_decision. Defined.

Definition cell_path (c : cell) : bytes :=
  match c with
  | CRawInputCount => PATH_RAW_INPUT_COUNT
  | CRawInputBytes => PATH_RAW_INPUT_BYTES
  | CLastInputLevel => PATH_LAST_INPUT_LEVEL
  | CLastInputId => PATH_LAST_INPUT_ID
  | CLastInputLen => PATH_LAST_INPUT_LEN
  | CLastInputPayload => PATH_LAST_INPUT_PAYLOAD
  | CFeeLevel => PATH_PRIVATE_TX_FEE_LEVEL
  | CFeeCount => PATH_PRIVATE_TX_COUNT_IN_LEVEL
  | CAuthDomain => PATH_AUTH_DOMAIN
  | CTreeSize => PATH_TREE_SIZE
  | CTreeRoot => PATH_TREE_ROOT
  | CNullifierCount => PATH_NULLIFIER_COUNT
  | CValidRootCount => PATH_VALID_ROOT_COUNT
  | CWithdrawalCount => PATH_WITHDRAWAL_COUNT
  | CBridgeTicketer => PATH_BRIDGE_TICKETER
  | CVerifierConfig => PATH_VERIFIER_CONFIG
  | CLastResult => PATH_LAST_RESULT
  end.

Definition cell_number (c : cell) : nat :=
  match c with
  | CRawInputCount => 0 | CRawInputBytes => 1 | CLastInputLevel => 2 | CLastInputId => 3
  | CLastInputLen => 4 | CLastInputPayload => 5 | CFeeLevel => 6 | CFeeCount => 7
  | CAuthDomain => 8 | CTreeSize => 9 | CTreeRoot => 10 | CNullifierCount => 11
  | CValidRootCount => 12 | CWithdrawalCount => 13 | CBridgeTicketer => 14
  | CVerifierConfig => 15 | CLastResult => 16
  end.

(** The prefixes the paths start with, one for each kind of key. *)
Definition PREFIXES : list bytes :=
  [PATH_RAW_INPUT_COUNT; PATH_RAW_INPUT_BYTES; PATH_LAST_INPUT_LEVEL; PATH_LAST_INPUT_ID;
   PATH_LAST_INPUT_LEN; PATH_LAST_INPUT_PAYLOAD; PATH_PRIVATE_TX_FEE_LEVEL;
   PATH_PRIVATE_TX_COUNT_IN_LEVEL; PATH_AUTH_DOMAIN; PATH_TREE_SIZE; PATH_TREE_ROOT;
   PATH_NULLIFIER_COUNT; PATH_VALID_ROOT_COUNT; PATH_WITHDRAWAL_COUNT; PATH_BRIDGE_TICKETER;
   PATH_VERIFIER_CONFIG; PATH_LAST_RESULT; PATH_TREE_BRANCH_PREFIX; PATH_NOTE_PREFIX;
   PATH_NULLIFIER_INDEX_PREFIX; PATH_VALID_ROOT_INDEX_PREFIX; PATH_WITHDRAWAL_PREFIX;
   PATH_NULLIFIER_PREFIX; PATH_VALID_ROOT_PREFIX; PATH_DEPOSIT_BALANCE_PREFIX;
   PATH_APPLIED_SHIELD_PREFIX].

(** The keys the kernel can use: [u64] indices, and the tree's levels. *)
Definition key_ok (k : key) : Prop :=
  match k with
  | KBranch l => (l < 256)%nat
  | KNote i | KNoteLen i | KNullifierAt i | KRootAt i | KWithdrawal i => is_u64 i
  | KNoteChunk i c => is_u64 i /\ is_u32 c
  | _ => True
  end.

Section Keys.
Context `{HexLaws}.

Definition key_number (k : key) : nat :=
  match k with
  | KCell c => cell_number c
  | KBranch _ => 17
  | KNote _ | KNoteLen _ | KNoteChunk _ _ => 18
  | KNullifierAt _ => 19
  | KRootAt _ => 20
  | KWithdrawal _ => 21
  | KNullifier _ => 22
  | KRoot _ => 23
  | KBalance _ => 24
  | KShield _ => 25
  end.

Definition key_tail (k : key) : bytes :=
  match k with
  | KCell c => []
  | KBranch l => lower_hex 2 (N.of_nat l)
  | KNote i => lower_hex 16 i ++ []
  | KNoteLen i => lower_hex 16 i ++ PATH_NOTE_LEN_SUFFIX
  | KNoteChunk i c => lower_hex 16 i ++ PATH_NOTE_CHUNK_PREFIX ++ lower_hex 8 c
  | KNullifierAt i | KRootAt i | KWithdrawal i => lower_hex 16 i
  | KNullifier f | KRoot f | KBalance f | KShield f => hex_encode (F_bytes f)
  end.

Definition key_path (k : key) : bytes :=
  match k with
  | KCell c => cell_path c
  | KBranch l => branch_path l
  | KNote i => note_path i
  | KNoteLen i => note_length_path i
  | KNoteChunk i c => note_chunk_path i c
  | KNullifierAt i => indexed_path PATH_NULLIFIER_INDEX_PREFIX i
  | KRootAt i => indexed_path PATH_VALID_ROOT_INDEX_PREFIX i
  | KWithdrawal i => indexed_path PATH_WITHDRAWAL_PREFIX i
  | KNullifier f => nullifier_path f
  | KRoot f => root_marker_path f
  | KBalance f => deposit_balance_path f
  | KShield f => applied_shield_path f
  end.
End Keys.

(** ** Hexadecimal is injective at its width *)

Lemma hex_digit_inj a b : a < 16 -> b < 16 -> hex_digit a = hex_digit b -> a = b.
Proof.
  intros Ha Hb E.
  apply (f_equal Byte.to_N) in E. unfold hex_digit in E.
  destruct (N.ltb_spec a 10), (N.ltb_spec b 10);
    rewrite !byte_to_of_N, !N.mod_small in E by lia; lia.
Qed.

Lemma length_hex_digits_rev n v : length (hex_digits_rev n v) = n.
Proof. revert v. induction n as [|n IH]; intros v; cbn; [done|]. by rewrite IH. Qed.

Lemma hex_digits_rev_inj n v w :
  v < 16 ^ N.of_nat n -> w < 16 ^ N.of_nat n ->
  hex_digits_rev n v = hex_digits_rev n w -> v = w.
Proof.
  revert v w. induction n as [|n IH]; intros v w Hv Hw E.
  - cbn in Hv, Hw. lia.
  - rewrite Nat2N.inj_succ, N.pow_succ_r' in Hv, Hw. cbn in E. apply cons_inj in E as [E1 E2].
    apply hex_digit_inj in E1; [|apply N.mod_lt; done..].
    apply IH in E2; [|apply N.Div0.div_lt_upper_bound; done..].
    rewrite (N.div_mod' v 16), (N.div_mod' w 16). by rewrite E1, E2.
Qed.

Lemma lower_hex_width width v :
  v < 16 ^ N.of_nat width -> lower_hex width v = rev (hex_digits_rev width v).
Proof.
  intros Hv. unfold lower_hex. rewrite Nat.max_l; [done|].
  destruct (N.eq_dec v 0) as [->|Hz]; [apply Nat.le_0_l|].
  pose proof (N.size_log2 v Hz) as Hs.
  assert (N.log2 v < 4 * N.of_nat width) as Hl.
  { apply N.log2_lt_pow2; [lia|]. rewrite N.pow_mul_r. exact Hv. }
  assert ((N.size v + 3) / 4 <= N.of_nat width) as Hd; [|lia].
  assert ((N.size v + 3) / 4 < N.of_nat width + 1); [|lia].
  apply N.Div0.div_lt_upper_bound. lia.
Qed.

Lemma length_lower_hex width v :
  v < 16 ^ N.of_nat width -> length (lower_hex width v) = width.
Proof.
  intros Hv. rewrite lower_hex_width by done. by rewrite length_rev, length_hex_digits_rev.
Qed.

Lemma lower_hex_inj width v w :
  v < 16 ^ N.of_nat width -> w < 16 ^ N.of_nat width ->
  lower_hex width v = lower_hex width w -> v = w.
Proof.
  intros Hv Hw. rewrite !lower_hex_width by done. intros E%(f_equal (@rev _)).
  rewrite !rev_involutive in E. by eapply hex_digits_rev_inj.
Qed.

Lemma lower_hex_u64_inj v w :
  is_u64 v -> is_u64 w -> lower_hex 16 v = lower_hex 16 w -> v = w.
Proof. apply (lower_hex_inj 16). Qed.

Lemma length_lower_hex_u64 v : is_u64 v -> length (lower_hex 16 v) = 16%nat.
Proof. apply (length_lower_hex 16). Qed.

(** ** Prefixes *)

Definition comparable (p q : bytes) : bool :=
  match strip_prefix p q, strip_prefix q p with None, None => false | _, _ => true end.

Fixpoint prefix_free (l : list bytes) : bool :=
  match l with
  | [] => true
  | p :: l => forallb (fun q => negb (comparable p q)) l && prefix_free l
  end.

Lemma comparable_app p q x y : p ++ x = q ++ y -> comparable p q = true.
Proof.
  unfold comparable. intros E.
  destruct (decide (length p <= length q)%nat).
  - assert (q = p ++ take (length q - length p) x) as ->.
    { transitivity (take (length q) (q ++ y)); [by rewrite take_app_length|].
      by rewrite <-E, take_app_ge. }
    by rewrite strip_prefix_app.
  - assert (p = q ++ take (length p - length q) y) as ->.
    { transitivity (take (length p) (p ++ x)); [by rewrite take_app_length|].
      rewrite E, take_app_ge by lia. done. }
    rewrite strip_prefix_app. by destruct (strip_prefix _ q).
Qed.

Lemma prefix_free_lookup l i j p q x y :
  prefix_free l = true -> l !! i = Some p -> l !! j = Some q -> p ++ x = q ++ y -> i = j.
Proof.
  revert i j. induction l as [|a l IH]; intros i j Hf Hi Hj E; [done|].
  cbn in Hf. apply andb_true_iff in Hf as [Ha Hf]. rewrite forallb_forall in Ha.
  destruct i as [|i], j as [|j]; cbn in Hi, Hj.
  - done.
  - injection Hi as ->. apply list_elem_of_lookup_2, list_elem_of_In, Ha in Hj.
    by rewrite (comparable_app p q x y E) in Hj.
  - injection Hj as ->. apply list_elem_of_lookup_2, list_elem_of_In, Ha in Hi.
    by rewrite (comparable_app q p y x (eq_sym E)) in Hi.
  - f_equal. by eapply IH.
Qed.

Lemma prefixes_free : prefix_free PREFIXES = true.
Proof. vm_compute. reflexivity. Qed.

(** ** Paths are injective *)
Section Injective.
Context `{HexLaws}.

Lemma key_path_split k : exists p, PREFIXES !! key_number k = Some p /\ key_path k = p ++ key_tail k.
Proof.
  destruct k as [c|l|i|i|i c|i|i|i|f|f|f|f];
    cbn [key_tail key_path]; rewrite ?app_nil_r;
    unfold note_chunk_path, note_length_path, note_path, indexed_path; rewrite <-?app_assoc;
    try (eexists; split; reflexivity).
  exists (cell_path c). by destruct c.
Qed.

Lemma hex_felt_inj f g : hex_encode (F_bytes f) = hex_encode (F_bytes g) -> f = g.
Proof. intros E%hex_encode_inj. by apply F_eq. Qed.

Lemma cell_number_inj c d : cell_number c = cell_number d -> c = d.
Proof. by destruct c, d. Qed.

Lemma note_tail_split i j x y :
  is_u64 i -> is_u64 j -> lower_hex 16 i ++ x = lower_hex 16 j ++ y -> i = j /\ x = y.
Proof.
  intros Hi Hj E. apply app_inj_l in E as [E ?];
    [|by rewrite !length_lower_hex_u64]. split; [|done]. by apply lower_hex_u64_inj.
Qed.

Lemma key_path_inj k k' :
  key_ok k -> key_ok k' -> key_path k = key_path k' -> k = k'.
Proof.
  intros Hk Hk' E.
  destruct (key_path_split k) as (p & Hp & Ep), (key_path_split k') as (q & Hq & Eq).
  rewrite Ep, Eq in E.
  pose proof (prefix_free_lookup _ _ _ _ _ _ _ prefixes_free Hp Hq E) as En.
  rewrite <-En, Hp in Hq. injection Hq as <-. apply app_inv_head in E. clear Ep Eq Hp p.
  destruct k, k'; cbn in En; try (destruct c; discriminate); try discriminate;
    cbn [key_tail key_ok] in *;
    try (f_equal; by apply cell_number_inj);
    try (f_equal; by apply hex_felt_inj);
    try (f_equal; by apply lower_hex_u64_inj).
  1: apply lower_hex_inj in E; [f_equal; lia| |]; (eapply N.lt_le_trans; [|done]); lia.
  all: apply note_tail_split in E as [-> E]; [|intuition done..]; try done.
  apply app_inv_head, (lower_hex_inj 8) in E; [by rewrite E|intuition..].
Qed.

(** Different prefixes keep two paths apart whatever follows them. *)
Lemma key_number_path k k' : key_number k <> key_number k' -> key_path k <> key_path k'.
Proof.
  intros Hne E. destruct (key_path_split k) as (p & Hp & Ep), (key_path_split k') as (q & Hq & Eq).
  rewrite Ep, Eq in E. by apply Hne, (prefix_free_lookup _ _ _ _ _ _ _ prefixes_free Hp Hq E).
Qed.

(** No two durable entries share a path: the seventeen cells, the frontier's
    branches, the notes, their lengths and chunks, the indexed and marked nullifiers and
    roots, the withdrawals, the pools and the applied shields are all kept apart. *)
Theorem key_paths_distinct (k k' : key) :
  key_ok k -> key_ok k' -> k <> k' -> key_path k <> key_path k'.
Proof. intros Hk Hk' Hne E. by apply Hne, key_path_inj. Qed.
End Injective.
