(* ===== verification/VerifyMeta.v ===== *)
(** * VerifyMeta: the codec of the verifier's compiled-in parameters

    [verifier/src/verify_meta_codec.rs]: the parameters of the recursive verifier circuit
    ([VerifyMeta] of [verifier/src/bundle.rs]) are compiled in as bytes, read by a cursor;
    the writer is the one the tests use.  Each field's writer and reader are a [Codec]: the
    writer appends the encoding of the values it accepts, the reader reads exactly that back,
    and whatever the reader accepts is the encoding of what it returns.  So the two are
    inverse of each other: every record has one encoding, and nothing else decodes. *)

From S2P Require Import Prelude Externals Utf8.

Local Open Scope N_scope.

Section VerifyMeta.
Context `{Target}.

Record VerifyMeta := {
  vm_n_pow_bits : N;
  vm_n_preprocessed_columns : N;
  vm_n_trace_columns : N;
  vm_n_interaction_columns : N;
  vm_trace_columns_per_component : list N;
  vm_interaction_columns_per_component : list N;
  vm_cumulative_sum_columns : list bool;
  vm_n_components : N;
  vm_fri_log_trace_size : N;
  vm_fri_log_blowup : N;
  vm_fri_log_last_layer : N;
  vm_fri_n_queries : N;
  vm_fri_fold_step : N;
  vm_interaction_pow_bits : N;
  vm_circuit_pow_bits : N;
  vm_circuit_fri_log_blowup : N;
  vm_circuit_fri_log_last_layer : N;
  vm_circuit_fri_n_queries : N;
  vm_circuit_fri_fold_step : N;
  vm_circuit_lifting : option N;
  vm_output_addresses : list N;
  vm_n_blake_gates : N;
  vm_preprocessed_column_ids : list string;
  vm_preprocessed_root : list N;
  vm_public_output_values : list N
}.

Definition VERIFY_META_MAGIC : bytes := str_bytes "TVM1".

(** ** The writer

    [out] is the state: a failure leaves what was pushed before it. *)

Definition push_u32 (value : N) : ST bytes unit := writes (fun out => out ++ be_bytes 4 value).

Definition push_len (value : N) : ST bytes unit :=
  if value <? U32_LIMIT then push_u32 value else lift (Err "verify_meta field too large").

Definition push_byte (b : Byte.byte) : ST bytes unit := writes (fun out => out ++ [b]).

Definition push_option_u32 (value : option N) : ST bytes unit :=
  match value with
  | Some value => push_byte Byte.x01 ;; push_u32 value
  | None => push_byte Byte.x00
  end.

(** [push_len(values.len())?; for value in values { .. }]. *)
Definition push_vec {A} (push : A -> ST bytes unit) (values : list A) : ST bytes unit :=
  push_len (N.of_nat (length values)) ;; for_each push values.

Definition push_vec_u32 : list N -> ST bytes unit := push_vec push_u32.
Definition push_vec_usize : list N -> ST bytes unit := push_vec push_len.
Definition push_vec_bool : list bool -> ST bytes unit :=
  push_vec (fun value : bool => push_byte (if value then Byte.x01 else Byte.x00)).
Definition push_vec_string : list string -> ST bytes unit :=
  push_vec (fun value => push_len (N.of_nat (length (str_bytes value))) ;;
                         writes (fun out => out ++ str_bytes value)).

Definition encode_into (meta : VerifyMeta) : ST bytes unit :=
  writes (fun out => out ++ VERIFY_META_MAGIC) ;;
  push_u32 (vm_n_pow_bits meta) ;;
  push_len (vm_n_preprocessed_columns meta) ;;
  push_len (vm_n_trace_columns meta) ;;
  push_len (vm_n_interaction_columns meta) ;;
  push_vec_usize (vm_trace_columns_per_component meta) ;;
  push_vec_usize (vm_interaction_columns_per_component meta) ;;
  push_vec_bool (vm_cumulative_sum_columns meta) ;;
  push_len (vm_n_components meta) ;;
  push_len (vm_fri_log_trace_size meta) ;;
  push_u32 (vm_fri_log_blowup meta) ;;
  push_u32 (vm_fri_log_last_layer meta) ;;
  push_len (vm_fri_n_queries meta) ;;
  push_u32 (vm_fri_fold_step meta) ;;
  push_u32 (vm_interaction_pow_bits meta) ;;
  push_u32 (vm_circuit_pow_bits meta) ;;
  push_u32 (vm_circuit_fri_log_blowup meta) ;;
  push_u32 (vm_circuit_fri_log_last_layer meta) ;;
  push_len (vm_circuit_fri_n_queries meta) ;;
  push_u32 (vm_circuit_fri_fold_step meta) ;;
  push_option_u32 (vm_circuit_lifting meta) ;;
  push_vec_usize (vm_output_addresses meta) ;;
  push_len (vm_n_blake_gates meta) ;;
  push_vec_string (vm_preprocessed_column_ids meta) ;;
  push_vec_u32 (vm_preprocessed_root meta) ;;
  push_vec_u32 (vm_public_output_values meta).

Definition verify_meta_encode (meta : VerifyMeta) : result bytes :=
  match encode_into meta [] with
  | (out, Ok _) => Ok out
  | (_, Err e) => Err e
  | (_, Panic w) => Panic w
  end.

(** ** The reader *)

Record Cursor := { cur_bytes : bytes; cur_pos : N }.

Definition cursor_new (b : bytes) : Cursor := {| cur_bytes := b; cur_pos := 0 |}.

Definition cursor_len (self : Cursor) : N := N.of_nat (length (cur_bytes self)).

Definition cursor_is_empty (self : Cursor) : bool := cur_pos self =? cursor_len self.

Definition take_exact (len : N) (err : string) : ST Cursor bytes := fun self =>
  match checked_add usize_limit (cur_pos self) len with
  | None => (self, Err err)
  | Some end_ =>
      if cursor_len self <? end_ then (self, Err err)
      else ({| cur_bytes := cur_bytes self; cur_pos := end_ |},
            Ok (take (N.to_nat len) (drop (N.to_nat (cur_pos self)) (cur_bytes self))))
  end.

Definition take_u8 (err : string) : ST Cursor Byte.byte :=
  b ← take_exact 1 err;
  lift (index_at b 0).

(** [u32::from_be_bytes([bytes[0], bytes[1], bytes[2], bytes[3]])]. *)
Definition take_u32 (err : string) : ST Cursor N :=
  b ← take_exact 4 err;
  b0 ← lift (index_at b 0); b1 ← lift (index_at b 1);
  b2 ← lift (index_at b 2); b3 ← lift (index_at b 3);
  mret (be_val [b0; b1; b2; b3]).

Definition take_len (err : string) : ST Cursor N :=
  v ← take_u32 err;
  lift (ok_or (to_usize v) err).

Definition take_option_u32 (err : string) : ST Cursor (option N) :=
  b ← take_u8 err;
  match Byte.to_N b with
  | 0 => mret None
  | 1 => v ← take_u32 err; mret (Some v)
  | _ => lift (Err err)
  end.

(** [Vec::with_capacity(len)] panics when the buffer would pass [isize::MAX] bytes. *)
Definition with_capacity (elem_size len : N) : result unit :=
  panic_unless (elem_size * len <? usize_limit / 2) "capacity overflow".

(** [for _ in 0..len { values.push(take?) }]. *)
Fixpoint take_values {A} (take : ST Cursor A) (len : nat) : ST Cursor (list A) :=
  match len with
  | O => mret []
  | S len => v ← take; vs ← take_values take len; mret (v :: vs)
  end.

Definition take_vec {A} (elem_size : N) (take : ST Cursor A) (err : string) : ST Cursor (list A) :=
  len ← take_len err;
  lift (with_capacity elem_size len) ;;
  take_values take (N.to_nat len).

Definition size_of_usize : N := usize_bits / 8.

Definition take_vec_u32 (err : string) : ST Cursor (list N) := take_vec 4 (take_u32 err) err.

Definition take_vec_usize (err : string) : ST Cursor (list N) :=
  take_vec size_of_usize (take_len err) err.

Definition take_bool (err : string) : ST Cursor bool :=
  b ← take_u8 err;
  match Byte.to_N b with
  | 0 => mret false
  | 1 => mret true
  | _ => lift (Err err)
  end.

Definition take_vec_bool (err : string) : ST Cursor (list bool) := take_vec 1 (take_bool err) err.

Definition take_string (err : string) : ST Cursor string :=
  string_len ← take_len err;
  b ← take_exact string_len err;
  lift (ok_or (from_utf8 b) err).

(** A [String] is a pointer, a length and a capacity. *)
Definition take_vec_string (err : string) : ST Cursor (list string) :=
  take_vec (3 * size_of_usize) (take_string err) err.

Definition decode_fields : ST Cursor VerifyMeta :=
  magic ← take_exact (N.of_nat (length VERIFY_META_MAGIC)) "invalid verify_meta header";
  lift (fail_if (negb (bool_decide (magic = VERIFY_META_MAGIC))) "invalid verify_meta header") ;;
  n_pow_bits ← take_u32 "invalid verify_meta n_pow_bits";
  n_preprocessed_columns ← take_len "invalid verify_meta n_preprocessed_columns";
  n_trace_columns ← take_len "invalid verify_meta n_trace_columns";
  n_interaction_columns ← take_len "invalid verify_meta n_interaction_columns";
  trace_columns_per_component ←
    take_vec_usize "invalid verify_meta trace_columns_per_component";
  interaction_columns_per_component ←
    take_vec_usize "invalid verify_meta interaction_columns_per_component";
  cumulative_sum_columns ← take_vec_bool "invalid verify_meta cumulative_sum_columns";
  n_components ← take_len "invalid verify_meta n_components";
  fri_log_trace_size ← take_len "invalid verify_meta fri_log_trace_size";
  fri_log_blowup ← take_u32 "invalid verify_meta fri_log_blowup";
  fri_log_last_layer ← take_u32 "invalid verify_meta fri_log_last_layer";
  fri_n_queries ← take_len "invalid verify_meta fri_n_queries";
  fri_fold_step ← take_u32 "invalid verify_meta fri_fold_step";
  interaction_pow_bits ← take_u32 "invalid verify_meta interaction_pow_bits";
  circuit_pow_bits ← take_u32 "invalid verify_meta circuit_pow_bits";
  circuit_fri_log_blowup ← take_u32 "invalid verify_meta circuit_fri_log_blowup";
  circuit_fri_log_last_layer ← take_u32 "invalid verify_meta circuit_fri_log_last_layer";
  circuit_fri_n_queries ← take_len "invalid verify_meta circuit_fri_n_queries";
  circuit_fri_fold_step ← take_u32 "invalid verify_meta circuit_fri_fold_step";
  circuit_lifting ← take_option_u32 "invalid verify_meta circuit_lifting";
  output_addresses ← take_vec_usize "invalid verify_meta output_addresses";
  n_blake_gates ← take_len "invalid verify_meta n_blake_gates";
  preprocessed_column_ids ← take_vec_string "invalid verify_meta preprocessed_column_ids";
  preprocessed_root ← take_vec_u32 "invalid verify_meta preprocessed_root";
  public_output_values ← take_vec_u32 "invalid verify_meta public_output_values";
  mret {|
    vm_n_pow_bits := n_pow_bits;
    vm_n_preprocessed_columns := n_preprocessed_columns;
    vm_n_trace_columns := n_trace_columns;
    vm_n_interaction_columns := n_interaction_columns;
    vm_trace_columns_per_component := trace_columns_per_component;
    vm_interaction_columns_per_component := interaction_columns_per_component;
    vm_cumulative_sum_columns := cumulative_sum_columns;
    vm_n_components := n_components;
    vm_fri_log_trace_size := fri_log_trace_size;
    vm_fri_log_blowup := fri_log_blowup;
    vm_fri_log_last_layer := fri_log_last_layer;
    vm_fri_n_queries := fri_n_queries;
    vm_fri_fold_step := fri_fold_step;
    vm_interaction_pow_bits := interaction_pow_bits;
    vm_circuit_pow_bits := circuit_pow_bits;
    vm_circuit_fri_log_blowup := circuit_fri_log_blowup;
    vm_circuit_fri_log_last_layer := circuit_fri_log_last_layer;
    vm_circuit_fri_n_queries := circuit_fri_n_queries;
    vm_circuit_fri_fold_step := circuit_fri_fold_step;
    vm_circuit_lifting := circuit_lifting;
    vm_output_addresses := output_addresses;
    vm_n_blake_gates := n_blake_gates;
    vm_preprocessed_column_ids := preprocessed_column_ids;
    vm_preprocessed_root := preprocessed_root;
    vm_public_output_values := public_output_values
  |}.

Definition verify_meta_decode (b : bytes) : result VerifyMeta :=
  match decode_fields (cursor_new b) with
  | (cursor, Ok meta) =>
      if cursor_is_empty cursor then Ok meta else Err "invalid verify_meta trailing bytes"
  | (_, Err e) => Err e
  | (_, Panic w) => Panic w
  end.

End VerifyMeta.


Section Codecs.
Context `{Target, !WordTarget}.

(** The cursor is in front of [s], in a slice that memory can hold. *)
Definition stands (c : Cursor) (b s : bytes) : Prop :=
  cur_bytes c = b /\ N.of_nat (length b) < usize_limit /\
  exists pre, b = pre ++ s /\ cur_pos c = N.of_nat (length pre).

(** Reading [s] returns [v] and leaves [rest]. *)
Definition parses {A} (m : ST Cursor A) (s : bytes) (v : A) (rest : bytes) : Prop :=
  forall c b, stands c b s -> exists c', m c = (c', Ok v) /\ stands c' b rest.

Definition emits (m : ST bytes unit) (s : bytes) : Prop :=
  forall out, m out = (out ++ s, Ok tt).

(** [ty] is what the type of the values ensures, [wf] that and what the writer accepts. *)
Class Codec {A} (ty wf : A -> Prop) (enc : A -> bytes) (push : A -> ST bytes unit)
    (tk : ST Cursor A) : Prop := {
  codec_push : forall v, wf v -> emits (push v) (enc v);
  codec_push_inv : forall v out out', ty v -> push v out = (out', Ok tt) -> wf v;
  codec_take : forall v rest, wf v -> parses tk (enc v ++ rest) v rest;
  codec_take_inv : forall c c' b s v, stands c b s -> tk c = (c', Ok v) ->
    exists rest, wf v /\ s = enc v ++ rest /\ stands c' b rest
}.

Lemma parses_ret {A} (v : A) s : parses (mret v) s v s.
Proof. intros c b Hc. by exists c. Qed.

Lemma parses_bind {A B} (m : ST Cursor A) (k : A -> ST Cursor B) s v s1 w s2 :
  parses m s v s1 -> parses (k v) s1 w s2 -> parses (m ≫= k) s w s2.
Proof.
  intros Hm Hk c b Hc. destruct (Hm c b Hc) as (c1 & E1 & Hc1).
  destruct (Hk c1 b Hc1) as (c2 & E2 & Hc2). exists c2. split; [|done]. by st_run E1.
Qed.

Lemma parses_lift {A} (r : result A) v s : r = Ok v -> parses (lift r) s v s.
Proof. intros -> c b Hc. by exists c. Qed.

Lemma emits_bind m (k : ST bytes unit) s t : emits m s -> emits k t -> emits (m ;; k) (s ++ t).
Proof. intros Hm Hk out. st_run (Hm out). by rewrite Hk, app_assoc. Qed.

Lemma emits_writes s : emits (writes (fun out => out ++ s)) s.
Proof. done. Qed.

Lemma ST_ret_Ok {S A} (s s' : S) (v w : A) :
  (mret v : ST S A) s = (s', Ok w) -> s = s' /\ v = w.
Proof. by intros [= -> ->]. Qed.

(** ** Slices *)

Lemma take_exact_parses s rest n err :
  n = N.of_nat (length s) -> parses (take_exact n err) (s ++ rest) s rest.
Proof.
  intros -> c b (<- & Hb & pre & E & Hp). unfold take_exact. rewrite Hp.
  assert (Hl : length (cur_bytes c) = (length pre + (length s + length rest))%nat)
    by by rewrite E, !length_app.
  rewrite (proj2 (checked_add_Some _ _ _ _)) by (split; [reflexivity|lia]).
  unfold cursor_len. rewrite (proj2 (N.ltb_ge _ _)) by lia. eexists. split.
  - rewrite !Nat2N.id, E, drop_app_length, take_app_length. reflexivity.
  - split; [done|]. split; [done|]. exists (pre ++ s). cbn [cur_pos].
    rewrite <-app_assoc, length_app. split; [done|lia].
Qed.

Lemma take_exact_inv c c' b s n err v :
  stands c b s -> take_exact n err c = (c', Ok v) ->
  N.of_nat (length v) = n /\ exists rest, s = v ++ rest /\ stands c' b rest.
Proof.
  intros (<- & Hb & pre & E & Hp) Ht. unfold take_exact in Ht.
  destruct (checked_add _ _ _) as [e|] eqn:Ea; [|done]. apply checked_add_Some in Ea as [-> Ha].
  unfold cursor_len in Ht. rewrite Hp in *. rewrite E in Ht.
  destruct (N.ltb_spec (N.of_nat (length (pre ++ s))) (N.of_nat (length pre) + n)) as [|Hle]; [done|].
  injection Ht as <- <-. rewrite Nat2N.id, drop_app_length. rewrite length_app in Hle.
  split; [rewrite length_take; lia|]. exists (drop (N.to_nat n) s). split; [by rewrite take_drop|].
  split; [by rewrite E|]. split; [done|]. exists (pre ++ take (N.to_nat n) s). cbn [cur_pos].
  rewrite <-app_assoc, take_drop, length_app, length_take. split; [done|lia].
Qed.

Lemma take_u8_inv c c' b s err v :
  stands c b s -> take_u8 err c = (c', Ok v) -> exists rest, s = v :: rest /\ stands c' b rest.
Proof.
  intros Hc Ht. unfold take_u8 in Ht. st_inv.
  match goal with H : take_exact _ _ _ = _ |- _ =>
    destruct (take_exact_inv _ _ _ _ _ _ _ Hc H) as (Hl & rest & -> & Hc') end.
  destruct a as [|x [|y a]]; cbn in *; simplify_eq; [|lia]. by exists rest.
Qed.

Lemma take_u8_parses x rest err : parses (take_u8 err) (x :: rest) x rest.
Proof.
  eapply parses_bind; [by apply (take_exact_parses [x])|]. by apply parses_lift.
Qed.

Lemma be_val_bound4 l : length l = 4%nat -> is_u32 (be_val l).
Proof.
  intros Hl. pose proof (le_val_bound (rev l)) as Hb. rewrite length_rev, Hl in Hb. exact Hb.
Qed.

Lemma be_bytes_val l : be_bytes (length l) (be_val l) = l.
Proof.
  unfold be_bytes, be_val. rewrite <-(length_rev l), le_bytes_le_val. apply rev_involutive.
Qed.

Lemma list_of_4 {A} (l : list A) : length l = 4%nat -> exists a b c d, l = [a; b; c; d].
Proof. destruct l as [|a [|b [|c [|d [|]]]]]; try done. intros _. by exists a, b, c, d. Qed.

(** ** Fields *)

#[export] Instance u32_codec err : Codec is_u32 is_u32 (be_bytes 4) push_u32 (take_u32 err).
Proof.
  split.
  - intros v _ out. reflexivity.
  - done.
  - intros v rest Hv. unfold take_u32.
    eapply parses_bind; [apply take_exact_parses; by rewrite length_be_bytes|].
    destruct (list_of_4 (be_bytes 4 v)) as (x0 & x1 & x2 & x3 & E); [apply length_be_bytes|].
    rewrite E. do 4 (eapply parses_bind; [by apply parses_lift|]).
    rewrite <-E, be_val_roundtrip by exact Hv. apply parses_ret.
  - intros c c' b s v Hc Ht. unfold take_u32 in Ht. st_inv.
    match goal with H : take_exact _ _ _ = _ |- _ =>
      destruct (take_exact_inv _ _ _ _ _ _ _ Hc H) as (Hl & rest & -> & Hc') end.
    destruct (list_of_4 a) as (x0 & x1 & x2 & x3 & ->); [lia|].
    repeat match goal with E : [_; _; _; _] !! _ = Some _ |- _ => injection E as <- end.
    exists rest. split; [by apply be_val_bound4|]. split; [|done].
    f_equal. symmetry. exact (be_bytes_val [x0; x1; x2; x3]).
Qed.

Definition is_usize (v : N) : Prop := v < usize_limit.

Lemma u32_is_usize v : is_u32 v -> is_usize v.
Proof.
  intros Hv. unfold is_u32, is_usize, U32_LIMIT, usize_limit in *.
  pose proof word_bits as Hw. pose proof (N.pow_le_mono_r 2 32 usize_bits). lia.
Qed.

#[export] Instance len_codec err : Codec is_usize is_u32 (be_bytes 4) push_len (take_len err).
Proof.
  split.
  - intros v Hv. unfold push_len. rewrite (proj2 (N.ltb_lt _ _) Hv). by apply (codec_push (tk := take_u32 err)).
  - intros v out out' _. unfold push_len. destruct (N.ltb_spec v U32_LIMIT); done.
  - intros v rest Hv. eapply parses_bind; [by apply codec_take|]. apply parses_lift.
    unfold to_usize. by rewrite (proj2 (N.ltb_lt _ _)) by by apply u32_is_usize.
  - intros c c' b s v Hc Ht. unfold take_len in Ht. st_inv.
    match goal with H : take_u32 _ _ = _ |- _ =>
      destruct (codec_take_inv _ _ _ _ _ Hc H) as (rest & Hv & -> & Hc') end.
    unfold to_usize in *. case_match; simplify_eq. by exists rest.
Qed.

Definition enc_option (v : option N) : bytes :=
  match v with Some v => Byte.x01 :: be_bytes 4 v | None => [Byte.x00] end.

Definition u32_option (v : option N) : Prop := match v with Some v => is_u32 v | None => True end.

#[export] Instance option_codec err :
  Codec u32_option u32_option enc_option push_option_u32 (take_option_u32 err).
Proof.
  split.
  - intros [v|] Hv; [|done].
    apply (emits_bind _ _ [Byte.x01]); [done|by apply (codec_push (tk := take_u32 err))].
  - done.
  - intros [v|] rest Hv; cbn [enc_option app];
      (eapply parses_bind; [apply take_u8_parses|]); cbn [Byte.to_N]; [|apply parses_ret].
    eapply parses_bind; [by apply codec_take|]. apply parses_ret.
  - intros c c' b s v Hc Ht. unfold take_option_u32 in Ht. st_inv.
    match goal with H : take_u8 _ _ = _ |- _ =>
      destruct (take_u8_inv _ _ _ _ _ _ Hc H) as (rest & -> & Hc') end.
    destruct (Byte.to_N a) as [|[p|p|]] eqn:Ea; st_inv; try done.
    + exists rest. split; [done|]. split; [|done]. cbn. f_equal. by apply byte_to_N_inj.
    + match goal with H : take_u32 _ _ = _ |- _ =>
        destruct (codec_take_inv _ _ _ _ _ Hc' H) as (rest' & Hv & -> & Hc'') end.
      exists rest'. split; [done|]. split; [|done]. cbn. f_equal. by apply byte_to_N_inj.
Qed.

Definition enc_bool (v : bool) : bytes := [if v then Byte.x01 else Byte.x00].

Definition any {A} (v : A) : Prop := True.

#[export] Instance bool_codec err :
  Codec any any enc_bool
    (fun value : bool => push_byte (if value then Byte.x01 else Byte.x00)) (take_bool err).
Proof.
  split.
  - intros v _ out. reflexivity.
  - done.
  - intros [|] rest _; (eapply parses_bind; [apply take_u8_parses|]); apply parses_ret.
  - intros c c' b s v Hc Ht. unfold take_bool in Ht. st_inv.
    match goal with H : take_u8 _ _ = _ |- _ =>
      destruct (take_u8_inv _ _ _ _ _ _ Hc H) as (rest & -> & Hc') end.
    exists rest. split; [done|].
    destruct (Byte.to_N a) as [|[p|p|]] eqn:Ea; st_inv; try done;
      (split; [|done]); cbn; f_equal; by apply byte_to_N_inj.
Qed.

Definition is_utf8 (v : string) : Prop := utf8_valid (str_bytes v) = true.

Definition is_short (v : string) : Prop :=
  is_utf8 v /\ is_u32 (N.of_nat (length (str_bytes v))).

Definition enc_string (v : string) : bytes :=
  be_bytes 4 (N.of_nat (length (str_bytes v))) ++ str_bytes v.

#[export] Instance string_codec err :
  Codec is_utf8 is_short enc_string
    (fun value => push_len (N.of_nat (length (str_bytes value))) ;;
                  writes (fun out => out ++ str_bytes value)) (take_string err).
Proof.
  split.
  - intros v [_ Hv]. apply emits_bind; [by apply (codec_push (tk := take_len err))|apply emits_writes].
  - intros v out out' Hu Hp. split; [done|]. unfold push_len in Hp.
    destruct (N.ltb_spec (N.of_nat (length (str_bytes v))) U32_LIMIT); done.
  - intros v rest [Hu Hv]. unfold enc_string. rewrite <-app_assoc.
    eapply parses_bind; [by apply codec_take|].
    eapply parses_bind; [by apply take_exact_parses|]. apply parses_lift.
    by rewrite from_utf8_of.
  - intros c c' b s v Hc Ht. unfold take_string in Ht. st_inv.
    match goal with H : take_len _ _ = _ |- _ =>
      destruct (codec_take_inv _ _ _ _ _ Hc H) as (rest & Hv & -> & Hc') end.
    match goal with H : take_exact _ _ _ = _ |- _ =>
      destruct (take_exact_inv _ _ _ _ _ _ _ Hc' H) as (Hl & rest' & -> & Hc'') end.
    unfold from_utf8 in *. case_match; simplify_eq. exists rest'.
    unfold is_short, is_utf8, enc_string. by rewrite str_bytes_of_bytes, <-app_assoc.
Qed.

(** ** Vectors *)

Definition vec_ty {A} (ty : A -> Prop) (size : N) (l : list A) : Prop :=
  Forall ty l /\ size * N.of_nat (length l) < usize_limit / 2.

Definition vec_wf {A} (wf : A -> Prop) (size : N) (l : list A) : Prop :=
  vec_ty wf size l /\ is_u32 (N.of_nat (length l)).

Definition enc_vec {A} (enc : A -> bytes) (l : list A) : bytes :=
  be_bytes 4 (N.of_nat (length l)) ++ (l ≫= enc).

Lemma take_values_inv {A} (ty wf : A -> Prop) enc push tk `{!Codec ty wf enc push tk} n c c' b s l :
  stands c b s -> take_values tk n c = (c', Ok l) ->
  exists rest, Forall wf l /\ length l = n /\ s = (l ≫= enc) ++ rest /\ stands c' b rest.
Proof.
  revert c s l. induction n as [|n IH]; intros c s l Hc Ht; cbn [take_values] in Ht; st_inv;
    [by exists s|].
  match goal with H : tk _ = _ |- _ =>
    destruct (codec_take_inv _ _ _ _ _ Hc H) as (r1 & Hv & -> & Hc1) end.
  match goal with H : take_values _ _ _ = _ |- _ =>
    destruct (IH _ _ _ Hc1 H) as (r2 & Hl & Hlen & -> & Hc2) end.
  exists r2. split; [by constructor|]. split; [cbn; lia|]. split; [|done].
  cbn. by rewrite <-app_assoc.
Qed.

#[export] Instance vec_codec {A} (ty wf : A -> Prop) enc push tk size err :
  Codec ty wf enc push tk ->
  Codec (vec_ty ty size) (vec_wf wf size) (enc_vec enc) (push_vec push) (take_vec size tk err).
Proof.
  intros Hcd. split.
  - intros l [[Hl _] Hn]. apply emits_bind; [by apply (codec_push (tk := take_len err))|].
    clear Hn. induction Hl as [|v l Hv Hl IH]; [intros out; by rewrite app_nil_r|].
    cbn. apply emits_bind; [by apply codec_push|exact IH].
  - intros l out out' [Hl Hs] Hp. unfold push_vec in Hp. apply ST_bind_Ok in Hp as ([] & s1 & Hn & Hp).
    assert (is_u32 (N.of_nat (length l))) as Hn'
      by (unfold push_len in Hn; destruct (N.ltb_spec (N.of_nat (length l)) U32_LIMIT); done).
    split; [|done]. split; [|done]. clear -Hl Hp Hcd. revert s1 Hp.
    induction Hl as [|v l Hv Hl IH]; intros s1 Hp; [constructor|]. cbn in Hp.
    apply ST_bind_Ok in Hp as ([] & s2 & Hv' & Hp). constructor; [by eapply codec_push_inv|eauto].
  - intros l rest [[Hl Hs] Hn]. unfold enc_vec. rewrite <-app_assoc.
    eapply parses_bind; [by apply codec_take|].
    eapply parses_bind; [apply parses_lift; unfold with_capacity; by rewrite (proj2 (N.ltb_lt _ _) Hs)|].
    rewrite Nat2N.id. clear Hs Hn. induction Hl as [|v l Hv Hl IH]; [apply parses_ret|].
    cbn [length take_values mbind list_bind]. rewrite <-app_assoc.
    eapply parses_bind; [by apply codec_take|]. eapply parses_bind; [exact IH|]. apply parses_ret.
  - intros c c' b s l Hc Ht. unfold take_vec in Ht. st_inv.
    match goal with H : take_len _ _ = _ |- _ =>
      destruct (codec_take_inv _ _ _ _ _ Hc H) as (r0 & Hn & -> & Hc0); clear H end.
    match goal with H : with_capacity _ _ = _ |- _ =>
      unfold with_capacity in H; apply panic_unless_Ok, N.ltb_lt in H; rename H into Hs end.
    match goal with H : take_values _ _ _ = _ |- _ =>
      destruct (take_values_inv _ _ _ _ _ _ _ _ _ _ _ Hc0 H) as (rest & Hl & Hlen & -> & Hc') end.
    exists rest. unfold vec_wf, vec_ty, enc_vec. rewrite Hlen, N2Nat.id, <-app_assoc. done.
Qed.
(** ** The record *)

(** A condition on the record, given one on each type of field. *)
Definition meta_fields (num len : N -> Prop) (opt : option N -> Prop) (lens : list N -> Prop)
    (bools : list bool -> Prop) (strings : list string -> Prop) (nums : list N -> Prop)
    (m : VerifyMeta) : Prop :=
  num (vm_n_pow_bits m) /\
  len (vm_n_preprocessed_columns m) /\
  len (vm_n_trace_columns m) /\
  len (vm_n_interaction_columns m) /\
  lens (vm_trace_columns_per_component m) /\
  lens (vm_interaction_columns_per_component m) /\
  bools (vm_cumulative_sum_columns m) /\
  len (vm_n_components m) /\
  len (vm_fri_log_trace_size m) /\
  num (vm_fri_log_blowup m) /\
  num (vm_fri_log_last_layer m) /\
  len (vm_fri_n_queries m) /\
  num (vm_fri_fold_step m) /\
  num (vm_interaction_pow_bits m) /\
  num (vm_circuit_pow_bits m) /\
  num (vm_circuit_fri_log_blowup m) /\
  num (vm_circuit_fri_log_last_layer m) /\
  len (vm_circuit_fri_n_queries m) /\
  num (vm_circuit_fri_fold_step m) /\
  opt (vm_circuit_lifting m) /\
  lens (vm_output_addresses m) /\
  len (vm_n_blake_gates m) /\
  strings (vm_preprocessed_column_ids m) /\
  nums (vm_preprocessed_root m) /\
  nums (vm_public_output_values m).

(** What the types ensure: widths, UTF-8, and vectors that memory can hold. *)
Definition meta_typed : VerifyMeta -> Prop :=
  meta_fields is_u32 is_usize u32_option (vec_ty is_usize size_of_usize) (vec_ty any 1)
    (vec_ty is_utf8 (3 * size_of_usize)) (vec_ty is_u32 4).

(** The same, with every [usize] and every length below 2^32. *)
Definition meta_wf : VerifyMeta -> Prop :=
  meta_fields is_u32 is_u32 u32_option (vec_wf is_u32 size_of_usize) (vec_wf any 1)
    (vec_wf is_short (3 * size_of_usize)) (vec_wf is_u32 4).

Definition meta_bytes (m : VerifyMeta) : bytes :=
  VERIFY_META_MAGIC ++
  be_bytes 4 (vm_n_pow_bits m) ++
  be_bytes 4 (vm_n_preprocessed_columns m) ++
  be_bytes 4 (vm_n_trace_columns m) ++
  be_bytes 4 (vm_n_interaction_columns m) ++
  enc_vec (be_bytes 4) (vm_trace_columns_per_component m) ++
  enc_vec (be_bytes 4) (vm_interaction_columns_per_component m) ++
  enc_vec enc_bool (vm_cumulative_sum_columns m) ++
  be_bytes 4 (vm_n_components m) ++
  be_bytes 4 (vm_fri_log_trace_size m) ++
  be_bytes 4 (vm_fri_log_blowup m) ++
  be_bytes 4 (vm_fri_log_last_layer m) ++
  be_bytes 4 (vm_fri_n_queries m) ++
  be_bytes 4 (vm_fri_fold_step m) ++
  be_bytes 4 (vm_interaction_pow_bits m) ++
  be_bytes 4 (vm_circuit_pow_bits m) ++
  be_bytes 4 (vm_circuit_fri_log_blowup m) ++
  be_bytes 4 (vm_circuit_fri_log_last_layer m) ++
  be_bytes 4 (vm_circuit_fri_n_queries m) ++
  be_bytes 4 (vm_circuit_fri_fold_step m) ++
  enc_option (vm_circuit_lifting m) ++
  enc_vec (be_bytes 4) (vm_output_addresses m) ++
  be_bytes 4 (vm_n_blake_gates m) ++
  enc_vec enc_string (vm_preprocessed_column_ids m) ++
  enc_vec (be_bytes 4) (vm_preprocessed_root m) ++
  enc_vec (be_bytes 4) (vm_public_output_values m).

(** The instance of [Codec] that a reader or a writer belongs to. *)
Ltac codec_of f err :=
  lazymatch f with
  | take_u32 => constr:(u32_codec err)
  | push_u32 => constr:(u32_codec err)
  | take_len => constr:(len_codec err)
  | push_len => constr:(len_codec err)
  | take_option_u32 => constr:(option_codec err)
  | push_option_u32 => constr:(option_codec err)
  | take_vec_usize => constr:(vec_codec _ _ _ _ _ size_of_usize err (len_codec err))
  | push_vec_usize => constr:(vec_codec _ _ _ _ _ size_of_usize err (len_codec err))
  | take_vec_bool => constr:(vec_codec _ _ _ _ _ 1 err (bool_codec err))
  | push_vec_bool => constr:(vec_codec _ _ _ _ _ 1 err (bool_codec err))
  | take_vec_string => constr:(vec_codec _ _ _ _ _ (3 * size_of_usize) err (string_codec err))
  | push_vec_string => constr:(vec_codec _ _ _ _ _ (3 * size_of_usize) err (string_codec err))
  | take_vec_u32 => constr:(vec_codec _ _ _ _ _ 4 err (u32_codec err))
  | push_vec_u32 => constr:(vec_codec _ _ _ _ _ 4 err (u32_codec err))
  end.

Ltac push_field :=
  match goal with
  | |- emits (?f _) _ =>
      let c := codec_of f EmptyString in apply (codec_push (Codec := c)); assumption
  end.

Ltac pushed_field :=
  match goal with
  | T : _ ?v, H : ?f ?v _ = (_, Ok tt) |- _ ?v =>
      let c := codec_of f EmptyString in exact (codec_push_inv (Codec := c) v _ _ T H)
  end.

Ltac take_field :=
  match goal with
  | |- parses (?f ?err) _ _ _ =>
      let c := codec_of f err in apply (codec_take (Codec := c)); assumption
  end.

Ltac took_field :=
  match goal with
  | Hc : stands ?c ?b ?s, H : ?f ?err ?c = (_, Ok _) |- _ =>
      let C := codec_of f err in
      let rest := fresh "rest" in let Hv := fresh "Hv" in let Hc' := fresh "Hc" in
      destruct (codec_take_inv (Codec := C) _ _ _ _ _ Hc H) as (rest & Hv & -> & Hc');
      clear Hc H
  end.

Lemma encode_emits m : meta_wf m -> emits (encode_into m) (meta_bytes m).
Proof.
  intros Hm. unfold meta_wf, meta_fields in Hm. unfold encode_into, meta_bytes.
  destruct_and! Hm. apply emits_bind; [apply emits_writes|].
  do 24 (apply emits_bind; [push_field|]).
  push_field.
Qed.

Lemma encode_wf m out out' :
  meta_typed m -> encode_into m out = (out', Ok tt) -> meta_wf m.
Proof.
  intros Hm He. unfold meta_typed, meta_fields in Hm. unfold meta_wf, meta_fields.
  destruct_and! Hm. unfold encode_into in He.
  do 25 (apply ST_bind_Ok in He as ([] & ? & ? & He)).
  repeat match goal with |- _ /\ _ => split end; pushed_field.
Qed.

Lemma decode_parses m rest :
  meta_wf m -> parses decode_fields (meta_bytes m ++ rest) m rest.
Proof.
  intros Hm. unfold meta_wf, meta_fields in Hm. unfold meta_bytes, decode_fields.
  destruct_and! Hm. rewrite <-!app_assoc. eapply parses_bind; [by apply take_exact_parses|].
  eapply parses_bind; [apply parses_lift; by rewrite bool_decide_eq_true_2|].
  do 25 (eapply parses_bind; [take_field|]).
  destruct m. apply parses_ret.
Qed.

Lemma decode_fields_inv c c' b s m :
  stands c b s -> decode_fields c = (c', Ok m) ->
  exists rest, meta_wf m /\ s = meta_bytes m ++ rest /\ stands c' b rest.
Proof.
  intros Hc Hd. unfold decode_fields in Hd.
  apply ST_bind_Ok in Hd as (magic & c0 & Hmagic & Hd).
  destruct (take_exact_inv _ _ _ _ _ _ _ Hc Hmagic) as (_ & rest & -> & Hc0).
  apply ST_bind_Ok in Hd as ([] & c1 & Hd0 & Hd). apply lift_Ok in Hd0 as [-> Hm].
  apply fail_if_Ok, negb_false_iff, bool_decide_eq_true in Hm as ->.
  clear Hc Hmagic. do 25 (apply ST_bind_Ok in Hd as (? & ? & ? & Hd); took_field).
  apply ST_ret_Ok in Hd as [<- <-]. eexists. split; [|split; [|eassumption]].
  - unfold meta_wf, meta_fields. repeat match goal with |- _ /\ _ => split end; assumption.
  - unfold meta_bytes. rewrite <-!app_assoc. reflexivity.
Qed.

Lemma stands_new b : N.of_nat (length b) < usize_limit -> stands (cursor_new b) b b.
Proof. intros Hb. split; [done|]. split; [done|]. by exists []. Qed.

Lemma encode_typed m b :
  meta_typed m -> verify_meta_encode m = Ok b <-> meta_wf m /\ b = meta_bytes m.
Proof.
  intros Ht. unfold verify_meta_encode. split.
  - destruct (encode_into m []) as [out [[]|e|e]] eqn:E; try done. intros [= ->].
    pose proof (encode_wf _ _ _ Ht E) as Hw. rewrite (encode_emits m Hw) in E. by simplify_eq.
  - intros [Hw ->]. by rewrite (encode_emits m Hw).
Qed.

Lemma wf_typed m : meta_wf m -> meta_typed m.
Proof.
  assert (Hs : forall s l, vec_wf is_u32 s l -> vec_ty is_usize s l)
    by (intros s l [[Hl ?] _]; split; [eapply Forall_impl; [exact Hl|exact u32_is_usize]|done]).
  assert (Hu : forall s l, vec_wf is_short s l -> vec_ty is_utf8 s l)
    by (intros s l [[Hl ?] _]; split; [eapply Forall_impl; [exact Hl|by intros ? []]|done]).
  assert (Hw : forall A (P : A -> Prop) s l, vec_wf P s l -> vec_ty P s l) by by intros A P s l [].
  pose proof u32_is_usize. unfold meta_wf, meta_typed, meta_fields. intros Hm. destruct_and! Hm.
  repeat match goal with |- _ /\ _ => split end; auto.
Qed.

(** C36: on bytes that memory can hold the reader returns a record exactly when the record
    is well typed and the bytes are what the writer makes of it: nothing is lost, no record
    has two encodings, and nothing else is accepted. *)
Theorem verify_meta_codec (b : bytes) (m : VerifyMeta) :
  N.of_nat (length b) < usize_limit ->
  verify_meta_decode b = Ok m <-> meta_typed m /\ verify_meta_encode m = Ok b.
Proof.
  intros Hb. split.
  - intros Hd. unfold verify_meta_decode in Hd.
    destruct (decode_fields (cursor_new b)) as [c [m'|e|e]] eqn:E; try done.
    unfold cursor_is_empty in Hd. destruct (N.eqb_spec (cur_pos c) (cursor_len c)) as [He|]; [|done].
    injection Hd as ->.
    destruct (decode_fields_inv _ _ b b m (stands_new b Hb) E)
      as (rest & Hw & Hs & Hc & _ & pre & Hp & Hpos).
    pose proof (wf_typed m Hw) as Ht. split; [done|]. apply encode_typed; [done|]. split; [done|].
    unfold cursor_len in He. rewrite Hpos, Hc, Hp, length_app in He.
    rewrite Hs, (nil_length_inv rest) by lia. apply app_nil_r.
  - intros [Ht He]. apply encode_typed in He as [Hw ->]; [|done].
    destruct (decode_parses m [] Hw (cursor_new (meta_bytes m)) (meta_bytes m)) as (c & Hd & Hc).
    { rewrite app_nil_r. by apply stands_new. }
    unfold verify_meta_decode. rewrite Hd. destruct Hc as (Hc & _ & pre & Hp & Hpos).
    unfold cursor_is_empty, cursor_len. rewrite Hpos, Hc, Hp, app_nil_r.
    by rewrite N.eqb_refl.
Qed.
End Codecs.
