(* ===== verification/BundleFacts.v ===== *)
(** * BundleFacts: what the verifier checks of a bundle

    The compiled-in metadata decodes on both targets, so every bundle is verified under one
    circuit and one configuration of the proof system; the words the preimage digest is cut
    into are its digits in base 512, and so keep all of it. *)

From S2P Require Import Prelude Felt Externals Concrete Recipients Types Outputs.
From S2P Require Import Utf8 Store VerifyMeta Bundle.

Local Open Scope N_scope.

(** ** The compiled-in metadata *)

(** [hex] writes two lower-case digits a byte. *)
Definition hex_pair (x : Byte.byte) : bytes :=
  [hex_digit (Byte.to_N x / 16); hex_digit (Byte.to_N x mod 16)].

Class HexLower `{Hex} : Prop := hex_encode_pairs : forall b, hex_encode b = b ≫= hex_pair.

Definition ok_default {A} (d : A) (r : result A) : A := match r with Ok a => a | _ => d end.

Definition CANONICAL_BYTES : bytes :=
  ok_default [] (toy_hex_decode (trim (str_bytes CANONICAL_VERIFY_META_HEX))).

Definition NO_META : VerifyMeta :=
  {| vm_n_pow_bits := 0; vm_n_preprocessed_columns := 0; vm_n_trace_columns := 0;
     vm_n_interaction_columns := 0; vm_trace_columns_per_component := [];
     vm_interaction_columns_per_component := []; vm_cumulative_sum_columns := [];
     vm_n_components := 0; vm_fri_log_trace_size := 0; vm_fri_log_blowup := 0;
     vm_fri_log_last_layer := 0; vm_fri_n_queries := 0; vm_fri_fold_step := 0;
     vm_interaction_pow_bits := 0; vm_circuit_pow_bits := 0; vm_circuit_fri_log_blowup := 0;
     vm_circuit_fri_log_last_layer := 0; vm_circuit_fri_n_queries := 0;
     vm_circuit_fri_fold_step := 0; vm_circuit_lifting := None; vm_output_addresses := [];
     vm_n_blake_gates := 0; vm_preprocessed_column_ids := []; vm_preprocessed_root := [];
     vm_public_output_values := [] |}.

(** The record those bytes encode. *)
Definition CANONICAL_META : VerifyMeta :=
  ok_default NO_META (@verify_meta_decode {| usize_bits := 64 |} CANONICAL_BYTES).

Lemma canonical_hex : trim (str_bytes CANONICAL_VERIFY_META_HEX) = CANONICAL_BYTES ≫= hex_pair.
Proof. vm_compute. reflexivity. Qed.

(** The two targets the crate is built for. *)
Definition built_target `{Target} : Prop := usize_bits = 32 \/ usize_bits = 64.

Lemma canonical_decodes `{T : Target} :
  built_target -> verify_meta_decode CANONICAL_BYTES = Ok CANONICAL_META.
Proof. destruct T as [b]. intros [E|E]; cbn in E; subst; vm_compute; reflexivity. Qed.

Lemma canonical_values :
  length (vm_preprocessed_root CANONICAL_META) = 8%nat /\
  length (vm_public_output_values CANONICAL_META) = 16%nat.
Proof. vm_compute. split; reflexivity. Qed.

Lemma canonical_meta_ok `{Target, HexLaws, !HexLower} :
  built_target -> canonical_verify_meta = Ok CANONICAL_META.
Proof.
  intros Ht. unfold canonical_verify_meta.
  rewrite canonical_hex, <-hex_encode_pairs, hex_decode_encode. cbn [map_err mbind result_bind].
  by rewrite canonical_decodes.
Qed.

(** ** Words *)

Lemma low_bits a b k : a < 2 ^ 64 -> k < 64 -> N.testbit (a + 2 ^ 64 * b) k = N.testbit a k.
Proof.
  intros Ha Hk. rewrite <-(N.mod_pow2_bits_low _ 64 k) by done.
  by rewrite N.mul_comm, N.Div0.mod_add, N.mod_small.
Qed.

Lemma high_bits a b k : a < 2 ^ 64 -> N.testbit (a + 2 ^ 64 * b) (k + 64) = N.testbit b k.
Proof.
  intros Ha. rewrite <-N.div_pow2_bits. f_equal.
  rewrite N.mul_comm, N.div_add, N.div_small; done.
Qed.

Lemma no_high_bits a k : a < 2 ^ 64 -> 64 <= k -> N.testbit a k = false.
Proof.
  intros Ha Hk. destruct (N.eq_dec a 0) as [->|Hn]; [apply N.bits_0|].
  apply N.bits_above_log2. apply N.log2_lt_pow2 in Ha; lia.
Qed.

(** Nine bits from position [s]: inside one limb, or across two. *)
Lemma word_inside a b s :
  a < 2 ^ 64 -> s + 9 <= 64 ->
  N.land (N.shiftr a s) (N.ones 9) = (a + 2 ^ 64 * b) / 2 ^ s mod 2 ^ 9.
Proof.
  intros Ha Hs. rewrite N.land_ones. apply N.bits_inj. intros j.
  destruct (N.lt_ge_cases j 9) as [Hj|Hj]; [|by rewrite !N.mod_pow2_bits_high].
  rewrite !N.mod_pow2_bits_low, N.shiftr_spec', N.div_pow2_bits by done.
  by rewrite low_bits by (done || lia).
Qed.

Lemma word_across a b c s :
  a < 2 ^ 64 -> b < 2 ^ 64 -> s < 64 -> 64 < s + 9 ->
  N.land (N.lor (N.shiftr a s) (shl_u64 b (64 - s))) (N.ones 9) =
  (a + 2 ^ 64 * (b + 2 ^ 64 * c)) / 2 ^ s mod 2 ^ 9.
Proof.
  intros Ha Hb Hs H9. rewrite N.land_ones. apply N.bits_inj. intros j.
  destruct (N.lt_ge_cases j 9) as [Hj|Hj]; [|by rewrite !N.mod_pow2_bits_high].
  rewrite !N.mod_pow2_bits_low, N.lor_spec, N.shiftr_spec', N.div_pow2_bits by done.
  unfold shl_u64. change U64_LIMIT with (2 ^ 64). rewrite N.mod_pow2_bits_low by lia.
  destruct (N.lt_ge_cases (j + s) 64) as [Hl|Hl].
  - rewrite low_bits, N.shiftl_spec_low, orb_false_r by (done || lia). done.
  - rewrite no_high_bits, orb_false_l, N.shiftl_spec_high' by (done || lia).
    replace (j + s) with (j + s - 64 + 64) by lia. rewrite high_bits by done.
    rewrite low_bits by (done || lia). f_equal. lia.
Qed.

Lemma digits_drop l q :
  Forall is_u64 l -> digits_val l / 2 ^ (64 * N.of_nat q) = digits_val (drop q l).
Proof.
  intros Hl. revert q. induction Hl as [|d l Hd Hl IH]; intros q.
  - rewrite drop_nil. apply N.Div0.div_0_l.
  - destruct q as [|q]; [by rewrite N.mul_0_r, N.div_1_r|]. cbn [drop]. rewrite <-IH.
    rewrite Nat2N.inj_succ, N.mul_succ_r, N.add_comm, N.pow_add_r, <-N.Div0.div_div.
    f_equal. cbn [digits_val foldr]. rewrite N.mul_comm, N.div_add, N.div_small; done.
Qed.

Section Words.
Context `{ProofFields}.

(** A word is a digit in base 512. *)
Lemma felt252_word_digit l i :
  length l = 4%nat -> Forall is_u64 l -> i < 28 ->
  felt252_word l i = Ok (m31_from_u32 (digits_val l / 512 ^ i mod 512)).
Proof.
  intros Hlen Hl Hi. unfold felt252_word. change FELT252_BITS_PER_WORD with 9.
  change (N.shiftl 1 9 - 1) with (N.ones 9). change 0x3f with (N.ones 6). rewrite N.land_ones.
  change (2 ^ 6) with 64. set (q := 9 * i / 64). set (s := 9 * i mod 64).
  assert (Hqs : 9 * i = 64 * q + s) by apply N.div_mod'.
  assert (Hs : s < 64) by by apply N.mod_lt.
  assert (E : digits_val l / 512 ^ i mod 512 = digits_val (drop (N.to_nat q) l) / 2 ^ s mod 2 ^ 9).
  { rewrite <-digits_drop, N2Nat.id, N.Div0.div_div, <-N.pow_add_r, <-Hqs by done.
    change 512 with (2 ^ 9) at 1. by rewrite <-N.pow_mul_r. }
  rewrite E. destruct (lookup_lt_is_Some_2 l (N.to_nat q)) as [d Hd]; [lia|].
  rewrite (drop_S _ _ _ Hd). pose proof (Forall_lookup_1 _ _ _ _ Hl Hd) as Hd64. cbn in Hd64.
  apply index_at_Ok in Hd. rewrite Hd. cbn [mbind result_bind digits_val foldr].
  assert (Hw : forall w, N.land w (N.ones 9) mod U32_LIMIT = N.land w (N.ones 9)).
  { intros w. apply N.mod_small. rewrite N.land_ones. pose proof (N.mod_lt w (2 ^ 9)).
    unfold U32_LIMIT. lia. }
  destruct (N.le_gt_cases (s + 9) 64) as [Hin|Hout].
  - replace ((9 * i + 9 - 1) / 64) with q
      by (apply (N.div_unique _ _ _ (s + 8)); lia).
    rewrite N.eqb_refl. cbn [mbind result_bind mret result_ret]. rewrite Hw.
    do 2 f_equal. by apply word_inside.
  - replace ((9 * i + 9 - 1) / 64) with (q + 1)
      by (apply (N.div_unique _ _ _ (s + 8 - 64)); lia).
    rewrite (proj2 (N.eqb_neq _ _)) by lia.
    destruct (lookup_lt_is_Some_2 l (S (N.to_nat q))) as [e He]; [lia|].
    rewrite (drop_S _ _ _ He). pose proof (Forall_lookup_1 _ _ _ _ Hl He) as He64. cbn in He64.
    replace (N.to_nat (q + 1)) with (S (N.to_nat q)) by lia.
    apply index_at_Ok in He. rewrite He. cbn [mbind result_bind mret result_ret digits_val foldr]. rewrite Hw.
    do 2 f_equal. by apply word_across.
Qed.

(** Digits put back together. *)
Lemma digits_of b v k n :
  foldr (fun d w => d + b * w) 0 ((fun i => v / b ^ N.of_nat i mod b) <$> seq k n) =
  v / b ^ N.of_nat k mod b ^ N.of_nat n.
Proof.
  revert k. induction n as [|n IH]; intros k; cbn [seq fmap list_fmap foldr]; [by rewrite N.mod_1_r|].
  rewrite IH, !Nat2N.inj_succ, !N.pow_succ_r', (N.mul_comm b (b ^ N.of_nat k)).
  rewrite <-N.Div0.div_div. symmetry. apply N.Div0.mod_mul_r.
Qed.

Context `{!ProofFieldsLaws}.

Lemma felt252_words_digits f :
  felt252_to_m31_words f =
  Ok ((fun i => m31_from_u32 (digits_val (felt_to_le_digits f) / 512 ^ N.of_nat i mod 512)) <$>
      seq 0 28).
Proof.
  apply map_result_Ok, Forall2_fmap_r, Forall_Forall2_diag, Forall_forall.
  intros i [_ Hi]%elem_of_seq. cbn in Hi.
  apply felt252_word_digit; [apply length_le_digits|apply le_digits_u64|lia].
Qed.

(** C35: a field element is cut into 28 words of nine bits, without a panic, from which
    it can be put together again: two digests never give the same words. *)
Theorem words_keep_digest (f : Felt) :
  exists ns, felt252_to_m31_words f = Ok (m31_from_u32 <$> ns) /\
    length ns = 28%nat /\ Forall (fun n => n < 2 ^ 9) ns /\
    foldr (fun d w => d + 512 * w) 0 ns = digits_val (felt_to_le_digits f).
Proof.
  set (v := digits_val (felt_to_le_digits f)).
  exists ((fun i => v / 512 ^ N.of_nat i mod 512) <$> seq 0 28).
  rewrite felt252_words_digits, <-list_fmap_compose. split; [done|]. split; [done|]. split.
  - apply Forall_fmap, Forall_true. intros i. by apply N.mod_lt.
  - rewrite digits_of, N.div_1_r. apply N.mod_small. apply le_digits_bound.
Qed.
End Words.

(** ** What a bundle is verified against *)

Section Gate.
Context `{Target} `{HexLaws, !HexLower} `{ProofFieldsLaws} `{!CircuitVerifier}.

Definition quad (vals : list N) : QM31 :=
  qm31_from_m31 (m31_from_u32 (nth 0 vals 0)) (m31_from_u32 (nth 1 vals 0))
    (m31_from_u32 (nth 2 vals 0)) (m31_from_u32 (nth 3 vals 0)).

Definition CANONICAL_PROOF_CONFIG : ProofConfig := proof_config_of CANONICAL_META.

Definition circuit_of (meta : VerifyMeta) : CircuitConfig :=
  {| cc_config :=
       {| pcs_pow_bits := vm_circuit_pow_bits meta;
          pcs_log_blowup_factor := vm_circuit_fri_log_blowup meta;
          pcs_log_last_layer_degree_bound := vm_circuit_fri_log_last_layer meta;
          pcs_n_queries := vm_circuit_fri_n_queries meta;
          pcs_fold_step := vm_circuit_fri_fold_step meta;
          pcs_lifting_log_size := vm_circuit_lifting meta |};
     cc_output_addresses := vm_output_addresses meta;
     cc_n_blake_gates := vm_n_blake_gates meta;
     cc_preprocessed_column_ids := vm_preprocessed_column_ids meta;
     cc_preprocessed_root := (quad (take 4 (vm_preprocessed_root meta)),
                              quad (drop 4 (vm_preprocessed_root meta))) |}.

Definition CANONICAL_CIRCUIT : CircuitConfig := circuit_of CANONICAL_META.

(** The digits in base 512 of the digest of the preimage, hashed in the circuit's field. *)
Definition digest_words (output_preimage : list F) : list M31 :=
  let digest := digits_val (felt_to_le_digits (blake2_felt_hash (raw_to_felt <$> output_preimage))) in
  (fun i => m31_from_u32 (digest / 512 ^ N.of_nat i mod 512)) <$> seq 0 28.

Definition digest_values (output_preimage : list F) : list N :=
  let q := pack_into_qm31s (digest_words output_preimage) in
  let h := qm31_blake q (N.of_nat (length q) * 16) in
  qm31_to_m31s (fst h) ++ qm31_to_m31s (snd h).

(** The public output of the circuit: the digest, and compiled-in values after it. *)
Definition output_of (meta : VerifyMeta) (output_preimage : list F) : list QM31 :=
  quad <$> chunks 4 (digest_values output_preimage ++ drop 8 (vm_public_output_values meta)).

Definition public_output : list F -> list QM31 := output_of CANONICAL_META.

Lemma length_qm31_to_m31s q : length (qm31_to_m31s q) = 4%nat.
Proof. unfold qm31_to_m31s. by destruct (qm31_words q) as [[[a b] c] d]. Qed.

Lemma length_digest_values op : length (digest_values op) = 8%nat.
Proof. unfold digest_values. cbv zeta. by rewrite length_app, !length_qm31_to_m31s. Qed.

Lemma qm31_from_quad vals : length vals = 4%nat -> qm31_from vals = Ok (quad vals).
Proof. destruct vals as [|a [|b [|c [|d [|]]]]]; try done. Qed.

Lemma compute_digest op :
  compute_output_hash_values (raw_to_felt <$> op) = Ok (digest_values op).
Proof.
  unfold compute_output_hash_values. cbv zeta. rewrite felt252_words_digits.
  cbn [mbind result_bind]. unfold digest_values, digest_words. cbv zeta.
  by destruct (qm31_blake _ _) as [h0 h1].
Qed.

Lemma circuit_config_ok meta :
  length (vm_preprocessed_root meta) = 8%nat -> circuit_config_of meta = Ok (circuit_of meta).
Proof.
  intros Hr. unfold circuit_config_of, slice_at. rewrite Hr.
  cbn [Nat.leb panic_unless mbind result_bind mret result_ret Nat.sub]. rewrite drop_0.
  rewrite !qm31_from_quad by (rewrite ?length_take, ?length_drop, Hr; done).
  cbn [mbind result_bind]. by rewrite (take_ge (drop 4 _)) by (rewrite length_drop, Hr; done).
Qed.

Lemma output_values_ok meta op :
  length (vm_public_output_values meta) = 16%nat ->
  map_result qm31_from (chunks 4 (digest_values op ++ drop 8 (vm_public_output_values meta))) =
  Ok (output_of meta op).
Proof.
  intros Hv. apply map_result_Ok. unfold output_of. apply Forall2_fmap_r, Forall_Forall2_diag.
  assert (Hl : length (digest_values op ++ drop 8 (vm_public_output_values meta)) = 16%nat)
    by (rewrite length_app, length_digest_values, length_drop, Hv; done).
  revert Hl. generalize (digest_values op ++ drop 8 (vm_public_output_values meta)). clear.
  intros l Hl. do 16 (destruct l as [|? l]; [done|]). destruct l; [|done].
  repeat (constructor; [reflexivity|]). constructor.
Qed.

(** A bundle under any metadata of the right shape. *)
Lemma bundle_verify_meta meta proof_bytes op :
  canonical_verify_meta = Ok meta ->
  length (vm_preprocessed_root meta) = 8%nat -> length (vm_public_output_values meta) = 16%nat ->
  bundle_verify {| pb_proof_bytes := proof_bytes; pb_output_preimage := op |} =
    data ← map_err (fun e => "zstd decompress: " +:+ e) (zstd_decode_all proof_bytes);
    proof ← map_err (fun e => "deserialize proof: " +:+ e)
              (deserialize_proof_with_config data (proof_config_of meta));
    map_err (fun e => "circuit verification FAILED: " +:+ e)
      (verify_circuit (circuit_of meta) proof (output_of meta op)) ;;
    mret tt.
Proof.
  intros Hm Hr Hv. unfold bundle_verify, canonical_verify_meta_for_output_preimage.
  unfold output_preimage_felts. cbn [pb_output_preimage pb_proof_bytes].
  rewrite Hm. cbn [mbind result_bind]. rewrite compute_digest.
  cbn [mbind result_bind]. rewrite Hv, length_digest_values.
  cbn [Nat.ltb Nat.leb fail_if mbind result_bind mret result_ret].
  rewrite circuit_config_ok by done. cbn [mbind result_bind].
  cbn [with_public_output_values vm_public_output_values]. by rewrite output_values_ok.
Qed.

Lemma bundle_verify_eq proof_bytes op :
  built_target ->
  bundle_verify {| pb_proof_bytes := proof_bytes; pb_output_preimage := op |} =
    data ← map_err (fun e => "zstd decompress: " +:+ e) (zstd_decode_all proof_bytes);
    proof ← map_err (fun e => "deserialize proof: " +:+ e)
              (deserialize_proof_with_config data CANONICAL_PROOF_CONFIG);
    map_err (fun e => "circuit verification FAILED: " +:+ e)
      (verify_circuit CANONICAL_CIRCUIT proof (public_output op)) ;;
    mret tt.
Proof.
  intros Ht. unfold CANONICAL_PROOF_CONFIG, CANONICAL_CIRCUIT, public_output.
  destruct canonical_values as [Hr Hv].
  exact (bundle_verify_meta _ proof_bytes op (canonical_meta_ok Ht) Hr Hv).
Qed.

Lemma validate_stark bv allow hashes proof_bytes op circuit :
  is_ok (validate bv (verified allow hashes) (Stark proof_bytes op) circuit) = true <->
  proof_bytes <> [] /\ op <> [] /\
  is_ok (validate_single_task_program_hash op (expected_program_hash circuit hashes)) = true /\
  is_ok (bv proof_bytes op) = true.
Proof.
  unfold validate, verified, check_proof_shape, validate_stark_circuit, verify_stark_bundle.
  cbn [dpv_allow_trust_me_bro dpv_verified_mode bool_decide negb fail_if].
  rewrite (bool_decide_eq_true_2 (is_Some _)) by (by eexists). cbn [negb fail_if mbind result_bind].
  destruct (validate_single_task_program_hash op _) as [r|e|e], (bv proof_bytes op) as [v|e'|e'];
    do 2 case_bool_decide; cbn; naive_solver.
Qed.

Lemma validate_hash_frame op ph :
  target_ok -> len_N op + 1 < usize_limit ->
  is_ok (validate_single_task_program_hash op ph) = true <->
  exists rest, op = u64_to_felt 1 :: u64_to_felt (2 + len_N rest) :: ph :: rest.
Proof.
  intros Ht Hl. split.
  - destruct (validate_single_task_program_hash op ph) as [rest|e|e] eqn:E; [|done..].
    intros _. exists rest. by apply validate_hash_Ok.
  - intros [rest ->]. unfold validate_single_task_program_hash.
    rewrite parse_single_task_frame by (done || unfold len_N in *; cbn [length] in *; lia).
    cbn. by rewrite bool_decide_eq_true_2.
Qed.

Lemma built_target_ok : built_target -> target_ok.
Proof. unfold built_target, target_ok. lia. Qed.

Lemma verdict_ok wasm32 proof_bytes op :
  built_target ->
  is_ok (stark_bundle_verdict wasm32 proof_bytes op) = true <->
  exists data proof,
    zstd_decode_all proof_bytes = Ok data /\
    deserialize_proof_with_config data CANONICAL_PROOF_CONFIG = Ok proof /\
    verify_circuit CANONICAL_CIRCUIT proof (public_output op) = Ok tt.
Proof.
  intros Ht. unfold stark_bundle_verdict. rewrite bundle_verify_eq by done.
  destruct (zstd_decode_all proof_bytes) as [data|e|e];
    [|split; [done|by intros (? & ? & ? & _)]..].
  cbn [map_err mbind result_bind].
  destruct (deserialize_proof_with_config data _) as [proof|e|e] eqn:Ed;
    [|split; [done|intros (? & ? & [= <-] & Hp & _); congruence]..].
  cbn [map_err mbind result_bind].
  destruct (verify_circuit CANONICAL_CIRCUIT proof _) as [[]|e|e] eqn:Ev;
    [split; [by exists data, proof|done]
    |split; [done|intros (? & ? & [= <-] & Hp & Hv); congruence]..].
Qed.

(** C32: in verified mode a STARK proof of a circuit is accepted exactly when it is not
    empty, its preimage is a frame of that circuit's program, and its bytes decompress and
    deserialise, under the compiled-in configuration, to a proof that the circuit verifier
    accepts for the compiled-in circuit and the digest of the preimage. *)
Theorem verified_mode_gate (wasm32 allow : bool) (hashes : ProgramHashes) (proof_bytes : bytes)
    (output_preimage : list F) (circuit : CircuitKind) :
  built_target -> len_N output_preimage + 1 < usize_limit ->
  is_ok (validate (stark_bundle_verdict wasm32) (verified allow hashes)
           (Stark proof_bytes output_preimage) circuit) = true <->
  proof_bytes <> [] /\
  (exists rest, output_preimage = u64_to_felt 1 :: u64_to_felt (2 + len_N rest) ::
                                  expected_program_hash circuit hashes :: rest) /\
  exists data proof,
    zstd_decode_all proof_bytes = Ok data /\
    deserialize_proof_with_config data CANONICAL_PROOF_CONFIG = Ok proof /\
    verify_circuit CANONICAL_CIRCUIT proof (public_output output_preimage) = Ok tt.
Proof.
  intros Ht Hl. rewrite validate_stark, verdict_ok by done.
  rewrite validate_hash_frame by (done || by apply built_target_ok).
  split; [by intros (? & _ & ? & ?)|]. intros (? & [rest ->] & ?). split_and!; eauto.
Qed.
End Gate.

(** ** At concrete crates

    Field elements are integers; a proof is its bytes, accepted when the first is not zero. *)

Definition toy_fields : ProofFields := {|
  Felt := N;
  felt_from_bytes_le := fun f => le_val (F_bytes f) mod 2 ^ 252;
  felt_to_le_digits := fun v =>
    (fun i => v mod 2 ^ 252 / (2 ^ 64) ^ N.of_nat i mod 2 ^ 64) <$> seq 0 4;
  blake2_felt_hash := foldl (fun a v => (a * 257 + v + 1) mod 2 ^ 252) 7;
  M31 := N;
  m31_from_u32 := fun v => v mod (2 ^ 31 - 1);
  QM31 := N * N * N * N;
  qm31_from_m31 := fun a b c d => (a, b, c, d);
  qm31_words := fun q => q;
  pack_into_qm31s := fun l => (fun x => (x, 0, 0, 0)) <$> l;
  qm31_blake := fun l n => (foldl (fun a q => q) (n, 0, 0, 0) l, (n, 1, 2, 3))
|}.

#[export] Instance toy_fields_laws : @ProofFieldsLaws toy_fields.
Proof.
  split; intros f.
  - done.
  - cbn [felt_to_le_digits toy_fields]. apply Forall_fmap, Forall_true. intros i. by apply N.mod_lt.
  - cbn [felt_to_le_digits toy_fields]. unfold digits_val. rewrite digits_of, N.div_1_r.
    eapply N.le_lt_trans; [apply N.Div0.mod_le|]. by apply N.mod_lt.
Qed.

Definition toy_circuit_verifier : @CircuitVerifier toy_fields := {|
  zstd_decode_all := fun b => Ok b;
  CircuitProof := bytes;
  deserialize_proof_with_config := fun b _ =>
    match b with [] => Err "unexpected end of file" | _ => Ok b end;
  verify_circuit := fun _ proof output =>
    match proof, output with
    | b :: _, _ :: _ => if decide (b = Byte.x00) then Err "invalid proof" else Ok tt
    | _, _ => Err "invalid proof"
    end
|}.

#[export] Instance toy_hex_lower : @HexLower toy_hex.
Proof.
  intros b. cbn. unfold toy_hex_encode. apply list_bind_ext; [|done]. intros x.
  unfold hex_pair, hex_digit, toy_hex_digit.
  assert (He : forall n, byte_of_N (if n <? 10 then 48 + n else 87 + n) =
                         (if n <? 10 then byte_of_N (0x30 + n) else byte_of_N (0x61 + (n - 10)))).
  { intros n. destruct (N.ltb_spec n 10); [done|]. f_equal. lia. }
  by rewrite !He.
Qed.

(** The kernel's build accepts the sample proof, and refuses it under another circuit. *)
Lemma verified_mode_gate_witness :
  is_ok (@validate wasm_target
           (@stark_bundle_verdict wasm_target toy_hex toy_fields toy_circuit_verifier true) toy_hex
           (verified false sample_hashes) sample_stark CTransfer) = true /\
  is_ok (@validate wasm_target
           (@stark_bundle_verdict wasm_target toy_hex toy_fields toy_circuit_verifier true) toy_hex
           (verified false sample_hashes) sample_stark CShield) <> true.
Proof.
  assert (Hb : @built_target wasm_target) by by left.
  assert (Hl : len_N (frame (ph_transfer sample_hashes) sample_outputs) + 1 <
               @usize_limit wasm_target) by reflexivity.
  split.
  - apply (@verified_mode_gate wasm_target toy_hex _ _ toy_fields _ toy_circuit_verifier
             true false sample_hashes [Byte.x01] _ CTransfer Hb Hl).
    split; [done|]. split; [by exists (u64_to_felt 2 :: sample_outputs)|].
    exists [Byte.x01], [Byte.x01]. split; [done|]. split; [done|]. vm_compute. reflexivity.
  - intros Hv. apply (@verified_mode_gate wasm_target toy_hex _ _ toy_fields _ toy_circuit_verifier
             true false sample_hashes [Byte.x01] _ CShield Hb Hl) in Hv as (_ & [rest Hr] & _).
    apply (f_equal (fun l => l !! 2%nat)) in Hr. vm_compute in Hr. discriminate Hr.
Defined.

(** The words of the digest one more than 2^251. *)
Lemma words_keep_digest_witness :
  exists ns, @felt252_to_m31_words toy_fields (2 ^ 251 + 1) = Ok (@m31_from_u32 toy_fields <$> ns) /\
    length ns = 28%nat /\ Forall (fun n => n < 2 ^ 9) ns /\
    foldr (fun d w => d + 512 * w) 0 ns =
    digits_val (@felt_to_le_digits toy_fields (2 ^ 251 + 1)).
Proof. exact (@words_keep_digest toy_fields _ (2 ^ 251 + 1)). Defined.

(** The compiled-in record is what the writer makes the compiled-in bytes of. *)
Lemma verify_meta_codec_witness :
  @meta_typed {| usize_bits := 64 |} CANONICAL_META /\
  verify_meta_encode CANONICAL_META = Ok CANONICAL_BYTES.
Proof.
  apply (@verify_meta_codec {| usize_bits := 64 |} ltac:(done) CANONICAL_BYTES CANONICAL_META).
  - vm_compute. reflexivity.
  - apply (@canonical_decodes {| usize_bits := 64 |}). by right.
Defined.
