(* ===== verification/Durable.v ===== *)
(** * Durable: the kernel's ledger state in the durable store

    [DurableLedgerState] of [tezos/rollup-kernel/src/lib.rs]: the readers and writers of
    its cells, its [LedgerState] implementation, and the staged commits of shields and
    unshields, which compute every write before the first one is made.  A [u64] counter
    is incremented as in a release build, modulo 2^64. *)

From S2P Require Import Prelude Felt Externals Types Hashing Merkle Ledger CanonicalWire.
From S2P Require Import Utf8 Store.

Local Open Scope N_scope.

Definition MAX_INPUT_BYTES : N := 16 * 1024.
Definition MAX_LEDGER_STATE_BYTES : N := 4 * 1024 * 1024.
Definition MAX_STORE_STRING_BYTES : N := 256.
Definition MAX_STORE_BINARY_BYTES : N := 1024.
Definition MAX_STORED_INPUT_PAYLOAD_BYTES : N := 2048.
Definition MAX_NOTE_CHUNK_BYTES : nat := 1024.

Record DurableLedgerState (Hst : Type) := {
  dl_host : Hst;
  dl_zero_hashes : list F
}.
Arguments dl_host {_} _.
Arguments dl_zero_hashes {_} _.

Section Durable.
Context `{Blake2s, Hex, Target, Tze WirePublishedNote}.
Context {Hst : Type} `{!Host Hst}.
#[local] Abbreviation DLS := (DurableLedgerState Hst).

(** ** Cells *)

Definition map_host (f : Hst -> Hst) (self : DLS) : DLS :=
  {| dl_host := f (dl_host self); dl_zero_hashes := dl_zero_hashes self |}.

Definition d_read_u64 (self : DLS) (path : bytes) : result (option N) :=
  match host_read_store (dl_host self) path 8 with
  | None => Ok None
  | Some b =>
      fail_if (negb (length b =? 8)%nat) ("bad u64 at " +:+ bytes_str path) ;;
      mret (Some (le_val b))
  end.

Definition d_write_u64 (path : bytes) (value : N) : DLS -> DLS :=
  map_host (host_write_store path (u64_le value)).

Definition d_read_felt (self : DLS) (path : bytes) : result (option F) :=
  match host_read_store (dl_host self) path 32 with
  | None => Ok None
  | Some b =>
      fail_if (negb (length b =? 32)%nat) ("bad felt at " +:+ bytes_str path) ;;
      mret (Some (mkF b))
  end.

Definition d_write_felt (path : bytes) (value : F) : DLS -> DLS :=
  map_host (host_write_store path (F_bytes value)).

Definition d_read_string (self : DLS) (path : bytes) (max_bytes : N) : result (option string) :=
  match host_read_store (dl_host self) path (N.min max_bytes MAX_STORE_STRING_BYTES) with
  | None => Ok None
  | Some b =>
      s ← ok_or (from_utf8 b) ("invalid UTF-8 at " +:+ bytes_str path);
      mret (Some s)
  end.

Definition d_write_string (path : bytes) (value : string) : DLS -> DLS :=
  map_host (host_write_store path (str_bytes value)).

Definition d_write_marker (path : bytes) : DLS -> DLS :=
  map_host (host_write_store path [Byte.x01]).

Definition d_has_marker (self : DLS) (path : bytes) : bool :=
  bool_decide (is_Some (host_read_store (dl_host self) path 1)).

Definition d_write_key_at_index (prefix : bytes) (index : N) (k : F) : DLS -> DLS :=
  map_host (host_write_store (indexed_path prefix index) (F_bytes k)).

(** ** Withdrawal records *)

Definition encode_withdrawal_record (record : WithdrawalRecord) : bytes :=
  let recipient := str_bytes (wr_recipient record) in
  u64_le (wr_amount record) ++
  le_bytes 4 (N.min (N.of_nat (length recipient)) (U32_LIMIT - 1)) ++ recipient.

Definition decode_withdrawal_record (b : bytes) : result WithdrawalRecord :=
  fail_if (length b <? 12)%nat "withdrawal record too short" ;;
  let amount := le_val (take 8 b) in
  let recipient_len := le_val (take 4 (drop 8 b)) in
  fail_if (negb (N.of_nat (length b) =? (12 + recipient_len) mod usize_limit))
    "withdrawal record length mismatch" ;;
  recipient ← ok_or (from_utf8 (drop 12 b)) "withdrawal recipient is not UTF-8";
  mret {| wr_recipient := recipient; wr_amount := amount |}.

Definition d_write_withdrawal_at_index (index : N) (record : WithdrawalRecord) : DLS -> DLS :=
  map_host (host_write_store (indexed_path PATH_WITHDRAWAL_PREFIX index)
              (encode_withdrawal_record record)).

(** ** Initialisation *)

Definition compute_zero_hashes : list F :=
  foldl (fun z i => z ++ [hash_merkle (z !!! i) (z !!! i)]) [ZERO] (seq 0 DEPTH).

(** [if self.host.read_store(path, n).is_none() { write }]. *)
Definition init_cell (path : bytes) (n : N) (write : DLS -> DLS) : ST DLS unit :=
  writes (fun self =>
    match host_read_store (dl_host self) path n with None => write self | Some _ => self end).

Definition ensure_initialized : ST DLS unit :=
  init_cell PATH_AUTH_DOMAIN 32 (d_write_felt PATH_AUTH_DOMAIN default_auth_domain) ;;
  init_cell PATH_TREE_SIZE 8 (d_write_u64 PATH_TREE_SIZE 0) ;;
  init_cell PATH_TREE_ROOT 32
    (fun self => d_write_felt PATH_TREE_ROOT (dl_zero_hashes self !!! DEPTH) self) ;;
  init_cell PATH_NULLIFIER_COUNT 8 (d_write_u64 PATH_NULLIFIER_COUNT 0) ;;
  init_cell PATH_WITHDRAWAL_COUNT 8 (d_write_u64 PATH_WITHDRAWAL_COUNT 0) ;;
  absent ← reads (fun self =>
    mret (bool_decide (host_read_store (dl_host self) PATH_VALID_ROOT_COUNT 8 = None)));
  if absent : bool then
    stored ← reads (fun self => d_read_felt self PATH_TREE_ROOT);
    root ← reads (fun self => mret (default (dl_zero_hashes self !!! DEPTH) stored));
    writes (d_write_marker (root_marker_path root)) ;;
    writes (d_write_key_at_index PATH_VALID_ROOT_INDEX_PREFIX 0 root) ;;
    writes (d_write_u64 PATH_VALID_ROOT_COUNT 1)
  else mret tt.

Definition DurableLedgerState_new (host : Hst) : Hst * result DLS :=
  let '(self, r) :=
    ensure_initialized {| dl_host := host; dl_zero_hashes := compute_zero_hashes |} in
  (dl_host self, r ;; mret self).

(** ** Fees *)

Definition current_private_tx_count_in_level (self : DLS) : result N :=
  match read_i32 (dl_host self) PATH_LAST_INPUT_LEVEL,
        read_i32 (dl_host self) PATH_PRIVATE_TX_FEE_LEVEL with
  | Some current_level, Some stored_level =>
      if negb (stored_level =? current_level)%Z then mret 0
      else
        count ← d_read_u64 self PATH_PRIVATE_TX_COUNT_IN_LEVEL;
        mret (default 0 count)
  | _, _ => mret 0
  end.

Definition d_note_private_tx_applied (self : DLS) : DLS :=
  match read_i32 (dl_host self) PATH_LAST_INPUT_LEVEL with
  | None => self
  | Some current_level =>
      let next :=
        wrapping_add_u64 (match current_private_tx_count_in_level self with Ok n => n | _ => 0 end) 1 in
      map_host (host_write_store PATH_PRIVATE_TX_COUNT_IN_LEVEL (u64_le next))
        (map_host (host_write_store PATH_PRIVATE_TX_FEE_LEVEL (i32_le current_level)) self)
  end.

(** ** Notes *)

Definition write_note_payload (index : N) (encoded : bytes) (host : Hst) : Hst :=
  if (length encoded <=? MAX_NOTE_CHUNK_BYTES)%nat
  then host_write_store (note_path index) encoded host
  else
    let host :=
      host_write_store (note_length_path index) (u64_le (N.of_nat (length encoded))) host in
    foldl (fun host '(chunk_index, chunk) =>
             host_write_store (note_chunk_path index (N.of_nat chunk_index)) chunk host)
      host (imap pair (chunks MAX_NOTE_CHUNK_BYTES encoded)).

Definition read_persisted_note (host : Hst) (index : N) : option bytes :=
  match host_read_store host (note_path index) MAX_LEDGER_STATE_BYTES with
  | Some b => Some b
  | None =>
      len_bytes ← host_read_store host (note_length_path index) 8;
      if negb (length len_bytes =? 8)%nat then None
      else
        total_len ← to_usize (le_val len_bytes);
        if MAX_LEDGER_STATE_BYTES <? total_len then None
        else
          let total_len := N.to_nat total_len in
          let chunk_count := div_ceil total_len MAX_NOTE_CHUNK_BYTES in
          parts ← mapM (fun chunk_index =>
            host_read_store host (note_chunk_path index (N.of_nat chunk_index))
              (N.of_nat MAX_NOTE_CHUNK_BYTES)) (seq 0 chunk_count);
          let b := concat parts in
          if negb (length b =? total_len)%nat then None else Some b
  end.

(** The loop of [append_note], over the branches in the store. *)
Fixpoint append_loop (levels : list nat) (index : N) (current : F) : ST DLS F :=
  match levels with
  | [] => mret current
  | level :: levels =>
      current ←
        (if N.land index 1 =? 0 then
           writes (d_write_felt (branch_path level) current) ;;
           reads (fun self => mret (hash_merkle current (dl_zero_hashes self !!! level)))
         else
           slot ← reads (fun self => d_read_felt self (branch_path level));
           left ← lift (ok_or slot ("missing Merkle frontier at level " +:+ show_nat level));
           mret (hash_merkle left current));
      append_loop levels (N.shiftr index 1) current
  end.

Definition d_append_note (cm : F) (enc : EncryptedNote) : ST DLS N :=
  stored ← reads (fun self => d_read_u64 self PATH_TREE_SIZE);
  let count := default 0 stored in
  lift (fail_if (N.shiftl 1 (N.of_nat DEPTH) <=? count)
    ("Merkle tree full: 2^" +:+ show_nat DEPTH +:+ " leaves")) ;;
  encoded ← lift (encode_published_note cm enc);
  writes (map_host (write_note_payload count encoded)) ;;
  current ← append_loop (seq 0 DEPTH) count cm;
  writes (d_write_felt PATH_TREE_ROOT current) ;;
  writes (d_write_u64 PATH_TREE_SIZE (wrapping_add_u64 count 1)) ;;
  lift (ok_or (to_usize count) "note index does not fit in usize").

Definition d_ensure_note_capacity (self : DLS) (additional : N) : result unit :=
  stored ← d_read_u64 self PATH_TREE_SIZE;
  let count := default 0 stored in
  additional ← ok_or (to_u64 additional) "note capacity does not fit in u64";
  next ← ok_or (checked_add_u64 count additional) "Merkle tree size overflow";
  fail_if (N.shiftl 1 (N.of_nat DEPTH) <? next)
    ("Merkle tree full: 2^" +:+ show_nat DEPTH +:+ " leaves").

(** ** Nullifiers, roots, withdrawals *)

Definition d_insert_nullifier (nf : F) : ST DLS unit :=
  let path := nullifier_path nf in
  marked ← reads (fun self => mret (d_has_marker self path));
  if marked : bool then mret tt
  else
    stored ← reads (fun self => d_read_u64 self PATH_NULLIFIER_COUNT);
    let index := default 0 stored in
    writes (d_write_marker path) ;;
    writes (d_write_key_at_index PATH_NULLIFIER_INDEX_PREFIX index nf) ;;
    writes (d_write_u64 PATH_NULLIFIER_COUNT (wrapping_add_u64 index 1)).

Definition d_snapshot_root : ST DLS unit :=
  stored ← reads (fun self => d_read_felt self PATH_TREE_ROOT);
  root ← lift (ok_or stored "missing tree root");
  let path := root_marker_path root in
  marked ← reads (fun self => mret (d_has_marker self path));
  if marked : bool then mret tt
  else
    count ← reads (fun self => d_read_u64 self PATH_VALID_ROOT_COUNT);
    let index := default 0 count in
    writes (d_write_marker path) ;;
    writes (d_write_key_at_index PATH_VALID_ROOT_INDEX_PREFIX index root) ;;
    writes (d_write_u64 PATH_VALID_ROOT_COUNT (wrapping_add_u64 index 1)).

Definition d_enqueue_withdrawal (recipient : string) (amount : N) : ST DLS N :=
  stored ← reads (fun self => d_read_u64 self PATH_WITHDRAWAL_COUNT);
  let index := default 0 stored in
  writes (d_write_withdrawal_at_index index {| wr_recipient := recipient; wr_amount := amount |}) ;;
  writes (d_write_u64 PATH_WITHDRAWAL_COUNT (wrapping_add_u64 index 1)) ;;
  lift (ok_or (to_usize index) "withdrawal index does not fit in usize").

(** ** Deposit pools *)

(** A stored balance: absent, drained (empty), or eight bytes. *)
Definition parse_balance (path : bytes) (stored : option bytes) : result (option N) :=
  match stored with
  | None | Some [] => Ok None
  | Some b =>
      fail_if (negb (length b =? 8)%nat) ("bad u64 at " +:+ bytes_str path) ;;
      mret (Some (le_val b))
  end.

Definition d_deposit_balance (self : DLS) (pubkey_hash : F) : result (option N) :=
  let path := deposit_balance_path pubkey_hash in
  parse_balance path (host_read_store (dl_host self) path 8).

Definition d_credit_deposit (pubkey_hash : F) (amount : N) : ST DLS unit :=
  let path := deposit_balance_path pubkey_hash in
  stored ← reads (fun self => parse_balance path (host_read_store (dl_host self) path 8));
  let current := default 0 stored in
  next ← lift (ok_or (checked_add_u64 current amount) "deposit balance overflow");
  writes (map_host (host_write_store path (u64_le next))).

Definition write_balance (path : bytes) (next : N) : DLS -> DLS :=
  map_host (host_write_store path (if next =? 0 then [] else u64_le next)).

Definition d_debit_deposit (pubkey_hash : F) (amount : N) : ST DLS unit :=
  let path := deposit_balance_path pubkey_hash in
  let missing := "deposit pool " +:+ hex_str pubkey_hash +:+ " does not exist" in
  stored ← reads (fun self => mret (host_read_store (dl_host self) path 8));
  raw ← lift (ok_or stored missing);
  lift (fail_if (bool_decide (raw = [])) missing) ;;
  lift (fail_if (negb (length raw =? 8)%nat) ("bad u64 at " +:+ bytes_str path)) ;;
  let current := le_val raw in
  lift (fail_if (current <? amount)
    ("deposit pool " +:+ hex_str pubkey_hash +:+ " balance " +:+ show_N current +:+
     " too small to debit " +:+ show_N amount)) ;;
  writes (write_balance path (current - amount)).

#[export] Instance Durable_state : LedgerState DLS := {|
  ls_auth_domain := fun self =>
    stored ← d_read_felt self PATH_AUTH_DOMAIN; ok_or stored "missing auth_domain";
  ls_required_tx_fee := fun self =>
    n ← current_private_tx_count_in_level self; mret (required_tx_fee_for_private_tx_count n);
  ls_has_valid_root := fun self root => Ok (d_has_marker self (root_marker_path root));
  ls_has_nullifier := fun self nf => Ok (d_has_marker self (nullifier_path nf));
  ls_insert_nullifier := d_insert_nullifier;
  ls_ensure_note_capacity := d_ensure_note_capacity;
  ls_append_note := d_append_note;
  ls_snapshot_root := d_snapshot_root;
  ls_enqueue_withdrawal := d_enqueue_withdrawal;
  ls_note_private_tx_applied := d_note_private_tx_applied;
  ls_deposit_balance := d_deposit_balance;
  ls_credit_deposit := d_credit_deposit;
  ls_debit_deposit := d_debit_deposit;
  ls_has_applied_shield := fun self cm => Ok (d_has_marker self (applied_shield_path cm));
  ls_mark_applied_shield := fun cm => writes (d_write_marker (applied_shield_path cm))
|}.

(** ** Staged commits *)

Record PreparedDurableUnshieldCommit := {
  uc_encoded_notes : list (N * bytes);
  uc_branch_values : list (nat * F);
  uc_new_tree_root : F;
  uc_new_tree_size : N;
  uc_nullifier_start_index : N;
  uc_nullifiers : list F;
  uc_withdrawal_index : N;
  uc_withdrawal_record : WithdrawalRecord;
  uc_root_marker : option (N * F);
  uc_response : UnshieldResp
}.

Record PreparedDurableShieldCommit := {
  sc_encoded_notes : list (N * bytes);
  sc_branch_values : list (nat * F);
  sc_new_tree_root : F;
  sc_new_tree_size : N;
  sc_balance_path : bytes;
  sc_new_balance : N;
  sc_root_marker : option (N * F);
  sc_applied_shield_path : bytes;
  sc_response : ShieldResp
}.

Definition read_branches (self : DLS) : result (list (option F)) :=
  map_result (fun level => d_read_felt self (branch_path level)) (seq 0 DEPTH).

(** One planned append: the encoded note and its index, on a copy of the frontier. *)
Definition plan_append (self : DLS) (index : N) (cm : F) (enc : EncryptedNote)
    (branches : list (option F)) : result (list (option F) * (N * bytes) * F) :=
  encoded ← encode_published_note cm enc;
  let '(branches, r) := simulate_frontier_append (dl_zero_hashes self) index cm branches in
  root ← r;
  mret (branches, (index, encoded), root).

Definition branch_values (branches : list (option F)) : list (nat * F) :=
  omap (fun '(level, value) => pair level <$> value) (imap pair branches).

Definition plan_root_marker (self : DLS) (next_root : F) : result (option (N * F)) :=
  if d_has_marker self (root_marker_path next_root) then mret None
  else
    count ← d_read_u64 self PATH_VALID_ROOT_COUNT;
    mret (Some (default 0 count, next_root)).

Definition note_index (index : N) : result N :=
  ok_or (to_usize index) "note index does not fit in usize".

Definition prepare_durable_unshield_commit (self : DLS) (prepared : PreparedUnshield)
    : result PreparedDurableUnshieldCommit :=
  branches ← read_branches self;
  stored ← d_read_u64 self PATH_TREE_SIZE;
  let tree_size := default 0 stored in
  assert_frontier_matches_tree_size branches tree_size ;;
  '(branches, tree_size, change_notes, change_index) ←
    match pu_change_note prepared with
    | Some (cm, enc) =>
        '(branches, note, _) ← plan_append self tree_size cm enc branches;
        index ← note_index tree_size;
        mret (branches, wrapping_add_u64 tree_size 1, [note], Some index)
    | None => mret (branches, tree_size, [], None)
    end;
  let producer_index_u64 := tree_size in
  '(branches, note, next_root) ←
    plan_append self producer_index_u64 (fst (pu_producer_note prepared))
      (snd (pu_producer_note prepared)) branches;
  let tree_size := wrapping_add_u64 tree_size 1 in
  nullifier_count ← d_read_u64 self PATH_NULLIFIER_COUNT;
  withdrawal_count ← d_read_u64 self PATH_WITHDRAWAL_COUNT;
  root_marker ← plan_root_marker self next_root;
  producer_index ← note_index producer_index_u64;
  mret {| uc_encoded_notes := change_notes ++ [note];
          uc_branch_values := branch_values branches;
          uc_new_tree_root := next_root;
          uc_new_tree_size := tree_size;
          uc_nullifier_start_index := default 0 nullifier_count;
          uc_nullifiers := pu_nullifiers prepared;
          uc_withdrawal_index := default 0 withdrawal_count;
          uc_withdrawal_record :=
            {| wr_recipient := pu_recipient prepared; wr_amount := pu_amount prepared |};
          uc_root_marker := root_marker;
          uc_response := {| up_change_index := change_index; up_producer_index := producer_index |}
       |}.

Definition prepare_durable_shield_commit (self : DLS) (prepared : PreparedShield)
    : result PreparedDurableShieldCommit :=
  let balance_path := deposit_balance_path (ps_pubkey_hash prepared) in
  let missing := "no deposit pool for pubkey_hash " +:+ hex_str (ps_pubkey_hash prepared) +:+
    "; submit an L1 bridge deposit first" in
  balance_bytes ← ok_or (host_read_store (dl_host self) balance_path 8) missing;
  fail_if (bool_decide (balance_bytes = [])) missing ;;
  fail_if (negb (length balance_bytes =? 8)%nat) ("bad u64 at " +:+ bytes_str balance_path) ;;
  let balance := le_val balance_bytes in
  fail_if (balance <? ps_debit prepared)
    ("deposit pool " +:+ hex_str (ps_pubkey_hash prepared) +:+ " balance " +:+ show_N balance +:+
     " too small for v + fee + producer_fee = " +:+ show_N (ps_debit prepared)) ;;
  let new_balance := balance - ps_debit prepared in
  let shield_path := applied_shield_path (ps_client_cm prepared) in
  fail_if (d_has_marker self shield_path)
    ("shield replay: cm " +:+ hex_str (ps_client_cm prepared) +:+ " already applied") ;;
  branches ← read_branches self;
  stored ← d_read_u64 self PATH_TREE_SIZE;
  let tree_size := default 0 stored in
  assert_frontier_matches_tree_size branches tree_size ;;
  let client_index_u64 := tree_size in
  '(branches, client_note, _) ←
    plan_append self client_index_u64 (ps_client_cm prepared) (ps_client_enc prepared) branches;
  let tree_size := wrapping_add_u64 tree_size 1 in
  client_index ← note_index client_index_u64;
  let producer_index_u64 := tree_size in
  '(branches, producer_note, next_root) ←
    plan_append self producer_index_u64 (ps_producer_cm prepared) (ps_producer_enc prepared)
      branches;
  let tree_size := wrapping_add_u64 tree_size 1 in
  producer_index ← note_index producer_index_u64;
  root_marker ← plan_root_marker self next_root;
  mret {| sc_encoded_notes := [client_note; producer_note];
          sc_branch_values := branch_values branches;
          sc_new_tree_root := next_root;
          sc_new_tree_size := tree_size;
          sc_balance_path := balance_path;
          sc_new_balance := new_balance;
          sc_root_marker := root_marker;
          sc_applied_shield_path := shield_path;
          sc_response := {| sp_cm := ps_client_cm prepared; sp_index := client_index;
                            sp_producer_cm := ps_producer_cm prepared;
                            sp_producer_index := producer_index |} |}.

Definition write_encoded_notes (notes : list (N * bytes)) (self : DLS) : DLS :=
  foldl (fun self '(index, encoded) => map_host (write_note_payload index encoded) self)
    self notes.

Definition write_branches (values : list (nat * F)) (self : DLS) : DLS :=
  foldl (fun self '(level, felt) => d_write_felt (branch_path level) felt self) self values.

Definition write_root_marker (marker : option (N * F)) (self : DLS) : DLS :=
  match marker with
  | None => self
  | Some (root_index, root) =>
      d_write_u64 PATH_VALID_ROOT_COUNT (wrapping_add_u64 root_index 1)
        (d_write_key_at_index PATH_VALID_ROOT_INDEX_PREFIX root_index root
          (d_write_marker (root_marker_path root) self))
  end.

(** The loop over the spent nullifiers, with the index it ends at. *)
Definition write_nullifiers (start : N) (nullifiers : list F) (self : DLS) : DLS * N :=
  foldl (fun '(self, index) nf =>
           (d_write_key_at_index PATH_NULLIFIER_INDEX_PREFIX index nf
              (d_write_marker (nullifier_path nf) self), wrapping_add_u64 index 1))
    (self, start) nullifiers.

Definition apply_durable_unshield_commit (commit : PreparedDurableUnshieldCommit) (self : DLS)
    : DLS * UnshieldResp :=
  let self := write_encoded_notes (uc_encoded_notes commit) self in
  let self := write_branches (uc_branch_values commit) self in
  let self := d_write_felt PATH_TREE_ROOT (uc_new_tree_root commit) self in
  let self := d_write_u64 PATH_TREE_SIZE (uc_new_tree_size commit) self in
  let '(self, nullifier_index) :=
    write_nullifiers (uc_nullifier_start_index commit) (uc_nullifiers commit) self in
  let self := d_write_u64 PATH_NULLIFIER_COUNT nullifier_index self in
  let self := d_write_withdrawal_at_index (uc_withdrawal_index commit)
                (uc_withdrawal_record commit) self in
  let self := d_write_u64 PATH_WITHDRAWAL_COUNT
                (wrapping_add_u64 (uc_withdrawal_index commit) 1) self in
  let self := write_root_marker (uc_root_marker commit) self in
  (d_note_private_tx_applied self, uc_response commit).

Definition apply_durable_shield_commit (commit : PreparedDurableShieldCommit) (self : DLS)
    : DLS * ShieldResp :=
  let self := write_balance (sc_balance_path commit) (sc_new_balance commit) self in
  let self := d_write_marker (sc_applied_shield_path commit) self in
  let self := write_encoded_notes (sc_encoded_notes commit) self in
  let self := write_branches (sc_branch_values commit) self in
  let self := d_write_felt PATH_TREE_ROOT (sc_new_tree_root commit) self in
  let self := d_write_u64 PATH_TREE_SIZE (sc_new_tree_size commit) self in
  let self := write_root_marker (sc_root_marker commit) self in
  (d_note_private_tx_applied self, sc_response commit).
End Durable.
