(* ===== verification/DurableCells.v ===== *)
(** * DurableCells: the durable store, key by key

    [get] reads a key of the store a ledger state holds and [dset] writes one; every
    reader and writer of [Durable] is one of them at a path, and writes to different
    keys do not interfere.  [to_keys] turns the kernel's path constants into keys. *)

From S2P Require Import Prelude Felt Externals Types Hashing Merkle Ledger CanonicalWire.
From S2P Require Import Utf8 Store StoreKeys Durable.

Local Open Scope N_scope.

Create HintDb key_ok.
#[export] Hint Extern 1 (key_ok _) => exact I : key_ok.
#[export] Hint Extern 2 (key_ok _) => cbn [key_ok]; first [assumption | lia] : key_ok.

Section Cells.
Context `{HexLaws, HostLaws Hst}.
#[local] Abbreviation DLS := (DurableLedgerState Hst).
Implicit Types s : DLS.

Definition get s (k : key) : option bytes := host_store (dl_host s) !! key_path k.

Definition dset (k : key) (v : bytes) (s : DLS) : DLS :=
  map_host (host_write_store (key_path k) v) s.

Lemma get_dset_eq k v s : get (dset k v s) k = Some v.
Proof. unfold get, dset. cbn. by rewrite host_write_store_eq, lookup_insert_eq. Qed.

Lemma get_dset_ne k k' v s :
  key_ok k -> key_ok k' -> k <> k' -> get (dset k v s) k' = get s k'.
Proof.
  intros Hk Hk' Hne. unfold get, dset. cbn. rewrite host_write_store_eq, lookup_insert_ne; [done|].
  intros E. by apply Hne, key_path_inj.
Qed.

Lemma dset_zero_hashes k v s : dl_zero_hashes (dset k v s) = dl_zero_hashes s.
Proof. done. Qed.

(** What a host has sent, and what it has yet to hand out. *)
Definition host_io (h : Hst) : list bytes * list InputMessage := (host_outbox h, host_inbox h).

Lemma write_io p v h : host_io (host_write_store p v h) = host_io h.
Proof. unfold host_io. by rewrite host_write_outbox, host_write_inbox. Qed.

Lemma debug_io m h : host_io (host_write_debug m h) = host_io h.
Proof. unfold host_io. by rewrite host_debug_outbox, host_debug_inbox. Qed.

Lemma dset_io k v s : host_io (dl_host (dset k v s)) = host_io (dl_host s).
Proof. apply write_io. Qed.

(** ** Writers *)

Lemma write_u64_dset k n : d_write_u64 (key_path k) n = dset k (u64_le n). Proof. done. Qed.
Lemma write_felt_dset k f : d_write_felt (key_path k) f = dset k (F_bytes f). Proof. done. Qed.
Lemma write_marker_dset k : d_write_marker (key_path k) = dset k [Byte.x01]. Proof. done. Qed.
Lemma write_host_dset k v : map_host (host_write_store (key_path k) v) = dset k v.
Proof. done. Qed.
Lemma write_nullifier_at i f :
  d_write_key_at_index PATH_NULLIFIER_INDEX_PREFIX i f = dset (KNullifierAt i) (F_bytes f).
Proof. done. Qed.
Lemma write_root_at i f :
  d_write_key_at_index PATH_VALID_ROOT_INDEX_PREFIX i f = dset (KRootAt i) (F_bytes f).
Proof. done. Qed.
Lemma write_withdrawal_at i r :
  d_write_withdrawal_at_index i r = dset (KWithdrawal i) (encode_withdrawal_record r).
Proof. done. Qed.
Lemma write_balance_dset k n :
  write_balance (key_path k) n = dset k (if n =? 0 then [] else u64_le n).
Proof. done. Qed.

(** ** Readers *)

Lemma read_get s k n : host_read_store (dl_host s) (key_path k) n = take (N.to_nat n) <$> get s k.
Proof. apply host_read. Qed.

Lemma le_val_u64 n : is_u64 n -> le_val (u64_le n) = n.
Proof. apply u64_le_roundtrip. Qed.

Lemma read_u64_None s k : get s k = None -> d_read_u64 s (key_path k) = Ok None.
Proof. intros E. unfold d_read_u64. by rewrite read_get, E. Qed.

Lemma read_u64_Some s k n :
  is_u64 n -> get s k = Some (u64_le n) -> d_read_u64 s (key_path k) = Ok (Some n).
Proof.
  intros Hn E. unfold d_read_u64. rewrite read_get, E. cbn [fmap option_fmap option_map].
  change (N.to_nat 8) with 8%nat. rewrite take_ge by by rewrite length_u64_le.
  rewrite length_u64_le. cbn [Nat.eqb negb fail_if mbind result_bind].
  by rewrite le_val_u64.
Qed.

Lemma read_felt_get s k (o : option F) :
  get s k = F_bytes <$> o -> d_read_felt s (key_path k) = Ok o.
Proof.
  intros E. unfold d_read_felt. rewrite read_get, E. destruct o as [f|]; [|done].
  cbn [fmap option_fmap option_map]. change (N.to_nat 32) with 32%nat.
  rewrite take_ge by by rewrite length_F_bytes. rewrite length_F_bytes.
  cbn [Nat.eqb negb fail_if mbind result_bind]. by rewrite mkF_F_bytes.
Qed.

Lemma has_marker_get s k : d_has_marker s (key_path k) = bool_decide (is_Some (get s k)).
Proof.
  unfold d_has_marker. rewrite read_get. apply bool_decide_ext. by rewrite fmap_is_Some.
Qed.

Lemma read_balance_get s k :
  match get s k with
  | None | Some [] => parse_balance (key_path k) (host_read_store (dl_host s) (key_path k) 8) = Ok None
  | Some b => forall n, is_u64 n -> b = u64_le n ->
      parse_balance (key_path k) (host_read_store (dl_host s) (key_path k) 8) = Ok (Some n)
  end.
Proof.
  rewrite read_get. change (N.to_nat 8) with 8%nat. destruct (get s k) as [[|c b]|]; [done| |done].
  intros n Hn E. cbn [fmap option_fmap option_map]. rewrite E.
  rewrite take_ge by by rewrite length_u64_le. rewrite <-E. cbn [parse_balance]. rewrite E.
  rewrite length_u64_le. cbn [Nat.eqb negb fail_if mbind result_bind]. by rewrite le_val_u64.
Qed.

(** ** Frames *)

(** [s'] differs from [s] only on [touched] keys, and holds the same zero hashes,
    outbox and inbox. *)
Record framed (touched : key -> Prop) s s' : Prop := {
  fr_get : forall k, key_ok k -> ~ touched k -> get s' k = get s k;
  fr_zero : dl_zero_hashes s' = dl_zero_hashes s;
  fr_io : host_io (dl_host s') = host_io (dl_host s)
}.

Lemma framed_refl T s : framed T s s.
Proof. by constructor. Qed.

Lemma framed_trans T s1 s2 s3 : framed T s1 s2 -> framed T s2 s3 -> framed T s1 s3.
Proof.
  intros [G1 Z1 O1] [G2 Z2 O2]. constructor; [|congruence..].
  intros k Hk Hn. by rewrite G2, G1.
Qed.

Lemma framed_mono (T T' : key -> Prop) s s' :
  (forall k, T k -> T' k) -> framed T s s' -> framed T' s s'.
Proof. intros HT [G Z O]. constructor; [|done..]. intros k Hk Hn. apply G; auto. Qed.

Lemma framed_dset (T : key -> Prop) k v s : key_ok k -> T k -> framed T s (dset k v s).
Proof.
  intros Hk HT. constructor; [|done|apply dset_io].
  intros k' Hk' Hn. apply get_dset_ne; [done..|]. by intros ->.
Qed.

Lemma framed_dset_r (T : key -> Prop) k v s s' :
  key_ok k -> T k -> framed T s s' -> framed T s (dset k v s').
Proof. intros Hk HT Hf. eapply framed_trans; [exact Hf|]. by apply framed_dset. Qed.
End Cells.

(** Turns the kernel's path constants into keys. *)
Ltac to_keys :=
  change PATH_AUTH_DOMAIN with (key_path (KCell CAuthDomain));
  change PATH_TREE_SIZE with (key_path (KCell CTreeSize));
  change PATH_TREE_ROOT with (key_path (KCell CTreeRoot));
  change PATH_NULLIFIER_COUNT with (key_path (KCell CNullifierCount));
  change PATH_VALID_ROOT_COUNT with (key_path (KCell CValidRootCount));
  change PATH_WITHDRAWAL_COUNT with (key_path (KCell CWithdrawalCount));
  change PATH_PRIVATE_TX_FEE_LEVEL with (key_path (KCell CFeeLevel));
  change PATH_PRIVATE_TX_COUNT_IN_LEVEL with (key_path (KCell CFeeCount));
  change PATH_LAST_INPUT_LEVEL with (key_path (KCell CLastInputLevel));
  repeat match goal with
  | |- context [branch_path ?l] => change (branch_path l) with (key_path (KBranch l))
  | |- context [nullifier_path ?f] => change (nullifier_path f) with (key_path (KNullifier f))
  | |- context [root_marker_path ?f] => change (root_marker_path f) with (key_path (KRoot f))
  | |- context [deposit_balance_path ?f] =>
      change (deposit_balance_path f) with (key_path (KBalance f))
  | |- context [applied_shield_path ?f] =>
      change (applied_shield_path f) with (key_path (KShield f))
  | |- context [note_length_path ?i] => change (note_length_path i) with (key_path (KNoteLen i))
  | |- context [note_chunk_path ?i ?c] =>
      change (note_chunk_path i c) with (key_path (KNoteChunk i c))
  | |- context [note_path ?i] => change (note_path i) with (key_path (KNote i))
  end;
  rewrite ?write_u64_dset, ?write_felt_dset, ?write_marker_dset, ?write_host_dset,
    ?write_nullifier_at, ?write_root_at, ?write_withdrawal_at, ?write_balance_dset.

(** Evaluates [get] through a stack of writes to known keys. *)
Ltac get_simpl :=
  repeat first
    [ rewrite get_dset_eq
    | rewrite get_dset_ne by (first [congruence | auto with key_ok]) ].
