(* ===== verification/DurableRepr.v ===== *)
(** * DurableRepr: what a durable store represents

    [repr] relates the keys of a store to an abstract ledger [View]; [view_of] computes
    the view from the store, so a store represents at most one.  The store determines
    everything the ledger's transitions look at. *)

From S2P Require Import Prelude Felt Externals Concrete Recipients Types Hashing Outputs.
From S2P Require Import Merkle Ledger LedgerSpec CanonicalWire Utf8 Store StoreKeys Durable.
From S2P Require Import DurableCells.

Local Open Scope N_scope.

(** What the kernel relies on of the published-note codec: a well-formed note encodes,
    within the size the kernel reads back, and its encoding decodes to it. *)
Class PublishedCodec `{Tze WirePublishedNote} : Prop := {
  published_encodes : forall cm enc, note_shape enc -> exists b,
    encode_published_note cm enc = Ok b /\ N.of_nat (length b) <= MAX_LEDGER_STATE_BYTES;
  published_decodes : forall cm enc b,
    encode_published_note cm enc = Ok b -> decode_published_note b = Ok (cm, enc)
}.

(** The sizes that the indices of the durable layout and of the responses can number. *)
Definition INDEX_LIMIT `{Target} : N := N.min usize_limit (U64_LIMIT - 1).

Definition TREE_CAPACITY : N := 2 ^ N.of_nat DEPTH.

(** ** Groups of keys

    Every operation writes keys of one group, or of one group after the other. *)

Inductive group := GTree | GNullifiers | GRoots | GWithdrawals | GBalances | GShields | GFees
  | GOther.

#[export] Instance group_eq_dec : EqDecision group.
Proof. solve_decision. Defined.

Definition key_group (k : key) : group :=
  match k with
  | KCell CTreeSize | KCell CTreeRoot | KBranch _ | KNote _ | KNoteLen _ | KNoteChunk _ _ => GTree
  | KCell CNullifierCount | KNullifierAt _ | KNullifier _ => GNullifiers
  | KCell CValidRootCount | KRootAt _ | KRoot _ => GRoots
  | KCell CWithdrawalCount | KWithdrawal _ => GWithdrawals
  | KBalance _ => GBalances
  | KShield _ => GShields
  | KCell CFeeLevel | KCell CFeeCount => GFees
  | KCell _ => GOther
  end.

Definition in_group (G : group) (k : key) : Prop := key_group k = G.

(** Two stores that hold the same values at the keys of a group. *)
Definition agree (G : group) (g g' : key -> option bytes) : Prop :=
  forall k, key_ok k -> in_group G k -> g' k = g k.

(** ** The relation *)

Section Repr.
Context `{Blake2s, HexLaws, Target, Tze WirePublishedNote}.

(** A note's encoding, whole or in chunks. *)
Definition payload_at (g : key -> option bytes) (i : N) (b : bytes) : Prop :=
  if (length b <=? MAX_NOTE_CHUNK_BYTES)%nat then g (KNote i) = Some b
  else
    g (KNote i) = None /\ g (KNoteLen i) = Some (u64_le (N.of_nat (length b))) /\
    forall c chunk, chunks MAX_NOTE_CHUNK_BYTES b !! c = Some chunk ->
      g (KNoteChunk i (N.of_nat c)) = Some chunk.

Definition note_at (g : key -> option bytes) (i : N) (note : F * EncryptedNote) : Prop :=
  exists b, encode_published_note (fst note) (snd note) = Ok b /\
    N.of_nat (length b) <= MAX_LEDGER_STATE_BYTES /\ payload_at g i b.

Definition frontier_at (g : key -> option bytes) (br : list (option F)) : Prop :=
  forall l, (l < DEPTH)%nat -> g (KBranch l) = F_bytes <$> mjoin (br !! l).

(** The tree, and the notes published for its leaves. *)
Record tree_repr (g : key -> option bytes) (notes : list (F * EncryptedNote)) : Prop := {
  t_size : g (KCell CTreeSize) = Some (u64_le (N.of_nat (length notes)));
  t_root : g (KCell CTreeRoot) = Some (F_bytes (tree_root (from_leaves (fst <$> notes))));
  t_frontier : exists br,
    frontier_ok (leaf_of (fst <$> notes)) (N.of_nat (length notes)) br /\ frontier_at g br;
  t_notes : forall i note, notes !! i = Some note -> note_at g (N.of_nat i) note;
  t_fresh : forall i, N.of_nat (length notes) <= i -> is_u64 i -> g (KNote i) = None;
  t_capacity : N.of_nat (length notes) <= TREE_CAPACITY
}.

(** A set kept twice: as a list by index, and as markers. *)
Definition indexed_entries (g : key -> option bytes) (at_ : N -> key) (marker : F -> key)
    (l : list F) : Prop :=
  (forall i f, l !! i = Some f -> g (at_ (N.of_nat i)) = Some (F_bytes f)) /\
  (forall f, f ∈ l <-> is_Some (g (marker f))).

Definition indexed_set (g : key -> option bytes) (count : cell) (at_ : N -> key)
    (marker : F -> key) (X : gset F) : Prop :=
  exists l, X = list_to_set l /\ NoDup l /\ is_u64 (N.of_nat (length l)) /\
    g (KCell count) = Some (u64_le (N.of_nat (length l))) /\ indexed_entries g at_ marker l.

Definition nullifiers_repr g := indexed_set g CNullifierCount KNullifierAt KNullifier.
Definition roots_repr g := indexed_set g CValidRootCount KRootAt KRoot.

Definition withdrawals_repr (g : key -> option bytes) (ws : list WithdrawalRecord) : Prop :=
  is_u64 (N.of_nat (length ws)) /\
  g (KCell CWithdrawalCount) = Some (u64_le (N.of_nat (length ws))) /\
  forall i w, ws !! i = Some w ->
    is_u64 (wr_amount w) /\ g (KWithdrawal (N.of_nat i)) = Some (encode_withdrawal_record w).

Definition balances_repr (g : key -> option bytes) (m : gmap F N) : Prop :=
  forall k, match m !! k with
  | Some b => is_u64 b /\ g (KBalance k) = Some (u64_le b)
  | None => g (KBalance k) = None \/ g (KBalance k) = Some []
  end.

Definition shields_repr (g : key -> option bytes) (X : gset F) : Prop :=
  forall cm, cm ∈ X <-> is_Some (g (KShield cm)).

Definition fees_repr (g : key -> option bytes) : Prop :=
  forall b, g (KCell CFeeCount) = Some b -> length b = 8%nat.

Record repr (g : key -> option bytes) (v : View) : Prop := {
  r_auth : g (KCell CAuthDomain) = Some (F_bytes (v_auth_domain v));
  r_tree : tree_repr g (v_notes v);
  r_nullifiers : nullifiers_repr g (v_nullifiers v);
  r_roots : roots_repr g (v_roots v);
  r_withdrawals : withdrawals_repr g (v_withdrawals v);
  r_balances : balances_repr g (v_balances v);
  r_shields : shields_repr g (v_shields v);
  r_fees : fees_repr g;
  r_bounded : view_size v <= INDEX_LIMIT
}.

(** ** Every part depends on its group alone *)

#[local] Opaque DEPTH.

Lemma lookup_u64 {A} (l : list A) i x :
  l !! i = Some x -> is_u64 (N.of_nat (length l)) -> is_u64 (N.of_nat i).
Proof. unfold is_u64. intros ?%lookup_lt_Some ?. lia. Qed.

Lemma tree_capacity_u64 n : n <= TREE_CAPACITY -> is_u64 n.
Proof.
  intros Hn. unfold is_u64. eapply N.le_lt_trans; [exact Hn|]. reflexivity.
Qed.

Lemma chunk_count_u32 (b : bytes) :
  N.of_nat (length b) <= MAX_LEDGER_STATE_BYTES ->
  is_u32 (N.of_nat (length (chunks MAX_NOTE_CHUNK_BYTES b))).
Proof.
  unfold chunks, div_ceil, is_u32. intros Hb. rewrite length_fmap, length_seq.
  change MAX_NOTE_CHUNK_BYTES with 1024%nat in *. change MAX_LEDGER_STATE_BYTES with 4194304 in *.
  pose proof (Nat.Div0.div_le_upper_bound (length b + 1024 - 1) 1024 (length b + 1024 - 1) ltac:(lia)).
  change U32_LIMIT with 4294967296. lia.
Qed.

Lemma chunk_u32 (b chunk : bytes) (c : nat) :
  chunks MAX_NOTE_CHUNK_BYTES b !! c = Some chunk ->
  N.of_nat (length b) <= MAX_LEDGER_STATE_BYTES -> is_u32 (N.of_nat c).
Proof.
  intros Hc%lookup_lt_Some Hb%chunk_count_u32. unfold is_u32 in *. lia.
Qed.

Lemma note_at_ext g g' i note :
  (forall k, key_ok k -> match k with KNote j | KNoteLen j | KNoteChunk j _ => j = i | _ => False end ->
     g' k = g k) -> is_u64 i ->
  note_at g i note -> note_at g' i note.
Proof.
  intros Hg Hi (b & He & Hl & Hp). exists b. split; [done|]. split; [done|].
  unfold payload_at in *. destruct (_ <=? _)%nat; [by rewrite Hg|].
  destruct Hp as (? & ? & Hch). rewrite !Hg by done. split; [done|]. split; [done|].
  intros c chunk Hc. rewrite Hg; [by apply Hch| |done]. split; [done|]. by eapply chunk_u32.
Qed.

Lemma tree_repr_ext g g' notes : agree GTree g g' -> tree_repr g notes -> tree_repr g' notes.
Proof.
  intros Hg [Hs Hr (br & Hb & Hf) Hn Hfr Hc]. constructor; [by rewrite Hg..| | | |done].
  - exists br. split; [done|]. intros l Hl. rewrite Hg; [by apply Hf| |done].
    cbn. etrans; [exact Hl|]. apply Nat.ltb_lt. reflexivity.
  - intros i note Hi. eapply note_at_ext; [| |by apply Hn].
    + intros k Hk Hk'. apply Hg; [done|]. by destruct k.
    + eapply lookup_u64; [exact Hi|]. by apply tree_capacity_u64.
  - intros i ??. rewrite Hg by done. by apply Hfr.
Qed.

Lemma indexed_set_ext G g g' count at_ marker X :
  agree G g g' -> in_group G (KCell count) ->
  (forall i, is_u64 i -> key_ok (at_ i) /\ in_group G (at_ i)) ->
  (forall f, key_ok (marker f) /\ in_group G (marker f)) ->
  indexed_set g count at_ marker X -> indexed_set g' count at_ marker X.
Proof.
  intros Hg Hc Ha Hm (l & HX & Hnd & Hb & Hcount & Hat & Hmark). exists l.
  do 3 (split; [done|]). split; [by rewrite Hg|]. split.
  - intros i f Hi. pose proof (lookup_u64 _ _ _ Hi Hb) as [??]%Ha. rewrite Hg by done. by apply Hat.
  - intros f. destruct (Hm f). by rewrite Hg.
Qed.

Lemma nullifiers_repr_ext g g' X :
  agree GNullifiers g g' -> nullifiers_repr g X -> nullifiers_repr g' X.
Proof. intros Hg. by eapply indexed_set_ext; eauto. Qed.

Lemma roots_repr_ext g g' X : agree GRoots g g' -> roots_repr g X -> roots_repr g' X.
Proof. intros Hg. by eapply indexed_set_ext; eauto. Qed.

Lemma withdrawals_repr_ext g g' ws :
  agree GWithdrawals g g' -> withdrawals_repr g ws -> withdrawals_repr g' ws.
Proof.
  intros Hg (Hb & Hc & Hw). split; [done|]. split; [by rewrite Hg|].
  intros i w Hi. destruct (Hw i w Hi) as [Ha Hk]. split; [done|]. rewrite Hg; [done| |done].
  by eapply lookup_u64.
Qed.

Lemma balances_repr_ext g g' m : agree GBalances g g' -> balances_repr g m -> balances_repr g' m.
Proof. intros Hg Hm k. specialize (Hm k). by rewrite Hg. Qed.

Lemma shields_repr_ext g g' X : agree GShields g g' -> shields_repr g X -> shields_repr g' X.
Proof. intros Hg Hm k. specialize (Hm k). by rewrite Hg. Qed.

Lemma fees_repr_ext g g' : agree GFees g g' -> fees_repr g -> fees_repr g'.
Proof. intros Hg Hm b. rewrite Hg by done. apply Hm. Qed.

(** The part of the relation that a group of keys is for. *)
Definition part (G : group) (g : key -> option bytes) (v : View) : Prop :=
  match G with
  | GTree => tree_repr g (v_notes v)
  | GNullifiers => nullifiers_repr g (v_nullifiers v)
  | GRoots => roots_repr g (v_roots v)
  | GWithdrawals => withdrawals_repr g (v_withdrawals v)
  | GBalances => balances_repr g (v_balances v)
  | GShields => shields_repr g (v_shields v)
  | GFees => fees_repr g
  | GOther => g (KCell CAuthDomain) = Some (F_bytes (v_auth_domain v))
  end.

Lemma part_ext G g g' v : agree G g g' -> part G g v -> part G g' v.
Proof.
  intros Hg. destruct G; cbn [part]; eauto using tree_repr_ext, nullifiers_repr_ext,
    roots_repr_ext, withdrawals_repr_ext, balances_repr_ext, shields_repr_ext, fees_repr_ext.
  by rewrite Hg.
Qed.

Lemma repr_parts g v : repr g v <-> (forall G, part G g v) /\ view_size v <= INDEX_LIMIT.
Proof.
  split.
  - intros []. split; [|done]. by intros [].
  - intros [Hp Hb]. constructor; [exact (Hp GOther)|exact (Hp GTree)|exact (Hp GNullifiers)|
      exact (Hp GRoots)|exact (Hp GWithdrawals)|exact (Hp GBalances)|exact (Hp GShields)|
      exact (Hp GFees)|done].
Qed.

(** Two views with the same part in a group. *)
Definition same_part (G : group) (v v' : View) : Prop := forall g, part G g v -> part G g v'.

(** A change confined to one group. *)
Lemma repr_update G g g' v v' :
  repr g v -> (forall k, key_ok k -> ~ in_group G k -> g' k = g k) ->
  (forall G', G' <> G -> same_part G' v v') -> part G g' v' -> view_size v' <= INDEX_LIMIT ->
  repr g' v'.
Proof.
  rewrite !repr_parts. intros [Hp _] Hg Hsame Hnew Hb. split; [|done]. intros G'.
  destruct (decide (G' = G)) as [->|Hne]; [done|].
  apply Hsame; [done|]. eapply part_ext; [|apply Hp]. intros k Hk Hin. apply Hg; [done|].
  intros Hin'. apply Hne. unfold in_group in *. congruence.
Qed.

(** ** The view a store holds *)

(** The felt in a path made of a prefix and its hex. *)
Definition unkey (pre p : bytes) : option F :=
  match hex_decode (drop (length pre) p) with
  | Ok b => if decide (pre ++ hex_encode (F_bytes (mkF b)) = p) then Some (mkF b) else None
  | _ => None
  end.

Definition keyed (pre : bytes) (st : gmap bytes bytes) : gset F := set_omap (unkey pre) (dom st).

Lemma unkey_Some pre p f : unkey pre p = Some f <-> p = pre ++ hex_encode (F_bytes f).
Proof.
  unfold unkey. split.
  - destruct (hex_decode _) as [b|e|w]; try done. case_decide as E; [|done].
    by intros [= <-].
  - intros ->. rewrite drop_app_length, hex_decode_encode, mkF_F_bytes.
    by rewrite decide_True.
Qed.

Lemma elem_of_keyed pre st f :
  f ∈ keyed pre st <-> is_Some (st !! (pre ++ hex_encode (F_bytes f))).
Proof.
  unfold keyed. rewrite elem_of_set_omap. setoid_rewrite unkey_Some.
  setoid_rewrite elem_of_dom. naive_solver.
Qed.

Context {Hst : Type} `{HostLaws Hst}.
#[local] Abbreviation DLS := (DurableLedgerState Hst).
Implicit Types s : DLS.

Definition stored_felt (o : option bytes) : F := mkF (default [] o).
Definition stored_u64 (o : option bytes) : N := le_val (default [] o).

Definition stored_note s (i : nat) : option (F * EncryptedNote) :=
  b ← read_persisted_note (dl_host s) (N.of_nat i);
  match decode_published_note b with Ok x => Some x | _ => None end.

(** The amount, and whatever follows the length field. *)
Definition stored_withdrawal s (i : nat) : option WithdrawalRecord :=
  b ← get s (KWithdrawal (N.of_nat i));
  Some {| wr_recipient := bytes_str (drop 12 b); wr_amount := le_val (take 8 b) |}.

Definition stored_balances (st : gmap bytes bytes) : gmap F N :=
  omap (fun v : bytes => if (length v =? 8)%nat then Some (le_val v) else None)
    (set_to_map (fun k => (k, default [] (st !! deposit_balance_path k)))
       (keyed PATH_DEPOSIT_BALANCE_PREFIX st)).

Definition view_of s : View :=
  let st := host_store (dl_host s) in
  {| v_auth_domain := stored_felt (get s (KCell CAuthDomain));
     v_nullifiers := keyed PATH_NULLIFIER_PREFIX st;
     v_roots := keyed PATH_VALID_ROOT_PREFIX st;
     v_notes := omap (stored_note s) (seq 0 (N.to_nat (stored_u64 (get s (KCell CTreeSize)))));
     v_withdrawals :=
       omap (stored_withdrawal s)
         (seq 0 (N.to_nat (stored_u64 (get s (KCell CWithdrawalCount)))));
     v_balances := stored_balances st;
     v_shields := keyed PATH_APPLIED_SHIELD_PREFIX st |}.

Lemma stored_balances_lookup st k :
  stored_balances st !! k =
  (v ← st !! deposit_balance_path k; if (length v =? 8)%nat then Some (le_val v) else None).
Proof.
  unfold stored_balances. rewrite lookup_omap.
  assert (forall v,
    (set_to_map (fun k => (k, default [] (st !! deposit_balance_path k)))
      (keyed PATH_DEPOSIT_BALANCE_PREFIX st) : gmap F bytes) !! k = Some v <->
    st !! deposit_balance_path k = Some v) as Hl.
  { intros v. rewrite lookup_set_to_map by by intros ?? _ _ [= ->].
    setoid_rewrite elem_of_keyed. fold deposit_balance_path. split.
    - intros (k' & [w Hw] & [= <- <-]). unfold deposit_balance_path. by rewrite Hw.
    - intros E. exists k. rewrite E. split; [|done]. eexists. exact E. }
  apply option_eq in Hl. rewrite Hl. by destruct (st !! deposit_balance_path k).
Qed.

(** ** Reading a note back *)

Context {HW : WordTarget}.

Lemma u32_usize n : is_u32 n -> n < usize_limit.
Proof.
  intros Hn. unfold is_u32, U32_LIMIT, usize_limit in *.
  eapply N.lt_le_trans; [exact Hn|]. apply N.pow_le_mono_r; [done|exact HW].
Qed.

Lemma read_persisted_payload s i b :
  payload_at (get s) i b -> N.of_nat (length b) <= MAX_LEDGER_STATE_BYTES ->
  read_persisted_note (dl_host s) i = Some b.
Proof.
  intros Hp Hb. unfold read_persisted_note, payload_at in *.
  change (note_path i) with (key_path (KNote i)).
  change (note_length_path i) with (key_path (KNoteLen i)). rewrite !read_get.
  destruct (_ <=? _)%nat.
  - rewrite Hp. cbn. rewrite take_ge; [done|lia].
  - destruct Hp as (-> & -> & Hch). cbn [fmap option_fmap option_map mbind option_bind].
    change (N.to_nat 8) with 8%nat. rewrite take_ge by by rewrite length_u64_le.
    rewrite length_u64_le. cbn [Nat.eqb negb].
    assert (is_u32 (N.of_nat (length b))) as H32
      by (unfold is_u32; eapply N.le_lt_trans; [exact Hb|reflexivity]).
    rewrite u64_le_roundtrip by (unfold is_u64; eapply N.lt_trans; [exact H32|reflexivity]).
    unfold to_usize. rewrite (proj2 (N.ltb_lt _ _) (u32_usize _ H32)).
    cbn [mbind option_bind]. rewrite (proj2 (N.ltb_ge _ _) Hb), Nat2N.id, <-length_chunks.
    rewrite (mapM_seq _ (chunks MAX_NOTE_CHUNK_BYTES b)).
    + cbn [mbind option_bind]. rewrite concat_chunks by done. by rewrite Nat.eqb_refl.
    + intros c x Hc. change (note_chunk_path i ?c) with (key_path (KNoteChunk i c)).
      rewrite read_get, (Hch c x Hc). cbn. rewrite take_ge; [done|].
      apply length_chunk in Hc. by rewrite Nat2N.id.
Qed.

(** ** A store represents one view *)

Context {HP : PublishedCodec}.

Lemma note_at_stored s i note :
  note_at (get s) (N.of_nat i) note -> stored_note s i = Some note.
Proof.
  destruct note as [cm enc]. intros (b & He & Hl & Hp). unfold stored_note.
  rewrite (read_persisted_payload _ _ _ Hp Hl). cbn. by rewrite (published_decodes _ _ _ He).
Qed.

Lemma keyed_repr pre mk s X :
  (forall f, key_path (mk f) = pre ++ hex_encode (F_bytes f)) ->
  (forall f, f ∈ X <-> is_Some (get s (mk f))) ->
  keyed pre (host_store (dl_host s)) = X.
Proof.
  intros Hk HX. apply set_eq. intros f. rewrite elem_of_keyed, HX. unfold get. by rewrite Hk.
Qed.

Lemma encode_withdrawal_fields w :
  is_u64 (wr_amount w) ->
  let b := encode_withdrawal_record w in
  {| wr_recipient := bytes_str (drop 12 b); wr_amount := le_val (take 8 b) |} = w.
Proof.
  intros Ha. destruct w as [r a]. unfold encode_withdrawal_record.
  cbn [wr_recipient wr_amount] in *.
  rewrite take_app_exact by apply length_u64_le. rewrite u64_le_roundtrip by done.
  rewrite app_assoc, drop_app_exact
    by (rewrite length_app, length_u64_le, length_le_bytes; done).
  by rewrite bytes_str_of_str.
Qed.

Lemma stored_u64_Some n o : is_u64 n -> o = Some (u64_le n) -> stored_u64 o = n.
Proof. intros Hn ->. by apply u64_le_roundtrip. Qed.

Lemma repr_view s v : repr (get s) v -> view_of s = v.
Proof.
  intros [Ha Ht Hn Hr Hw Hb Hsh _ _]. unfold view_of. destruct v as [d X R notes ws bal shields].
  cbn [v_auth_domain v_nullifiers v_roots v_notes v_withdrawals v_balances v_shields] in *. f_equal.
  - rewrite Ha. unfold stored_felt. cbn. apply mkF_F_bytes.
  - destruct Hn as (l & -> & _ & _ & _ & _ & Hm). apply (keyed_repr _ KNullifier); [done|].
    intros f. by rewrite elem_of_list_to_set.
  - destruct Hr as (l & -> & _ & _ & _ & _ & Hm). apply (keyed_repr _ KRoot); [done|].
    intros f. by rewrite elem_of_list_to_set.
  - rewrite (stored_u64_Some _ _ (tree_capacity_u64 _ (t_capacity _ _ Ht)) (t_size _ _ Ht)), Nat2N.id.
    apply omap_seq. intros i note Hi. by apply note_at_stored, (t_notes _ _ Ht).
  - destruct Hw as (Hl & Hc & Hw). rewrite (stored_u64_Some _ _ Hl Hc), Nat2N.id.
    apply omap_seq. intros i w Hi. destruct (Hw i w Hi) as [Hu E]. unfold stored_withdrawal.
    rewrite E. cbn. f_equal. by apply encode_withdrawal_fields.
  - apply map_eq. intros k. rewrite stored_balances_lookup.
    change (deposit_balance_path k) with (key_path (KBalance k)).
    change (host_store (dl_host s) !! key_path (KBalance k)) with (get s (KBalance k)).
    specialize (Hb k). destruct (bal !! k) as [b|].
    + destruct Hb as [Hu ->]. cbn [mbind option_bind]. rewrite length_u64_le. cbn [Nat.eqb]. by rewrite u64_le_roundtrip.
    + by destruct Hb as [-> | ->].
  - by apply (keyed_repr _ KShield).
Qed.
End Repr.
