(* ===== verification/DurableOps.v ===== *)
(** * DurableOps: the durable operations refine the abstract ones

    Every operation of the durable ledger reads and writes one group of keys and takes a
    store that represents a view to one that represents the changed view.  Together they
    are the laws of [LedgerSpec], so every theorem about the ledger's transitions and
    histories holds of the kernel's durable ledger. *)

From S2P Require Import Prelude Felt Externals Concrete Recipients Types Hashing Outputs.
From S2P Require Import Merkle Ledger LedgerSpec CanonicalWire Utf8 Store StoreKeys Durable.
From S2P Require Import DurableCells DurableRepr.

Local Open Scope N_scope.

#[local] Opaque DEPTH.

(** Parts of a view in the groups an operation leaves alone. *)
Ltac same_parts := intros [] ? ? ?; cbn in *; congruence || assumption.

(** ** Sets kept by index and by marker *)

Class IndexedKeys (count : cell) (at_ : N -> key) (marker : F -> key) : Prop := {
  ik_at_ok : forall i, is_u64 i -> key_ok (at_ i);
  ik_marker_ok : forall f, key_ok (marker f);
  ik_at_inj : forall i j, at_ i = at_ j -> i = j;
  ik_marker_inj : forall f f', marker f = marker f' -> f = f';
  ik_at_marker : forall i f, at_ i <> marker f;
  ik_at_cell : forall i c, at_ i <> KCell c;
  ik_marker_cell : forall f c, marker f <> KCell c
}.

#[export] Instance nullifier_keys : IndexedKeys CNullifierCount KNullifierAt KNullifier.
Proof. split; done || congruence. Qed.

#[export] Instance root_keys : IndexedKeys CValidRootCount KRootAt KRoot.
Proof. split; done || congruence. Qed.

Section Indexed.
Context `{HexLaws, HostLaws Hst} `{IndexedKeys count at_ marker}.
Implicit Types s : DurableLedgerState Hst.

(** The two writes that record [f] at position [i]. *)
Definition record_entry (i : N) (f : F) s : DurableLedgerState Hst :=
  dset (at_ i) (F_bytes f) (dset (marker f) [Byte.x01] s).

Lemma record_entry_framed (T : key -> Prop) i f s :
  is_u64 i -> T (at_ i) -> T (marker f) -> framed T s (record_entry i f s).
Proof.
  intros Hi Ha Hm. apply framed_dset_r; [by apply ik_at_ok|done|].
  apply framed_dset; [apply ik_marker_ok|done].
Qed.

Lemma record_entry_ok l f s :
  indexed_entries (get s) at_ marker l -> f ∉ l -> is_u64 (N.of_nat (length l)) ->
  indexed_entries (get (record_entry (N.of_nat (length l)) f s)) at_ marker (l ++ [f]).
Proof.
  intros [Ha Hm] Hf Hl. unfold record_entry. split.
  - intros i g Hi. destruct (decide (i = length l)) as [->|Hne].
    + rewrite get_dset_eq. rewrite lookup_app_r, Nat.sub_diag in Hi by done. by injection Hi as ->.
    + assert (i < length l)%nat as Hlt.
      { apply lookup_lt_Some in Hi. rewrite length_app in Hi. cbn in Hi. lia. }
      rewrite lookup_app_l in Hi by done. assert (is_u64 (N.of_nat i)) by (unfold is_u64 in *; lia).
      rewrite get_dset_ne, get_dset_ne; [by apply Ha|apply ik_marker_ok|by apply ik_at_ok| |
        by apply ik_at_ok|by apply ik_at_ok|].
      * intros E. by apply (ik_at_marker (N.of_nat i) f).
      * intros E%ik_at_inj. lia.
  - intros g. rewrite get_dset_ne; [|by apply ik_at_ok|apply ik_marker_ok|apply ik_at_marker].
    rewrite elem_of_app, list_elem_of_singleton. destruct (decide (g = f)) as [->|Hne].
    + rewrite get_dset_eq. split; [by eexists|by right].
    + rewrite get_dset_ne; [|apply ik_marker_ok|apply ik_marker_ok|by intros E%ik_marker_inj].
      rewrite <-Hm. naive_solver.
Qed.

Lemma indexed_entries_cell l c v s :
  is_u64 (N.of_nat (length l)) -> indexed_entries (get s) at_ marker l ->
  indexed_entries (get (dset (KCell c) v s)) at_ marker l.
Proof.
  intros Hl [Ha Hm]. split.
  - intros i f Hi. rewrite get_dset_ne; [by apply Ha|done| |].
    + apply ik_at_ok. by eapply lookup_u64.
    + intros E. by apply (ik_at_cell (N.of_nat i) c).
  - intros f. rewrite get_dset_ne; [by apply Hm|done|apply ik_marker_ok|].
    intros E. by apply (ik_marker_cell f c).
Qed.

(** The entries and their count. *)
Lemma indexed_set_intro l s :
  NoDup l -> is_u64 (N.of_nat (length l)) -> indexed_entries (get s) at_ marker l ->
  indexed_set (get (dset (KCell count) (u64_le (N.of_nat (length l))) s)) count at_ marker
    (list_to_set l).
Proof.
  intros Hn Hl He. exists l. do 3 (split; [done|]). split; [apply get_dset_eq|].
  by apply indexed_entries_cell.
Qed.

(** What a represented set tells: its list, and what its cells read. *)
Lemma indexed_set_elim s X :
  indexed_set (get s) count at_ marker X -> exists l,
    X = list_to_set l /\ NoDup l /\ length l = size X /\ is_u64 (N.of_nat (size X)) /\
    d_read_u64 s (key_path (KCell count)) = Ok (Some (N.of_nat (size X))) /\
    indexed_entries (get s) at_ marker l /\
    forall f, d_has_marker s (key_path (marker f)) = bool_decide (f ∈ X).
Proof.
  intros (l & -> & Hn & Hl & Hc & He). exists l.
  assert (length l = size (list_to_set l : gset F)) as Hs by by rewrite size_list_to_set.
  rewrite <-Hs. do 4 (split; [done|]). split; [by apply read_u64_Some|]. split; [done|].
  intros f. rewrite has_marker_get. apply bool_decide_ext. rewrite elem_of_list_to_set.
  symmetry. apply He.
Qed.
End Indexed.

Lemma wrapping_add_small a b : is_u64 (a + b) -> wrapping_add_u64 a b = a + b.
Proof. apply N.mod_small. Qed.

(** ** Nullifiers and roots *)

Section Ops.
Context `{Blake2s, HexLaws, Target, Tze WirePublishedNote, HostLaws Hst}.
Context {HW : WordTarget} {HP : PublishedCodec}.
#[local] Abbreviation DLS := (DurableLedgerState Hst).
Implicit Types s : DLS.
Implicit Types v : View.

Lemma repr_size s v : repr (get s) v -> view_size v <= INDEX_LIMIT.
Proof. by intros []. Qed.

Lemma index_limit_bounds n : n + 1 <= INDEX_LIMIT -> is_u64 (n + 1) /\ n < usize_limit.
Proof.
  unfold INDEX_LIMIT, is_u64, U64_LIMIT. intros Hn.
  pose proof (N.le_min_l usize_limit (2 ^ 64 - 1)). pose proof (N.le_min_r usize_limit (2 ^ 64 - 1)).
  split; [|lia]. eapply N.le_lt_trans; [etrans; [exact Hn|done]|reflexivity].
Qed.

(** A change of a represented view in one group. *)
Lemma framed_repr G s s' v v' :
  repr (get s) v -> framed (in_group G) s s' -> part G (get s') v' ->
  (forall G', G' <> G -> same_part G' v v') -> view_size v' <= INDEX_LIMIT -> repr (get s') v'.
Proof.
  intros Hr [Hf _ _] Hp Hs Hb. eapply repr_update; [exact Hr| |exact Hs|exact Hp|exact Hb].
  intros k Hk Hn. by apply Hf.
Qed.

(** The keys of the ledger's own data, without the domain: what its operations write. *)
Definition ledger_key (k : key) : Prop := ~ in_group GOther k.

(** What an operation establishes: a view, and every other cell, the zero hashes, the
    outbox and the inbox kept. *)
Definition steps_to s s' v' : Prop := repr (get s') v' /\ framed ledger_key s s'.

Lemma framed_steps G s s' v v' :
  G <> GOther -> repr (get s) v -> framed (in_group G) s s' -> part G (get s') v' ->
  (forall G', G' <> G -> same_part G' v v') -> view_size v' <= INDEX_LIMIT -> steps_to s s' v'.
Proof.
  intros HG Hr Hf Hp Hs Hb. split; [by eapply framed_repr|].
  eapply framed_mono; [|exact Hf]. unfold ledger_key, in_group. intros k <-. done.
Qed.

Lemma steps_refl s v : repr (get s) v -> steps_to s s v.
Proof. intros Hr. split; [done|apply framed_refl]. Qed.

Lemma steps_trans s1 s2 s3 v2 v3 :
  steps_to s1 s2 v2 -> steps_to s2 s3 v3 -> steps_to s1 s3 v3.
Proof. intros [_ F1] [R2 F2]. split; [done|]. by eapply framed_trans. Qed.

Lemma size_insert_new (X : gset F) f : f ∉ X -> size ({[f]} ∪ X) = S (size X).
Proof. intros Hf. rewrite size_union, size_singleton; [done|set_solver]. Qed.

Lemma list_to_set_snoc (l : list F) f : list_to_set (l ++ [f]) = ({[f]} ∪ list_to_set l : gset F).
Proof. rewrite list_to_set_app_L. set_solver. Qed.

(** Inserting into a set kept by index and by marker. *)
Lemma insert_indexed_ok `{IndexedKeys count at_ marker} G X f s :
  indexed_set (get s) count at_ marker X -> f ∉ X -> is_u64 (N.of_nat (size X) + 1) ->
  in_group G (KCell count) -> (forall i, in_group G (at_ i)) -> (forall f, in_group G (marker f)) ->
  let s' := dset (KCell count) (u64_le (wrapping_add_u64 (N.of_nat (size X)) 1))
              (record_entry (at_ := at_) (marker := marker) (N.of_nat (size X)) f s) in
  framed (in_group G) s s' /\ indexed_set (get s') count at_ marker ({[f]} ∪ X).
Proof.
  intros (l & -> & Hn & Hlen & Hu & _ & He & _)%indexed_set_elim Hf Hb Hc Ha Hm. cbn zeta.
  rewrite wrapping_add_small by done. rewrite <-Hlen in *. split.
  - apply framed_dset_r; [done|done|]. apply record_entry_framed; auto.
  - rewrite <-list_to_set_snoc.
    replace (N.of_nat (length l) + 1) with (N.of_nat (length (l ++ [f]))) in *
      by (rewrite length_app; cbn; lia).
    rewrite elem_of_list_to_set in Hf. apply indexed_set_intro; [|done|by apply record_entry_ok].
    apply NoDup_app. split; [done|]. split; [set_solver|apply NoDup_singleton].
Qed.

Lemma insert_nullifier_ok s v nf :
  repr (get s) v -> view_size v + 1 <= INDEX_LIMIT -> exists s',
    d_insert_nullifier nf s = (s', Ok tt) /\
    steps_to s s' (with_nullifiers ({[nf]} ∪ v_nullifiers v) v).
Proof.
  intros Hr Hfit. unfold d_insert_nullifier. to_keys.
  pose proof (r_nullifiers _ _ Hr) as Hn.
  destruct (indexed_set_elim _ _ Hn) as (l & HX & _ & Hl & Hu & Hc & _ & Hm).
  erewrite ST_run by reflexivity. rewrite Hm. case_bool_decide as Hin.
  - exists s. split; [done|].
    replace ({[nf]} ∪ v_nullifiers v) with (v_nullifiers v) by set_solver.
    destruct v. by apply steps_refl.
  - erewrite ST_run by (unfold reads; by rewrite Hc).
    destruct (insert_indexed_ok GNullifiers _ nf s Hn) as [Hf Hn']; try done.
    { apply index_limit_bounds. unfold view_size in Hfit. lia. }
    eexists. split; [reflexivity|].
    eapply (framed_steps GNullifiers); [done|exact Hr|exact Hf|exact Hn'|same_parts|].
    unfold view_size in *. cbn. rewrite size_insert_new by done. lia.
Qed.

Lemma insert_root_ok s v root :
  repr (get s) v -> view_size v + 1 <= INDEX_LIMIT -> root ∉ v_roots v ->
  steps_to s
    (dset (KCell CValidRootCount) (u64_le (wrapping_add_u64 (N.of_nat (size (v_roots v))) 1))
      (record_entry (at_ := KRootAt) (marker := KRoot) (N.of_nat (size (v_roots v))) root s))
    (with_roots ({[root]} ∪ v_roots v) v).
Proof.
  intros Hr Hfit Hin. pose proof (r_roots _ _ Hr) as Hn.
  destruct (insert_indexed_ok GRoots _ root s Hn) as [Hf Hn']; try done.
  { apply index_limit_bounds. unfold view_size in Hfit. lia. }
  eapply (framed_steps GRoots); [done|exact Hr|exact Hf|exact Hn'|same_parts|].
  unfold view_size in *. cbn. rewrite size_insert_new by done. lia.
Qed.

Lemma read_root s v : repr (get s) v -> d_read_felt s (key_path (KCell CTreeRoot)) = Ok (Some (v_root v)).
Proof. intros Hr. apply read_felt_get. apply (t_root _ _ (r_tree _ _ Hr)). Qed.

Lemma with_roots_same v : with_roots (v_roots v) v = v.
Proof. by destruct v. Qed.

Lemma snapshot_root_ok s v :
  repr (get s) v -> view_size v + 1 <= INDEX_LIMIT -> exists s',
    d_snapshot_root s = (s', Ok tt) /\
    steps_to s s' (with_roots ({[v_root v]} ∪ v_roots v) v).
Proof.
  intros Hr Hfit. unfold d_snapshot_root.
  erewrite ST_run by (unfold reads; to_keys; by rewrite (read_root _ _ Hr)).
  erewrite ST_run by reflexivity. to_keys.
  destruct (indexed_set_elim _ _ (r_roots _ _ Hr)) as (l & HX & _ & Hl & Hu & Hc & _ & Hm).
  erewrite ST_run by reflexivity. rewrite Hm. case_bool_decide as Hin.
  - exists s. split; [done|].
    replace ({[v_root v]} ∪ v_roots v) with (v_roots v) by set_solver.
    rewrite with_roots_same. by apply steps_refl.
  - erewrite ST_run by (unfold reads; by rewrite Hc).
    eexists. split; [reflexivity|]. by apply insert_root_ok.
Qed.

(** ** Withdrawals *)

Lemma read_withdrawal_count s v :
  repr (get s) v ->
  d_read_u64 s (key_path (KCell CWithdrawalCount)) =
    Ok (Some (N.of_nat (length (v_withdrawals v)))).
Proof. intros Hr. destruct (r_withdrawals _ _ Hr) as (Hu & Hc & _). by apply read_u64_Some. Qed.

Definition enqueue_at (i : N) (w : WithdrawalRecord) s : DLS :=
  dset (KCell CWithdrawalCount) (u64_le (wrapping_add_u64 i 1))
    (dset (KWithdrawal i) (encode_withdrawal_record w) s).

Lemma enqueue_at_ok s v w :
  repr (get s) v -> is_u64 (wr_amount w) -> view_size v + 1 <= INDEX_LIMIT ->
  steps_to s (enqueue_at (N.of_nat (length (v_withdrawals v))) w s)
    (with_withdrawals (v_withdrawals v ++ [w]) v).
Proof.
  intros Hr Ha Hfit. destruct (r_withdrawals _ _ Hr) as (Hu & Hc & Hw).
  set (ws := v_withdrawals v) in *. unfold enqueue_at.
  assert (is_u64 (N.of_nat (length ws) + 1)) as Hb.
  { apply index_limit_bounds. unfold view_size in Hfit. unfold ws. lia. }
  rewrite wrapping_add_small by done.
  eapply (framed_steps GWithdrawals); [done|exact Hr| | |same_parts|].
  - apply framed_dset_r; [done|done|]. by apply framed_dset.
  - cbn [part]. unfold withdrawals_repr. cbn [v_withdrawals with_withdrawals]. rewrite length_app.
    cbn [length]. replace (N.of_nat (length ws + 1)) with (N.of_nat (length ws) + 1) by lia.
    split; [done|]. get_simpl. split; [done|].
    intros i w' Hi. destruct (decide (i = length ws)) as [->|Hne].
    + rewrite lookup_app_r, Nat.sub_diag in Hi by done. injection Hi as <-. split; [done|].
      get_simpl. done.
    + assert (i < length ws)%nat as Hlt.
      { apply lookup_lt_Some in Hi. rewrite length_app in Hi. cbn in Hi. lia. }
      rewrite lookup_app_l in Hi by done. destruct (Hw i w' Hi) as [Ha' E]. split; [done|].
      rewrite !get_dset_ne; [done|cbn; unfold is_u64 in *; lia..| |
        done|cbn; unfold is_u64 in *; lia|done].
      intros [=]. lia.
  - unfold view_size in *. cbn. fold ws. rewrite length_app. cbn. unfold ws. lia.
Qed.

Lemma enqueue_ok s v r a :
  repr (get s) v -> is_u64 a -> view_size v + 1 <= INDEX_LIMIT -> exists s',
    d_enqueue_withdrawal r a s = (s', Ok (N.of_nat (length (v_withdrawals v)))) /\
    steps_to s s' (with_withdrawals
      (v_withdrawals v ++ [{| wr_recipient := r; wr_amount := a |}]) v).
Proof.
  intros Hr Ha Hfit. unfold d_enqueue_withdrawal. to_keys.
  erewrite ST_run by (unfold reads; by rewrite (read_withdrawal_count _ _ Hr)).
  change (default 0 (Some ?n)) with n. eexists. split; [|by apply enqueue_at_ok].
  rewrite !ST_run_writes. unfold lift, to_usize.
  assert (N.of_nat (length (v_withdrawals v)) < usize_limit) as Hlt.
  { apply index_limit_bounds. unfold view_size in Hfit. lia. }
  by rewrite (proj2 (N.ltb_lt _ _) Hlt).
Qed.
End Ops.
