(* ===== verification/DurableTree.v ===== *)
(** * DurableTree: notes and the Merkle frontier in the durable store

    A note's payload is written whole or in chunks and reads back; the append loop over
    the stored branches is the frontier append of [Merkle]; an append extends the tree
    a store represents. *)

From S2P Require Import Prelude Felt Externals Concrete Recipients Types Hashing Outputs.
From S2P Require Import Merkle Ledger LedgerSpec CanonicalWire Utf8 Store StoreKeys Durable.
From S2P Require Import DurableCells DurableRepr DurableOps.

Local Open Scope N_scope.

(** The keys of one note. *)
Definition note_keys (i : N) (k : key) : Prop :=
  match k with KNote j | KNoteLen j | KNoteChunk j _ => j = i | _ => False end.

Definition branch_keys (k : key) : Prop :=
  match k with KBranch _ => True | _ => False end.

Lemma branch_level_ok l : (l < DEPTH)%nat -> key_ok (KBranch l).
Proof. intros Hl. cbn. etrans; [exact Hl|]. apply Nat.ltb_lt. reflexivity. Qed.

#[local] Opaque DEPTH.

Section Tree.
Context `{Blake2s, HexLaws, Target, Tze WirePublishedNote, HostLaws Hst}.
#[local] Abbreviation DLS := (DurableLedgerState Hst).
Implicit Types s : DLS.

(** ** Payloads *)

Definition write_chunks (i : N) (l : list bytes) s : DLS :=
  map_host (fun host =>
    foldl (fun host '(c, chunk) => host_write_store (note_chunk_path i (N.of_nat c)) chunk host)
      host (imap pair l)) s.

Lemma write_chunks_snoc i l x s :
  write_chunks i (l ++ [x]) s = dset (KNoteChunk i (N.of_nat (length l))) x (write_chunks i l s).
Proof.
  unfold write_chunks, dset, map_host. cbn [dl_host dl_zero_hashes]. f_equal.
  rewrite imap_app, foldl_app. cbn. by rewrite Nat.add_0_r.
Qed.

Lemma write_chunks_ok i l s :
  is_u64 i -> is_u32 (N.of_nat (length l)) ->
  framed (fun k => exists c, k = KNoteChunk i c) s (write_chunks i l s) /\
  forall c x, l !! c = Some x -> get (write_chunks i l s) (KNoteChunk i (N.of_nat c)) = Some x.
Proof.
  intros Hi. induction l as [|x l IH] using rev_ind; intros Hl.
  - split; [|done]. replace (write_chunks i [] s) with s by by destruct s. apply framed_refl.
  - rewrite length_app in Hl. cbn in Hl. destruct IH as [Hf Hg]; [unfold is_u32 in *; lia|].
    assert (is_u32 (N.of_nat (length l))) by (unfold is_u32 in *; lia).
    rewrite write_chunks_snoc. split.
    + apply framed_dset_r; [done|by eexists|done].
    + intros c y Hc. destruct (decide (c = length l)) as [->|Hne].
      * rewrite lookup_app_r, Nat.sub_diag in Hc by done. injection Hc as <-. apply get_dset_eq.
      * assert (c < length l)%nat as Hlt.
        { apply lookup_lt_Some in Hc. rewrite length_app in Hc. cbn in Hc. lia. }
        rewrite lookup_app_l in Hc by done. rewrite get_dset_ne; [by apply Hg|done| |].
        -- split; [done|]. unfold is_u32 in *. lia.
        -- intros [=]. lia.
Qed.

Lemma write_payload_ok i b s :
  is_u64 i -> N.of_nat (length b) <= MAX_LEDGER_STATE_BYTES -> get s (KNote i) = None ->
  let s' := map_host (write_note_payload i b) s in
  framed (note_keys i) s s' /\ payload_at (get s') i b.
Proof.
  intros Hi Hb Hfresh. cbn zeta. unfold payload_at, write_note_payload.
  destruct (_ <=? _)%nat eqn:El.
  - change (note_path i) with (key_path (KNote i)). rewrite write_host_dset.
    split; [by apply framed_dset|]. apply get_dset_eq.
  - change (map_host _ s) with (write_chunks i (chunks MAX_NOTE_CHUNK_BYTES b)
      (dset (KNoteLen i) (u64_le (N.of_nat (length b))) s)).
    destruct (write_chunks_ok i _ (dset (KNoteLen i) (u64_le (N.of_nat (length b))) s) Hi (chunk_count_u32 b Hb))
      as [Hf Hg].
    split; [|split; [|split; [|done]]].
    + eapply framed_trans; [by apply (framed_dset _ (KNoteLen i))|].
      eapply framed_mono; [|exact Hf]. by intros k [c ->].
    + rewrite (fr_get _ _ _ Hf); [|done|by intros [c E]]. by get_simpl.
    + rewrite (fr_get _ _ _ Hf); [|done|by intros [c E]]. by get_simpl.
Qed.

(** ** The append loop *)

(** Slots are filled, never emptied. *)
Definition fills (br br' : list (option F)) : Prop :=
  forall l, br' !! l = br !! l \/ exists f, br' !! l = Some (Some f).

Lemma fills_refl br : fills br br.
Proof. by left. Qed.

Lemma fills_trans br1 br2 br3 : fills br1 br2 -> fills br2 br3 -> fills br1 br3.
Proof.
  intros H12 H23 l. destruct (H23 l) as [E|?]; [|by right].
  destruct (H12 l) as [E'|[f E']]; [left|right; exists f]; congruence.
Qed.

Lemma fills_insert br d c : fills br (<[d := Some c]> br).
Proof.
  intros l. destruct (decide (l = d)) as [->|]; [|left; by rewrite list_lookup_insert_ne].
  destruct (decide (d < length br)%nat).
  - right. rewrite list_lookup_insert_eq by done. by eexists.
  - left. by rewrite list_insert_ge by lia.
Qed.

Lemma frontier_loop_fills zh levels i c br : fills br (fst (frontier_loop zh levels i c br)).
Proof.
  revert i c br. induction levels as [|d levels IH]; intros i c br; cbn [frontier_loop];
    [apply fills_refl|].
  unfold mbind at 1, ST_bind at 1. destruct (N.land i 1 =? 0); unfold mbind at 1, ST_bind at 1.
  - destruct (panic_unless _ _); cbn [mret ST_ret]; [|apply fills_insert..].
    eapply fills_trans; [apply fills_insert|apply IH].
  - unfold reads. destruct (index_at br d) as [slot|e|w]; [|apply fills_refl..].
    unfold mbind at 1, ST_bind at 1, lift. destruct (ok_or slot _); [|apply fills_refl..].
    apply IH.
Qed.

Lemma append_loop_sim levels i c s br :
  Forall (fun l => l < DEPTH)%nat levels -> length br = DEPTH -> frontier_at (get s) br ->
  let '(br', r) := frontier_loop (dl_zero_hashes s) levels i c br in
  exists s', append_loop levels i c s = (s', r) /\ framed branch_keys s s' /\
    frontier_at (get s') br'.
Proof.
  revert i c s br. induction levels as [|d levels IH]; intros i c s br Hlv Hl Hf.
  - exists s. split; [done|]. split; [apply framed_refl|done].
  - apply Forall_cons in Hlv as [Hd Hlv]. cbn [frontier_loop append_loop].
    destruct (N.land i 1 =? 0); unfold mbind, ST_bind, reads, lift, writes, mret, ST_ret; cbv beta.
    + rewrite (proj2 (Nat.ltb_lt d (length br))) by lia. cbn [panic_unless]. to_keys.
      set (s1 := dset (KBranch d) (F_bytes c) s).
      assert (frontier_at (get s1) (<[d:=Some c]> br)) as Hf1.
      { intros l Hl'. unfold s1. destruct (decide (l = d)) as [->|].
        - rewrite get_dset_eq, list_lookup_insert_eq by lia. done.
        - rewrite get_dset_ne, list_lookup_insert_ne by (auto using branch_level_ok; congruence).
          by apply Hf. }
      specialize (IH (N.shiftr i 1) (hash_merkle c (dl_zero_hashes s !!! d)) s1
        (<[d:=Some c]> br) Hlv). rewrite length_insert in IH. specialize (IH Hl Hf1).
      change (dl_zero_hashes s1) with (dl_zero_hashes s) in *.
      destruct (frontier_loop _ _ _ _ _) as [br' r]. destruct IH as (s' & Hr & Hfr & Hat).
      exists s'. split; [exact Hr|]. split; [|done]. eapply framed_trans; [|exact Hfr].
      apply framed_dset; [by apply branch_level_ok|done].
    + to_keys. destruct (lookup_lt_is_Some_2 br d ltac:(lia)) as [slot Hs].
      unfold index_at. rewrite Hs.
      rewrite (read_felt_get s (KBranch d) slot) by (by rewrite Hf, Hs).
      destruct slot as [left_|]; cbn [ok_or].
      * by apply IH.
      * exists s. split; [done|]. split; [apply framed_refl|done].
Qed.

(** ** Notes *)

(** The keys of the notes from position [i] on. *)
Definition notes_from (i : N) (k : key) : Prop :=
  match k with KNote j | KNoteLen j | KNoteChunk j _ => i <= j | _ => False end.

Definition encodes_as (note : F * EncryptedNote) (b : bytes) : Prop :=
  encode_published_note (fst note) (snd note) = Ok b /\
  N.of_nat (length b) <= MAX_LEDGER_STATE_BYTES.

Definition numbered (start : N) (bs : list bytes) : list (N * bytes) :=
  imap (fun i b => (start + N.of_nat i, b)) bs.

Lemma numbered_cons start b bs : numbered start (b :: bs) = (start, b) :: numbered (start + 1) bs.
Proof.
  unfold numbered. rewrite imap_cons, N.add_0_r. f_equal. apply imap_ext. intros i x _.
  cbn. f_equal. lia.
Qed.

Lemma write_encoded_notes_ok new bs start s :
  Forall2 encodes_as new bs -> is_u64 (start + N.of_nat (length new)) ->
  (forall i, start <= i -> is_u64 i -> get s (KNote i) = None) ->
  let s' := write_encoded_notes (numbered start bs) s in
  framed (fun k => notes_from start k /\ ~ notes_from (start + N.of_nat (length new)) k) s s' /\
  forall i note, new !! i = Some note -> note_at (get s') (start + N.of_nat i) note.
Proof.
  intros Hall. revert start s.
  induction Hall as [|note b new bs [He Hb] Hall IH]; intros start s Hlen Hfresh; cbn zeta.
  - split; [apply framed_refl|done].
  - rewrite numbered_cons. cbn [write_encoded_notes foldl]. fold write_encoded_notes.
    cbn [length] in *. assert (is_u64 start) as Hus by (unfold is_u64 in *; lia).
    destruct (write_payload_ok start b s Hus Hb) as [Hf Hp]; [by apply Hfresh|].
    set (s1 := map_host (write_note_payload start b) s) in *.
    destruct (IH (start + 1) s1) as [Hf' Hn'].
    { unfold is_u64 in *. lia. }
    { intros i Hi Hi'. rewrite (fr_get _ _ _ Hf); [apply Hfresh; [lia|done]|done|cbn; lia]. }
    change (foldl _ s1 (numbered (start + 1) bs))
      with (write_encoded_notes (numbered (start + 1) bs) s1).
    split.
    + eapply framed_trans.
      * eapply framed_mono; [|exact Hf]. intros []; cbn; lia.
      * eapply framed_mono; [|exact Hf']. intros []; cbn; lia.
    + intros [|i] note' Hi; cbn in Hi.
      * injection Hi as <-. rewrite N.add_0_r.
        eapply note_at_ext; [|done|by exists b].
        intros k Hk Hj. rewrite (fr_get _ _ _ Hf'); [done|done|]. destruct k; cbn in *; lia.
      * replace (start + N.of_nat (S i)) with (start + 1 + N.of_nat i) by lia. by apply Hn'.
Qed.

(** ** Extending a tree *)

Definition commit_tree (root : F) (size : N) s : DLS :=
  dset (KCell CTreeSize) (u64_le size) (dset (KCell CTreeRoot) (F_bytes root) s).

Lemma tree_repr_extend notes new bs br' s s1 :
  tree_repr (get s) notes -> Forall2 encodes_as new bs ->
  N.of_nat (length (notes ++ new)) <= TREE_CAPACITY ->
  let sn := write_encoded_notes (numbered (N.of_nat (length notes)) bs) s in
  framed branch_keys sn s1 -> frontier_at (get s1) br' ->
  frontier_ok (leaf_of (fst <$> notes ++ new)) (N.of_nat (length (notes ++ new))) br' ->
  let s2 := commit_tree (tree_root (from_leaves (fst <$> notes ++ new)))
              (N.of_nat (length (notes ++ new))) s1 in
  framed (in_group GTree) s s2 /\ tree_repr (get s2) (notes ++ new).
Proof.
  intros Ht Hall Hcap. cbn zeta. intros Hbr Hat Hok.
  set (n := N.of_nat (length notes)) in *.
  assert (N.of_nat (length (notes ++ new)) = n + N.of_nat (length new)) as Hlen
    by (rewrite length_app; lia).
  pose proof (tree_capacity_u64 _ Hcap) as Hu. rewrite Hlen in *.
  destruct (write_encoded_notes_ok new bs n s Hall Hu (t_fresh _ _ Ht)) as [Hf Hn].
  set (sn := write_encoded_notes (numbered n bs) s) in *. unfold commit_tree.
  set (s2 := dset _ _ _).
  assert (forall k, key_ok k -> notes_from 0 k -> get s2 k = get sn k) as Hnk.
  { intros k Hk Hnf. unfold s2. rewrite !get_dset_ne by (done || by intros <-).
    apply (fr_get _ _ _ Hbr); [done|destruct k; cbn in *; tauto]. }
  split; [|constructor].
  - apply framed_dset_r; [done|done|]. apply framed_dset_r; [done|done|].
    eapply framed_trans; (eapply framed_mono; [|done]); intros [] Hk; cbn in Hk; done || (exfalso; tauto).
  - rewrite Hlen. apply get_dset_eq.
  - unfold s2. by get_simpl.
  - exists br'. rewrite Hlen. split; [done|]. intros l Hl. unfold s2.
    rewrite !get_dset_ne by (done || by apply branch_level_ok). by apply Hat.
  - intros i note Hi. assert (is_u64 (N.of_nat i)) as Hui.
    { eapply lookup_u64; [exact Hi|]. by rewrite Hlen. }
    eapply (note_at_ext (get sn)); [|done|].
    { intros k Hk Hj. apply Hnk; [done|]. destruct k; cbn in *; lia. }
    destruct (decide (i < length notes)%nat) as [Hlt|Hge].
    + rewrite lookup_app_l in Hi by done. eapply (note_at_ext (get s)); [|done|].
      * intros k Hk Hj. rewrite (fr_get _ _ _ Hf); [done|done|].
        destruct k; cbn in *; unfold n; lia.
      * by apply (t_notes _ _ Ht).
    + rewrite lookup_app_r in Hi by lia. apply Hn in Hi.
      replace (n + N.of_nat (i - length notes)) with (N.of_nat i) in Hi by (unfold n; lia). done.
  - intros i Hi Hui. rewrite Hnk by (done || cbn; lia). rewrite Hlen in Hi.
    rewrite (fr_get _ _ _ Hf); [|done|cbn; lia]. apply (t_fresh _ _ Ht); [lia|done].
  - by rewrite Hlen.
Qed.
End Tree.
