(* ===== verification/DurableLedger.v ===== *)
(** * DurableLedger: the kernel's durable ledger satisfies the ledger's laws

    The remaining operations, and the instance of [LedgerLaws] for
    [DurableLedgerState]: every theorem of [LedgerCorrect] and [LedgerHistory] then holds
    of it, on any store that represents a view. *)

From S2P Require Import Prelude Felt Externals Concrete Recipients Types Hashing Outputs.
From S2P Require Import Merkle Ledger LedgerSpec CanonicalWire Utf8 Store StoreKeys Durable.
From S2P Require Import DurableCells DurableRepr DurableOps DurableTree.

Local Open Scope N_scope.

#[local] Opaque DEPTH.

Section Laws.
Context `{Blake2s, HexLaws, Target, Tze WirePublishedNote, HostLaws Hst}.
Context {HW : WordTarget} {HP : PublishedCodec}.
#[local] Abbreviation DLS := (DurableLedgerState Hst).
Implicit Types s : DLS.
Implicit Types v : View.

(** ** Appends *)

Lemma read_tree_size s v :
  repr (get s) v ->
  d_read_u64 s (key_path (KCell CTreeSize)) = Ok (Some (N.of_nat (length (v_notes v)))).
Proof.
  intros Hr. apply read_u64_Some; [|apply (t_size _ _ (r_tree _ _ Hr))].
  apply tree_capacity_u64, (t_capacity _ _ (r_tree _ _ Hr)).
Qed.

Lemma shiftl_capacity : N.shiftl 1 (N.of_nat DEPTH) = TREE_CAPACITY.
Proof. apply N.shiftl_1_l. Qed.

Lemma frontier_at_framed (T : key -> Prop) s s' br :
  framed T s s' -> (forall k, T k -> ~ branch_keys k) -> frontier_at (get s) br ->
  frontier_at (get s') br.
Proof.
  intros Hf HT Hat l Hl. rewrite (fr_get _ _ _ Hf); [by apply Hat|by apply branch_level_ok|].
  intros Hk. by apply (HT _ Hk).
Qed.

Lemma append_one_note s v cm enc b br' s1 :
  repr (get s) v -> encodes_as (cm, enc) b -> view_size v + 1 <= INDEX_LIMIT ->
  N.of_nat (length (v_notes v)) < TREE_CAPACITY ->
  framed branch_keys (map_host (write_note_payload (N.of_nat (length (v_notes v))) b) s) s1 ->
  frontier_at (get s1) br' ->
  frontier_ok (leaf_of ((fst <$> v_notes v) ++ [cm]))
    (N.of_nat (length ((fst <$> v_notes v) ++ [cm]))) br' ->
  steps_to s
    (commit_tree (tree_root (from_leaves ((fst <$> v_notes v) ++ [cm])))
      (N.of_nat (length (v_notes v)) + 1) s1)
    (with_notes (v_notes v ++ [(cm, enc)]) v).
Proof.
  intros Hr Hb Hfit Hcap Hf Hat Hok. set (n := N.of_nat (length (v_notes v))) in *.
  assert (N.of_nat (length (v_notes v ++ [(cm, enc)])) = n + 1) as Hlen
    by (rewrite length_app; cbn; lia).
  destruct (tree_repr_extend (v_notes v) [(cm, enc)] [b] br' s s1) as [Hf' Ht'].
  - apply Hr.
  - by constructor.
  - lia.
  - unfold numbered. cbn [imap]. rewrite N.add_0_r. exact Hf.
  - exact Hat.
  - rewrite fmap_app. rewrite length_app, length_fmap in Hok. rewrite length_app. exact Hok.
  - rewrite Hlen, fmap_app in Hf', Ht'.
    eapply (framed_steps GTree); [done|exact Hr|exact Hf'|exact Ht'|same_parts|].
    unfold view_size in *. cbn. rewrite length_app. cbn. lia.
Qed.

Lemma append_note_ok s v cm enc :
  repr (get s) v -> zero_hashes_ok (dl_zero_hashes s) -> note_shape enc ->
  N.of_nat (length (v_notes v)) < TREE_CAPACITY -> view_size v + 1 <= INDEX_LIMIT ->
  exists s',
    d_append_note cm enc s = (s', Ok (N.of_nat (length (v_notes v)))) /\
    steps_to s s' (with_notes (v_notes v ++ [(cm, enc)]) v).
Proof.
  intros Hr Hz Hn Hcap Hfit. unfold d_append_note. to_keys.
  erewrite ST_run by (unfold reads; by rewrite (read_tree_size _ _ Hr)).
  change (default 0 (Some ?n)) with n. set (n := N.of_nat (length (v_notes v))) in *.
  rewrite shiftl_capacity.
  erewrite ST_run by (unfold lift; by rewrite (proj2 (N.leb_gt _ _) Hcap)).
  destruct (published_encodes cm enc Hn) as (b & He & Hb).
  erewrite ST_run by (unfold lift; by rewrite He). rewrite ST_run_writes.
  set (sn := map_host (write_note_payload n b) s).
  destruct (t_frontier _ _ (r_tree _ _ Hr)) as (br & Hok & Hat). fold n in Hok.
  assert (is_u64 n) as Hu by by apply tree_capacity_u64, N.lt_le_incl.
  destruct (write_payload_ok n b s Hu Hb) as [Hfn _].
  { by apply (t_fresh _ _ (r_tree _ _ Hr)). }
  destruct (frontier_append_leaves (dl_zero_hashes s) (fst <$> v_notes v) cm br Hz)
    as (br' & Hsim & Hok'); [by rewrite length_fmap|by rewrite length_fmap|].
  pose proof (append_loop_sim (seq 0 DEPTH) n cm sn br) as Hloop.
  change (dl_zero_hashes sn) with (dl_zero_hashes s) in Hloop.
  unfold simulate_frontier_append in Hsim. rewrite length_fmap in Hsim. fold n in Hsim.
  rewrite Hsim in Hloop. destruct Hloop as (s1 & Hr1 & Hf1 & Hat1).
  { apply Forall_seq. lia. }
  { apply Hok. }
  { eapply frontier_at_framed; [exact Hfn| |exact Hat]. intros [] Hk; cbn in *; tauto. }
  erewrite ST_run by exact Hr1. rewrite !ST_run_writes.
  destruct (index_limit_bounds n) as [Hu1 Hlt].
  { unfold view_size in Hfit. unfold n. lia. }
  rewrite wrapping_add_small by done.
  eexists. split.
  - unfold lift, to_usize. by rewrite (proj2 (N.ltb_lt _ _) Hlt).
  - by eapply append_one_note.
Qed.

Lemma ensure_capacity_ok s v n :
  repr (get s) v ->
  d_ensure_note_capacity s n = Ok tt <-> N.of_nat (length (v_notes v)) + n <= TREE_CAPACITY.
Proof.
  intros Hr. unfold d_ensure_note_capacity. to_keys. rewrite (read_tree_size _ _ Hr).
  cbn [mbind result_bind]. change (default 0 (Some ?n)) with n. rewrite shiftl_capacity.
  pose proof (t_capacity _ _ (r_tree _ _ Hr)) as Hc.
  assert (TREE_CAPACITY < U64_LIMIT) as Hl by reflexivity.
  rewrite bind_Ok. setoid_rewrite bind_Ok. setoid_rewrite ok_or_Ok. setoid_rewrite fail_if_Ok.
  setoid_rewrite N.ltb_ge. setoid_rewrite checked_add_Some. unfold to_u64. split.
  - intros (a & Ha & x & [-> _] & Hle). destruct (n <? U64_LIMIT); [|done]. by injection Ha as ->.
  - intros Hle. exists n. rewrite (proj2 (N.ltb_lt _ _)) by lia. split; [done|].
    eexists. split; [split; [done|lia]|done].
Qed.

Lemma ensure_capacity_no_panic s n : is_panic (d_ensure_note_capacity s n) = false.
Proof.
  unfold d_ensure_note_capacity. no_panic. unfold d_read_u64.
  destruct (host_read_store _ _ _); [|done]. no_panic.
Qed.

(** ** Deposit pools *)

Lemma read_balance s v k :
  repr (get s) v ->
  parse_balance (key_path (KBalance k)) (host_read_store (dl_host s) (key_path (KBalance k)) 8) =
    Ok (v_balances v !! k).
Proof.
  intros Hr. pose proof (r_balances _ _ Hr k) as Hb. pose proof (read_balance_get s (KBalance k)) as Hp.
  destruct (v_balances v !! k) as [b|].
  - destruct Hb as [Hu E]. rewrite E in Hp. destruct (u64_le b) as [|c l] eqn:Eb.
    + by pose proof (length_u64_le b) as Hl; rewrite Eb in Hl.
    + by apply Hp.
  - by destruct Hb as [E|E]; rewrite E in Hp.
Qed.

(** A pool set to [x], where zero is an empty value. *)
Lemma write_pool_ok s v k (o : option N) bs :
  repr (get s) v ->
  match o with Some x => is_u64 x /\ bs = u64_le x | None => bs = [] end ->
  steps_to s (dset (KBalance k) bs s)
    (with_balances (match o with Some x => <[k := x]> (v_balances v)
                    | None => delete k (v_balances v) end) v).
Proof.
  intros Hr Ho. eapply (framed_steps GBalances); [done|exact Hr|by apply framed_dset| |same_parts|].
  - intros k'. cbn [v_balances with_balances]. pose proof (r_balances _ _ Hr k') as Hb.
    destruct (decide (k' = k)) as [->|Hne].
    + rewrite get_dset_eq. destruct o as [x|].
      * rewrite lookup_insert_eq. destruct Ho as [? ->]. done.
      * rewrite lookup_delete_eq. right. by rewrite Ho.
    + rewrite get_dset_ne by (done || congruence). destruct o as [x|].
      * by rewrite lookup_insert_ne.
      * by rewrite lookup_delete_ne.
  - apply (repr_size _ _ Hr).
Qed.

Lemma credit_ok s v k a next :
  repr (get s) v -> checked_add_u64 (default 0 (v_balances v !! k)) a = Some next ->
  exists s', d_credit_deposit k a s = (s', Ok tt) /\
    steps_to s s' (with_balances (<[k := next]> (v_balances v)) v).
Proof.
  intros Hr Hnext. unfold d_credit_deposit. to_keys.
  erewrite ST_run by (unfold reads; by rewrite (read_balance _ _ _ Hr)).
  erewrite ST_run by (unfold lift; by rewrite Hnext). eexists. split; [reflexivity|].
  apply checked_add_Some in Hnext as [-> Hlt]. by apply (write_pool_ok _ _ _ (Some _)).
Qed.

Lemma credit_Err s v k a :
  repr (get s) v -> checked_add_u64 (default 0 (v_balances v !! k)) a = None ->
  exists e, d_credit_deposit k a s = (s, Err e).
Proof.
  intros Hr Hnext. unfold d_credit_deposit. to_keys.
  erewrite ST_run by (unfold reads; by rewrite (read_balance _ _ _ Hr)).
  eexists. erewrite ST_run_Err; [reflexivity|]. unfold lift. by rewrite Hnext.
Qed.

(** The raw read of the balance of an existing pool. *)
Lemma read_pool s v k b :
  repr (get s) v -> v_balances v !! k = Some b ->
  is_u64 b /\ host_read_store (dl_host s) (key_path (KBalance k)) 8 = Some (u64_le b).
Proof.
  intros Hr Hb. pose proof (r_balances _ _ Hr k) as Hk. rewrite Hb in Hk. destruct Hk as [Hu E].
  split; [done|]. rewrite read_get, E. cbn [fmap option_fmap option_map].
  by rewrite take_ge by by rewrite length_u64_le.
Qed.

Lemma u64_le_not_nil b : bool_decide (u64_le b = []) = false.
Proof. by apply bool_decide_eq_false. Qed.

Lemma debited_pool k a b (m : gmap F N) :
  m !! k = Some b ->
  debited k a m = (if b - a =? 0 then delete k m else <[k := b - a]> m).
Proof. intros E. unfold debited. by rewrite E. Qed.

Lemma write_balance_ok s v k a b :
  repr (get s) v -> v_balances v !! k = Some b -> is_u64 b -> 
  steps_to s (dset (KBalance k) (if b - a =? 0 then [] else u64_le (b - a)) s)
    (with_balances (debited k a (v_balances v)) v).
Proof.
  intros Hr Hb Hu. rewrite (debited_pool _ _ b) by done.
  destruct (b - a =? 0).
  - by apply (write_pool_ok _ _ _ None).
  - apply (write_pool_ok _ _ _ (Some _)); [done|]. split; [|done]. unfold is_u64 in *. lia.
Qed.

Lemma debit_ok s v k a b :
  repr (get s) v -> v_balances v !! k = Some b -> a <= b ->
  exists s', d_debit_deposit k a s = (s', Ok tt) /\
    steps_to s s' (with_balances (debited k a (v_balances v)) v).
Proof.
  intros Hr Hb Hle. destruct (read_pool _ _ _ _ Hr Hb) as [Hu Hread].
  unfold d_debit_deposit. to_keys. erewrite ST_run by (unfold reads; by rewrite Hread).
  erewrite ST_run by reflexivity.
  erewrite ST_run by (unfold lift; by rewrite u64_le_not_nil).
  erewrite ST_run by (unfold lift; by rewrite length_u64_le).
  rewrite le_val_u64 by done.
  erewrite ST_run by (unfold lift; by rewrite (proj2 (N.ltb_ge _ _) Hle)).
  eexists. split; [reflexivity|]. by apply write_balance_ok.
Qed.

(** ** Shields and fees *)

Lemma mark_shield_ok s v cm :
  repr (get s) v ->
  steps_to s (dset (KShield cm) [Byte.x01] s) (with_shields ({[cm]} ∪ v_shields v) v).
Proof.
  intros Hr. eapply (framed_steps GShields); [done|exact Hr|by apply framed_dset| |same_parts|].
  - intros c. cbn [v_shields with_shields]. pose proof (r_shields _ _ Hr c) as Hc.
    destruct (decide (c = cm)) as [->|Hne].
    + rewrite get_dset_eq. split; [by eexists|set_solver].
    + rewrite get_dset_ne by (done || congruence). rewrite <-Hc. set_solver.
  - apply (repr_size _ _ Hr).
Qed.

Lemma read_fee_count s v :
  repr (get s) v -> exists n, current_private_tx_count_in_level s = Ok n.
Proof.
  intros Hr. unfold current_private_tx_count_in_level.
  destruct (read_i32 _ _) as [a|]; [|by eexists]. destruct (read_i32 _ _) as [b|]; [|by eexists].
  destruct (negb _); [by eexists|]. unfold d_read_u64. to_keys. rewrite read_get.
  destruct (get s (KCell CFeeCount)) as [bs|] eqn:E; [|by eexists].
  pose proof (r_fees _ _ Hr bs E) as Hl. cbn [fmap option_fmap option_map].
  change (N.to_nat 8) with 8%nat. rewrite take_ge by lia. rewrite Hl. by eexists.
Qed.

Lemma note_private_tx_ok s v :
  repr (get s) v -> steps_to s (d_note_private_tx_applied s) v.
Proof.
  intros Hr. unfold d_note_private_tx_applied. destruct (read_i32 _ _) as [l|]; [|by apply steps_refl].
  to_keys. eapply (framed_steps GFees); [done|exact Hr| | |same_parts|apply (repr_size _ _ Hr)].
  - apply framed_dset_r; [done|done|]. by apply framed_dset.
  - intros b. rewrite get_dset_eq. intros [= <-]. apply length_u64_le.
Qed.

(** ** The laws *)

Definition durable_inv s : Prop :=
  zero_hashes_ok (dl_zero_hashes s) /\ repr (get s) (view_of s).

Definition durable_fee s : N :=
  required_tx_fee_for_private_tx_count
    (match current_private_tx_count_in_level s with Ok n => n | _ => 0 end).

Lemma steps_inv s s' v' :
  durable_inv s -> steps_to s s' v' -> durable_inv s' /\ view_of s' = v'.
Proof.
  intros [Hz _] [Hr [_ Hz' _]]. pose proof (repr_view _ _ Hr) as Hv.
  split; [|done]. split; [by rewrite Hz'|by rewrite Hv].
Qed.

(** The invariant of a ledger that started as [base]: its other cells, its outbox and
    its inbox are those of [base]. *)
Definition durable_inv_from (base : DLS) s : Prop := durable_inv s /\ framed ledger_key base s.

(** An operation that runs to a represented view. *)
Lemma op_inv {A} base (op : ST DLS A) s a v' :
  durable_inv_from base s -> (exists s', op s = (s', Ok a) /\ steps_to s s' v') ->
  exists s', op s = (s', Ok a) /\ durable_inv_from base s' /\ view_of s' = v'.
Proof.
  intros [Hi Hf] (s' & Hop & Hs). exists s'. split; [done|].
  destruct (steps_inv _ _ _ Hi Hs). destruct Hs as [_ Hf'].
  split; [|done]. split; [done|]. by eapply framed_trans.
Qed.

Lemma has_marker_in s mk X f :
  (forall f, f ∈ X <-> is_Some (get s (mk f))) ->
  d_has_marker s (key_path (mk f)) = bool_decide (f ∈ (X : gset F)).
Proof. intros HX. rewrite has_marker_get. apply bool_decide_ext. by rewrite HX. Qed.

(** Exposes the durable operation behind the interface's. *)
#[local] Ltac durable_op :=
  cbn [Durable_state ls_auth_domain ls_required_tx_fee ls_has_valid_root ls_has_nullifier
       ls_has_applied_shield ls_deposit_balance]; to_keys.

Program Definition Durable_laws (base : DLS) : LedgerLaws DLS := {|
  ll_view := view_of;
  ll_fee := durable_fee;
  ll_inv := durable_inv_from base;
  ll_capacity := TREE_CAPACITY;
  ll_fits := fun n => n <= INDEX_LIMIT
|}.
Next Obligation. cbn. intros base m n Hmn Hn. by etrans. Qed.
Next Obligation.
  intros base s [[_ Hr] _]. durable_op.
  by rewrite (read_felt_get _ _ (Some (v_auth_domain (view_of s)))) by apply Hr.
Qed.
Next Obligation.
  intros base s [[_ Hr] _]. durable_op. unfold durable_fee. by destruct (read_fee_count _ _ Hr) as [n ->].
Qed.
Next Obligation.
  intros base s r [[_ Hr] _]. durable_op. f_equal.
  by destruct (indexed_set_elim _ _ (r_roots _ _ Hr)) as (l & _ & _ & _ & _ & _ & _ & Hm).
Qed.
Next Obligation.
  intros base s nf [[_ Hr] _]. durable_op. f_equal.
  by destruct (indexed_set_elim _ _ (r_nullifiers _ _ Hr)) as (l & _ & _ & _ & _ & _ & _ & Hm).
Qed.
Next Obligation.
  intros base s cm [[_ Hr] _]. durable_op. f_equal. apply has_marker_in, (r_shields _ _ Hr).
Qed.
Next Obligation.
  intros base s k [[_ Hr] _]. durable_op. unfold d_deposit_balance. to_keys. apply (read_balance _ _ _ Hr).
Qed.
Next Obligation. intros base s n [[_ Hr] _]. by apply ensure_capacity_ok. Qed.
Next Obligation. intros base s n _. apply ensure_capacity_no_panic. Qed.
Next Obligation. intros base s nf Hi Hfit. apply op_inv; [done|]. by apply insert_nullifier_ok, Hfit; apply (proj1 Hi). Qed.
Next Obligation.
  intros base s cm enc Hi Hn Hc Hfit. apply op_inv; [done|]. by apply append_note_ok; [apply (proj1 Hi)..| | |].
Qed.
Next Obligation.
  intros base s Hi Hfit. destruct (snapshot_root_ok s (view_of s)) as (s' & Hop & Hs); [apply (proj1 Hi)|done|].
  exists s', ({[v_root (view_of s)]} ∪ v_roots (view_of s)).
  destruct (op_inv base d_snapshot_root s tt _ Hi (ex_intro _ s' (conj Hop Hs)))
    as (s'' & Hop' & Hi' & Hv). rewrite Hop in Hop'. injection Hop' as <-.
  split; [done|]. split; [done|]. split; [done|]. split; set_solver.
Qed.
Next Obligation.
  intros base s r a Hi Ha Hfit. apply op_inv; [done|]. by apply enqueue_ok; [apply (proj1 Hi)|..].
Qed.
Next Obligation.
  intros base s Hi. destruct (op_inv base (writes d_note_private_tx_applied) s tt (view_of s) Hi)
    as (s' & [= <-] & Hs'); [|done].
  eexists. split; [reflexivity|]. apply note_private_tx_ok, (proj1 Hi).
Qed.
Next Obligation.
  intros base s k a Hi Ha. destruct (checked_add_u64 _ a) as [next|] eqn:E.
  - apply op_inv; [done|]. by apply credit_ok; [apply (proj1 Hi)|].
  - by apply (credit_Err s (view_of s)); [apply (proj1 Hi)|].
Qed.
Next Obligation.
  intros base s k a b Hi Hb Hle. apply op_inv; [done|]. by eapply debit_ok; [apply (proj1 Hi)|..].
Qed.
Next Obligation.
  intros base s cm Hi. apply op_inv; [done|]. eexists. split; [reflexivity|]. apply mark_shield_ok, (proj1 Hi).
Qed.

(** ** A new store *)

Definition empty_view : View :=
  {| v_auth_domain := default_auth_domain; v_nullifiers := ∅;
     v_roots := {[tree_root (from_leaves [])]}; v_notes := []; v_withdrawals := [];
     v_balances := ∅; v_shields := ∅ |}.

(** Nothing of the ledger is stored yet; other cells may be. *)
Definition fresh_store (g : key -> option bytes) : Prop :=
  forall k, key_ok k -> (in_group GOther k -> k = KCell CAuthDomain) -> g k = None.

Lemma compute_zero_hashes_ok : zero_hashes_ok compute_zero_hashes.
Proof. exact new_zero_hashes_ok. Qed.

Lemma empty_root : tree_root (from_leaves []) = compute_zero_hashes !!! DEPTH.
Proof.
  rewrite compute_zero_hashes_ok, tree_root_node by done. by apply node_empty.
Qed.

Lemma init_cell_fresh k n write s :
  get s k = None -> init_cell (key_path k) n write s = (write s, Ok tt).
Proof. intros E. unfold init_cell, writes. by rewrite read_get, E. Qed.

Lemma init_cell_present k n write s :
  is_Some (get s k) -> init_cell (key_path k) n write s = (s, Ok tt).
Proof. intros [b E]. unfold init_cell, writes. by rewrite read_get, E. Qed.

(** The store that initialisation leaves. *)
Definition initialized s : DLS :=
  let root := tree_root (from_leaves []) in
  dset (KCell CValidRootCount) (u64_le 1)
  (dset (KRootAt 0) (F_bytes root) (dset (KRoot root) [Byte.x01]
  (dset (KCell CWithdrawalCount) (u64_le 0) (dset (KCell CNullifierCount) (u64_le 0)
  (dset (KCell CTreeRoot) (F_bytes root) (dset (KCell CTreeSize) (u64_le 0)
  (dset (KCell CAuthDomain) (F_bytes default_auth_domain) s))))))).

Lemma ensure_initialized_fresh s :
  dl_zero_hashes s = compute_zero_hashes -> fresh_store (get s) ->
  ensure_initialized s = (initialized s, Ok tt).
Proof.
  intros Hz Hf. unfold ensure_initialized. to_keys.
  assert (forall c, key_group (KCell c) <> GOther -> get s (KCell c) = None) as Hc
    by (intros c Hc; apply Hf; [done|by intros E]).
  assert (get s (KCell CAuthDomain) = None) as Ha by by apply Hf.
  do 5 (erewrite ST_run by (apply init_cell_fresh; get_simpl; first [exact Ha|by apply Hc]);
        cbv beta; to_keys).
  erewrite ST_run by reflexivity. rewrite read_get. get_simpl. rewrite Hc by done.
  rewrite bool_decide_eq_true_2 by done. rewrite !dset_zero_hashes, Hz, <-empty_root.
  erewrite ST_run
    by (unfold reads; by rewrite (read_felt_get _ _ (Some (tree_root (from_leaves [])))) by by get_simpl).
  erewrite ST_run by reflexivity. by to_keys.
Qed.

Lemma ensure_initialized_again s v :
  repr (get s) v -> ensure_initialized s = (s, Ok tt).
Proof.
  intros [Ha Ht (l & _ & _ & _ & Hn & _) (l' & _ & _ & _ & Hr & _) (_ & Hw & _) _ _ _ _].
  unfold ensure_initialized. to_keys.
  do 5 (erewrite ST_run
    by (apply init_cell_present; rewrite ?Ha, ?(t_size _ _ Ht), ?(t_root _ _ Ht), ?Hn, ?Hw; by eexists)).
  erewrite ST_run by reflexivity. by rewrite read_get, Hr.
Qed.

Lemma indexed_set_empty s count at_ marker :
  get s (KCell count) = Some (u64_le 0) -> (forall f, get s (marker f) = None) ->
  indexed_set (get s) count at_ marker ∅.
Proof.
  intros Hc Hm. exists []. split; [done|]. split; [constructor|]. split; [done|].
  split; [done|]. split; [done|]. intros f. rewrite Hm. split; [by intros ?%elem_of_nil|by intros [? ?]].
Qed.

Lemma initialized_ok s :
  fresh_store (get s) -> repr (get (initialized s)) empty_view.
Proof.
  intros Hf. set (root := tree_root (from_leaves [])).
  assert (forall k, key_ok k -> ~ in_group GOther k -> get s k = None)
    as Hnone by (intros k Hk Hg; apply Hf; [done|by intros ?%Hg]).
  assert (is_u64 0) by done. unfold initialized. fold root. constructor.
  - by get_simpl.
  - constructor; [by get_simpl|by get_simpl| |done| |done].
    + exists (replicate DEPTH None). split; [apply frontier_ok_nil|]. intros l Hl.
      pose proof (branch_level_ok l Hl).
      rewrite lookup_replicate_2 by done. get_simpl. apply Hnone; [done|done].
    + intros i _ Hi. get_simpl. apply Hnone; [done|done].
  - apply indexed_set_empty; [by get_simpl|]. intros f. get_simpl. apply Hnone; [done|done].
  - cbn [v_roots empty_view]. fold root. rewrite <-list_to_set_singleton_L.
    apply indexed_set_intro; [apply NoDup_singleton|done|].
    apply (record_entry_ok (at_ := KRootAt) (marker := KRoot) []); [|set_solver|done].
    split; [done|]. intros f. get_simpl. rewrite Hnone by done.
    split; [by intros ?%elem_of_nil|by intros [? ?]].
  - split; [done|]. split; [by get_simpl|done].
  - intros k. cbn [v_balances empty_view]. rewrite lookup_empty. left. get_simpl.
    apply Hnone; [done|done].
  - intros k. cbn [v_shields empty_view]. get_simpl. rewrite Hnone by done.
    split; [set_solver|by intros [? ?]].
  - intros b. get_simpl. by rewrite Hnone by done.
  - unfold view_size, INDEX_LIMIT. cbn -[N.min N.pow]. rewrite size_singleton. cbn -[N.min N.pow].
    apply N.min_glb; [|done]. rewrite size_empty. pose proof (u32_usize 1 eq_refl). cbn. lia.
Qed.
End Laws.
