(* ===== verification/DurableCommit.v ===== *)
(** * DurableCommit: the staged commits have the abstract effect

    The kernel commits a shield or an unshield in two stages: it computes every write on
    copies of what it reads, and then makes the writes, none of which can fail.  For an
    accepted request both stages succeed and together are the transition of
    [LedgerSpec]. *)

From S2P Require Import Prelude Felt Externals Concrete Recipients Types Hashing Outputs.
From S2P Require Import Merkle Ledger LedgerSpec LedgerCorrect CanonicalWire Utf8 Store StoreKeys.
From S2P Require Import Durable DurableCells DurableRepr DurableOps DurableTree DurableLedger.

Local Open Scope N_scope.

#[local] Opaque DEPTH.

Section Commit.
Context `{Blake2s, HexLaws, TezosContracts, Target, Tze WirePublishedNote, HostLaws Hst}.
Context {HW : WordTarget} {HP : PublishedCodec}.
#[local] Abbreviation DLS := (DurableLedgerState Hst).
Implicit Types s : DLS.
Implicit Types v : View.

(** ** Planning *)

Lemma read_branches_ok s br :
  length br = DEPTH -> frontier_at (get s) br -> read_branches s = Ok br.
Proof.
  intros Hl Hat. unfold read_branches. apply map_result_Ok, Forall2_lookup. intros l.
  destruct (decide (l < DEPTH)%nat) as [Hlt|Hge].
  - rewrite lookup_seq_lt by done. destruct (lookup_lt_is_Some_2 br l ltac:(lia)) as [o Ho].
    rewrite Ho. constructor. apply (read_felt_get _ (KBranch l)). by rewrite Hat, Ho.
  - rewrite lookup_seq_ge, lookup_ge_None_2 by lia. constructor.
Qed.

Lemma plan_append_ok s notes cm enc b br :
  zero_hashes_ok (dl_zero_hashes s) -> encodes_as (cm, enc) b ->
  N.of_nat (length notes) < TREE_CAPACITY ->
  frontier_ok (leaf_of (fst <$> notes)) (N.of_nat (length notes)) br ->
  let notes' := notes ++ [(cm, enc)] in
  exists br',
    plan_append s (N.of_nat (length notes)) cm enc br =
      Ok (br', (N.of_nat (length notes), b), tree_root (from_leaves (fst <$> notes'))) /\
    frontier_ok (leaf_of (fst <$> notes')) (N.of_nat (length notes')) br' /\ fills br br'.
Proof.
  intros Hz [He _] Hcap Hok. cbn zeta. cbn in He. unfold plan_append. rewrite He.
  cbn [mbind result_bind].
  destruct (frontier_append_leaves (dl_zero_hashes s) (fst <$> notes) cm br Hz)
    as (br' & Hsim & Hok'); [by rewrite length_fmap|by rewrite length_fmap|].
  pose proof (frontier_loop_fills (dl_zero_hashes s) (seq 0 DEPTH)
    (N.of_nat (length notes)) cm br) as Hfill.
  rewrite length_fmap in Hsim. unfold simulate_frontier_append in *. rewrite Hsim in *.
  exists br'. rewrite fmap_app. split; [done|]. split; [|exact Hfill].
  rewrite length_app, length_fmap in Hok'. by rewrite length_app.
Qed.

Lemma plan_root_marker_ok s v root :
  repr (get s) v ->
  plan_root_marker s root =
    Ok (if bool_decide (root ∈ v_roots v) then None else Some (N.of_nat (size (v_roots v)), root)).
Proof.
  intros Hr. unfold plan_root_marker. to_keys.
  destruct (indexed_set_elim _ _ (r_roots _ _ Hr)) as (l & _ & _ & _ & _ & Hc & _ & Hm).
  rewrite Hm. case_bool_decide; [done|]. by rewrite Hc.
Qed.

Lemma note_index_ok n : n + 1 <= INDEX_LIMIT -> note_index n = Ok n.
Proof.
  intros Hn. unfold note_index, to_usize.
  by rewrite (proj2 (N.ltb_lt _ _) (proj2 (index_limit_bounds _ Hn))).
Qed.

(** ** Writing the branches *)

(** [branch_values], from a level on. *)
Definition values_from (k : nat) (br : list (option F)) : list (nat * F) :=
  omap (fun '(level, value) => pair level <$> value) (imap (fun i slot => ((k + i)%nat, slot)) br).

Lemma values_from_cons k o br :
  values_from k (o :: br) = (match o with Some f => [(k, f)] | None => [] end) ++ values_from (S k) br.
Proof.
  unfold values_from. rewrite imap_cons, Nat.add_0_r.
  rewrite (imap_ext ((fun i (slot : option F) => ((k + i)%nat, slot)) ∘ S) (fun i slot => ((S k + i)%nat, slot)))
    by (intros i x _; cbn; f_equal; lia).
  by destruct o.
Qed.

Lemma write_values_ok k br s :
  (k + length br <= DEPTH)%nat ->
  let s' := write_branches (values_from k br) s in
  framed branch_keys s s' /\
  forall l, (l < DEPTH)%nat -> get s' (KBranch l) =
    if (k <=? l)%nat then
      match br !! (l - k)%nat with
      | Some (Some f) => Some (F_bytes f)
      | _ => get s (KBranch l)
      end
    else get s (KBranch l).
Proof.
  revert k s. induction br as [|o br IH]; intros k s Hk; cbn zeta.
  - split; [apply framed_refl|]. intros l Hl. rewrite lookup_nil. by destruct (_ <=? _)%nat.
  - rewrite values_from_cons. cbn [length] in Hk. unfold write_branches. rewrite foldl_app.
    set (s1 := foldl _ s _).
    assert (framed branch_keys s s1 /\ forall l, (l < DEPTH)%nat ->
      get s1 (KBranch l) = match o with
        | Some f => if decide (l = k) then Some (F_bytes f) else get s (KBranch l)
        | None => get s (KBranch l) end) as [Hf1 Hg1].
    { destruct o as [f|]; [|by split; [apply framed_refl|]].
      assert (s1 = dset (KBranch k) (F_bytes f) s) as -> by done.
      pose proof (branch_level_ok k ltac:(lia)). split; [by apply framed_dset|].
      intros l Hl. destruct (decide (l = k)) as [->|Hne]; [apply get_dset_eq|].
      apply get_dset_ne; [done|by apply branch_level_ok|congruence]. }
    destruct (IH (S k) s1) as [Hf Hg]; [lia|]. split; [by eapply framed_trans|].
    intros l Hl. specialize (Hg l Hl). unfold write_branches in Hg. rewrite Hg, (Hg1 l Hl).
    destruct (Nat.leb_spec k l) as [Hkl|Hkl].
    + destruct (decide (l = k)) as [->|Hne].
      * rewrite Nat.sub_diag. destruct (Nat.leb_spec (S k) k); [lia|].
        destruct o; done.
      * destruct (Nat.leb_spec (S k) l); [|lia]. replace (l - k)%nat with (S (l - S k)) by lia.
        cbn [lookup list_lookup]. by destruct o.
    + destruct (Nat.leb_spec (S k) l); [lia|]. destruct o; [|done]. by rewrite decide_False by lia.
Qed.

Lemma write_branches_ok br br' s :
  length br = DEPTH -> length br' = DEPTH -> frontier_at (get s) br -> fills br br' ->
  let s' := write_branches (branch_values br') s in
  framed branch_keys s s' /\ frontier_at (get s') br'.
Proof.
  intros Hl Hl' Hat Hfill.
  destruct (write_values_ok 0 br' s ltac:(lia)) as [Hf Hg].
  split; [exact Hf|]. intros l Hlt. rewrite Hg by done. cbn [Nat.leb]. rewrite Nat.sub_0_r.
  destruct (br' !! l) as [[f|]|] eqn:E; [done| |].
  - destruct (Hfill l) as [E'|[f E']]; [|congruence]. rewrite Hat by done. by rewrite <-E', E.
  - apply lookup_ge_None in E. lia.
Qed.

(** ** The writes of a commit, group by group *)

Lemma commit_notes_ok s v new bs br br' :
  repr (get s) v -> Forall2 encodes_as new bs ->
  N.of_nat (length (v_notes v ++ new)) <= TREE_CAPACITY ->
  length br = DEPTH -> frontier_at (get s) br -> fills br br' ->
  frontier_ok (leaf_of (fst <$> v_notes v ++ new)) (N.of_nat (length (v_notes v ++ new))) br' ->
  view_size v + N.of_nat (length new) <= INDEX_LIMIT ->
  steps_to s
    (commit_tree (tree_root (from_leaves (fst <$> v_notes v ++ new)))
      (N.of_nat (length (v_notes v ++ new)))
      (write_branches (branch_values br')
        (write_encoded_notes (numbered (N.of_nat (length (v_notes v))) bs) s)))
    (with_notes (v_notes v ++ new) v).
Proof.
  intros Hr Hall Hcap Hl Hat Hfill Hok Hfit.
  set (sn := write_encoded_notes (numbered (N.of_nat (length (v_notes v))) bs) s).
  pose proof (r_tree _ _ Hr) as Ht.
  destruct (write_encoded_notes_ok new bs (N.of_nat (length (v_notes v))) s Hall) as [Hfn _];
    [|exact (t_fresh _ _ Ht)|].
  { rewrite length_app in Hcap. apply tree_capacity_u64. lia. }
  destruct (write_branches_ok br br' sn) as [Hfb Hat']; [done|apply Hok| |done|].
  { eapply frontier_at_framed; [exact Hfn| |exact Hat]. intros [] Hk; cbn in *; tauto. }
  destruct (tree_repr_extend (v_notes v) new bs br' s (write_branches (branch_values br') sn))
    as [Hf' Ht']; [done..|].
  eapply (framed_steps GTree); [done|exact Hr|exact Hf'|exact Ht'|same_parts|].
  unfold view_size in *. cbn. rewrite length_app. lia.
Qed.

Lemma write_nullifiers_ok l nfs s :
  indexed_entries (get s) KNullifierAt KNullifier l -> NoDup (l ++ nfs) ->
  is_u64 (N.of_nat (length (l ++ nfs))) ->
  exists s', write_nullifiers (N.of_nat (length l)) nfs s = (s', N.of_nat (length (l ++ nfs))) /\
    framed (in_group GNullifiers) s s' /\
    indexed_entries (get s') KNullifierAt KNullifier (l ++ nfs).
Proof.
  revert l s. induction nfs as [|nf nfs IH]; intros l s He Hn Hu.
  - exists s. rewrite app_nil_r. split; [done|]. split; [apply framed_refl|done].
  - unfold write_nullifiers. cbn [foldl]. rewrite cons_middle, app_assoc in Hn, Hu |- *.
    assert (N.of_nat (length l) + 1 = N.of_nat (length (l ++ [nf]))) as Hl
      by (rewrite length_app; cbn; lia).
    assert (is_u64 (N.of_nat (length (l ++ [nf])))) as Hu1.
    { rewrite length_app in Hu. unfold is_u64 in *. lia. }
    assert (is_u64 (N.of_nat (length l))) as Hu0 by (unfold is_u64 in *; lia).
    assert (nf ∉ l) as Hnf.
    { apply NoDup_app in Hn as (Hn & _ & _). apply NoDup_app in Hn as (_ & Hd & _).
      intros Hin. apply (Hd nf Hin). set_solver. }
    to_keys. rewrite wrapping_add_small, Hl by by rewrite Hl.
    destruct (IH (l ++ [nf]) (record_entry (at_ := KNullifierAt) (marker := KNullifier)
      (N.of_nat (length l)) nf s)) as (s' & Hw & Hf & He'); [by apply record_entry_ok|done|done|].
    exists s'. split; [exact Hw|]. split; [|done]. eapply framed_trans; [|exact Hf].
    by apply record_entry_framed.
Qed.

Lemma commit_nullifiers_ok s v nfs :
  repr (get s) v -> NoDup nfs -> (forall nf, nf ∈ nfs -> nf ∉ v_nullifiers v) ->
  view_size v + N.of_nat (length nfs) <= INDEX_LIMIT -> exists s',
    (let '(s1, index) := write_nullifiers (N.of_nat (size (v_nullifiers v))) nfs s in
     dset (KCell CNullifierCount) (u64_le index) s1) = s' /\
    steps_to s s' (with_nullifiers (list_to_set nfs ∪ v_nullifiers v) v).
Proof.
  intros Hr Hnd Hfresh Hfit. pose proof (r_nullifiers _ _ Hr) as Hn.
  destruct (indexed_set_elim _ _ Hn) as (l & HX & Hndl & Hl & Hu & _ & He & _).
  assert (forall nf, nf ∈ nfs -> nf ∉ l) as Hd
    by (intros nf Hin; specialize (Hfresh nf Hin); set_solver).
  assert (NoDup (l ++ nfs)) as Hnd'
    by (apply NoDup_app; split; [done|]; split; [|done]; intros x Hx Hx'; by apply (Hd x)).
  assert (N.of_nat (length (l ++ nfs)) <= INDEX_LIMIT) as Hle.
  { rewrite length_app, Hl. unfold view_size in Hfit. lia. }
  assert (is_u64 (N.of_nat (length (l ++ nfs)))) as Hu'.
  { unfold INDEX_LIMIT, is_u64, U64_LIMIT in *. pose proof (N.le_min_r usize_limit (2 ^ 64 - 1)).
    eapply N.le_lt_trans; [etrans; [exact Hle|done]|reflexivity]. }
  destruct (write_nullifiers_ok l nfs s He Hnd' Hu') as (s1 & Hw & Hf & He').
  rewrite <-Hl, Hw. eexists. split; [reflexivity|].
  eapply (framed_steps GNullifiers); [done|exact Hr|by apply framed_dset_r| |same_parts|].
  - cbn [part v_nullifiers with_nullifiers].
    replace (list_to_set nfs ∪ v_nullifiers v) with (list_to_set (l ++ nfs) : gset F)
      by (rewrite list_to_set_app_L, HX; set_solver).
    by apply indexed_set_intro.
  - etransitivity; [apply view_size_nullifiers|done].
Qed.

(** The view with its root accepted. *)
Definition snapshot_view (v : View) : View := with_roots ({[v_root v]} ∪ v_roots v) v.

Lemma write_root_marker_ok s v :
  repr (get s) v -> view_size v + 1 <= INDEX_LIMIT ->
  steps_to s
    (write_root_marker
      (if bool_decide (v_root v ∈ v_roots v) then None
       else Some (N.of_nat (size (v_roots v)), v_root v)) s)
    (snapshot_view v).
Proof.
  intros Hr Hfit. unfold snapshot_view. case_bool_decide as Hin; cbn [write_root_marker].
  - replace ({[v_root v]} ∪ v_roots v) with (v_roots v) by set_solver.
    rewrite with_roots_same. by apply steps_refl.
  - to_keys. by apply insert_root_ok.
Qed.

Lemma snapshot_view_snapshot v : root_snapshot v (snapshot_view v).
Proof. eexists. split; [reflexivity|]. split; set_solver. Qed.

(** ** Shields *)

(** Two planned appends in a row. *)
Lemma plan_two_ok s notes cm1 enc1 b1 cm2 enc2 b2 br :
  zero_hashes_ok (dl_zero_hashes s) -> encodes_as (cm1, enc1) b1 -> encodes_as (cm2, enc2) b2 ->
  N.of_nat (length notes) + 2 <= TREE_CAPACITY ->
  frontier_ok (leaf_of (fst <$> notes)) (N.of_nat (length notes)) br ->
  let notes' := notes ++ [(cm1, enc1); (cm2, enc2)] in
  exists br1 root1 br2,
    plan_append s (N.of_nat (length notes)) cm1 enc1 br =
      Ok (br1, (N.of_nat (length notes), b1), root1) /\
    plan_append s (N.of_nat (length notes) + 1) cm2 enc2 br1 =
      Ok (br2, (N.of_nat (length notes) + 1, b2), tree_root (from_leaves (fst <$> notes'))) /\
    frontier_ok (leaf_of (fst <$> notes')) (N.of_nat (length notes')) br2 /\ fills br br2.
Proof.
  intros Hz He1 He2 Hcap Hok. cbn zeta.
  destruct (plan_append_ok s notes cm1 enc1 b1 br Hz He1) as (br1 & Hp1 & Hok1 & Hf1); [lia|done|].
  assert (N.of_nat (length (notes ++ [(cm1, enc1)])) = N.of_nat (length notes) + 1) as Hlen
    by (rewrite length_app; cbn; lia).
  destruct (plan_append_ok s (notes ++ [(cm1, enc1)]) cm2 enc2 b2 br1 Hz He2)
    as (br2 & Hp2 & Hok2 & Hf2); [lia|done|].
  rewrite Hlen in Hp2. rewrite <-app_assoc in Hp2, Hok2. cbn [app] in Hp2, Hok2.
  eexists _, _, br2. split; [exact Hp1|]. split; [exact Hp2|]. split; [done|].
  by eapply fills_trans.
Qed.

Lemma numbered_two n b1 b2 : numbered n [b1; b2] = [(n, b1); (n + 1, b2)].
Proof. by rewrite !numbered_cons. Qed.

Definition root_marker_of (before v : View) : option (N * F) :=
  if bool_decide (v_root v ∈ v_roots before) then None
  else Some (N.of_nat (size (v_roots before)), v_root v).

(** The notes an accepted request appends, with their encodings and the branches that
    result. *)
Record append_plan s v (new : list (F * EncryptedNote)) (bs : list bytes)
    (br br' : list (option F)) : Prop := {
  ap_encodings : Forall2 encodes_as new bs;
  ap_room : N.of_nat (length (v_notes v ++ new)) <= TREE_CAPACITY;
  ap_before : frontier_ok (leaf_of (fst <$> v_notes v)) (N.of_nat (length (v_notes v))) br;
  ap_stored : frontier_at (get s) br;
  ap_fills : fills br br';
  ap_after : frontier_ok (leaf_of (fst <$> v_notes v ++ new))
               (N.of_nat (length (v_notes v ++ new))) br'
}.

(** Its writes, on any later store that kept the branches. *)
Lemma append_plan_writes s s0 v0 v new bs br br' :
  append_plan s0 v0 new bs br br' -> repr (get s) v -> v_notes v = v_notes v0 ->
  (forall l, (l < DEPTH)%nat -> get s (KBranch l) = get s0 (KBranch l)) ->
  view_size v + N.of_nat (length new) <= INDEX_LIMIT ->
  steps_to s
    (commit_tree (tree_root (from_leaves (fst <$> v_notes v0 ++ new)))
      (N.of_nat (length (v_notes v0 ++ new)))
      (write_branches (branch_values br')
        (write_encoded_notes (numbered (N.of_nat (length (v_notes v0))) bs) s)))
    (with_notes (v_notes v0 ++ new) v).
Proof.
  intros [Hall Hroom [Hl _] Hat Hfill Hok] Hr Hv Hb Hfit. rewrite <-Hv in *.
  eapply commit_notes_ok; [done|done|done|exact Hl| |done|done|done].
  intros l Hlt. rewrite Hb by done. by apply Hat.
Qed.

Definition shield_notes (req : ShieldReq) : list (F * EncryptedNote) :=
  [(sr_client_cm req, sr_client_enc req); (sr_producer_cm req, sr_producer_enc req)].

Definition planned_shield v req (bal : N) (bs : list bytes) (br' : list (option F))
    : PreparedDurableShieldCommit :=
  {| sc_encoded_notes := numbered (N.of_nat (length (v_notes v))) bs;
     sc_branch_values := branch_values br';
     sc_new_tree_root := v_root (shield_effect req v);
     sc_new_tree_size := N.of_nat (length (v_notes v ++ shield_notes req));
     sc_balance_path := key_path (KBalance (sr_pubkey_hash req));
     sc_new_balance := bal - shield_cost req;
     sc_root_marker := root_marker_of v (shield_effect req v);
     sc_applied_shield_path := key_path (KShield (sr_client_cm req));
     sc_response := shield_resp req v |}.

Lemma prepare_shield_plan s v req bal :
  zero_hashes_ok (dl_zero_hashes s) -> repr (get s) v -> view_size v + 2 <= INDEX_LIMIT ->
  note_shape (sr_client_enc req) -> note_shape (sr_producer_enc req) ->
  sr_client_cm req ∉ v_shields v -> v_balances v !! sr_pubkey_hash req = Some bal ->
  shield_cost req <= bal -> N.of_nat (length (v_notes v)) + 2 <= TREE_CAPACITY ->
  exists bs br br',
    append_plan s v (shield_notes req) bs br br' /\
    prepare_durable_shield_commit s (prepared_shield req) = Ok (planned_shield v req bal bs br').
Proof.
  intros Hz Hr Hfit Hn1 Hn2 Hfresh Hbal Hle Hroom.
  set (n := N.of_nat (length (v_notes v))) in *.
  destruct (read_pool _ _ _ _ Hr Hbal) as [Hub Hread].
  destruct (published_encodes (sr_client_cm req) _ Hn1) as (b1 & He1).
  destruct (published_encodes (sr_producer_cm req) _ Hn2) as (b2 & He2).
  destruct (t_frontier _ _ (r_tree _ _ Hr)) as (br & Hok & Hat).
  destruct (plan_two_ok s (v_notes v) _ _ b1 _ _ b2 br Hz He1 He2 Hroom Hok)
    as (br1 & root1 & br2 & Hp1 & Hp2 & Hok2 & Hfill). fold n in Hok, Hp1, Hp2.
  assert (n + 2 <= INDEX_LIMIT) as Hn by (unfold view_size in Hfit; unfold n; lia).
  assert (N.of_nat (length (v_notes v ++ shield_notes req)) = n + 1 + 1) as Hlen
    by (rewrite length_app; cbn; unfold n; lia).
  exists [b1; b2], br, br2. split.
  { constructor; [by constructor; [|constructor]|lia|done..]. }
  unfold prepare_durable_shield_commit.
  cbn [ps_pubkey_hash ps_debit ps_client_cm ps_client_enc ps_producer_cm ps_producer_enc
    prepared_shield]. to_keys.
  rewrite Hread. cbn [ok_or mbind result_bind]. rewrite u64_le_not_nil, length_u64_le.
  cbn [fail_if Nat.eqb negb mbind result_bind]. rewrite le_val_u64 by done.
  rewrite (proj2 (N.ltb_ge _ _) Hle).
  rewrite (has_marker_in s KShield (v_shields v)) by apply (r_shields _ _ Hr).
  rewrite bool_decide_eq_false_2 by done. cbn [fail_if mbind result_bind].
  rewrite (read_branches_ok s br) by (done || apply Hok). cbn [mbind result_bind].
  rewrite (read_tree_size _ _ Hr). cbn [mbind result_bind]. change (default 0 (Some ?n)) with n.
  fold n. rewrite (frontier_check_ok _ _ _ Hok). cbn [mbind result_bind].
  rewrite Hp1. cbn [mbind result_bind].
  rewrite (note_index_ok n) by lia. cbn [mbind result_bind].
  destruct (index_limit_bounds n) as [Hu1 _]; [lia|].
  destruct (index_limit_bounds (n + 1)) as [Hu2 _]; [lia|].
  rewrite (wrapping_add_small n) by done. rewrite Hp2. cbn [mbind result_bind].
  rewrite (note_index_ok (n + 1)) by lia. cbn [mbind result_bind].
  rewrite (plan_root_marker_ok _ _ _ Hr), (wrapping_add_small (n + 1)) by done.
  unfold planned_shield. rewrite numbered_two, Hlen. reflexivity.
Qed.

Lemma apply_shield_plan s v req bal bs br br' :
  repr (get s) v -> view_size v + OP_GROWTH <= INDEX_LIMIT ->
  append_plan s v (shield_notes req) bs br br' ->
  v_balances v !! sr_pubkey_hash req = Some bal ->
  exists s',
    apply_durable_shield_commit (planned_shield v req bal bs br') s = (s', shield_resp req v) /\
    steps_to s s' (snapshot_view (shield_effect req v)).
Proof.
  intros Hr Hfit Hplan Hbal.
  destruct (read_pool _ _ _ _ Hr Hbal) as [Hub _].
  unfold apply_durable_shield_commit, planned_shield.
  cbn [sc_balance_path sc_new_balance sc_applied_shield_path sc_encoded_notes sc_branch_values
    sc_new_tree_root sc_new_tree_size sc_root_marker sc_response]. to_keys.
  eexists. split; [reflexivity|].
  pose proof (write_balance_ok s v (sr_pubkey_hash req) (shield_cost req) bal Hr Hbal Hub) as H1'.
  set (s1 := dset (KBalance (sr_pubkey_hash req)) _ s) in *.
  set (v1 := with_balances _ v) in *.
  pose proof (mark_shield_ok s1 v1 (sr_client_cm req) (proj1 H1')) as H2'.
  set (s2 := dset (KShield (sr_client_cm req)) _ s1) in *.
  pose proof (append_plan_writes s2 s v _ _ bs br br' Hplan (proj1 H2') eq_refl) as H3'.
  assert (view_size (shield_effect req v) = view_size v + 2) as Hsize.
  { unfold view_size. cbn. rewrite length_app. cbn. lia. }
  unfold OP_GROWTH in Hfit.
  eapply steps_trans; [exact H1'|]. eapply steps_trans; [exact H2'|].
  eapply steps_trans; [apply H3'|].
  - intros l Hl. unfold s2, s1. pose proof (branch_level_ok l Hl). by get_simpl.
  - change (view_size (with_shields _ v1)) with (view_size v). cbn. lia.
  - match goal with |- steps_to ?s3 _ _ =>
      assert (repr (get s3) (shield_effect req v)) as Hr3 end.
    { apply H3'; [|change (view_size (with_shields _ v1)) with (view_size v); cbn; lia].
      intros l Hl. unfold s2, s1. pose proof (branch_level_ok l Hl). by get_simpl. }
    eapply steps_trans; [eapply (write_root_marker_ok _ _ Hr3); lia|].
    apply note_private_tx_ok. apply (write_root_marker_ok _ _ Hr3). lia.
Qed.

(** ** Unshields *)

Definition planned_unshield v req (r : string) (bs : list bytes) (br' : list (option F))
    : PreparedDurableUnshieldCommit :=
  {| uc_encoded_notes := numbered (N.of_nat (length (v_notes v))) bs;
     uc_branch_values := branch_values br';
     uc_new_tree_root := v_root (unshield_effect req r v);
     uc_new_tree_size := N.of_nat (length (v_notes v ++ new_notes req));
     uc_nullifier_start_index := N.of_nat (size (v_nullifiers v));
     uc_nullifiers := ur_nullifiers req;
     uc_withdrawal_index := N.of_nat (length (v_withdrawals v));
     uc_withdrawal_record := {| wr_recipient := r; wr_amount := ur_v_pub req |};
     uc_root_marker := root_marker_of v (unshield_effect req r v);
     uc_response := unshield_resp req v |}.

Lemma read_nullifier_count s v :
  repr (get s) v ->
  d_read_u64 s (key_path (KCell CNullifierCount)) = Ok (Some (N.of_nat (size (v_nullifiers v)))).
Proof.
  intros Hr. by destruct (indexed_set_elim _ _ (r_nullifiers _ _ Hr)) as (l & _ & _ & _ & _ & Hc & _).
Qed.

Lemma change_shape req cm enc :
  change_consistent req -> unshield_change req = Some (cm, enc) -> note_shape enc.
Proof.
  unfold change_consistent, unshield_change. destruct (decide _), (ur_enc_change req); naive_solver.
Qed.

(** The common end of planning: everything after the appends. *)
Lemma prepare_unshield_plan s v req r :
  zero_hashes_ok (dl_zero_hashes s) -> repr (get s) v -> view_size v + 2 <= INDEX_LIMIT ->
  change_consistent req -> note_shape (ur_enc_fee req) ->
  N.of_nat (length (v_notes v)) + N.of_nat (length (new_notes req)) <= TREE_CAPACITY ->
  exists bs br br',
    append_plan s v (new_notes req) bs br br' /\
    prepare_durable_unshield_commit s (prepared_unshield req r) =
      Ok (planned_unshield v req r bs br').
Proof.
  intros Hz Hr Hfit Hcc Hfn Hroom. set (n := N.of_nat (length (v_notes v))) in *.
  destruct (published_encodes (ur_cm_fee req) _ Hfn) as (b2 & He2).
  destruct (t_frontier _ _ (r_tree _ _ Hr)) as (br & Hok & Hat). fold n in Hok.
  assert (n + 2 <= INDEX_LIMIT) as Hn by (unfold view_size in Hfit; unfold n; lia).
  destruct (index_limit_bounds n) as [Hu1 _]; [lia|].
  destruct (index_limit_bounds (n + 1)) as [Hu2 _]; [lia|].
  unfold prepare_durable_unshield_commit, prepared_unshield, planned_unshield,
    unshield_resp, root_marker_of, v_root.
  cbn [pu_change_note pu_producer_note pu_nullifiers pu_recipient pu_amount fst snd
    unshield_effect v_notes with_notes with_nullifiers with_withdrawals]. to_keys.
  rewrite (read_branches_ok s br) by (done || apply Hok). cbn [mbind result_bind].
  rewrite (read_tree_size _ _ Hr). cbn [mbind result_bind].
  change (default 0 (Some (N.of_nat (length (v_notes v))))) with n. fold n.
  rewrite (frontier_check_ok _ _ _ Hok). cbn [mbind result_bind].
  unfold new_notes in *. destruct (unshield_change req) as [[cm enc]|] eqn:Ec.
  - change (option_list (Some (cm, enc)) ++ ?l) with ((cm, enc) :: l) in *.
    destruct (published_encodes cm _ (change_shape _ _ _ Hcc Ec)) as (b1 & He1).
    destruct (plan_two_ok s (v_notes v) cm enc b1 _ _ b2 br Hz He1 He2 Hroom Hok)
      as (br1 & root1 & br2 & Hp1 & Hp2 & Hok2 & Hfill). fold n in Hp1, Hp2.
    exists [b1; b2], br, br2.
    assert (N.of_nat (length (v_notes v ++ [(cm, enc); (ur_cm_fee req, ur_enc_fee req)])) = n + 1 + 1)
      as Hlen by (rewrite length_app; cbn; unfold n; lia).
    split; [constructor; [by constructor; [|constructor]|rewrite Hlen; cbn in Hroom; lia|done..]|].
    rewrite Hp1. cbn [mbind result_bind]. rewrite (note_index_ok n) by lia.
    cbn [mbind result_bind mret result_ret fst snd].
    rewrite (wrapping_add_small n), Hp2 by done. cbn [mbind result_bind].
    rewrite (read_nullifier_count _ _ Hr), (read_withdrawal_count _ _ Hr),
      (plan_root_marker_ok _ _ _ Hr). cbn [mbind result_bind].
    rewrite (note_index_ok (n + 1)), (wrapping_add_small (n + 1)) by (done || lia).
    rewrite numbered_two, Hlen. reflexivity.
  - change (option_list None ++ ?l) with l in *.
    destruct (plan_append_ok s (v_notes v) (ur_cm_fee req) (ur_enc_fee req) b2 br Hz He2)
      as (br2 & Hp2 & Hok2 & Hfill); [cbn in Hroom; fold n; lia|done|]. fold n in Hp2.
    exists [b2], br, br2.
    assert (N.of_nat (length (v_notes v ++ [(ur_cm_fee req, ur_enc_fee req)])) = n + 1)
      as Hlen by (rewrite length_app; cbn; unfold n; lia).
    split; [constructor; [by constructor|rewrite Hlen; cbn in Hroom; lia|done..]|].
    cbn [mbind result_bind mret result_ret fst snd]. rewrite Hp2. cbn [mbind result_bind].
    rewrite (read_nullifier_count _ _ Hr), (read_withdrawal_count _ _ Hr),
      (plan_root_marker_ok _ _ _ Hr). cbn [mbind result_bind].
    rewrite (note_index_ok n), (wrapping_add_small n) by (done || lia).
    rewrite numbered_cons, Hlen. reflexivity.
Qed.

Lemma unshield_effect_size req r v :
  view_size (unshield_effect req r v) <=
  view_size v + N.of_nat (length (new_notes req)) + 1 + N.of_nat (length (ur_nullifiers req)).
Proof.
  unfold unshield_effect. etransitivity; [apply (view_size_nullifiers (ur_nullifiers req)
    (with_notes (v_notes v ++ new_notes req) (with_withdrawals
      (v_withdrawals v ++ [{| wr_recipient := r; wr_amount := ur_v_pub req |}]) v)))|].
  apply N.add_le_mono_r.
  unfold view_size. cbn [v_notes v_nullifiers v_roots v_withdrawals with_notes with_withdrawals].
  rewrite !length_app. cbn [length]. lia.
Qed.

Lemma new_notes_le req : (length (new_notes req) <= 2)%nat.
Proof. unfold new_notes. destruct (unshield_change req); cbn; lia. Qed.

Lemma apply_unshield_plan s v req r bs br br' :
  repr (get s) v -> view_size v + OP_GROWTH <= INDEX_LIMIT -> is_u64 (ur_v_pub req) ->
  append_plan s v (new_notes req) bs br br' ->
  NoDup (ur_nullifiers req) -> (forall nf, nf ∈ ur_nullifiers req -> nf ∉ v_nullifiers v) ->
  (length (ur_nullifiers req) <= 7)%nat ->
  exists s',
    apply_durable_unshield_commit (planned_unshield v req r bs br') s = (s', unshield_resp req v) /\
    steps_to s s' (snapshot_view (unshield_effect req r v)).
Proof.
  intros Hr Hfit Hamt Hplan Hnd Hfresh Hcount. unfold OP_GROWTH in Hfit.
  pose proof (new_notes_le req) as Hnew.
  unfold apply_durable_unshield_commit, planned_unshield.
  cbn [uc_encoded_notes uc_branch_values uc_new_tree_root uc_new_tree_size
    uc_nullifier_start_index uc_nullifiers uc_withdrawal_index uc_withdrawal_record uc_root_marker
    uc_response]. to_keys.
  assert (view_size v + N.of_nat (length (new_notes req)) <= INDEX_LIMIT) as Hf1 by lia.
  pose proof (append_plan_writes s s v v _ bs br br' Hplan Hr eq_refl (fun _ _ => eq_refl) Hf1) as H1'.
  set (s1 := commit_tree _ _ _) in *. set (v1 := with_notes _ v) in *.
  change (dset (KCell CTreeSize) _ _) with s1.
  assert (view_size v1 = view_size v + N.of_nat (length (new_notes req))) as Hs1.
  { unfold view_size. cbn. rewrite length_app. lia. }
  destruct (commit_nullifiers_ok s1 v1 (ur_nullifiers req) (proj1 H1') Hnd Hfresh) as (s2 & E2 & H2');
    [lia|].
  change (v_nullifiers v1) with (v_nullifiers v) in E2, H2'.
  destruct (write_nullifiers _ _ s1) as [sn idx]. rewrite write_u64_dset, E2.
  set (v2 := with_nullifiers _ v1) in *.
  assert (view_size v2 <= view_size v1 + N.of_nat (length (ur_nullifiers req))) as Hs2
    by apply (view_size_nullifiers (ur_nullifiers req) v1).
  assert (steps_to s2 (enqueue_at (N.of_nat (length (v_withdrawals v)))
    {| wr_recipient := r; wr_amount := ur_v_pub req |} s2) (unshield_effect req r v)) as H3'.
  { change (v_withdrawals v) with (v_withdrawals v2).
    apply (enqueue_at_ok s2 v2); [exact (proj1 H2')|exact Hamt|lia]. }
  pose proof (unshield_effect_size req r v) as Hs3.
  unfold enqueue_at in H3'. set (s3 := dset (KCell CWithdrawalCount) _ _) in *.
  assert (view_size (unshield_effect req r v) + 1 <= INDEX_LIMIT) as Hf3 by lia.
  pose proof (write_root_marker_ok s3 _ (proj1 H3') Hf3) as H4'.
  eexists. split; [reflexivity|].
  eapply steps_trans; [exact H1'|]. eapply steps_trans; [exact H2'|].
  eapply steps_trans; [exact H3'|]. eapply steps_trans; [exact H4'|].
  apply note_private_tx_ok, H4'.
Qed.

(** ** The two commits *)

(** Compare the laws' fields with the durable definitions by unfolding the former. *)
#[local] Strategy expand [ll_fee ll_capacity ll_view ll_inv ll_fits Durable_laws].


(** For a shield the ledger accepts, planning succeeds, and the planned
    writes have the whole effect of the shield on the store and answer as it does. *)
Theorem durable_shield_commit s (req : ShieldReq) :
  durable_inv s -> view_size (view_of s) + OP_GROWTH <= INDEX_LIMIT ->
  shield_accepts (durable_fee s) TREE_CAPACITY (view_of s) req ->
  exists commit s',
    prepare_durable_shield_commit s (prepared_shield req) = Ok commit /\
    apply_durable_shield_commit commit s = (s', shield_resp req (view_of s)) /\
    durable_inv_from s s' /\ view_of s' = snapshot_view (shield_effect req (view_of s)).
Proof.
  intros Hi Hfit [_ _ _ Hfresh [Hn1 Hn2] (bal & Hbal & Hle) _ _ Hroom]. pose proof Hi as [Hz Hr].
  destruct (prepare_shield_plan s (view_of s) req bal) as (bs & br & br' & Hplan & Hprep);
    try done; [unfold OP_GROWTH in Hfit; lia|].
  destruct (apply_shield_plan s (view_of s) req bal bs br br') as (s' & Happly & Hs'); [done..|].
  exists (planned_shield (view_of s) req bal bs br'), s'. split; [done|]. split; [done|].
  destruct (steps_inv _ _ _ Hi Hs') as [Hi' Hv']. by destruct Hs'.
Qed.

(** C9: for an unshield the ledger accepts, planning succeeds, and the
    planned writes have the whole effect of the unshield on the store and answer as it
    does. *)
Theorem durable_unshield_commit s (req : UnshieldReq) (r : string) :
  durable_inv s -> view_size (view_of s) + OP_GROWTH <= INDEX_LIMIT -> is_u64 (ur_v_pub req) ->
  unshield_accepts (durable_fee s) TREE_CAPACITY (view_of s) req r ->
  exists commit s',
    prepare_durable_unshield_commit s (prepared_unshield req r) = Ok commit /\
    apply_durable_unshield_commit commit s = (s', unshield_resp req (view_of s)) /\
    durable_inv_from s s' /\ view_of s' = snapshot_view (unshield_effect req r (view_of s)).
Proof.
  intros Hi Hfit Hamt [_ _ Hcc [Hfn _] [[_ Hcount] _ Hfresh Hnd] _ Hroom].
  pose proof Hi as [Hz Hr].
  destruct (prepare_unshield_plan s (view_of s) req r) as (bs & br & br' & Hplan & Hprep);
    try done; [unfold OP_GROWTH in Hfit; lia|].
  destruct (apply_unshield_plan s (view_of s) req r bs br br') as (s' & Happly & Hs'); [done..|].
  exists (planned_unshield (view_of s) req r bs br'), s'. split; [done|]. split; [done|].
  destruct (steps_inv _ _ _ Hi Hs') as [Hi' Hv']. by destruct Hs'.
Qed.

(** C8: any request served through the ledger's interface on a durable store
    takes its abstract step and keeps every cell that is not the ledger's, or is an
    error that leaves the store as it was. *)
Theorem durable_exec_refines s (o : op) :
  (forall b, is_panic (hex_decode b) = false) ->
  durable_inv s -> op_ok o -> view_size (view_of s) + OP_GROWTH <= INDEX_LIMIT ->
  (exists s', exec o s = (s', Ok tt) /\ durable_inv_from s s' /\
     op_step (LedgerLaws0 := Durable_laws s) (durable_fee s) (view_of s) o (view_of s')) \/
  (exists e, exec o s = (s, Err e)).
Proof.
  intros Hx Hi Ho Hfit.
  exact (exec_cases (LedgerLaws0 := Durable_laws s) Hx s o (conj Hi (framed_refl _ s)) Ho Hfit).
Qed.
End Commit.
