(* ===== verification/Dal.v ===== *)
(** * Dal: kernel messages carried by the data-availability layer

    [fetch_kernel_message_from_dal] of [tezos/rollup-kernel/src/lib.rs]: a pointer in the
    inbox names chunks of published slots; the kernel reveals their pages, reassembles
    the payload, checks its hash and decodes it.  What it returns is bound to the hash,
    and what a publisher splits, pads and publishes comes back. *)

From S2P Require Import Prelude Felt Externals Concrete Types Hashing Merkle CanonicalWire.
From S2P Require Import KernelWire Store.

Local Open Scope N_scope.

Definition MAX_DAL_PAYLOAD_BYTES : N := 512 * 1024.

(** [i32::try_from] and [u16::try_from] on unsigned integers. *)
Definition to_i32 (v : N) : option Z := if v <? 2 ^ 31 then Some (Z.of_N v) else None.
Definition to_u16 (v : N) : option N := if v <? 2 ^ 16 then Some v else None.

(** [a.div_ceil(b)]. *)
Definition div_ceil_N (a b : N) : N := (a + b - 1) / b.

Definition dal_payload_kind_name (kind : KernelDalPayloadKind) : string :=
  match kind with
  | KDConfigureVerifier => "configure-verifier"
  | KDConfigureBridge => "configure-bridge"
  | KDShield => "shield"
  | KDTransfer => "transfer"
  | KDUnshield => "unshield"
  end.

Section Dal.
Context `{Blake2s, Target, WireCodecs} {Hst : Type} `{!Host Hst}.

(** The text that the derived [Debug] gives a message. *)
Variable debug_message : KernelInboxMessage -> string.

(** The [try_fold] over the chunk lengths. *)
Fixpoint sum_chunk_lengths (acc : N) (chunks : list KernelDalChunkPointer) : result N :=
  match chunks with
  | [] => mret acc
  | chunk :: chunks =>
      len ← ok_or (to_usize (kdc_payload_len chunk))
        "DAL chunk payload length does not fit in usize";
      acc ← ok_or (checked_add usize_limit acc len) "DAL chunk lengths overflow usize";
      sum_chunk_lengths acc chunks
  end.

(** The loop over the pages of a chunk. *)
Fixpoint fetch_pages (host : Hst) (index : nat) (published_level : Z) (slot_index page_size : N)
    (pages : list N) (chunk_bytes : bytes) : result bytes :=
  match pages with
  | [] => mret chunk_bytes
  | page_index :: pages =>
      page_u16 ← ok_or (to_u16 page_index)
        ("DAL chunk " +:+ show_nat index +:+ " page index overflow");
      page ← host_reveal_dal_page host published_level slot_index page_u16 page_size;
      fail_if (page_size <? N.of_nat (length page))
        ("DAL chunk " +:+ show_nat index +:+ " page " +:+ show_N page_index +:+
         " exceeds page size " +:+ show_N page_size) ;;
      fetch_pages host index published_level slot_index page_size pages (chunk_bytes ++ page)
  end.

Definition page_indices (chunk_len page_size : N) : list N :=
  N.of_nat <$> seq 0 (N.to_nat (div_ceil_N chunk_len page_size)).

Definition fetch_chunk (host : Hst) (number_of_slots slot_size page_size : N) (index : nat)
    (chunk : KernelDalChunkPointer) : result bytes :=
  let name := "DAL chunk " +:+ show_nat index in
  chunk_len ← ok_or (to_usize (kdc_payload_len chunk)) (name +:+ " length does not fit in usize");
  fail_if (chunk_len =? 0) (name +:+ " has zero payload length") ;;
  fail_if (slot_size <? chunk_len)
    (name +:+ " length " +:+ show_N chunk_len +:+ " exceeds slot size " +:+ show_N slot_size) ;;
  fail_if (number_of_slots <=? kdc_slot_index chunk)
    (name +:+ " slot index " +:+ show_N (kdc_slot_index chunk) +:+ " exceeds number_of_slots " +:+
     show_N number_of_slots) ;;
  published_level ← ok_or (to_i32 (kdc_published_level chunk))
    (name +:+ " published level " +:+ show_N (kdc_published_level chunk) +:+
     " does not fit in i32");
  chunk_bytes ← fetch_pages host index published_level (kdc_slot_index chunk) page_size
    (page_indices chunk_len page_size) [];
  fail_if (N.of_nat (length chunk_bytes) <? chunk_len)
    (name +:+ " truncated: need " +:+ show_N chunk_len +:+ " bytes, got " +:+
     show_nat (length chunk_bytes)) ;;
  fail_if (existsb (fun b => negb (bool_decide (b = Byte.x00))) (drop (N.to_nat chunk_len) chunk_bytes))
    (name +:+ " trailing padding contains non-zero data") ;;
  mret (take (N.to_nat chunk_len) chunk_bytes).

Fixpoint fetch_chunks (host : Hst) (number_of_slots slot_size page_size : N) (index : nat)
    (chunks : list KernelDalChunkPointer) (payload : bytes) : result bytes :=
  match chunks with
  | [] => mret payload
  | chunk :: chunks =>
      piece ← fetch_chunk host number_of_slots slot_size page_size index chunk;
      fetch_chunks host number_of_slots slot_size page_size (S index) chunks (payload ++ piece)
  end.

(** Everything up to the hash check. *)
Definition fetch_payload (host : Hst) (pointer : KernelDalPayloadPointer) : result bytes :=
  fail_if (length (kdp_chunks pointer) =? 0)%nat
    "DAL pointer message requires at least one chunk" ;;
  payload_len ← ok_or (to_usize (kdp_payload_len pointer))
    "DAL payload length does not fit in usize";
  fail_if (payload_len =? 0) "DAL payload length must be non-zero" ;;
  fail_if (MAX_DAL_PAYLOAD_BYTES <? payload_len)
    ("DAL payload too large: " +:+ show_N payload_len +:+ " > " +:+ show_N MAX_DAL_PAYLOAD_BYTES) ;;
  params ← host_reveal_dal_parameters host;
  fail_if (dal_number_of_slots params =? 0) "DAL parameters reported zero slots" ;;
  fail_if ((dal_slot_size params =? 0) || (dal_page_size params =? 0))
    "DAL parameters reported zero-sized slots or pages" ;;
  declared_total ← sum_chunk_lengths 0 (kdp_chunks pointer);
  fail_if (negb (declared_total =? payload_len))
    ("DAL chunk lengths do not sum to payload length: " +:+ show_N declared_total +:+ " != " +:+
     show_N payload_len) ;;
  slot_size ← ok_or (to_usize (dal_slot_size params)) "DAL slot size does not fit in usize";
  page_size ← ok_or (to_usize (dal_page_size params)) "DAL page size does not fit in usize";
  payload ← fetch_chunks host (dal_number_of_slots params) slot_size page_size 0
    (kdp_chunks pointer) [];
  fail_if (negb (N.of_nat (length payload) =? payload_len))
    ("DAL payload length mismatch after reassembly: " +:+ show_nat (length payload) +:+ " != " +:+
     show_N payload_len) ;;
  fail_if (negb (bool_decide (hash payload = kdp_payload_hash pointer)))
    "DAL payload hash mismatch" ;;
  mret payload.

Definition check_payload_kind (kind : KernelDalPayloadKind) (message : KernelInboxMessage)
    : result KernelInboxMessage :=
  match kind, message with
  | KDConfigureVerifier, KIConfigureVerifier _
  | KDConfigureBridge, KIConfigureBridge _
  | KDShield, KIShield _
  | KDTransfer, KITransfer _
  | KDUnshield, KIUnshield _ => Ok message
  | _, KIDalPointer _ => Err "nested DAL pointer messages are not supported"
  | _, _ => Err ("DAL payload kind mismatch: pointer declared " +:+ dal_payload_kind_name kind +:+
                 ", decoded " +:+ debug_message message)
  end.

Definition fetch_kernel_message_from_dal (host : Hst) (pointer : KernelDalPayloadPointer)
    : result KernelInboxMessage :=
  payload ← fetch_payload host pointer;
  message ← decode_kernel_inbox_message payload;
  check_payload_kind (kdp_kind pointer) message.

(** ** Binding *)

Definition message_kind (m : KernelInboxMessage) : option KernelDalPayloadKind :=
  match m with
  | KIConfigureVerifier _ => Some KDConfigureVerifier
  | KIConfigureBridge _ => Some KDConfigureBridge
  | KIShield _ => Some KDShield
  | KITransfer _ => Some KDTransfer
  | KIUnshield _ => Some KDUnshield
  | KIDalPointer _ => None
  end.

Lemma check_payload_kind_Ok kind m m' :
  check_payload_kind kind m = Ok m' <-> m' = m /\ message_kind m = Some kind.
Proof. destruct kind, m; cbn; naive_solver. Qed.

Lemma fetch_payload_Ok host pointer payload :
  fetch_payload host pointer = Ok payload ->
  hash payload = kdp_payload_hash pointer /\
  N.of_nat (length payload) = kdp_payload_len pointer /\
  0 < kdp_payload_len pointer <= MAX_DAL_PAYLOAD_BYTES.
Proof.
  unfold fetch_payload. intros Hf. result_inv.
  repeat match goal with
  | H : negb _ = false |- _ => apply negb_false_iff in H
  | H : bool_decide _ = true |- _ => apply bool_decide_eq_true in H
  | H : (_ =? _) = true |- _ => apply N.eqb_eq in H
  | H : (_ =? _) = false |- _ => apply N.eqb_neq in H
  | H : (_ <? _) = false |- _ => apply N.ltb_ge in H
  | H : to_usize _ = Some _ |- _ =>
      unfold to_usize in H; destruct (_ <? usize_limit); [injection H as <-|discriminate]
  end.
  split; [done|]. split; [done|]. lia.
Qed.

(** A message fetched from the data-availability layer is the decoding of a
    payload with the hash, the length and the kind its pointer names, of at most 512 KiB,
    whatever the host revealed. *)
Theorem dal_message_bound (host : Hst) (pointer : KernelDalPayloadPointer) (m : KernelInboxMessage) :
  fetch_kernel_message_from_dal host pointer = Ok m ->
  message_kind m = Some (kdp_kind pointer) /\ exists payload,
    hash payload = kdp_payload_hash pointer /\ decode_kernel_inbox_message payload = Ok m /\
    N.of_nat (length payload) = kdp_payload_len pointer /\
    0 < kdp_payload_len pointer <= MAX_DAL_PAYLOAD_BYTES.
Proof.
  unfold fetch_kernel_message_from_dal. intros Hf.
  apply bind_Ok in Hf as (payload & Hp & Hf). apply bind_Ok in Hf as (m' & Hd & Hk).
  apply check_payload_kind_Ok in Hk as [-> Hk]. apply fetch_payload_Ok in Hp as (? & ? & ?).
  split; [done|]. by exists payload.
Qed.

(** ** Publishing *)

(** A slot chunk as a publisher lays it out: the piece, zero padding up to whole pages,
    and every page of it revealed by the host. *)
Definition padded (page_size : nat) (piece : bytes) : bytes :=
  piece ++ replicate (div_ceil (length piece) page_size * page_size - length piece) Byte.x00.

Record published (host : Hst) (number_of_slots slot_size page_size : N)
    (chunk : KernelDalChunkPointer) (piece : bytes) : Prop := {
  pb_len : kdc_payload_len chunk = N.of_nat (length piece);
  pb_nonempty : piece <> [];
  pb_slot_size : N.of_nat (length piece) <= slot_size;
  pb_slot : kdc_slot_index chunk < number_of_slots;
  pb_level : kdc_published_level chunk < 2 ^ 31;
  pb_pages : N.of_nat (div_ceil (length piece) (N.to_nat page_size)) <= 2 ^ 16;
  pb_reveal : forall j page,
    chunks (N.to_nat page_size) (padded (N.to_nat page_size) piece) !! j = Some page ->
    host_reveal_dal_page host (Z.of_N (kdc_published_level chunk)) (kdc_slot_index chunk)
      (N.of_nat j) page_size = Ok page
}.

Lemma div_ceil_N_nat a b : N.of_nat (div_ceil a b) = div_ceil_N (N.of_nat a) (N.of_nat b).
Proof. unfold div_ceil, div_ceil_N. rewrite Nat2N.inj_div. f_equal. lia. Qed.

Lemma div_ceil_mul k n : n <> 0%nat -> div_ceil (k * n) n = k.
Proof.
  intros Hn. unfold div_ceil. symmetry. apply (Nat.div_unique _ _ _ (n - 1)); lia.
Qed.

Lemma div_ceil_ge a n : n <> 0%nat -> (a <= div_ceil a n * n)%nat.
Proof.
  intros Hn. unfold div_ceil. pose proof (Nat.div_mod_eq (a + n - 1) n).
  pose proof (Nat.mod_upper_bound (a + n - 1) n Hn). nia.
Qed.

Lemma length_padded n piece :
  n <> 0%nat -> length (padded n piece) = (div_ceil (length piece) n * n)%nat.
Proof.
  intros Hn. unfold padded. rewrite length_app, length_replicate.
  pose proof (div_ceil_ge (length piece) n Hn). lia.
Qed.

Lemma fetch_pages_ok host index level slot page_size pages off acc :
  (forall j page, pages !! j = Some page ->
     host_reveal_dal_page host level slot (N.of_nat (off + j)) page_size = Ok page /\
     N.of_nat (length page) <= page_size) ->
  N.of_nat (off + length pages) <= 2 ^ 16 ->
  fetch_pages host index level slot page_size (N.of_nat <$> seq off (length pages)) acc =
    Ok (acc ++ concat pages).
Proof.
  revert off acc. induction pages as [|page pages IH]; intros off acc Hp Hl.
  - cbn. by rewrite app_nil_r.
  - cbn [length] in *. cbn [seq fmap list_fmap fetch_pages].
    destruct (Hp 0%nat page eq_refl) as [Hr Hs]. rewrite Nat.add_0_r in Hr.
    unfold to_u16. rewrite (proj2 (N.ltb_lt _ _)) by lia. cbn [ok_or mbind result_bind].
    rewrite Hr. cbn [mbind result_bind]. rewrite (proj2 (N.ltb_ge _ _) Hs).
    cbn [fail_if mbind result_bind].
    rewrite IH; [by rewrite <-app_assoc| |lia].
    intros j p Hj. replace (S off + j)%nat with (off + S j)%nat by lia. by apply Hp.
Qed.

Lemma existsb_replicate {A} (f : A -> bool) n x : f x = false -> existsb f (replicate n x) = false.
Proof. intros Hx. induction n as [|n IH]; cbn; [done|]. by rewrite Hx. Qed.

Lemma fetch_chunk_ok host number_of_slots slot_size page_size index chunk piece :
  published host number_of_slots slot_size page_size chunk piece -> page_size <> 0 ->
  N.of_nat (length piece) < usize_limit ->
  fetch_chunk host number_of_slots slot_size page_size index chunk = Ok piece.
Proof.
  intros [Hlen Hne Hslot Hidx Hlvl Hpg Hrev] Hps Hus. unfold fetch_chunk, to_usize. rewrite Hlen.
  rewrite (proj2 (N.ltb_lt _ _) Hus). cbn [ok_or mbind result_bind].
  assert (N.of_nat (length piece) <> 0) as Hnz by (destruct piece; done).
  rewrite (proj2 (N.eqb_neq _ _) Hnz), (proj2 (N.ltb_ge _ _) Hslot), (proj2 (N.leb_gt _ _) Hidx).
  cbn [fail_if mbind result_bind]. unfold to_i32. rewrite (proj2 (N.ltb_lt _ _) Hlvl).
  cbn [ok_or mbind result_bind]. set (n := N.to_nat page_size) in *.
  assert (n <> 0%nat) as Hn by (unfold n; lia).
  assert (page_indices (N.of_nat (length piece)) page_size =
          N.of_nat <$> seq 0 (length (chunks n (padded n piece)))) as ->.
  { unfold page_indices. do 2 f_equal. rewrite length_chunks, length_padded, div_ceil_mul by done.
    replace page_size with (N.of_nat n) by (unfold n; lia). by rewrite <-div_ceil_N_nat, Nat2N.id. }
  rewrite fetch_pages_ok.
  - cbn [mbind result_bind app]. rewrite concat_chunks by done. unfold padded.
    rewrite length_app. rewrite (proj2 (N.ltb_ge _ _)) by lia. cbn [fail_if mbind result_bind].
    rewrite Nat2N.id, drop_app_length, take_app_length, existsb_replicate by done. done.
  - intros j page Hj. split; [by apply Hrev|]. apply length_chunk in Hj. unfold n in Hj. lia.
  - rewrite length_chunks, length_padded, div_ceil_mul by done. exact Hpg.
Qed.

Lemma fetch_chunks_ok host number_of_slots slot_size page_size index cs pieces acc :
  Forall2 (published host number_of_slots slot_size page_size) cs pieces -> page_size <> 0 ->
  N.of_nat (length (concat pieces)) < usize_limit ->
  fetch_chunks host number_of_slots slot_size page_size index cs acc = Ok (acc ++ concat pieces).
Proof.
  intros Hall Hps. revert index acc.
  induction Hall as [|chunk piece cs pieces Hc Hall IH]; intros index acc Hl; cbn [fetch_chunks concat] in *.
  - by rewrite app_nil_r.
  - rewrite length_app in Hl. rewrite (fetch_chunk_ok _ _ _ _ _ _ piece) by (done || lia).
    cbn [mbind result_bind]. rewrite IH by lia. by rewrite <-app_assoc.
Qed.

Lemma sum_chunk_lengths_ok host number_of_slots slot_size page_size cs pieces acc :
  Forall2 (published host number_of_slots slot_size page_size) cs pieces ->
  acc + N.of_nat (length (concat pieces)) < usize_limit ->
  sum_chunk_lengths acc cs = Ok (acc + N.of_nat (length (concat pieces))).
Proof.
  intros Hall. revert acc.
  induction Hall as [|chunk piece cs pieces Hc Hall IH]; intros acc Hl; cbn [sum_chunk_lengths concat] in *.
  - cbn. by rewrite N.add_0_r.
  - rewrite length_app in *. rewrite (pb_len _ _ _ _ _ _ Hc). unfold to_usize.
    rewrite (proj2 (N.ltb_lt _ _)) by lia. cbn [ok_or mbind result_bind].
    unfold checked_add. rewrite (proj2 (N.ltb_lt _ _)) by lia. cbn [ok_or mbind result_bind].
    rewrite IH by lia. f_equal. lia.
Qed.

Lemma fetch_published (host : Hst) (params : DalParameters) (cs : list KernelDalChunkPointer)
    (pieces : list bytes) (m : KernelInboxMessage) (kind : KernelDalPayloadKind) :
  let payload := concat pieces in
  32 <= usize_bits -> host_reveal_dal_parameters host = Ok params ->
  dal_slot_size params < usize_limit -> dal_page_size params < usize_limit ->
  dal_page_size params <> 0 ->
  Forall2 (published host (dal_number_of_slots params) (dal_slot_size params)
             (dal_page_size params)) cs pieces ->
  cs <> [] -> N.of_nat (length payload) <= MAX_DAL_PAYLOAD_BYTES ->
  decode_kernel_inbox_message payload = Ok m -> message_kind m = Some kind ->
  fetch_kernel_message_from_dal host
    {| kdp_kind := kind; kdp_chunks := cs; kdp_payload_len := N.of_nat (length payload);
       kdp_payload_hash := hash payload |} = Ok m.
Proof.
  cbn zeta. intros Hw Hparams Hss Hpsl Hps Hall Hne Hmax Hdec Hkind.
  set (payload := concat pieces) in *.
  assert (N.of_nat (length payload) < usize_limit) as Hlt.
  { unfold usize_limit. eapply N.le_lt_trans; [exact Hmax|].
    eapply N.lt_le_trans; [|apply N.pow_le_mono_r; [done|exact Hw]]. reflexivity. }
  pose proof Hall as Hall'. destruct Hall as [|chunk piece cs pieces Hc Hall]; [done|].
  assert (N.of_nat (length payload) <> 0) as Hnz.
  { unfold payload. cbn [concat]. rewrite length_app. destruct piece; [by destruct Hc|]. cbn. lia. }
  assert (dal_number_of_slots params <> 0) as Hns by (destruct Hc; lia).
  assert (dal_slot_size params <> 0) as Hsz.
  { destruct Hc as [_ Hp Hs _ _ _ _]. destruct piece; [done|]. cbn in Hs. lia. }
  unfold fetch_kernel_message_from_dal, fetch_payload.
  cbn [kdp_chunks kdp_payload_len kdp_payload_hash kdp_kind length Nat.eqb fail_if mbind result_bind].
  unfold to_usize. rewrite (proj2 (N.ltb_lt _ _) Hlt). cbn [ok_or mbind result_bind].
  rewrite (proj2 (N.eqb_neq _ _) Hnz), (proj2 (N.ltb_ge _ _) Hmax).
  cbn [fail_if mbind result_bind]. rewrite Hparams. cbn [mbind result_bind].
  rewrite (proj2 (N.eqb_neq _ _) Hns), (proj2 (N.eqb_neq _ _) Hsz), (proj2 (N.eqb_neq _ _) Hps).
  cbn [orb fail_if mbind result_bind].
  rewrite (sum_chunk_lengths_ok _ _ _ _ _ _ 0 Hall') by done. cbn [mbind result_bind].
  rewrite N.add_0_l. fold payload. rewrite N.eqb_refl. cbn [negb fail_if mbind result_bind].
  rewrite (proj2 (N.ltb_lt _ _) Hss), (proj2 (N.ltb_lt _ _) Hpsl).
  cbn [ok_or mbind result_bind].
  rewrite (fetch_chunks_ok _ _ _ _ _ _ _ [] Hall') by done. cbn [mbind result_bind app].
  fold payload. rewrite N.eqb_refl, bool_decide_eq_true_2 by done.
  cbn [negb fail_if mbind result_bind mret result_ret]. rewrite Hdec. cbn [mbind result_bind].
  by apply check_payload_kind_Ok.
Qed.

(** A payload split into pieces, padded to pages and published under a
    pointer is fetched back and decodes to the message it was. *)
Theorem dal_roundtrip (host : Hst) (params : DalParameters) (cs : list KernelDalChunkPointer)
    (pieces : list bytes) (m : KernelInboxMessage) (kind : KernelDalPayloadKind) :
  let payload := concat pieces in
  32 <= usize_bits -> host_reveal_dal_parameters host = Ok params ->
  dal_slot_size params < usize_limit -> dal_page_size params < usize_limit ->
  dal_page_size params <> 0 ->
  Forall2 (published host (dal_number_of_slots params) (dal_slot_size params)
             (dal_page_size params)) cs pieces ->
  cs <> [] -> N.of_nat (length payload) <= MAX_DAL_PAYLOAD_BYTES ->
  decode_kernel_inbox_message payload = Ok m -> message_kind m = Some kind ->
  fetch_kernel_message_from_dal host
    {| kdp_kind := kind; kdp_chunks := cs; kdp_payload_len := N.of_nat (length payload);
       kdp_payload_hash := hash payload |} = Ok m.
Proof. apply fetch_published. Qed.
End Dal.
