(* ===== verification/Kernel.v ===== *)
(** * Kernel: the rollup kernel's handling of messages

    [tezos/rollup-kernel/src/lib.rs], in a production build: the [proof-verifier]
    feature on, no test or sandbox configuration.  An input is recorded, parsed as a
    message of the rollup inbox, and applied to the durable ledger; the result of the
    transition is stored.  Errors are results like any other; a panic would stop the
    kernel and is an outcome of its own. *)

From S2P Require Import Prelude Felt Externals Concrete Recipients Types Hashing Binding.
From S2P Require Import Outputs Merkle Ledger LedgerSpec LedgerCorrect LedgerMem Wots Notes.
From S2P Require Import CanonicalWire KernelWire Utf8 Store StoreKeys Durable Dal.

Local Open Scope N_scope.

Definition MAX_RESULT_ERROR_MESSAGE_BYTES : nat := 4096.

(** ** What the kernel takes from other crates and from its build *)

(** [tezos_smart_rollup_encoding]: a ticket transfer to a rollup, and inbox messages. *)
Record Transfer (Ticket : Type) := {
  tf_destination : bytes;   (* the hash of the destination rollup *)
  tf_sender : string;       (* in base58check *)
  tf_receiver : bytes;      (* the first half of the payload *)
  tf_ticket : Ticket        (* the second half *)
}.
Arguments tf_destination {_} _.
Arguments tf_sender {_} _.
Arguments tf_receiver {_} _.
Arguments tf_ticket {_} _.

Inductive TezosInboxMessage (Ticket : Type) :=
| InternalTransfer (transfer : Transfer Ticket)
| InternalOther
| External (payload : bytes).
Arguments InternalTransfer {_} _.
Arguments InternalOther {_}.
Arguments External {_} _.

Class RollupEncoding `{TezosContracts} := {
  Ticket : Type;
  ticket_creator : Ticket -> string;
  ticket_token_id : Ticket -> Z;
  ticket_metadata_is_some : Ticket -> bool;
  ticket_amount_as_u64 : Ticket -> option N;
  inbox_parse : bytes -> option (bytes * TezosInboxMessage Ticket);
  (** the address hash and the contents of a targeted external frame *)
  external_frame_parse : bytes -> option (bytes * bytes);
  (** ticketer, token id, amount; the metadata is [None] *)
  ticket_new : contract -> Z -> N -> result Ticket;
  entrypoint : Type;
  entrypoint_try_from : string -> option entrypoint;
  (** a batch of one transaction: receiver and ticket, destination, entrypoint *)
  outbox_bin_write : contract -> Ticket -> contract -> entrypoint -> result bytes
}.

(** The compile-time environment, the verdict of the STARK verifier's crates, and the
    text that the derived [Debug] gives a message. *)
Class KernelBuild := {
  CONFIG_ADMIN_PUB_SEED_HEX : option string;
  VERIFIER_CONFIG_ADMIN_LEAF_HEX : option string;
  BRIDGE_CONFIG_ADMIN_LEAF_HEX : option string;
  bundle_verify : bytes -> list F -> result unit;
  debug_message : KernelInboxMessage -> string
}.

(** ** Parsed messages *)

Record ParsedBridgeDeposit := {
  pbd_ticketer : string;
  pbd_recipient : string;
  pbd_amount : N
}.

Inductive ParsedRollupMessage :=
| PKernel (message : KernelInboxMessage)
| PDeposit (deposit : ParsedBridgeDeposit)
| PIgnore.

Record KernelStats := {
  ks_raw_input_count : N;
  ks_raw_input_bytes : N;
  ks_last_input_level : option Z;
  ks_last_input_id : option Z;
  ks_last_input_len : option N
}.

(** [message.truncate(keep)] panics when [keep] is inside a character. *)
Definition bounded_error_message (message : string) : result string :=
  if (MAX_RESULT_ERROR_MESSAGE_BYTES <? length (str_bytes message))%nat then
    let suffix := "... [truncated]" in
    let keep := (MAX_RESULT_ERROR_MESSAGE_BYTES - length (str_bytes suffix))%nat in
    message ← string_truncate message keep;
    mret (message +:+ suffix)
  else mret message.

Section Kernel.
Context `{Blake2s, Hex, TezosContracts, !RollupEncoding, Target, WireCodecs, KernelBuild}.
Context {Hst : Type} `{!Host Hst}.
#[local] Abbreviation DLS := (DurableLedgerState Hst).

(** ** Parsing *)

Definition parse_bridge_deposit (transfer : Transfer Ticket) : result ParsedBridgeDeposit :=
  recipient ← ok_or (from_utf8 (tf_receiver transfer)) "deposit receiver is not UTF-8";
  let ticket := tf_ticket transfer in
  let creator := ticket_creator ticket in
  let ticketer := tf_sender transfer in
  fail_if (negb (bool_decide (creator = ticketer)))
    "deposit ticket creator does not match transfer sender" ;;
  fail_if (negb (ticket_token_id ticket =? 0)%Z) "deposit ticket token_id must be 0" ;;
  fail_if (ticket_metadata_is_some ticket) "deposit ticket metadata must be None" ;;
  amount ← ok_or (ticket_amount_as_u64 ticket) "deposit amount does not fit in u64";
  mret {| pbd_ticketer := ticketer; pbd_recipient := recipient; pbd_amount := amount |}.

Definition decode_rollup_message (b current_rollup : bytes) : result ParsedRollupMessage :=
  '(rest, inbox) ← ok_or (inbox_parse b)
    "invalid rollup inbox message: failed to parse TezosInboxMessage frame";
  fail_if (negb (bool_decide (rest = [])))
    "invalid rollup inbox message: trailing bytes after TezosInboxMessage frame" ;;
  match inbox with
  | InternalTransfer transfer =>
      if negb (bool_decide (tf_destination transfer = current_rollup)) then mret PIgnore
      else deposit ← parse_bridge_deposit transfer; mret (PDeposit deposit)
  | InternalOther => mret PIgnore
  | External payload =>
      match external_frame_parse payload with
      | Some (address, contents) =>
          if negb (bool_decide (address = current_rollup)) then mret PIgnore
          else message ← decode_kernel_inbox_message contents; mret (PKernel message)
      | None => mret PIgnore
      end
  end.

(** ** Reading the kernel's state *)

Definition read_verifier_config (host : Hst) : result (option KernelVerifierConfig) :=
  match host_read_store host PATH_VERIFIER_CONFIG MAX_STORE_BINARY_BYTES with
  | None => mret None
  | Some b => config ← decode_kernel_verifier_config b; mret (Some config)
  end.

Definition read_stats (host : Hst) : KernelStats :=
  {| ks_raw_input_count := default 0 (read_u64 host PATH_RAW_INPUT_COUNT);
     ks_raw_input_bytes := default 0 (read_u64 host PATH_RAW_INPUT_BYTES);
     ks_last_input_level := read_i32 host PATH_LAST_INPUT_LEVEL;
     ks_last_input_id := read_i32 host PATH_LAST_INPUT_ID;
     ks_last_input_len := read_u32 host PATH_LAST_INPUT_LEN |}.

Definition read_private_tx_count_in_current_level (host : Hst) : N :=
  match read_i32 host PATH_LAST_INPUT_LEVEL, read_i32 host PATH_PRIVATE_TX_FEE_LEVEL with
  | Some current_level, Some stored_level =>
      if negb (stored_level =? current_level)%Z then 0
      else default 0 (read_u64 host PATH_PRIVATE_TX_COUNT_IN_LEVEL)
  | _, _ => 0
  end.

Definition read_required_tx_fee (host : Hst) : N :=
  required_tx_fee_for_private_tx_count (read_private_tx_count_in_current_level host).

Definition read_last_input (host : Hst) : option InputMessage :=
  let stats := read_stats host in
  last_len ← ks_last_input_len stats;
  len ← to_usize last_len;
  payload ← host_read_store host PATH_LAST_INPUT_PAYLOAD len;
  level ← ks_last_input_level stats;
  id ← ks_last_input_id stats;
  Some {| im_level := level; im_id := id; im_payload := payload |}.

Definition read_last_result (host : Hst) : option KernelResult :=
  b ← host_read_store host PATH_LAST_RESULT MAX_INPUT_BYTES;
  match decode_kernel_result b with Ok r => Some r | _ => None end.

(** A felt at an index of a set. *)
Definition read_indexed_felt (host : Hst) (prefix : bytes) (name : string) (i : N) : result F :=
  b ← ok_or (host_read_store host (indexed_path prefix i) 32)
    ("missing persisted " +:+ name +:+ " " +:+ show_N i);
  fail_if (negb (length b =? 32)%nat) ("bad persisted " +:+ name +:+ " " +:+ show_N i) ;;
  mret (mkF b).

(** [0..n]. *)
Definition indices (n : N) : list N := N.of_nat <$> seq 0 (N.to_nat n).

Definition read_auth_domain (host : Hst) : result F :=
  match host_read_store host PATH_AUTH_DOMAIN 32 with
  | Some b =>
      fail_if (negb (length b =? 32)%nat) "bad persisted auth_domain" ;;
      mret (mkF b)
  | None => mret default_auth_domain
  end.

(** The root history keeps the root that [with_auth_domain] recorded: only the set of
    valid roots is cleared. *)
Definition read_ledger (host : Hst) : result LedgerMem.Ledger :=
  auth_domain ← read_auth_domain host;
  let tree_size := default 0 (read_u64 host PATH_TREE_SIZE) in
  let nullifier_count := default 0 (read_u64 host PATH_NULLIFIER_COUNT) in
  let valid_root_count := default 0 (read_u64 host PATH_VALID_ROOT_COUNT) in
  let withdrawal_count := default 0 (read_u64 host PATH_WITHDRAWAL_COUNT) in
  let ledger := with_auth_domain auth_domain in
  memos ← map_result (fun i =>
    note_bytes ← ok_or (read_persisted_note host i)
      ("missing persisted note " +:+ show_N i);
    decode_published_note note_bytes) (indices tree_size);
  nullifiers ← map_result (read_indexed_felt host PATH_NULLIFIER_INDEX_PREFIX "nullifier")
    (indices nullifier_count);
  valid_roots ← map_result (read_indexed_felt host PATH_VALID_ROOT_INDEX_PREFIX "root")
    (indices valid_root_count);
  withdrawals ← map_result (fun i =>
    b ← ok_or (host_read_store host (indexed_path PATH_WITHDRAWAL_PREFIX i) MAX_STORE_BINARY_BYTES)
      ("missing persisted withdrawal " +:+ show_N i);
    decode_withdrawal_record b) (indices withdrawal_count);
  mret {| lg_auth_domain := auth_domain;
          lg_tree := {| mt_leaves := fst <$> memos;
                        mt_zero_hashes := mt_zero_hashes (lg_tree ledger) |};
          lg_nullifiers := list_to_set nullifiers;
          lg_valid_roots := list_to_set valid_roots;
          lg_root_history := lg_root_history ledger;
          lg_memos := memos;
          lg_withdrawals := withdrawals;
          lg_deposit_balances := ∅;
          lg_applied_shield_cms := lg_applied_shield_cms ledger |}.

(** ** Guards *)

Definition validate_bridge_deposit (ledger : DLS) (deposit : ParsedBridgeDeposit) : result unit :=
  stored ← d_read_string ledger PATH_BRIDGE_TICKETER MAX_INPUT_BYTES;
  configured ← ok_or stored "bridge ticketer is not configured";
  fail_if (negb (bool_decide (configured = pbd_ticketer deposit)))
    "deposit sent from unexpected ticketer" ;;
  fail_if (negb (is_deposit_recipient_string (pbd_recipient deposit)))
    "deposit receiver must be a canonical deposit pool key: deposit:<32-byte lowercase hex of pubkey_hash>" ;;
  config ← read_verifier_config (dl_host ledger);
  fail_if (bool_decide (config = None)) "bridge deposits not accepted before verifier configuration".

Definition load_verifier (host : Hst) : result DirectProofVerifier :=
  stored ← read_verifier_config host;
  config ← ok_or stored "proof verifier is not configured";
  mret (verified false (kvc_verified_program_hashes config)).

Definition validate_transition_proof (host : Hst) (proof : KernelStarkProof) (circuit : CircuitKind)
    : result unit :=
  verifier ← load_verifier host;
  validate bundle_verify verifier (kernel_proof_to_host proof) circuit.

Definition parse_compiled_felt_hex (hex_value label : string) : result F :=
  b ← map_err (fun e => "invalid " +:+ label +:+ " hex in kernel build: " +:+ e)
        (hex_decode (str_bytes hex_value));
  fail_if (negb (length b =? 32)%nat)
    ("invalid " +:+ label +:+ " length in kernel build: got " +:+ show_nat (length b) +:+
     " bytes, expected 32") ;;
  mret (mkF b).

(** A felt fixed at build time by the variable [label]. *)
Definition compiled_felt (value : option string) (label : string) : result F :=
  match value with
  | Some hex_value => parse_compiled_felt_hex hex_value label
  | None => Err ("kernel built without " +:+ label)
  end.

Definition compiled_config_admin_pub_seed : result F :=
  compiled_felt CONFIG_ADMIN_PUB_SEED_HEX "TZEL_ROLLUP_CONFIG_ADMIN_PUB_SEED_HEX".
Definition compiled_verifier_config_leaf : result F :=
  compiled_felt VERIFIER_CONFIG_ADMIN_LEAF_HEX "TZEL_ROLLUP_VERIFIER_CONFIG_ADMIN_LEAF_HEX".
Definition compiled_bridge_config_leaf : result F :=
  compiled_felt BRIDGE_CONFIG_ADMIN_LEAF_HEX "TZEL_ROLLUP_BRIDGE_CONFIG_ADMIN_LEAF_HEX".

Definition authenticate_verifier_config (config : KernelSignedVerifierConfig) : result unit :=
  pub_seed ← compiled_config_admin_pub_seed;
  expected_leaf ← compiled_verifier_config_leaf;
  sighash ← kernel_verifier_config_sighash (ksvc_config config);
  verify_wots_signature_against_leaf sighash pub_seed KERNEL_VERIFIER_CONFIG_KEY_INDEX
    (ksvc_signature config) expected_leaf.

Definition authenticate_bridge_config (config : KernelSignedBridgeConfig) : result unit :=
  pub_seed ← compiled_config_admin_pub_seed;
  expected_leaf ← compiled_bridge_config_leaf;
  sighash ← kernel_bridge_config_sighash (ksbc_config config);
  verify_wots_signature_against_leaf sighash pub_seed KERNEL_BRIDGE_CONFIG_KEY_INDEX
    (ksbc_signature config) expected_leaf.

(** ** Configuration *)

(** The write of the domain comes before the encoding, which can fail. *)
Definition configure_verifier (config : KernelVerifierConfig) : ST DLS unit :=
  existing ← reads (fun ledger => read_verifier_config (dl_host ledger));
  lift (fail_if (bool_decide (is_Some existing)) "rollup verifier is already configured") ;;
  writes (d_write_felt PATH_AUTH_DOMAIN (kvc_auth_domain config)) ;;
  encoded ← lift (encode_kernel_verifier_config config);
  writes (map_host (host_write_store PATH_VERIFIER_CONFIG encoded)).

Definition configure_bridge (config : KernelBridgeConfig) : ST DLS unit :=
  ticketer ← lift (ok_or (contract_from_b58check (kbc_ticketer config))
    "bridge ticketer must be a valid L1 contract");
  lift (fail_if (negb (contract_is_originated ticketer)) "bridge ticketer must be a KT1 contract") ;;
  existing ← reads (fun ledger => d_read_string ledger PATH_BRIDGE_TICKETER MAX_INPUT_BYTES);
  lift (fail_if (bool_decide (is_Some existing)) "rollup bridge is already configured") ;;
  writes (d_write_string PATH_BRIDGE_TICKETER (kbc_ticketer config)).

(** ** Withdrawals *)

Definition encode_withdrawal_outbox_message (ticketer : string) (record : WithdrawalRecord)
    : result bytes :=
  ticketer ← ok_or (contract_from_b58check ticketer) "invalid bridge ticketer contract";
  recipient ← ok_or (contract_from_b58check (wr_recipient record))
    "invalid withdrawal recipient contract";
  ticket ← map_err (fun e => "failed to build withdrawal ticket: " +:+ e)
    (ticket_new ticketer 0%Z (wr_amount record));
  burn ← ok_or (entrypoint_try_from "burn") "invalid burn entrypoint";
  map_err (fun e => "failed to encode withdrawal outbox message: " +:+ e)
    (outbox_bin_write recipient ticket ticketer burn).

Definition prepare_unshield_outbox (ledger : DLS) (req : PreparedUnshield) : result bytes :=
  stored ← d_read_string ledger PATH_BRIDGE_TICKETER MAX_INPUT_BYTES;
  ticketer ← ok_or stored "bridge ticketer is not configured";
  encode_withdrawal_outbox_message ticketer
    {| wr_recipient := pu_recipient req; wr_amount := pu_amount req |}.

(** ** Messages *)

(** A method of the host, called through the ledger that borrows it. *)
Definition on_host {A} (m : ST Hst A) : ST DLS A := fun self =>
  let '(host, r) := m (dl_host self) in
  ({| dl_host := host; dl_zero_hashes := dl_zero_hashes self |}, r).

(** The last step of a commit, which cannot fail. *)
Definition commit {A} (f : DLS -> DLS * A) : ST DLS A := fun self =>
  let '(self, a) := f self in (self, Ok a).

Definition apply_shield_message (req : KernelShieldReq) : ST DLS KernelResult :=
  reads (fun l => validate_transition_proof (dl_host l) (ksr_proof req) CShield) ;;
  let req := kernel_shield_req_to_host req in
  prepared ← reads (prepare_shield req);
  staged ← reads (fun l => prepare_durable_shield_commit l prepared);
  resp ← commit (apply_durable_shield_commit staged);
  mret (KRShield resp).

Definition apply_transfer_message (req : KernelTransferReq) : ST DLS KernelResult :=
  reads (fun l => validate_transition_proof (dl_host l) (ktr_proof req) CTransfer) ;;
  resp ← apply_transfer (kernel_transfer_req_to_host req);
  mret (KRTransfer resp).

Definition apply_unshield_message (req : KernelUnshieldReq) : ST DLS KernelResult :=
  reads (fun l => validate_transition_proof (dl_host l) (kur_proof req) CUnshield) ;;
  let req := kernel_unshield_req_to_host req in
  prepared ← reads (prepare_unshield req);
  outbox ← reads (fun l => prepare_unshield_outbox l prepared);
  staged ← reads (fun l => prepare_durable_unshield_commit l prepared);
  on_host (host_write_output outbox) ;;
  resp ← commit (apply_durable_unshield_commit staged);
  mret (KRUnshield resp).

(** The messages that carry their own content. *)
Definition apply_direct_message (message : KernelInboxMessage) : ST DLS KernelResult :=
  match message with
  | KIConfigureVerifier config =>
      lift (authenticate_verifier_config config) ;;
      configure_verifier (ksvc_config config) ;;
      mret KRConfigured
  | KIConfigureBridge config =>
      lift (authenticate_bridge_config config) ;;
      configure_bridge (ksbc_config config) ;;
      mret KRConfigured
  | KIShield req => apply_shield_message req
  | KITransfer req => apply_transfer_message req
  | KIUnshield req => apply_unshield_message req
  | KIDalPointer _ => lift (Err "nested DAL pointer messages are not supported")
  end.

(** The recursive call is on a message that is not a pointer. *)
Definition apply_kernel_message (message : KernelInboxMessage) : ST DLS KernelResult :=
  match message with
  | KIDalPointer pointer =>
      nested ← reads (fun l => fetch_kernel_message_from_dal debug_message (dl_host l) pointer);
      apply_direct_message nested
  | _ => apply_direct_message message
  end.

Definition apply_deposit_message (deposit : ParsedBridgeDeposit) : ST DLS KernelResult :=
  reads (fun l => validate_bridge_deposit l deposit) ;;
  apply_deposit (pbd_recipient deposit) (pbd_amount deposit) ;;
  mret KRDeposit.

Definition apply_parsed_message (message : ParsedRollupMessage) : ST DLS KernelResult :=
  match message with
  | PIgnore => lift (Panic "ignored messages are handled above")
  | PDeposit deposit => apply_deposit_message deposit
  | PKernel message => apply_kernel_message message
  end.

(** ** Inputs *)

Definition ledger_debug (message : string) : Hst -> Hst :=
  host_write_debug ("tzel-rollup-kernel: " +:+ message +:+ String (Ascii.ascii_of_nat 10) "").

(** An error as a result: bounded, logged, returned. *)
Definition error_result (log : string -> string) (e : string) : ST Hst (option KernelResult) :=
  message ← lift (bounded_error_message e);
  writes (ledger_debug (log message)) ;;
  mret (Some (KRError message)).

(** A deposit or a kernel message, on the ledger opened in the host's store. *)
Definition apply_on_ledger (message : ParsedRollupMessage) : ST Hst (option KernelResult) :=
  fun host =>
    match DurableLedgerState_new host with
    | (host, Panic w) => (host, Panic w)
    | (host, Err e) =>
        match bounded_error_message e with
        | Ok message => (ledger_debug e host, Ok (Some (KRError message)))
        | Err e' => (ledger_debug e host, Err e')
        | Panic w => (ledger_debug e host, Panic w)
        end
    | (_, Ok ledger) =>
        match apply_parsed_message message ledger with
        | (ledger, Ok success) => (dl_host ledger, Ok (Some success))
        | (ledger, Err e) => error_result (fun m => "transition failed: " +:+ m) e (dl_host ledger)
        | (ledger, Panic w) => (dl_host ledger, Panic w)
        end
    end.

Definition apply_input_message (input : InputMessage) : ST Hst (option KernelResult) := fun host =>
  match host_rollup_address host with
  | None => (host, Panic "reveal_metadata failed")
  | Some current_rollup =>
      match decode_rollup_message (im_payload input) current_rollup with
      | Panic w => (host, Panic w)
      | Err e => error_result id ("invalid inbox message: " +:+ e) host
      | Ok PIgnore => (host, Ok None)
      | Ok message => apply_on_ledger message host
      end
  end.

Definition record_input (input : InputMessage) (host : Hst) : Hst :=
  let stored_payload_len :=
    N.min (N.of_nat (length (im_payload input))) MAX_STORED_INPUT_PAYLOAD_BYTES in
  let host := increment_u64 PATH_RAW_INPUT_COUNT 1 host in
  let host := increment_u64 PATH_RAW_INPUT_BYTES (N.of_nat (length (im_payload input))) host in
  let host := host_write_store PATH_LAST_INPUT_LEVEL (i32_le (im_level input)) host in
  let host := host_write_store PATH_LAST_INPUT_ID (i32_le (im_id input)) host in
  let host := host_write_store PATH_LAST_INPUT_LEN
    (le_bytes 4 (N.min stored_payload_len (U32_LIMIT - 1))) host in
  let host := host_write_store PATH_LAST_INPUT_PAYLOAD
    (take (N.to_nat stored_payload_len) (im_payload input)) host in
  ledger_debug ("inbox level=" +:+ pretty (im_level input) +:+ " id=" +:+ pretty (im_id input) +:+
    " bytes=" +:+ show_nat (length (im_payload input))) host.

Definition store_result (r : KernelResult) : ST Hst unit := fun host =>
  match encode_kernel_result r with
  | Ok encoded => (host_write_store PATH_LAST_RESULT encoded host, Ok tt)
  | Err e => (ledger_debug ("failed to encode result: " +:+ e) host, Ok tt)
  | Panic w => (host, Panic w)
  end.

Definition process_input (input : InputMessage) : ST Hst unit :=
  writes (record_input input) ;;
  r ← apply_input_message input;
  match r with Some r => store_result r | None => mret tt end.

(** [while let Some(input) = host.next_input()]; the fuel bounds the rounds, and one
    more than the inbox is enough.  The result says whether an input was seen. *)
Fixpoint run_inputs (fuel : nat) (saw_input : bool) : ST Hst bool := fun host =>
  match fuel with
  | O => (host, Panic "out of fuel")
  | S fuel =>
      let '(host, input) := host_next_input host in
      match input with
      | None => (host, Ok saw_input)
      | Some input => (process_input input ;; run_inputs fuel true) host
      end
  end.

Definition run_with_host (fuel : nat) : ST Hst unit :=
  saw_input ← run_inputs fuel false;
  if saw_input : bool then mret tt else writes (ledger_debug "no inbox messages").
End Kernel.
