(* ===== verification/WasmHost.v ===== *)
(** * WasmHost: the host of the production kernel

    The [wasm_host] module of [tezos/rollup-kernel/src/lib.rs] implements the [Host]
    trait on the functions that the rollup's virtual machine exports to it.  The machine
    is a parameter; what is assumed of it is how its store reads and writes bytes at an
    offset.  A write there does not shorten the value it overwrites, which the trait's
    contract ([HostLaws]) takes for granted: a write that shrinks a value leaves the old
    tail, and the empty write that deletes a drained pool leaves the pool as it was. *)

From S2P Require Import Prelude Felt Externals Types Hashing Merkle Ledger CanonicalWire.
From S2P Require Import Binding Concrete ConcreteWire KernelWire Utf8 Store StoreKeys Durable Kernel.

Local Open Scope N_scope.

(** The import module [smart_rollup_core].  A buffer is given by its contents and
    returned as the call leaves it; codes are [i32]. *)
Class SmartRollupCore (W : Type) := {
  (** the code, the level and the id, the buffer *)
  sr_read_input : W -> bytes -> W * (Z * (Z * Z) * bytes);
  sr_write_debug : bytes -> W -> W;
  sr_store_read : W -> bytes -> N -> bytes -> Z * bytes;
  sr_store_write : bytes -> N -> bytes -> W -> W * Z;
  sr_write_output : bytes -> W -> W * Z;
  sr_reveal_metadata : W -> bytes -> Z * bytes;
  sr_reveal : W -> bytes -> bytes -> Z * bytes
}.

(** [vec![0u8; n]]. *)
Definition zeroed (n : N) : bytes := replicate (N.to_nat n) Byte.x00.

(** [usize::try_from] of an [i32] that is not negative. *)
Definition usize_of_code (code : Z) : nat := Z.to_nat code.

(** Two's complement, big-endian. *)
Definition i_be (width : nat) (v : Z) : bytes :=
  be_bytes width (Z.to_N (v mod 2 ^ (8 * Z.of_nat width))).
Definition i64_of_be (b : bytes) : Z :=
  let n := Z.of_N (be_val b) in (if n <? 2 ^ 63 then n else n - 2 ^ 64)%Z.

Definition read_u64_be (b : bytes) : result N :=
  let signed := i64_of_be b in
  if (signed <? 0)%Z then Err "DAL parameter was negative" else Ok (Z.to_N signed).

Section Wasm.
Context {W : Type} `{!SmartRollupCore W}.

Definition wasm_next_input (w : W) : W * option InputMessage :=
  let '(w, (written, (level, id), buffer)) := sr_read_input w (zeroed MAX_INPUT_BYTES) in
  if (written <=? 0)%Z then (w, None)
  else (w, Some {| im_level := level; im_id := id;
                   im_payload := take (usize_of_code written) buffer |}).

Definition wasm_read_store (w : W) (path : bytes) (max_bytes : N) : option bytes :=
  let '(read, buffer) := sr_store_read w path 0 (zeroed max_bytes) in
  if (read <? 0)%Z then None else Some (take (usize_of_code read) buffer).

Definition wasm_write_debug (message : string) (w : W) : W :=
  sr_write_debug (str_bytes message) w.

Definition wasm_write_store (path value : bytes) (w : W) : W :=
  let '(w, rc) := sr_store_write path 0 value w in
  if (rc <? 0)%Z then
    wasm_write_debug ("tzel-rollup-kernel: store_write failed" +:+
                      String (Ascii.ascii_of_nat 10) "") w
  else w.

Definition wasm_write_output (value : bytes) : ST W unit := fun w =>
  let '(w, rc) := sr_write_output value w in
  (w, if (rc <? 0)%Z then Err "write_output failed" else Ok tt).

(** The call is asserted to fill the 24 bytes. *)
Definition wasm_rollup_address (w : W) : option bytes :=
  let '(written, metadata) := sr_reveal_metadata w (zeroed 24) in
  if (written =? 24)%Z then Some (take 20 metadata) else None.

Definition wasm_reveal_dal_parameters (w : W) : result DalParameters :=
  let '(written, raw) := sr_reveal w [Byte.x03] (zeroed 32) in
  fail_if (negb (written =? 32)%Z)
    ("reveal DAL parameters failed: expected 32 bytes, got " +:+ pretty written) ;;
  number_of_slots ← read_u64_be (take 8 raw);
  attestation_lag ← read_u64_be (take 8 (drop 8 raw));
  slot_size ← read_u64_be (take 8 (drop 16 raw));
  page_size ← read_u64_be (take 8 (drop 24 raw));
  mret {| dal_number_of_slots := number_of_slots; dal_attestation_lag := attestation_lag;
          dal_slot_size := slot_size; dal_page_size := page_size |}.

Definition wasm_reveal_dal_page (w : W) (published_level : Z) (slot_index page_index max_bytes : N)
    : result bytes :=
  fail_if (2 ^ 15 <=? page_index) "DAL page index does not fit in i16" ;;
  let payload := Byte.x02 :: i_be 4 published_level ++ [byte_of_N slot_index] ++
                 be_bytes 2 page_index in
  let '(written, buffer) := sr_reveal w payload (zeroed max_bytes) in
  fail_if (written <? 0)%Z "reveal DAL page failed" ;;
  mret (take (usize_of_code written) buffer).

#[export] Instance WasmHost : Host W := {|
  host_next_input := wasm_next_input;
  host_read_store := wasm_read_store;
  host_write_store := wasm_write_store;
  host_write_output := wasm_write_output;
  host_write_debug := wasm_write_debug;
  host_rollup_address := wasm_rollup_address;
  host_reveal_dal_parameters := wasm_reveal_dal_parameters;
  host_reveal_dal_page := wasm_reveal_dal_page
|}.
End Wasm.

(** The entry point of the kernel: a level of inputs. *)
Definition kernel_run `{Blake2s, Hex, TezosContracts, !RollupEncoding, Target, WireCodecs, KernelBuild}
    {W} `{!SmartRollupCore W} (fuel : nat) : ST W unit := run_with_host fuel.

(** ** The machine's store *)

(** A value with bytes written at its start. *)
Definition overwrite (old new : bytes) : bytes := new ++ drop (length new) old.

(** What the machine documents of its store: a read copies a prefix of the value into
    the buffer, a write replaces bytes at an offset and extends the value if needed, a
    failed call leaves the store alone. *)
Class CoreLaws (W : Type) `{SmartRollupCore W} := {
  core_store : W -> gmap bytes bytes;
  core_read w p buf : (length buf <= 2048)%nat ->
    match core_store w !! p with
    | None => (fst (sr_store_read w p 0 buf) < 0)%Z
    | Some v => sr_store_read w p 0 buf =
        (Z.of_nat (Nat.min (length v) (length buf)), overwrite buf (take (length buf) v))
    end;
  core_write p v w : let '(w', rc) := sr_store_write p 0 v w in
    core_store w' =
      (if (rc <? 0)%Z then core_store w
       else <[p := overwrite (default [] (core_store w !! p)) v]> (core_store w));
  core_debug m w : core_store (sr_write_debug m w) = core_store w
}.

Section Laws.
Context `{CoreLaws W}.
Implicit Types w : W.

Lemma overwrite_take (buf v : bytes) :
  take (Nat.min (length v) (length buf)) (overwrite buf (take (length buf) v)) = take (length buf) v.
Proof.
  unfold overwrite. rewrite take_app_le by (rewrite length_take; lia).
  rewrite take_take. destruct (decide (length v <= length buf)%nat).
  - rewrite !take_ge by lia. done.
  - f_equal. lia.
Qed.

(** The host reads as the trait promises. *)
Lemma wasm_read w p n : n <= 2048 -> host_read_store w p n = take (N.to_nat n) <$> core_store w !! p.
Proof.
  intros Hn. cbn [host_read_store WasmHost]. unfold wasm_read_store, zeroed.
  pose proof (core_read w p (replicate (N.to_nat n) Byte.x00)) as Hr.
  rewrite length_replicate in Hr. specialize (Hr ltac:(lia)).
  destruct (core_store w !! p) as [v|]; cbn.
  - rewrite Hr. rewrite (proj2 (Z.ltb_ge _ _)) by lia. unfold usize_of_code. rewrite Nat2Z.id.
    pose proof (overwrite_take (replicate (N.to_nat n) Byte.x00) v) as Ht.
    rewrite length_replicate in Ht. by rewrite Ht.
  - destruct (sr_store_read _ _ _ _) as [rc buf]. cbn in Hr.
    by rewrite (proj2 (Z.ltb_lt _ _)).
Qed.

(** It writes as the trait promises wherever a value does not shrink, or fails. *)
Lemma wasm_write p v w :
  let w' := host_write_store p v w in
  core_store w' = core_store w \/
  core_store w' = <[p := overwrite (default [] (core_store w !! p)) v]> (core_store w).
Proof.
  cbn. unfold wasm_write_store, wasm_write_debug. pose proof (core_write p v w) as Hw.
  destruct (sr_store_write p 0 v w) as [w' rc].
  destruct (rc <? 0)%Z; rewrite ?core_debug; [by left|by right].
Qed.

Lemma wasm_write_ne p q v w : p <> q -> core_store (host_write_store p v w) !! q = core_store w !! q.
Proof. intros Hne. destruct (wasm_write p v w) as [->| ->]; by rewrite ?lookup_insert_ne. Qed.

Lemma wasm_write_empty p v w :
  core_store w !! p = Some v -> core_store (host_write_store p [] w) !! p = Some v.
Proof.
  intros Hp. destruct (wasm_write p [] w) as [->| ->]; [done|].
  rewrite lookup_insert_eq, Hp. done.
Qed.
End Laws.

(** ** A drained pool *)

Section Drain.
Context `{Blake2s, HexLaws, Target, Tze WirePublishedNote, CoreLaws W}.
#[local] Abbreviation DLS := (DurableLedgerState W).
Implicit Types s : DLS.

(** The bytes at a pool's path. *)
Definition pool_at (pk : F) s : option bytes :=
  core_store (dl_host s) !! key_path (KBalance pk).

Lemma pool_at_write pk k v s :
  key_number k <> key_number (KBalance pk) ->
  pool_at pk (map_host (host_write_store (key_path k) v) s) = pool_at pk s.
Proof. intros Hne. unfold pool_at. cbn [dl_host map_host]. by apply wasm_write_ne, key_number_path. Qed.

Lemma pool_at_foldl {A} pk (f : DLS -> A -> DLS) l s :
  (forall s a, pool_at pk (f s a) = pool_at pk s) -> pool_at pk (foldl f s l) = pool_at pk s.
Proof. intros Hf. revert s. induction l as [|a l IH]; intros s; [done|].
  etransitivity; [apply (IH (f s a))|apply Hf].
Qed.

Lemma pool_at_note pk i b s : pool_at pk (map_host (write_note_payload i b) s) = pool_at pk s.
Proof.
  unfold write_note_payload. destruct (length b <=? MAX_NOTE_CHUNK_BYTES)%nat.
  - by apply (pool_at_write pk (KNote i)).
  - rewrite <-(pool_at_write pk (KNoteLen i) (u64_le (N.of_nat (length b))) s) by done.
    unfold pool_at. cbn [dl_host map_host].
    change (note_length_path i) with (key_path (KNoteLen i)).
    generalize (imap pair (chunks MAX_NOTE_CHUNK_BYTES b)) as l. intros l.
    generalize (host_write_store (key_path (KNoteLen i)) (u64_le (N.of_nat (length b))) (dl_host s)) as w.
    induction l as [|[c x] l IH]; intros w; [done|].
    etransitivity; [apply IH|].
    by apply wasm_write_ne, (key_number_path (KNoteChunk i (N.of_nat c)) (KBalance pk)).
Qed.

Lemma pool_at_fee pk s : pool_at pk (d_note_private_tx_applied s) = pool_at pk s.
Proof.
  unfold d_note_private_tx_applied. destruct (read_i32 _ _) as [l|]; [|done].
  rewrite (pool_at_write pk (KCell CFeeCount)) by done. by apply (pool_at_write pk (KCell CFeeLevel)).
Qed.

Lemma pool_at_marker pk m s : pool_at pk (write_root_marker m s) = pool_at pk s.
Proof.
  destruct m as [[i root]|]; [|done].
  etransitivity; [by apply (pool_at_write pk (KCell CValidRootCount))|].
  etransitivity; [by apply (pool_at_write pk (KRootAt i))|]. by apply (pool_at_write pk (KRoot root)).
Qed.

Lemma staged_shield s prepared staged :
  prepare_durable_shield_commit s prepared = Ok staged ->
  sc_balance_path staged = key_path (KBalance (ps_pubkey_hash prepared)) /\
  sc_applied_shield_path staged = key_path (KShield (ps_client_cm prepared)) /\
  exists b, host_read_store (dl_host s) (key_path (KBalance (ps_pubkey_hash prepared))) 8 = Some b /\
    sc_new_balance staged = le_val b - ps_debit prepared.
Proof.
  unfold prepare_durable_shield_commit. cbv zeta. intros E.
  repeat (result_inv; match goal with H : (let '(_, _) := ?p in _) = Ok _ |- _ => destruct p end).
  result_inv. cbn. split; [done|]. split; [done|]. eauto.
Qed.

Lemma stored_balance s pk balance b :
  d_deposit_balance s pk = Ok (Some balance) ->
  host_read_store (dl_host s) (key_path (KBalance pk)) 8 = Some b -> balance = le_val b.
Proof.
  unfold d_deposit_balance. cbv zeta.
  change (deposit_balance_path pk) with (key_path (KBalance pk)). intros Hbal Hread.
  rewrite Hread in Hbal. destruct b as [|x b]; [done|]. unfold parse_balance in Hbal.
  result_inv. done.
Qed.

(** Whatever a shield commits, only its write of the balance reaches the pool. *)
Lemma pool_at_commit pk staged s cm :
  sc_balance_path staged = key_path (KBalance pk) ->
  sc_applied_shield_path staged = key_path (KShield cm) ->
  pool_at pk (fst (apply_durable_shield_commit staged s)) =
    pool_at pk (write_balance (sc_balance_path staged) (sc_new_balance staged) s).
Proof.
  intros Hb Hs. unfold apply_durable_shield_commit. cbv zeta. cbn [fst].
  rewrite pool_at_fee, pool_at_marker.
  etransitivity; [by apply (pool_at_write pk (KCell CTreeSize))|].
  etransitivity; [by apply (pool_at_write pk (KCell CTreeRoot))|].
  etransitivity; [apply pool_at_foldl; intros s' [l f]; by apply (pool_at_write pk (KBranch l))|].
  etransitivity; [apply pool_at_foldl; intros s' [i b]; apply pool_at_note|].
  rewrite Hs. by apply (pool_at_write pk (KShield cm)).
Qed.

(** C29: on the production host, a shield that spends a whole pool is applied and leaves
    the pool's balance as it was: the empty write meant to delete the entry overwrites
    none of its bytes.  The pool can be spent again by the next shield. *)
Theorem wasm_full_drain_keeps_balance s (prepared : PreparedShield) staged (balance : N) :
  d_deposit_balance s (ps_pubkey_hash prepared) = Ok (Some balance) ->
  ps_debit prepared = balance ->
  prepare_durable_shield_commit s prepared = Ok staged ->
  let '(s', _) := apply_durable_shield_commit staged s in
  d_deposit_balance s' (ps_pubkey_hash prepared) = Ok (Some balance).
Proof.
  intros Hbal Hdebit Hstaged.
  destruct (staged_shield _ _ _ Hstaged) as (Hb & Hs & v & Hread & Hnew).
  pose proof (pool_at_commit (ps_pubkey_hash prepared) staged s _ Hb Hs) as Hpool.
  destruct (apply_durable_shield_commit staged s) as [s' resp]. cbn [fst] in Hpool.
  pose proof (stored_balance _ _ _ _ Hbal Hread) as ->.
  assert (sc_new_balance staged = 0) as Hz by lia.
  revert Hbal. unfold d_deposit_balance. cbv zeta.
  change (deposit_balance_path (ps_pubkey_hash prepared))
    with (key_path (KBalance (ps_pubkey_hash prepared))) in *.
  enough (host_read_store (dl_host s') (key_path (KBalance (ps_pubkey_hash prepared))) 8 =
          host_read_store (dl_host s) (key_path (KBalance (ps_pubkey_hash prepared))) 8) as -> by done.
  rewrite !wasm_read by lia. fold (pool_at (ps_pubkey_hash prepared) s').
  fold (pool_at (ps_pubkey_hash prepared) s). rewrite Hpool, Hz, Hb. f_equal.
  rewrite wasm_read in Hread by lia. unfold pool_at, write_balance, map_host. cbn [dl_host N.eqb].
  destruct (core_store (dl_host s) !! _) as [old|] eqn:Eold; [|done].
  by apply wasm_write_empty.
Qed.
End Drain.

(** ** A machine that stores bytes in a map *)
#[local] Instance toy_core : SmartRollupCore (gmap bytes bytes) := {|
  sr_read_input := fun w buf => (w, (0%Z, (0%Z, 0%Z), buf));
  sr_write_debug := fun _ w => w;
  sr_store_read := fun w p off buf =>
    match w !! p with
    | None => ((-1)%Z, buf)
    | Some v =>
        let x := take (length buf) (drop (N.to_nat off) v) in
        (Z.of_nat (length x), overwrite buf x)
    end;
  sr_store_write := fun p off v w =>
    let old := default [] (w !! p) in
    (<[p := take (N.to_nat off) old ++ overwrite (drop (N.to_nat off) old) v]> w, 0%Z);
  sr_write_output := fun _ w => (w, 0%Z);
  sr_reveal_metadata := fun _ buf => (24%Z, buf);
  sr_reveal := fun _ _ buf => ((-1)%Z, buf)
|}.

#[local] Instance toy_core_laws : CoreLaws (gmap bytes bytes).
Proof.
  refine {| core_store := id |}; [|done|done].
  intros p buf w _. cbn. destruct (_ !! _) as [v|]; cbn; [|lia].
  f_equal. rewrite drop_0, length_take. lia.
Defined.

#[local] Existing Instances toy_blake2s toy_hex toy_hex_laws host_target toy_wire.

Definition drain_example : PreparedShield :=
  {| ps_pubkey_hash := ZERO; ps_debit := 100; ps_client_cm := ZERO; ps_client_enc := sample_enc;
     ps_producer_cm := ZERO; ps_producer_enc := sample_enc |}.

Definition drain_host : DurableLedgerState (gmap bytes bytes) :=
  {| dl_host := {[deposit_balance_path ZERO := u64_le 100]}; dl_zero_hashes := compute_zero_hashes |}.

Lemma drain_staged :
  match prepare_durable_shield_commit drain_host drain_example with Ok _ => True | _ => False end.
Proof. vm_compute. exact I. Qed.

Lemma wasm_full_drain_keeps_balance_witness :
  exists staged, prepare_durable_shield_commit drain_host drain_example = Ok staged /\
    let '(s', _) := apply_durable_shield_commit staged drain_host in
    d_deposit_balance s' ZERO = Ok (Some 100).
Proof.
  pose proof drain_staged as Hok.
  destruct (prepare_durable_shield_commit drain_host drain_example) as [staged|e|w] eqn:E; [|destruct Hok..].
  exists staged. split; [reflexivity|].
  refine (wasm_full_drain_keeps_balance drain_host drain_example staged 100 _ _ E);
    vm_compute; reflexivity.
Defined.
