(* ===== verification/Bds.v ===== *)
(** * Bds: the wallet's traversal of a key tree

    [XmssBdsState] of [apps/wallet/src/lib.rs]: the state from which the wallet reads the
    authentication path of its next one-time key, and advances to the key after, without
    building the tree again.  Levels below [depth - k] have a treehash instance that
    prepares the next right sibling, levels from there on a retained list, and each level
    may keep one node for its parent.  A stack is a list with its top first. *)

From S2P Require Import Prelude Felt Externals Types Hashing Merkle Wots.

Local Open Scope N_scope.

Definition XMSS_BDS_K : nat := 2.

(** ** Arithmetic *)

(** [as u8] of a height. *)
Definition u8 (n : nat) : nat := (n mod 256)%nat.

(** [1usize << n], and [u32::trailing_ones]. *)
Definition shl1_usize `{Target} (n : nat) : N := N.shiftl 1 (N.of_nat n mod usize_bits).

Fixpoint count_ones (fuel : nat) (v : N) : nat :=
  match fuel with
  | O => O
  | S fuel => if N.odd v then S (count_ones fuel (N.div2 v)) else O
  end.
Definition trailing_ones (v : N) : nat := count_ones 32 v.

Definition sub_u32 (a b : N) : N := (a + U32_LIMIT - b) mod U32_LIMIT.
Definition shl_u32 (v : N) (k : nat) : N := N.shiftl v (N.of_nat k mod 32) mod U32_LIMIT.

(** ** Data *)

Record FeltSlot := { fs_present : bool; fs_value : F }.

Definition slot_none : FeltSlot := {| fs_present := false; fs_value := ZERO |}.
Definition slot_some (value : F) : FeltSlot := {| fs_present := true; fs_value := value |}.

Definition slot_take (slot : FeltSlot) : FeltSlot * option F :=
  if fs_present slot
  then ({| fs_present := false; fs_value := fs_value slot |}, Some (fs_value slot))
  else (slot, None).

Record XmssNode := { xn_start_idx : N; xn_height : nat; xn_value : F }.

Record RetainLevel := { rl_nodes : list F; rl_next : nat }.

Definition retain_push (value : F) (r : RetainLevel) : RetainLevel :=
  {| rl_nodes := rl_nodes r ++ [value]; rl_next := rl_next r |}.

Definition retain_pop (r : RetainLevel) : RetainLevel * option F :=
  match rl_nodes r !! rl_next r with
  | Some value => ({| rl_nodes := rl_nodes r; rl_next := S (rl_next r) |}, Some value)
  | None => (r, None)
  end.

Record TreeHashState := {
  th_target_height : nat;
  th_start_idx : N;
  th_next_idx : N;
  th_initialized : bool;
  th_finished : bool;
  th_node : FeltSlot;
  th_node_start_idx : N;
  th_node_height : nat;
  th_stack : list XmssNode
}.

Record XmssBdsState := {
  bd_next_index : N;
  bd_auth_path : list F;
  bd_keep : list FeltSlot;
  bd_treehash : list TreeHashState;
  bd_retain : list RetainLevel
}.

(** ** Treehash instances *)

Definition treehash_new (target_height : nat) : TreeHashState :=
  {| th_target_height := u8 target_height; th_start_idx := 0; th_next_idx := 0;
     th_initialized := false; th_finished := false; th_node := slot_none;
     th_node_start_idx := 0; th_node_height := u8 target_height; th_stack := [] |}.

Definition treehash_clear (t : TreeHashState) : TreeHashState :=
  {| th_target_height := th_target_height t; th_start_idx := th_start_idx t;
     th_next_idx := th_next_idx t; th_initialized := false; th_finished := false;
     th_node := slot_none; th_node_start_idx := 0; th_node_height := th_target_height t;
     th_stack := [] |}.

Definition seed_completed (node : XmssNode) (t : TreeHashState) : TreeHashState :=
  {| th_target_height := th_target_height t; th_start_idx := th_start_idx t;
     th_next_idx := xn_start_idx node; th_initialized := false; th_finished := true;
     th_node := slot_some (xn_value node); th_node_start_idx := xn_start_idx node;
     th_node_height := xn_height node; th_stack := [] |}.

Definition treehash_start (start_idx : N) (t : TreeHashState) : TreeHashState :=
  {| th_target_height := th_target_height t; th_start_idx := start_idx; th_next_idx := start_idx;
     th_initialized := true; th_finished := false; th_node := slot_none; th_node_start_idx := 0;
     th_node_height := th_target_height t; th_stack := [] |}.

Definition take_ready (t : TreeHashState) : TreeHashState * option F :=
  let '(node, value) := slot_take (th_node t) in
  match value with
  | Some value =>
      ({| th_target_height := th_target_height t; th_start_idx := th_start_idx t;
          th_next_idx := th_next_idx t; th_initialized := false; th_finished := false;
          th_node := node; th_node_start_idx := th_node_start_idx t;
          th_node_height := th_node_height t; th_stack := th_stack t |}, Some value)
  | None => (t, None)
  end.

Definition lowest_node_height (t : TreeHashState) : option nat :=
  if negb (th_initialized t) || th_finished t then None
  else Some (match xn_height <$> th_stack t with
             | [] => th_target_height t
             | h :: heights => foldl Nat.min h heights
             end).

Section Bds.
Context `{Blake2s, Target}.

(** The environment traps a full rebuild, as in [Wots]. *)
Variable rebuild_trapped : bool.

Definition assert_full_xmss_bds_rebuild_allowed (depth : nat) : result unit :=
  panic_unless (negb ((depth =? AUTH_DEPTH)%nat && rebuild_trapped))
    "unexpected full depth-16 XMSS/BDS rebuild".

Variables ask_j pub_seed : F.

(** A node from its left and right children. *)
Definition join (left node : XmssNode) : XmssNode :=
  let level := xn_height node in
  {| xn_start_idx := xn_start_idx left;
     xn_height := u8 (S level);
     xn_value := xmss_tree_node_hash pub_seed (N.of_nat level)
       (shr_u32 (xn_start_idx left) (S level)) (xn_value left) (xn_value node) |}.

Definition leaf_node (idx : N) : XmssNode :=
  {| xn_start_idx := idx; xn_height := 0;
     xn_value := auth_leaf_hash_with_pub_seed ask_j pub_seed idx |}.

(** [while let Some(top) = self.stack.last()]. *)
Fixpoint merge (stack : list XmssNode) (node : XmssNode) : list XmssNode * XmssNode :=
  match stack with
  | [] => ([], node)
  | top :: rest =>
      if negb (xn_height top =? xn_height node)%nat then (stack, node)
      else merge rest (join top node)
  end.

Definition treehash_step (t : TreeHashState) : TreeHashState :=
  if negb (th_initialized t) || th_finished t then t
  else
    let '(stack, node) := merge (th_stack t) (leaf_node (th_next_idx t)) in
    let next_idx := add_u32 (th_next_idx t) 1 in
    if (xn_height node =? th_target_height t)%nat then
      {| th_target_height := th_target_height t; th_start_idx := th_start_idx t;
         th_next_idx := next_idx; th_initialized := th_initialized t; th_finished := true;
         th_node := slot_some (xn_value node); th_node_start_idx := xn_start_idx node;
         th_node_height := xn_height node; th_stack := [] |}
    else
      {| th_target_height := th_target_height t; th_start_idx := th_start_idx t;
         th_next_idx := next_idx; th_initialized := th_initialized t;
         th_finished := th_finished t; th_node := th_node t;
         th_node_start_idx := th_node_start_idx t; th_node_height := th_node_height t;
         th_stack := node :: stack |}.

(** ** Fields of the state *)

Definition with_next (n : N) (s : XmssBdsState) : XmssBdsState :=
  {| bd_next_index := n; bd_auth_path := bd_auth_path s; bd_keep := bd_keep s;
     bd_treehash := bd_treehash s; bd_retain := bd_retain s |}.
Definition with_auth (l : list F) (s : XmssBdsState) : XmssBdsState :=
  {| bd_next_index := bd_next_index s; bd_auth_path := l; bd_keep := bd_keep s;
     bd_treehash := bd_treehash s; bd_retain := bd_retain s |}.
Definition with_keep (l : list FeltSlot) (s : XmssBdsState) : XmssBdsState :=
  {| bd_next_index := bd_next_index s; bd_auth_path := bd_auth_path s; bd_keep := l;
     bd_treehash := bd_treehash s; bd_retain := bd_retain s |}.
Definition with_treehash (l : list TreeHashState) (s : XmssBdsState) : XmssBdsState :=
  {| bd_next_index := bd_next_index s; bd_auth_path := bd_auth_path s; bd_keep := bd_keep s;
     bd_treehash := l; bd_retain := bd_retain s |}.
Definition with_retain (l : list RetainLevel) (s : XmssBdsState) : XmssBdsState :=
  {| bd_next_index := bd_next_index s; bd_auth_path := bd_auth_path s; bd_keep := bd_keep s;
     bd_treehash := bd_treehash s; bd_retain := l |}.

(** [self.v[i] = x], which panics out of range. *)
Definition set_at {A} (get : XmssBdsState -> list A) (put : list A -> XmssBdsState -> XmssBdsState)
    (i : nat) (x : A) : ST XmssBdsState unit := fun s =>
  if (i <? length (get s))%nat then (put (<[i := x]> (get s)) s, Ok tt)
  else (s, Panic "index out of bounds").

Definition set_auth := set_at bd_auth_path with_auth.
Definition set_keep := set_at bd_keep with_keep.
Definition set_treehash := set_at bd_treehash with_treehash.
Definition set_retain := set_at bd_retain with_retain.

(** ** The first state *)

(** A right child, met on the way up: what the first paths will need of it. *)
Definition record_node (depth k h : nat) (node_idx : N) (node : XmssNode) : ST XmssBdsState unit :=
  if node_idx =? 1 then set_auth h (xn_value node)
  else if (node_idx =? 3) && (h <? depth - k)%nat then
    t ← reads (fun s => index_at (bd_treehash s) h);
    set_treehash h (seed_completed node t)
  else if (3 <=? node_idx) && (N.land node_idx 1 =? 1) && (depth - k <=? h)%nat &&
          (h <? depth - 1)%nat then
    r ← reads (fun s => index_at (bd_retain s) h);
    set_retain h (retain_push (xn_value node) r)
  else mret tt.

Fixpoint absorb (depth k : nat) (idx : N) (stack : list XmssNode) (node : XmssNode)
    : ST XmssBdsState (list XmssNode) :=
  match stack with
  | [] => mret [node]
  | top :: rest =>
      if negb (xn_height top =? xn_height node)%nat then mret (node :: stack)
      else
        record_node depth k (xn_height node) (shr_u32 idx (xn_height node)) node ;;
        absorb depth k idx rest (join top node)
  end.

(** The loop over the leaves. *)
Fixpoint build (depth k : nat) (leaves : list N) (stack : list XmssNode)
    : ST XmssBdsState (list XmssNode) :=
  match leaves with
  | [] => mret stack
  | idx :: leaves =>
      (if idx =? 1 then set_auth 0 (xn_value (leaf_node idx)) else mret tt) ;;
      stack ← absorb depth k idx stack (leaf_node idx);
      build depth k leaves stack
  end.

Definition new_with_params (depth k : nat) : result (XmssBdsState * F) :=
  assert_full_xmss_bds_rebuild_allowed depth ;;
  fail_if (depth =? 0)%nat "XMSS depth must be positive" ;;
  fail_if (depth <=? k)%nat
    ("invalid XMSS BDS k=" +:+ show_nat k +:+ " for depth " +:+ show_nat depth) ;;
  let leaves := N.of_nat <$> seq 0 (N.to_nat (shl1_usize depth mod U32_LIMIT)) in
  let empty :=
    {| bd_next_index := 0; bd_auth_path := replicate depth ZERO;
       bd_keep := replicate depth slot_none;
       bd_treehash := treehash_new <$> seq 0 (depth - k);
       bd_retain := replicate depth {| rl_nodes := []; rl_next := 0 |} |} in
  let '(state, stack) := build depth k leaves [] empty in
  stack ← stack;
  root ← ok_or (head stack) "XMSS tree initialization produced no root";
  mret (state, xn_value root).

Definition current_path (s : XmssBdsState) : list F := bd_auth_path s.

(** ** Advancing *)

(** The node kept on the left of the new path. *)
Definition merge_kept (index : N) (tau : nat) : ST XmssBdsState unit :=
  sibling ← reads (fun s => index_at (bd_auth_path s) (tau - 1));
  slot ← reads (fun s => index_at (bd_keep s) (tau - 1));
  let '(slot, kept) := slot_take slot in
  set_keep (tau - 1) slot ;;
  kept ← lift (ok_or kept ("missing BDS keep node at level " +:+ show_nat (tau - 1)));
  let parent_start := sub_u32 (add_u32 index 1) (shl1_u32 tau) in
  set_auth tau (xmss_tree_node_hash pub_seed (N.of_nat (tau - 1)) (shr_u32 parent_start tau)
    sibling kept).

(** The right sibling that is ready at a level. *)
Definition refill (treehash_levels h : nat) : ST XmssBdsState unit :=
  if (h <? treehash_levels)%nat then
    t ← reads (fun s => index_at (bd_treehash s) h);
    let '(t, value) := take_ready t in
    set_treehash h t ;;
    value ← lift (ok_or value ("missing BDS treehash node at level " +:+ show_nat h));
    set_auth h value
  else
    r ← reads (fun s => index_at (bd_retain s) h);
    let '(r, value) := retain_pop r in
    set_retain h r ;;
    value ← lift (ok_or value ("missing BDS retain node at level " +:+ show_nat h));
    set_auth h value.

Definition restart (auth_tree_size index : N) (h : nat) : ST XmssBdsState unit :=
  t ← reads (fun s => index_at (bd_treehash s) h);
  let start_idx := add_u32 (add_u32 index 1) (shl_u32 3 h) in
  set_treehash h (if start_idx <? auth_tree_size then treehash_start start_idx t
                  else treehash_clear t).

(** The instance with the lowest node, and of those the one that starts first. *)
Definition better (best : option nat * nat * N) (i : nat) (t : TreeHashState) : option nat * nat * N :=
  let '(best_idx, best_height, best_start) := best in
  match lowest_node_height t with
  | None => best
  | Some height =>
      if (height <? best_height)%nat || ((height =? best_height)%nat && (th_start_idx t <? best_start))
      then (Some i, height, th_start_idx t)
      else best
  end.

Definition best_instance (l : list TreeHashState) : option nat :=
  let '(best_idx, _, _) :=
    foldl (fun best '(i, t) => better best i t) (None, 255%nat, U32_LIMIT - 1) (imap pair l) in
  best_idx.

(** [for _ in 0..(treehash_levels / 2)]. *)
Fixpoint updates (n : nat) : ST XmssBdsState unit :=
  match n with
  | O => mret tt
  | S n =>
      best ← reads (fun s => mret (best_instance (bd_treehash s)));
      match best with
      | None => mret tt
      | Some i =>
          t ← reads (fun s => index_at (bd_treehash s) i);
          set_treehash i (treehash_step t) ;;
          updates n
      end
  end.

Definition advance : ST XmssBdsState unit :=
  depth ← reads (fun s => mret (length (bd_auth_path s)));
  treehash_levels ← reads (fun s => mret (length (bd_treehash s)));
  index ← reads (fun s => mret (bd_next_index s));
  let auth_tree_size := shl1_usize depth in
  lift (fail_if (auth_tree_size <=? index) "XMSS keys exhausted") ;;
  if index =? auth_tree_size - 1 then
    writes (fun s => with_auth [] (with_next (add_u32 index 1) s))
  else
    let tau := trailing_ones index in
    (if (tau <? depth - 1)%nat && (N.land (shr_u32 index (S tau)) 1 =? 0) then
       sibling ← reads (fun s => index_at (bd_auth_path s) tau);
       set_keep tau (slot_some sibling)
     else mret tt) ;;
    (if (tau =? 0)%nat then
       set_auth 0 (auth_leaf_hash_with_pub_seed ask_j pub_seed index)
     else
       merge_kept index tau ;;
       for_each (refill treehash_levels) (seq 0 tau) ;;
       for_each (restart auth_tree_size index) (seq 0 (Nat.min tau treehash_levels))) ;;
    writes (with_next (add_u32 index 1)) ;;
    updates (treehash_levels / 2).

(** [for _ in 0..next_index { state.advance(..)?; }]. *)
Fixpoint advance_times (n : nat) : ST XmssBdsState unit :=
  match n with O => mret tt | S n => advance ;; advance_times n end.

Definition from_index_with_params (next_index : N) (depth k : nat) : result (XmssBdsState * F) :=
  assert_full_xmss_bds_rebuild_allowed depth ;;
  fail_if (shl1_usize depth <? next_index) ("invalid XMSS index " +:+ show_N next_index) ;;
  '(state, root) ← new_with_params depth k;
  let '(state, r) := advance_times (N.to_nat next_index) state in
  r ;; mret (state, root).

Definition from_index (next_index : N) : result (XmssBdsState * F) :=
  from_index_with_params next_index AUTH_DEPTH XMSS_BDS_K.
End Bds.
