(* ===== verification/BdsTree.v ===== *)
(** * BdsTree: treehash instances compute the nodes of the key tree

    The stack of an instance that has taken some leaves holds one node for each bit of
    their number; a step adds a leaf and carries.  After [2^h] leaves the instance holds
    the node of height [h] over them. *)

From S2P Require Import Prelude Felt Externals Types Hashing Merkle Wots Bds.

Local Open Scope N_scope.

#[local] Opaque auth_leaf_hash_with_pub_seed xmss_tree_node_hash.

(** ** Powers of two *)

Lemma pow2_S (n : nat) : 2 ^ N.of_nat (S n) = 2 * 2 ^ N.of_nat n.
Proof. by rewrite Nat2N.inj_succ, N.pow_succ_r'. Qed.

Lemma pow2_pos (n : nat) : 0 < 2 ^ N.of_nat n.
Proof. apply N.neq_0_lt_0, N.pow_nonzero. done. Qed.

Lemma pow2_le (a b : nat) : (a <= b)%nat -> 2 ^ N.of_nat a <= 2 ^ N.of_nat b.
Proof. intros Hle. apply N.pow_le_mono_r; lia. Qed.

Lemma pow2_lt (a b : nat) : (a < b)%nat -> 2 ^ N.of_nat a < 2 ^ N.of_nat b.
Proof. intros Hlt. apply N.pow_lt_mono_r; lia. Qed.

Lemma pow2_split (a b : nat) : (a <= b)%nat -> 2 ^ N.of_nat b = 2 ^ N.of_nat (b - a) * 2 ^ N.of_nat a.
Proof. intros Hle. rewrite <-N.pow_add_r. f_equal. lia. Qed.

Lemma odd_half q : N.odd q = true -> exists m, q = 2 * m + 1 /\ q / 2 = m.
Proof.
  intros [m ->]%N.odd_spec. exists m. split; [done|]. symmetry. apply (N.div_unique _ _ _ 1); lia.
Qed.

Lemma even_half q : N.odd q = false -> exists m, q = 2 * m /\ q / 2 = m.
Proof.
  intros E. assert (N.even q = true) as [m ->]%N.even_spec by by rewrite <-N.negb_odd, E.
  exists m. split; [done|]. symmetry. apply (N.div_unique _ _ _ 0); lia.
Qed.

Lemma odd_double m : N.odd (2 * m) = false.
Proof. rewrite <-N.negb_even. by rewrite (proj2 (N.even_spec _)) by by exists m. Qed.

Lemma odd_double_1 m : N.odd (2 * m + 1) = true.
Proof. apply N.odd_spec. by exists m. Qed.

Lemma half_double m : 2 * m / 2 = m.
Proof. symmetry. apply (N.div_unique _ _ _ 0); lia. Qed.

Lemma half_double_1 m : (2 * m + 1) / 2 = m.
Proof. symmetry. apply (N.div_unique _ _ _ 1); lia. Qed.

(** [q] in base two, its last digit apart. *)
Lemma mod_pow2_S q (n : nat) : q mod 2 ^ N.of_nat (S n) = 2 * ((q / 2) mod 2 ^ N.of_nat n) + q mod 2.
Proof.
  pose proof (pow2_pos n). rewrite pow2_S, N.Div0.mod_mul_r. lia.
Qed.

Section Tree.
Context `{Blake2s}.
Variables ask_j pub_seed : F.

(** ** Nodes *)

Fixpoint bnode (h : nat) (i : N) : F :=
  match h with
  | O => auth_leaf_hash_with_pub_seed ask_j pub_seed i
  | S h => xmss_tree_node_hash pub_seed (N.of_nat h) i (bnode h (2 * i)) (bnode h (2 * i + 1))
  end.

Definition mk_node (h : nat) (i : N) : XmssNode :=
  {| xn_start_idx := i * 2 ^ N.of_nat h; xn_height := h; xn_value := bnode h i |}.

Lemma leaf_mk_node i : leaf_node ask_j pub_seed i = mk_node 0 i.
Proof.
  unfold leaf_node, mk_node. change (2 ^ N.of_nat 0) with 1. rewrite N.mul_1_r. reflexivity.
Qed.

Lemma join_mk_node h m :
  (S h < 32)%nat -> join pub_seed (mk_node h (2 * m)) (mk_node h (2 * m + 1)) = mk_node (S h) m.
Proof.
  intros Hh. unfold join, mk_node. cbn [xn_start_idx xn_height xn_value]. f_equal.
  - rewrite pow2_S. lia.
  - unfold u8. apply Nat.mod_small. lia.
  - cbn [bnode]. f_equal. unfold shr_u32. rewrite N.mod_small by lia.
    rewrite N.shiftr_div_pow2, pow2_S. pose proof (pow2_pos h).
    replace (2 * m * 2 ^ N.of_nat h) with (m * (2 * 2 ^ N.of_nat h)) by lia.
    apply N.div_mul. lia.
Qed.

(** ** Stacks *)

(** The nodes of the [n] digits of [q] from height [b] on, the lowest first. *)
Fixpoint stack_from (n b : nat) (q : N) : list XmssNode :=
  match n with
  | O => []
  | S n => (if N.odd q then [mk_node b (q - 1)] else []) ++ stack_from n (S b) (q / 2)
  end.

Lemma stack_zero h m : stack_from h 0 (m * 2 ^ N.of_nat h + 0) = [].
Proof.
  rewrite N.add_0_r. generalize 0%nat. revert m. induction h as [|h IH]; intros m b; [done|].
  cbn [stack_from]. rewrite pow2_S.
  replace (m * (2 * 2 ^ N.of_nat h)) with (2 * (m * 2 ^ N.of_nat h)) by lia.
  rewrite odd_double, half_double. apply IH.
Qed.

Lemma stack_from_heights n b q : Forall (fun x => (b <= xn_height x < b + n)%nat) (stack_from n b q).
Proof.
  revert b q. induction n as [|n IH]; intros b q; cbn; [constructor|].
  apply Forall_app. split.
  - destruct (N.odd q); [|constructor]. repeat constructor; cbn; lia.
  - eapply Forall_impl; [apply IH|]. cbn. lia.
Qed.

Lemma merge_stop stack node :
  Forall (fun x => (xn_height node < xn_height x)%nat) stack -> merge pub_seed stack node = (stack, node).
Proof.
  intros Hf. destruct Hf as [|x l Hx _]; [done|]. cbn.
  by rewrite (proj2 (Nat.eqb_neq _ _)) by lia.
Qed.

(** A new node of height [b] either carries through all the digits or leaves the stack of
    the next number. *)
Lemma merge_stack n b q :
  (b + n < 32)%nat -> exists stack node,
    merge pub_seed (stack_from n b q) (mk_node b q) = (stack, node) /\
    (if bool_decide (q mod 2 ^ N.of_nat n = 2 ^ N.of_nat n - 1)
     then stack = [] /\ node = mk_node (b + n) (q / 2 ^ N.of_nat n)
     else node :: stack = stack_from n b (q + 1) /\ (xn_height node < b + n)%nat).
Proof.
  revert b q. induction n as [|n IH]; intros b q Hb.
  - exists [], (mk_node b q). split; [done|]. change (2 ^ N.of_nat 0) with 1.
    rewrite N.mod_1_r, bool_decide_true by done. rewrite N.div_1_r, Nat.add_0_r. done.
  - cbn [stack_from]. rewrite mod_pow2_S, pow2_S. pose proof (pow2_pos n).
    destruct (N.odd q) eqn:E.
    + destruct (odd_half q E) as (m & -> & Em). rewrite Em, N.add_sub. cbn [app merge].
      change (xn_height (mk_node b (2 * m))) with b.
      change (xn_height (mk_node b (2 * m + 1))) with b.
      rewrite Nat.eqb_refl. cbn [negb]. rewrite join_mk_node by lia.
      destruct (IH (S b) m ltac:(lia)) as (stack & node & -> & Hc). exists stack, node.
      split; [done|].
      assert ((2 * m + 1) mod 2 = 1) as -> by (symmetry; apply (N.mod_unique _ _ m); lia).
      case_bool_decide as Hm.
      * rewrite bool_decide_true by lia. destruct Hc as [-> ->]. split; [done|].
        f_equal; [lia|]. rewrite <-N.Div0.div_div, Em. done.
      * rewrite bool_decide_false by lia. destruct Hc as [Hc Hlt]. split; [|lia].
        rewrite Hc. cbn [stack_from]. replace (2 * m + 1 + 1) with (2 * (m + 1)) by lia.
        by rewrite odd_double, half_double.
    + destruct (even_half q E) as (m & -> & Em). rewrite Em. cbn [app].
      exists (stack_from n (S b) m), (mk_node b (2 * m)). split.
      { apply merge_stop. eapply Forall_impl; [apply stack_from_heights|]. cbn. lia. }
      assert ((2 * m) mod 2 = 0) as -> by (symmetry; apply (N.mod_unique _ _ m); lia).
      rewrite bool_decide_false.
      2:{ pose proof (N.mod_lt m (2 ^ N.of_nat n) ltac:(lia)). lia. }
      cbn [stack_from]. rewrite odd_double_1, half_double_1, N.add_sub. cbn. split; [done|lia].
Qed.

(** ** Lowest nodes *)

Fixpoint lowest_digit (n b : nat) (q : N) : nat :=
  match n with
  | O => b
  | S n => if N.odd q then b else lowest_digit n (S b) (q / 2)
  end.

Lemma lowest_digit_bounds n b q : (b <= lowest_digit n b q <= b + n)%nat.
Proof.
  revert b q. induction n as [|n IH]; intros b q; cbn; [lia|].
  destruct (N.odd q); [lia|]. specialize (IH (S b) (q / 2)). lia.
Qed.

Lemma lowest_digit_lt n b q t :
  (t <= n)%nat -> (lowest_digit n b q < b + t)%nat <-> q mod 2 ^ N.of_nat t <> 0.
Proof.
  revert b q t. induction n as [|n IH]; intros b q t Ht.
  - replace t with O by lia. change (2 ^ N.of_nat 0) with 1. rewrite N.mod_1_r. cbn. lia.
  - destruct t as [|t].
    { change (2 ^ N.of_nat 0) with 1. rewrite N.mod_1_r.
      pose proof (lowest_digit_bounds (S n) b q). lia. }
    rewrite mod_pow2_S. cbn [lowest_digit]. destruct (N.odd q) eqn:E.
    + destruct (odd_half q E) as (m & -> & _).
      assert ((2 * m + 1) mod 2 = 1) as -> by (symmetry; apply (N.mod_unique _ _ m); lia). lia.
    + destruct (even_half q E) as (m & -> & ->).
      assert ((2 * m) mod 2 = 0) as -> by (symmetry; apply (N.mod_unique _ _ m); lia).
      replace (b + S t)%nat with (S b + t)%nat by lia. rewrite (IH (S b) m t) by lia. lia.
Qed.

Lemma foldl_min a l : Forall (fun x => (a <= x)%nat) l -> foldl Nat.min a l = a.
Proof.
  induction 1 as [|x l Hx _ IH]; [done|]. change (foldl Nat.min (Nat.min a x) l = a).
  by rewrite Nat.min_l.
Qed.

Lemma stack_lowest n b q :
  match xn_height <$> stack_from n b q with
  | [] => (b + n)%nat
  | h :: heights => foldl Nat.min h heights
  end = lowest_digit n b q.
Proof.
  revert b q. induction n as [|n IH]; intros b q; cbn [stack_from lowest_digit]; [by rewrite Nat.add_0_r|].
  destruct (N.odd q) eqn:E.
  - cbn [app fmap list_fmap xn_height mk_node]. apply foldl_min, Forall_fmap.
    eapply Forall_impl; [apply stack_from_heights|]. cbn. lia.
  - cbn [app]. rewrite <-IH. by replace (b + S n)%nat with (S b + n)%nat by lia.
Qed.

(** ** Instances *)

Inductive status := Idle | Running (count : N) | Done.

(** An instance of height [h] on the node of index [n]. *)
Definition instance_at (h : nat) (n : N) (st : status) (t : TreeHashState) : Prop :=
  th_target_height t = h /\
  match st with
  | Idle => th_initialized t = false /\ th_finished t = false
  | Running c =>
      th_initialized t = true /\ th_finished t = false /\ c < 2 ^ N.of_nat h /\
      th_start_idx t = n * 2 ^ N.of_nat h /\ th_next_idx t = n * 2 ^ N.of_nat h + c /\
      th_stack t = stack_from h 0 (n * 2 ^ N.of_nat h + c)
  | Done => th_finished t = true /\ th_node t = slot_some (bnode h n)
  end.

Definition next_status (h : nat) (st : status) : status :=
  match st with
  | Running c => if c + 1 =? 2 ^ N.of_nat h then Done else Running (c + 1)
  | _ => st
  end.

Lemma instance_step h n c t :
  (h < 32)%nat -> (n + 1) * 2 ^ N.of_nat h <= 2 ^ 31 ->
  instance_at h n (Running c) t ->
  instance_at h n (next_status h (Running c)) (treehash_step ask_j pub_seed t).
Proof.
  intros Hh Hn (Htgt & Hi & Hf & Hc & Hs & Hx & Hst). unfold treehash_step.
  rewrite Hi, Hf. cbn [negb orb]. rewrite Hst, Hx, leaf_mk_node.
  destruct (merge_stack h 0 (n * 2 ^ N.of_nat h + c)) as (stack & node & -> & Hm); [lia|].
  pose proof (pow2_pos h).
  assert ((n * 2 ^ N.of_nat h + c) mod 2 ^ N.of_nat h = c) as Emod
    by (rewrite N.add_comm, N.Div0.mod_add; by apply N.mod_small).
  assert ((n * 2 ^ N.of_nat h + c) / 2 ^ N.of_nat h = n) as Ediv
    by (rewrite N.add_comm, N.div_add, N.div_small by lia; lia).
  assert (add_u32 (n * 2 ^ N.of_nat h + c) 1 = n * 2 ^ N.of_nat h + (c + 1)) as Enext
    by (unfold add_u32, U32_LIMIT; rewrite N.mod_small by lia; lia).
  rewrite Emod, Ediv in Hm. cbn [next_status]. destruct (N.eqb_spec (c + 1) (2 ^ N.of_nat h)) as [E|E].
  - rewrite bool_decide_true in Hm by lia. destruct Hm as [-> ->].
    change (xn_height (mk_node (0 + h) n)) with h. rewrite Htgt, Nat.eqb_refl. done.
  - rewrite bool_decide_false in Hm by lia. destruct Hm as [Hm Hlt].
    rewrite Htgt, (proj2 (Nat.eqb_neq _ _)) by lia. repeat split; cbn; [done..|lia|done|done|].
    rewrite Hm. f_equal. lia.
Qed.

Lemma instance_lowest h n c t :
  instance_at h n (Running c) t -> exists low, lowest_node_height t = Some low /\ (low <= h)%nat /\
    forall k, (k <= h)%nat -> (low < k)%nat <-> c mod 2 ^ N.of_nat k <> 0.
Proof.
  intros (Htgt & Hi & Hf & Hc & _ & _ & Hst). unfold lowest_node_height. rewrite Hi, Hf, Hst, Htgt.
  cbn [negb orb]. exists (lowest_digit h 0 (n * 2 ^ N.of_nat h + c)). split.
  - f_equal. apply (stack_lowest h 0).
  - split; [apply lowest_digit_bounds|]. intros k Hk.
    rewrite (lowest_digit_lt h 0 _ k Hk). rewrite (pow2_split k h Hk).
    replace (n * (2 ^ N.of_nat (h - k) * 2 ^ N.of_nat k) + c)
      with (c + (n * 2 ^ N.of_nat (h - k)) * 2 ^ N.of_nat k) by lia.
    by rewrite N.Div0.mod_add.
Qed.

Lemma instance_idle_lowest h n st t :
  instance_at h n st t -> match st with Running _ => True | _ => lowest_node_height t = None end.
Proof.
  unfold lowest_node_height. intros [_ Hst]. destruct st; [|done|].
  - by destruct Hst as [-> ->].
  - destruct Hst as [-> _]. by rewrite orb_true_r.
Qed.
End Tree.
