(* ===== verification/BdsSchedule.v ===== *)
(** * BdsSchedule: every treehash instance is ready in time

    The instance of height [h] is restarted every [2^(h+1)] keys and must hold its node
    when the next restart comes.  Each key pays for [levels / 2] steps, which go to the
    instance with the lowest node.  For each running instance a potential counts the
    steps that can still come before it finishes: its own, those of the lower instances
    with their restarts to come, and those of the higher ones that have a lower node on
    their stack.  Every step lowers it, a restart of a lower instance is paid in advance,
    and at its own restart it is what the keys to come will pay. *)

From S2P Require Import Prelude Felt Externals Types Hashing Merkle Wots Bds BdsTree.

Local Open Scope N_scope.

(** Linear arithmetic over quotients and remainders taken as unknowns. *)
Ltac abs_div :=
  repeat match goal with
  | |- context [?x mod ?y] => let m := fresh "m" in set (m := x mod y) in *; clearbody m
  | H : context [?x mod ?y] |- _ => let m := fresh "m" in set (m := x mod y) in *; clearbody m
  | |- context [?x / ?y] => let m := fresh "m" in set (m := x / y) in *; clearbody m
  | H : context [?x / ?y] |- _ => let m := fresh "m" in set (m := x / y) in *; clearbody m
  end.
Ltac lia_div := abs_div; lia.

(** ** Sums over levels *)

Fixpoint sum (n : nat) (f : nat -> N) : N :=
  match n with O => 0 | S n => sum n f + f n end.

Lemma sum_le n f g : (forall j, (j < n)%nat -> f j <= g j) -> sum n f <= sum n g.
Proof.
  induction n as [|n IH]; intros Hle; cbn; [done|].
  apply N.add_le_mono; [apply IH; intros j Hj|]; apply Hle; lia.
Qed.

Lemma sum_bound n f b : (forall j, (j < n)%nat -> f j <= b) -> sum n f <= N.of_nat n * b.
Proof.
  induction n as [|n IH]; intros Hle; [done|]. cbn [sum].
  assert (sum n f <= N.of_nat n * b) by (apply IH; intros j Hj; apply Hle; lia).
  pose proof (Hle n ltac:(lia)). lia.
Qed.

Lemma sum_term n f i : (i < n)%nat -> f i <= sum n f.
Proof.
  induction n as [|n IH]; intros Hi; [lia|]. cbn [sum].
  destruct (decide (i = n)) as [->|]; [lia|]. specialize (IH ltac:(lia)). lia.
Qed.

Lemma sum_lower n f g i :
  (i < n)%nat -> (forall j, (j < n)%nat -> j <> i -> f j = g j) -> f i + 1 <= g i ->
  sum n f + 1 <= sum n g.
Proof.
  induction n as [|n IH]; intros Hi Heq Hlt; [lia|]. cbn [sum].
  destruct (decide (i = n)) as [->|].
  - assert (sum n f <= sum n g); [|lia]. apply sum_le. intros j Hj. rewrite Heq by lia. done.
  - rewrite (Heq n) by lia. assert (sum n f + 1 <= sum n g); [|lia].
    apply IH; [lia| |done]. intros j Hj Hne. apply Heq; lia.
Qed.

(** ** The instance that is picked *)

Definition before (h : nat) (s : N) (h' : nat) (s' : N) : Prop :=
  (h < h')%nat \/ h = h' /\ s <= s'.

Lemma before_trans h s h' s' h'' s'' : before h s h' s' -> before h' s' h'' s'' -> before h s h'' s''.
Proof. unfold before. lia. Qed.

(** What the scan knows after the instances of [pre]. *)
Definition scanned (pre : list (nat * TreeHashState)) (best : option nat * nat * N) : Prop :=
  let '(bi, bh, bs) := best in
  match bi with
  | None => bh = 255%nat
  | Some i => exists t, (i, t) ∈ pre /\ lowest_node_height t = Some bh /\ bs = th_start_idx t
  end /\
  forall i t h, (i, t) ∈ pre -> lowest_node_height t = Some h -> before bh bs h (th_start_idx t).

Lemma scanned_better pre best i t :
  scanned pre best -> scanned (pre ++ [(i, t)]) (better best i t).
Proof.
  destruct best as [[bi bh] bs]. intros [Hb Hall]. unfold better.
  assert (forall x, x ∈ pre -> x ∈ pre ++ [(i, t)]) as Hin by (intros; apply elem_of_app; by left).
  destruct (lowest_node_height t) as [h|] eqn:Eh.
  - destruct (_ || _) eqn:E.
    + assert (before h (th_start_idx t) bh bs) as Hlt.
      { apply orb_true_iff in E as [E|E]; [left; by apply Nat.ltb_lt|].
        apply andb_true_iff in E as [E1 E2]. apply Nat.eqb_eq in E1. apply N.ltb_lt in E2.
        right. lia. }
      split.
      * exists t. split; [apply elem_of_app; right; by apply list_elem_of_singleton|done].
      * intros i' t' h' [Hp|Hp%list_elem_of_singleton]%elem_of_app Hl.
        -- eapply before_trans; [exact Hlt|by eapply Hall].
        -- injection Hp as -> ->. rewrite Eh in Hl. injection Hl as <-. by right.
    + split; [destruct bi as [i'|]; [destruct Hb as (t' & ? & ?); exists t'; auto|done]|].
      intros i' t' h' [Hp|Hp%list_elem_of_singleton]%elem_of_app Hl; [by eapply Hall|].
      injection Hp as -> ->. rewrite Eh in Hl. injection Hl as <-.
      apply orb_false_iff in E as [E1 E2]. apply Nat.ltb_ge in E1.
      apply andb_false_iff in E2 as [E2|E2]; [apply Nat.eqb_neq in E2; left; lia|].
      apply N.ltb_ge in E2. unfold before. lia.
  - split; [destruct bi as [i'|]; [destruct Hb as (t' & ? & ?); exists t'; auto|done]|].
    intros i' t' h' [Hp|Hp%list_elem_of_singleton]%elem_of_app Hl; [by eapply Hall|].
    injection Hp as -> ->. by rewrite Eh in Hl.
Qed.

Lemma scanned_foldl l pre best :
  scanned pre best ->
  scanned (pre ++ l) (foldl (fun best '(i, t) => better best i t) best l).
Proof.
  revert pre best. induction l as [|[i t] l IH]; intros pre best Hs; [by rewrite app_nil_r|].
  replace (pre ++ (i, t) :: l) with ((pre ++ [(i, t)]) ++ l) by by rewrite <-app_assoc.
  apply (IH _ (better best i t)). by apply scanned_better.
Qed.

Lemma elem_of_imap_pair {A} (l : list A) i x : (i, x) ∈ imap pair l <-> l !! i = Some x.
Proof.
  rewrite list_elem_of_lookup. setoid_rewrite list_lookup_imap_Some. split.
  - intros (j & y & Hy & [= -> ->]). done.
  - intros Hx. by exists i, x.
Qed.

(** The instance picked has the lowest node of all, and of the lowest starts first. *)
Lemma best_instance_spec (l : list TreeHashState) :
  (forall j t h, l !! j = Some t -> lowest_node_height t = Some h -> (h < 255)%nat) ->
  match best_instance l with
  | Some i => exists t h, l !! i = Some t /\ lowest_node_height t = Some h /\
      forall j t' h', l !! j = Some t' -> lowest_node_height t' = Some h' ->
        before h (th_start_idx t) h' (th_start_idx t')
  | None => forall j t, l !! j = Some t -> lowest_node_height t = None
  end.
Proof.
  intros Hsmall. unfold best_instance.
  assert (scanned [] (None, 255%nat, U32_LIMIT - 1)) as H0
    by (split; [done|]; intros i t h Hin; by apply not_elem_of_nil in Hin).
  pose proof (scanned_foldl (imap pair l) [] _ H0) as Hs. cbn [app] in Hs.
  destruct (foldl _ _ _) as [[[i|] bh] bs]; destruct Hs as [Hb Hall].
  - destruct Hb as (t & Hin & Hl & ->). apply elem_of_imap_pair in Hin.
    exists t, bh. split; [done|]. split; [done|]. intros j t' h' Hj Hl'.
    by eapply Hall; [apply elem_of_imap_pair|].
  - intros j t Hj. destruct (lowest_node_height t) as [h|] eqn:Eh; [|done].
    assert (before bh bs h (th_start_idx t)) as Hbe by (eapply Hall; [by apply elem_of_imap_pair|done]).
    pose proof (Hsmall j t h Hj Eh). unfold before in Hbe. lia.
Qed.

(** ** The potential *)

(** The next right sibling of height [j] that the key [n] will need. *)
Definition target (n : N) (j : nat) : N := 2 * (n / 2 ^ N.of_nat (S j)) + 3.

(** Steps until the instance is done, and until its lowest node has height [h]. *)
Definition pending (j : nat) (st : status) : N :=
  match st with Running c => 2 ^ N.of_nat j - c | _ => 0 end.

Definition partial (h : nat) (st : status) : N :=
  match st with Running c => (2 ^ N.of_nat h - c mod 2 ^ N.of_nat h) mod 2 ^ N.of_nat h | _ => 0 end.

(** What the instance [j] can ask for before the instance [h] is restarted. *)
Definition owed (h : nat) (n : N) (j : nat) (st : status) : N :=
  if (j <? h)%nat then
    pending j st + (2 ^ N.of_nat h - 2 ^ N.of_nat j -
                    2 ^ N.of_nat j * ((n mod 2 ^ N.of_nat (S h)) / 2 ^ N.of_nat (S j)))
  else if (j =? h)%nat then pending j st
  else partial h st.

Lemma target_start_lt n h i :
  (h < i)%nat -> target n h * 2 ^ N.of_nat h < target n i * 2 ^ N.of_nat i.
Proof.
  intros Hlt. unfold target. pose proof (pow2_pos h) as Hp. pose proof (pow2_lt h i Hlt).
  pose proof (pow2_pos (i - h)) as HD.
  pose proof (pow2_split h i ltac:(lia)) as Ei. rewrite !pow2_S.
  set (P := 2 ^ N.of_nat h) in *. set (D := 2 ^ N.of_nat (i - h)) in *. rewrite Ei in *.
  assert (0 < D * P) as HDP by (apply N.mul_pos_pos; lia).
  assert (n / (2 * P) < (n / (2 * (D * P)) + 1) * D) as Ha.
  { apply N.Div0.div_lt_upper_bound.
    pose proof (N.mul_succ_div_gt n (2 * (D * P)) ltac:(lia)) as Hgt. rewrite <-N.add_1_r in Hgt.
    eapply N.lt_le_trans; [exact Hgt|]. apply N.eq_le_incl. ring. }
  nia.
Qed.

Lemma pending_step j c :
  c < 2 ^ N.of_nat j -> pending j (next_status j (Running c)) + 1 <= pending j (Running c).
Proof. intros Hc. cbn. destruct (N.eqb_spec (c + 1) (2 ^ N.of_nat j)); cbn; lia. Qed.

Lemma partial_step h j c :
  c mod 2 ^ N.of_nat h <> 0 -> partial h (next_status j (Running c)) + 1 <= partial h (Running c).
Proof.
  intros Hc. pose proof (pow2_pos h) as Hp. cbn [next_status partial].
  destruct (c + 1 =? 2 ^ N.of_nat j); cbn [partial]; set (P := 2 ^ N.of_nat h) in *; clearbody P;
    pose proof (N.mod_lt c P ltac:(lia)); rewrite (N.mod_small (P - c mod P)) by lia_div; [lia_div|].
  rewrite (N.Div0.add_mod c 1), (N.mod_small 1) by lia_div.
  destruct (decide (c mod P + 1 = P)) as [->|Hne].
  - rewrite N.Div0.mod_same, N.sub_0_r, N.Div0.mod_same. lia_div.
  - rewrite (N.mod_small (c mod P + 1)) by lia_div. rewrite N.mod_small by lia_div. lia_div.
Qed.

Lemma owed_step h n j c :
  c < 2 ^ N.of_nat j -> (j <= h)%nat \/ c mod 2 ^ N.of_nat h <> 0 ->
  owed h n j (next_status j (Running c)) + 1 <= owed h n j (Running c).
Proof.
  intros Hc Hor. unfold owed. pose proof (pending_step j c Hc).
  destruct (Nat.ltb_spec j h); [lia|]. destruct (Nat.eqb_spec j h); [done|].
  apply partial_step. by destruct Hor; [lia|].
Qed.

(** No instance owes more than a node of height [h]. *)
Lemma owed_bound h n j st : owed h n j st <= 2 ^ N.of_nat h.
Proof.
  unfold owed. pose proof (pow2_pos h).
  destruct (Nat.ltb_spec j h) as [Hlt|Hge].
  - pose proof (pow2_lt j h Hlt). destruct st; cbn; lia_div.
  - destruct (Nat.eqb_spec j h) as [->|Hne].
    + destruct st; cbn; lia_div.
    + destruct st; cbn; [lia| |lia]. apply N.lt_le_incl, N.mod_lt. lia.
Qed.

Lemma mod_mod_mul a b c : (a mod (b * c)) mod b = a mod b.
Proof. rewrite N.Div0.mod_mul_r, (N.mul_comm b), N.Div0.mod_add. apply N.Div0.mod_mod. Qed.

(** A restart of a lower instance is paid in advance. *)
Lemma owed_restart h n j st :
  (j < h)%nat -> (n + 1) mod 2 ^ N.of_nat (S j) = 0 -> (n + 1) mod 2 ^ N.of_nat (S h) <> 0 ->
  owed h (n + 1) j st <= owed h n j Done.
Proof.
  intros Hj Hd Hh. unfold owed. rewrite (proj2 (Nat.ltb_lt _ _)) by done.
  rewrite !pow2_S in *. pose proof (pow2_pos j) as Hp. pose proof (pow2_split j h ltac:(lia)) as Es.
  pose proof (pow2_pos (h - j)) as HD.
  assert (pending j st <= 2 ^ N.of_nat j) as Hpend by (destruct st; cbn; lia).
  set (P := 2 ^ N.of_nat j) in *. set (D := 2 ^ N.of_nat (h - j)) in *. rewrite Es in *.
  assert (0 < D * P) as HDP by (apply N.mul_pos_pos; lia).
  clearbody P D.
  assert (exists q r, n + 1 = 2 * (D * P) * q + 2 * P * r /\ 0 < r /\ r < D) as (q & r & En & Hr & HrD).
  { exists ((n + 1) / (2 * (D * P))), ((n + 1) mod (2 * (D * P)) / (2 * P)).
    assert (2 * (D * P) <> 0) as Hz1 by lia. assert (2 * P <> 0) as Hz2 by lia.
    pose proof (N.div_mod (n + 1) (2 * (D * P)) Hz1) as E1.
    pose proof (N.div_mod ((n + 1) mod (2 * (D * P))) (2 * P) Hz2) as E2.
    assert ((n + 1) mod (2 * (D * P)) mod (2 * P) = 0) as E3.
    { replace (2 * (D * P)) with (2 * P * D) by lia. by rewrite mod_mod_mul. }
    pose proof (N.mod_lt (n + 1) (2 * (D * P)) Hz1) as Hlt. rewrite E3, N.add_0_r in E2. clear E3 Hd.
    revert E1 E2 Hlt Hh. generalize ((n + 1) mod (2 * (D * P)) / (2 * P)).
    generalize ((n + 1) mod (2 * (D * P))) ((n + 1) / (2 * (D * P))). intros m q r E1 -> Hlt Hm.
    split; [done|]. split; [destruct r; lia|]. apply N.mul_lt_mono_pos_l with (p := 2 * P); lia. }
  rewrite En. rewrite (N.mul_comm (2 * P) r). clear Hd Hh.
  assert (n = 2 * (D * P) * q + (r * (2 * P) - 1)) as ->  by nia.
  assert (forall x, x < 2 * (D * P) -> (2 * (D * P) * q + x) mod (2 * (D * P)) = x) as Hmod
    by (intros x Hx; symmetry; by apply (N.mod_unique _ _ q)).
  assert (r * P + P <= D * P) as HrP by nia.
  rewrite !Hmod by lia. rewrite N.div_mul by lia.
  assert ((r * (2 * P) - 1) / (2 * P) = r - 1) as -> by (symmetry; apply (N.div_unique _ _ _ (2 * P - 1)); nia).
  assert (P * (r - 1) + P = P * r) by nia. change (pending j Done) with 0. lia.
Qed.

Lemma owed_same h n j st :
  (n + 1) mod 2 ^ N.of_nat (S h) <> 0 -> (j < h)%nat -> (n + 1) mod 2 ^ N.of_nat (S j) <> 0 ->
  owed h (n + 1) j st = owed h n j st.
Proof.
  intros Hh Hj Hd. unfold owed. rewrite (proj2 (Nat.ltb_lt _ _)) by done. do 3 f_equal.
  rewrite !pow2_S in *. pose proof (pow2_pos j) as Hp. pose proof (pow2_split j h ltac:(lia)) as Es.
  pose proof (pow2_pos (h - j)) as HD.
  set (P := 2 ^ N.of_nat j) in *. set (D := 2 ^ N.of_nat (h - j)) in *. rewrite Es in *.
  assert (0 < D * P) as HDP by (apply N.mul_pos_pos; lia).
  assert (forall m x, m <> 0 -> (x + 1) mod m <> 0 -> (x + 1) mod m = x mod m + 1) as Hsucc.
  { intros m x Hm Hx. pose proof (N.mod_lt x m Hm).
    pose proof (N.mod_lt (x + 1) m Hm) as Hl.
    destruct (decide (x mod m + 1 = m)) as [E|E].
    - exfalso. apply Hx. symmetry. apply (N.mod_unique _ _ (x / m + 1)); [lia|].
      pose proof (N.div_mod x m Hm). nia.
    - symmetry. apply (N.mod_unique _ _ (x / m)); [lia|]. pose proof (N.div_mod x m Hm). lia. }
  rewrite (Hsucc (2 * (D * P)) n) by lia.
  assert (forall x, x mod (2 * (D * P)) mod (2 * P) = x mod (2 * P)) as Hmm.
  { intros x. replace (2 * (D * P)) with (2 * P * D) by lia. apply mod_mod_mul. }
  set (x := n mod (2 * (D * P))).
  assert ((x + 1) mod (2 * P) <> 0) as Hx.
  { unfold x. rewrite N.Div0.add_mod, Hmm, <-N.Div0.add_mod. done. }
  pose proof (Hsucc (2 * P) x ltac:(lia) Hx) as E.
  pose proof (N.div_mod x (2 * P) ltac:(lia)). pose proof (N.div_mod (x + 1) (2 * P) ltac:(lia)). nia.
Qed.

(** ** Schedules *)

Section Schedule.
Context `{Blake2s}.
Variables ask_j pub_seed : F.
Variables levels budget : nat.
Hypothesis Hlevels : levels = (2 * budget)%nat.
Hypothesis Hsmall : (levels < 32)%nat.

Definition debt (h : nat) (n : N) (sts : nat -> status) : N :=
  sum levels (fun j => owed h n j (sts j)).

(** After [k] of the steps that the key [n] pays for, what each running instance may
    still ask for is no more than what the keys up to its restart pay. *)
Definition on_time (n k : N) (sts : nat -> status) : Prop :=
  forall h c, (h < levels)%nat -> sts h = Running c ->
    debt h n sts + k <= N.of_nat budget * (2 ^ N.of_nat (S h) - n mod 2 ^ N.of_nat (S h)).

Definition instances (n : N) (sts : nat -> status) (l : list TreeHashState) : Prop :=
  length l = levels /\
  forall j t, l !! j = Some t -> instance_at ask_j pub_seed j (target n j) (sts j) t.

(** Nodes that exist have leaves below 2^31. *)
Definition in_range (n : N) (sts : nat -> status) : Prop :=
  forall j c, (j < levels)%nat -> sts j = Running c -> (target n j + 1) * 2 ^ N.of_nat j <= 2 ^ 31.

Definition upd (sts : nat -> status) (i : nat) (st : status) : nat -> status :=
  fun j => if (j =? i)%nat then st else sts j.

Lemma upd_eq sts i st : upd sts i st i = st.
Proof. unfold upd. by rewrite Nat.eqb_refl. Qed.
Lemma upd_ne sts i st j : j <> i -> upd sts i st j = sts j.
Proof. intros Hne. unfold upd. by rewrite (proj2 (Nat.eqb_neq _ _)). Qed.

Lemma instances_lowest n sts l j t low :
  instances n sts l -> l !! j = Some t -> lowest_node_height t = Some low ->
  (j < levels)%nat /\ (exists c, sts j = Running c) /\ (low < 255)%nat.
Proof.
  intros [Hl Hin] Hj Hlow. pose proof (lookup_lt_Some _ _ _ Hj) as Hlt. rewrite Hl in Hlt.
  pose proof (Hin j t Hj) as Hat. pose proof (instance_idle_lowest _ _ _ _ _ _ Hat) as Hidle.
  destruct (sts j) as [|c|] eqn:Est; [congruence| |congruence].
  split; [done|]. split; [by eexists|].
  destruct (instance_lowest _ _ _ _ _ _ Hat) as (low' & Hlow' & Hle & _). rewrite Hlow in Hlow'.
  injection Hlow' as ->. lia.
Qed.

(** Whatever instance is picked, each running one comes closer. *)
Lemma debt_pick n sts l i t h c :
  instances n sts l -> l !! i = Some t -> (h < levels)%nat -> sts h = Running c ->
  (forall j t' low', l !! j = Some t' -> lowest_node_height t' = Some low' ->
     exists low, lowest_node_height t = Some low /\ before low (th_start_idx t) low' (th_start_idx t')) ->
  forall ci, sts i = Running ci ->
  debt h n (upd sts i (next_status i (Running ci))) + 1 <= debt h n sts.
Proof.
  intros [Hl Hin] Hi Hh Hrun Hbest ci Hci.
  pose proof (lookup_lt_Some _ _ _ Hi) as Hilt. rewrite Hl in Hilt.
  pose proof (Hin i t Hi) as Hat. rewrite Hci in Hat.
  apply (sum_lower levels _ _ i Hilt).
  { intros j _ Hne. by rewrite upd_ne. }
  rewrite upd_eq, Hci. apply owed_step; [by destruct Hat as (_ & _ & _ & ? & _)|].
  destruct (decide (i <= h)%nat) as [|Hgt]; [by left|]. right.
  destruct (lookup_lt_is_Some_2 l h ltac:(lia)) as [th Hth].
  pose proof (Hin h th Hth) as Hath. rewrite Hrun in Hath.
  destruct (instance_lowest _ _ _ _ _ _ Hath) as (lowh & Hlowh & Hleh & _).
  destruct (instance_lowest _ _ _ _ _ _ Hat) as (low & Hlow & _ & Hdig).
  apply Hdig; [lia|]. destruct (Hbest h th lowh Hth Hlowh) as (low' & Hlow' & Hbe).
  rewrite Hlow in Hlow'. injection Hlow' as <-. destruct Hbe as [|[-> Hs]]; [lia|].
  destruct Hat as (_ & _ & _ & _ & Hst & _), Hath as (_ & _ & _ & _ & Hsth & _).
  pose proof (target_start_lt n h i ltac:(lia)). rewrite Hst, Hsth in Hs. lia.
Qed.

Definition idle (sts : nat -> status) : Prop := forall j c, (j < levels)%nat -> sts j <> Running c.

Lemma on_time_idle n k sts : idle sts -> on_time n k sts.
Proof. intros Hid h c Hh Hr. by destruct (Hid h c Hh). Qed.

(** One step of the budget. *)
Lemma pick_step n k sts l :
  instances n sts l -> on_time n k sts -> in_range n sts ->
  match best_instance l with
  | None => idle sts
  | Some i => exists t sts', l !! i = Some t /\
      instances n sts' (<[i := treehash_step ask_j pub_seed t]> l) /\
      on_time n (k + 1) sts' /\ in_range n sts' /\
      (forall j, sts' j = Idle <-> sts j = Idle)
  end.
Proof.
  intros Hin Hot Hrange.
  pose proof (best_instance_spec l) as Hbest.
  specialize (Hbest (fun j t h Hj Hl => proj2 (proj2 (instances_lowest n sts l j t h Hin Hj Hl)))).
  destruct (best_instance l) as [i|].
  - destruct Hbest as (t & low & Hi & Hlow & Hmin).
    destruct (instances_lowest n sts l i t low Hin Hi Hlow) as (Hilt & (c & Hc) & _).
    exists t, (upd sts i (next_status i (Running c))). split; [done|].
    assert (forall h c', (h < levels)%nat -> sts h = Running c' ->
      debt h n (upd sts i (next_status i (Running c))) + 1 <= debt h n sts) as Hdebt.
    { intros h c' Hh Hr. apply (debt_pick n sts l i t h c'); try done.
      intros j t' low' Hj Hl'. exists low. split; [done|]. by apply (Hmin j). }
    assert (forall h c', upd sts i (next_status i (Running c)) h = Running c' ->
      exists c'', sts h = Running c'') as Hrun.
    { intros h c' E. destruct (decide (h = i)) as [->|Hne]; [by eexists|].
      rewrite upd_ne in E by done. by eexists. }
    destruct Hin as [Hl Hin]. split; [split|split; [|split]].
    + by rewrite length_insert.
    + intros j t' Hj. destruct (decide (j = i)) as [->|Hne].
      * rewrite list_lookup_insert_eq in Hj by (rewrite Hl; done). injection Hj as <-.
        rewrite upd_eq. apply instance_step; [lia|by apply (Hrange i c)|].
        pose proof (Hin i t Hi) as Hat. by rewrite Hc in Hat.
      * rewrite list_lookup_insert_ne in Hj by done. rewrite upd_ne by done. by apply Hin.
    + intros h c' Hh E. destruct (Hrun h c' E) as (c'' & Hr).
      pose proof (Hdebt h c'' Hh Hr). pose proof (Hot h c'' Hh Hr). lia_div.
    + intros h c' Hh E. destruct (Hrun h c' E) as (c'' & Hr). by apply (Hrange h c'').
    + intros j. destruct (decide (j = i)) as [->|Hne]; [|by rewrite upd_ne].
      rewrite upd_eq, Hc. cbn. by destruct (_ =? _).
  - destruct Hin as [Hl Hin]. intros j c Hj Hr.
    destruct (lookup_lt_is_Some_2 l j ltac:(lia)) as [t Ht]. pose proof (Hin j t Ht) as Hat.
    rewrite Hr in Hat. destruct (instance_lowest _ _ _ _ _ _ Hat) as (low & Hlow & _).
    rewrite (Hbest j t Ht) in Hlow. done.
Qed.

(** Just before a restart of height [h] its instance is done. *)
Lemma ready_in_time n sts h :
  on_time n (N.of_nat budget) sts -> (h < levels)%nat ->
  (n + 1) mod 2 ^ N.of_nat (S h) = 0 ->
  (forall c, sts h = Running c -> c < 2 ^ N.of_nat h) -> forall c, sts h <> Running c.
Proof.
  intros Hot Hh Hm Hc c Hr. pose proof (Hot h c Hh Hr) as Hd. pose proof (Hc c Hr).
  assert (owed h n h (sts h) <= debt h n sts) as Ho
    by (apply (sum_term levels (fun j => owed h n j (sts j))); done).
  unfold owed in Ho. rewrite Nat.ltb_irrefl, Nat.eqb_refl, Hr in Ho. cbn [pending] in Ho.
  assert (n mod 2 ^ N.of_nat (S h) = 2 ^ N.of_nat (S h) - 1) as E.
  { pose proof (pow2_pos (S h)) as Hp. set (P := 2 ^ N.of_nat (S h)) in *. clearbody P.
    pose proof (N.div_mod (n + 1) P ltac:(lia)) as E1. rewrite Hm in E1.
    assert ((n + 1) / P <> 0) as Hq by (intros E0; rewrite E0 in E1; lia).
    symmetry. apply (N.mod_unique _ _ ((n + 1) / P - 1)); [lia|].
    revert E1 Hq. generalize ((n + 1) / P). intros q E1 Hq. nia. }
  rewrite E in Hd. pose proof (pow2_pos (S h)).
  replace (2 ^ N.of_nat (S h) - (2 ^ N.of_nat (S h) - 1)) with 1 in Hd by lia. lia.
Qed.

(** The restarts of the key [n + 1], at the heights below [tau], keep the schedule. *)
Lemma restart_on_time n sts sts' tau :
  on_time n (N.of_nat budget) sts ->
  (forall j, (j < tau)%nat -> (n + 1) mod 2 ^ N.of_nat (S j) = 0) ->
  (forall j, (tau <= j)%nat -> (n + 1) mod 2 ^ N.of_nat (S j) <> 0) ->
  (forall j, (j < levels)%nat -> (j < tau)%nat -> sts j = Done \/ sts' j = Idle) ->
  (forall j, (tau <= j)%nat -> sts' j = sts j) ->
  on_time (n + 1) 0 sts'.
Proof.
  intros Hot Hlow Hhigh Hdone Hsame h c Hh Hr. rewrite N.add_0_r.
  destruct (decide (h < tau)%nat) as [Hlt|Hge].
  - rewrite (Hlow h Hlt), N.sub_0_r.
    transitivity (N.of_nat levels * 2 ^ N.of_nat h).
    + apply sum_bound. intros j _. apply owed_bound.
    + rewrite Hlevels, pow2_S. lia.
  - pose proof (Hhigh h ltac:(lia)) as Hm. rewrite Hsame in Hr by lia.
    pose proof (Hot h c Hh Hr) as Hd.
    assert ((n + 1) mod 2 ^ N.of_nat (S h) = n mod 2 ^ N.of_nat (S h) + 1) as E.
    { pose proof (pow2_pos (S h)) as Hp. set (P := 2 ^ N.of_nat (S h)) in *. clearbody P.
      pose proof (N.mod_lt n P ltac:(lia)). pose proof (N.div_mod n P ltac:(lia)) as E1.
      destruct (decide (n mod P + 1 = P)) as [E2|E2].
      - exfalso. apply Hm. symmetry. apply (N.mod_unique _ _ (n / P + 1)); [lia|].
        revert E1 E2. generalize (n mod P) (n / P). intros; nia.
      - symmetry. apply (N.mod_unique _ _ (n / P)); [lia_div|]. revert E1. generalize (n mod P) (n / P).
        intros; lia. }
    rewrite E. assert (debt h (n + 1) sts' <= debt h n sts) as Hle.
    { apply sum_le. intros j Hj. destruct (decide (j < tau)%nat) as [Hjt|Hjt].
      - destruct (Hdone j Hj Hjt) as [Hdn|Hid].
        + rewrite Hdn. apply owed_restart; [lia|by apply Hlow|done].
        + rewrite Hid. etransitivity; [apply (owed_restart h n j Idle); [lia|by apply Hlow|done]|].
          unfold owed. destruct (j <? h)%nat; [cbn; destruct (sts j); cbn; lia_div|].
          destruct (j =? h)%nat; [destruct (sts j); cbn; lia|destruct (sts j); cbn; lia_div].
      - rewrite Hsame by lia. destruct (decide (j < h)%nat) as [Hjh|Hjh].
        + rewrite owed_same; [done..|]. apply Hhigh. lia.
        + unfold owed. by rewrite (proj2 (Nat.ltb_ge _ _)) by lia. }
    pose proof (N.mod_lt n (2 ^ N.of_nat (S h)) ltac:(pose proof (pow2_pos (S h)); lia)).
    nia.
Qed.
End Schedule.
