(* ===== verification/BdsAdvance.v ===== *)
(** * BdsAdvance: the wallet's traversal serves every path of the key tree

    A state before key [n] holds the siblings of leaf [n], the nodes kept for the parents
    above, treehash instances on time for the right siblings to come, and the retained
    nodes of the upper levels.  Advancing never fails before the last key and leads to
    the state before the next one. *)

From S2P Require Import Prelude Felt Externals Types Hashing Merkle Wots.
From S2P Require Import Bds BdsTree BdsSchedule.

Local Open Scope N_scope.

#[local] Opaque auth_leaf_hash_with_pub_seed xmss_tree_node_hash.

(** ** Lists and loops *)

Lemma map_seq_lookup {A} (g : nat -> A) n i : (i < n)%nat -> (g <$> seq 0 n) !! i = Some (g i).
Proof. intros Hi. by rewrite list_lookup_fmap, lookup_seq_lt. Qed.

Lemma map_seq_insert {A} (g g' : nat -> A) n i x :
  (i < n)%nat -> g' i = x -> (forall j, (j < n)%nat -> j <> i -> g' j = g j) ->
  <[i := x]> (g <$> seq 0 n) = g' <$> seq 0 n.
Proof.
  intros Hi Hx Hne. apply list_eq. intros j. destruct (decide (j < n)%nat) as [Hj|Hj].
  - rewrite map_seq_lookup by done. destruct (decide (j = i)) as [->|Hji].
    + rewrite list_lookup_insert_eq; [by rewrite Hx|by rewrite length_fmap, length_seq].
    + rewrite list_lookup_insert_ne by done. rewrite map_seq_lookup by done. by rewrite Hne.
  - rewrite !lookup_ge_None_2; [done|..]; rewrite ?length_insert, length_fmap, length_seq; lia.
Qed.

Lemma map_seq_ext {A} (g g' : nat -> A) n :
  (forall j, (j < n)%nat -> g j = g' j) -> g <$> seq 0 n = g' <$> seq 0 n.
Proof.
  intros Hg. apply list_fmap_ext. intros i x Hx. apply lookup_seq in Hx as [-> Hi]. by apply Hg.
Qed.

Lemma for_each_seq {S} (P : nat -> S -> Prop) (f : nat -> ST S unit) n a s :
  P a s ->
  (forall i s, (a <= i < a + n)%nat -> P i s -> exists s', f i s = (s', Ok tt) /\ P (Datatypes.S i) s') ->
  exists s', for_each f (seq a n) s = (s', Ok tt) /\ P (a + n)%nat s'.
Proof.
  revert a s. induction n as [|n IH]; intros a s Ha Hstep; cbn [seq for_each].
  - exists s. rewrite Nat.add_0_r. done.
  - destruct (Hstep a s ltac:(lia) Ha) as (s1 & E & H1). rewrite (ST_run _ _ _ _ _ E).
    destruct (IH (Datatypes.S a) s1 H1) as (s2 & E2 & H2).
    + intros i s' Hi. apply Hstep. lia.
    + exists s2. split; [done|]. by rewrite Nat.add_succ_r.
Qed.

Section Setters.
Context {A : Type} (get : XmssBdsState -> list A) (put : list A -> XmssBdsState -> XmssBdsState).

Lemma set_at_ok i x s : (i < length (get s))%nat -> set_at get put i x s = (put (<[i := x]> (get s)) s, Ok tt).
Proof. intros Hi. unfold set_at. by rewrite (proj2 (Nat.ltb_lt _ _)). Qed.

Lemma reads_at i x s : get s !! i = Some x -> reads (fun s => index_at (get s) i) s = (s, Ok x).
Proof. intros Hx. unfold reads, index_at. by rewrite Hx. Qed.
End Setters.

(** ** Counting keys *)

Lemma count_ones_spec fuel v :
  v + 1 < 2 ^ N.of_nat fuel -> exists a, v + 1 = (2 * a + 1) * 2 ^ N.of_nat (count_ones fuel v).
Proof.
  revert v. induction fuel as [|fuel IH]; intros v Hv.
  - change (2 ^ N.of_nat 0) with 1 in Hv. lia.
  - cbn [count_ones]. rewrite pow2_S in Hv. destruct (N.odd v) eqn:E.
    + destruct (odd_half v E) as (m & -> & Em). rewrite N.div2_div, Em.
      destruct (IH m) as (a & Ea); [lia|]. exists a. rewrite pow2_S. lia.
    + destruct (even_half v E) as (m & -> & _). exists m. change (2 ^ N.of_nat 0) with 1. lia.
Qed.

Lemma succ_div_same n m : m <> 0 -> (n + 1) mod m <> 0 -> (n + 1) / m = n / m.
Proof.
  intros Hm Hne. pose proof (N.div_mod n m Hm) as E1. pose proof (N.mod_lt n m Hm) as Hlt.
  destruct (decide (n mod m + 1 = m)) as [E|E].
  - exfalso. apply Hne. symmetry. apply (N.mod_unique _ _ (n / m + 1)); [lia|].
    revert E1 E. generalize (n mod m) (n / m). intros; nia.
  - symmetry. apply (N.div_unique _ _ _ (n mod m + 1)); [lia_div|].
    revert E1. generalize (n mod m) (n / m). intros; lia.
Qed.

Lemma succ_div_next n m : m <> 0 -> (n + 1) mod m = 0 -> (n + 1) / m = n / m + 1.
Proof.
  intros Hm He. pose proof (N.div_mod (n + 1) m Hm) as E1. rewrite He, N.add_0_r in E1.
  revert E1. generalize ((n + 1) / m). intros q E1. assert (q <> 0) by (intros ->; lia).
  assert (n / m = q - 1) as ->; [|lia]. symmetry. apply (N.div_unique _ _ _ (m - 1)); [lia|nia].
Qed.

(** How the digits move from a key to the next. *)
Record carry (n : N) (tau : nat) : Prop := {
  ca_low : forall h, (h < tau)%nat -> (n + 1) mod 2 ^ N.of_nat (S h) = 0;
  ca_high : forall h, (tau <= h)%nat -> (n + 1) mod 2 ^ N.of_nat (S h) <> 0;
  ca_at : exists a, n / 2 ^ N.of_nat tau = 2 * a /\ (n + 1) / 2 ^ N.of_nat tau = 2 * a + 1 /\
                    n + 1 = (2 * a + 1) * 2 ^ N.of_nat tau
}.

Lemma carry_of a tau n : n + 1 = (2 * a + 1) * 2 ^ N.of_nat tau -> carry n tau.
Proof.
  intros E. pose proof (pow2_pos tau) as Hp. constructor.
  - intros h Hh. rewrite E, (pow2_split (S h) tau) by lia. rewrite N.mul_assoc.
    apply N.Div0.mod_mul.
  - intros h Hh. rewrite E. intros Hm. rewrite pow2_S, (pow2_split tau h) in Hm by lia.
    set (D := 2 ^ N.of_nat (h - tau)) in *. set (P := 2 ^ N.of_nat tau) in *.
    pose proof (pow2_pos (h - tau)) as HD. fold D in HD.
    replace (2 * (D * P)) with (2 * D * P) in Hm by lia.
    rewrite N.Div0.mul_mod_distr_r in Hm by lia.
    apply N.eq_mul_0 in Hm as [Hm|Hm]; [|lia].
    rewrite (N.Div0.mod_mul_r (2 * a + 1) 2 D) in Hm.
    assert ((2 * a + 1) mod 2 = 1) as E1 by (symmetry; apply (N.mod_unique _ _ a); lia).
    rewrite E1 in Hm. lia_div.
  - exists a. split; [|split; [|done]].
    + symmetry. apply (N.div_unique _ _ _ (2 ^ N.of_nat tau - 1)); lia.
    + rewrite E. apply N.div_mul. lia.
Qed.

Lemma trailing_carry n : n + 1 < 2 ^ 32 -> carry n (trailing_ones n).
Proof.
  intros Hn. unfold trailing_ones. destruct (count_ones_spec 32 n) as (a & Ea); [done|].
  by apply (carry_of a).
Qed.

Section Carry.
Context (n : N) (tau : nat) (Hc : carry n tau).

Lemma carry_div_low h : (h < tau)%nat -> (n + 1) / 2 ^ N.of_nat (S h) = n / 2 ^ N.of_nat (S h) + 1.
Proof. intros Hh. apply succ_div_next; [pose proof (pow2_pos (S h)); lia|by apply (ca_low _ _ Hc)]. Qed.

Lemma carry_div_high h : (tau < h)%nat -> (n + 1) / 2 ^ N.of_nat h = n / 2 ^ N.of_nat h.
Proof.
  destruct h as [|h]; [lia|]. intros Hh.
  apply succ_div_same; [pose proof (pow2_pos (S h)); lia|apply (ca_high _ _ Hc); lia].
Qed.

Lemma div_pow2_S m h : m / 2 ^ N.of_nat (S h) = m / 2 ^ N.of_nat h / 2.
Proof. rewrite pow2_S, N.mul_comm, N.Div0.div_div. done. Qed.

(** Below the carry the digits go from one to zero. *)
Lemma carry_digit_low h : (h < tau)%nat ->
  (n + 1) / 2 ^ N.of_nat h = 2 * ((n + 1) / 2 ^ N.of_nat (S h)) /\
  n / 2 ^ N.of_nat h = 2 * (n / 2 ^ N.of_nat (S h)) + 1.
Proof.
  intros Hh. pose proof (carry_div_low h Hh) as E.
  assert ((n + 1) / 2 ^ N.of_nat h = 2 * ((n + 1) / 2 ^ N.of_nat (S h))) as E1.
  { pose proof (pow2_pos (S h)) as Hp. pose proof (pow2_pos h).
    pose proof (N.div_mod (n + 1) (2 ^ N.of_nat (S h)) ltac:(lia)) as E1.
    rewrite (ca_low _ _ Hc h Hh), N.add_0_r in E1.
    set (q := (n + 1) / 2 ^ N.of_nat (S h)) in *. rewrite E1, pow2_S.
    replace (2 * 2 ^ N.of_nat h * q) with (2 * q * 2 ^ N.of_nat h) by lia. apply N.div_mul. lia. }
  split; [done|]. rewrite E in E1.
  assert ((n + 1) / 2 ^ N.of_nat h = n / 2 ^ N.of_nat h + 1) as E2.
  { destruct h as [|h]; [by rewrite !N.div_1_r|]. apply carry_div_low. lia. }
  lia_div.
Qed.

Lemma target_low h : (h < tau)%nat -> target n h = (n + 1) / 2 ^ N.of_nat h + 1.
Proof.
  intros Hh. destruct (carry_digit_low h Hh) as [-> _]. unfold target.
  rewrite carry_div_low by done. lia_div.
Qed.

Lemma target_high h : (tau <= h)%nat -> target (n + 1) h = target n h.
Proof. intros Hh. unfold target. by rewrite carry_div_high by lia. Qed.

(** A restart begins three nodes after the key. *)
Lemma target_start h : (h < tau)%nat -> target (n + 1) h * 2 ^ N.of_nat h = n + 1 + 3 * 2 ^ N.of_nat h.
Proof.
  intros Hh. unfold target. pose proof (pow2_pos (S h)) as Hp.
  pose proof (N.div_mod (n + 1) (2 ^ N.of_nat (S h)) ltac:(lia)) as E.
  rewrite (ca_low _ _ Hc h Hh), N.add_0_r in E.
  revert E. generalize ((n + 1) / 2 ^ N.of_nat (S h)). intros q ->. rewrite pow2_S. lia.
Qed.
End Carry.

Section Advance.
Context `{Blake2s, WordTarget}.
Variables ask_j pub_seed : F.
Variables depth k : nat.
Hypothesis Hdepth : (0 < depth < 32)%nat.
Hypothesis Hk : (k < depth)%nat.
Hypothesis Heven : Nat.Even (depth - k).

#[local] Abbreviation levels := (depth - k)%nat.
#[local] Abbreviation budget := (levels / 2)%nat.
#[local] Abbreviation keys := (2 ^ N.of_nat depth).
#[local] Abbreviation node := (bnode ask_j pub_seed).

Lemma levels_budget : levels = (2 * budget)%nat.
Proof.
  destruct Heven as [m ->]. rewrite (Nat.mul_comm 2 m), Nat.div_mul by lia. lia.
Qed.

Lemma levels_small : (levels < 32)%nat.
Proof. lia. Qed.

Lemma keys_limit : keys <= 2 ^ 31.
Proof. apply (pow2_le depth 31). lia. Qed.

Lemma shl1_depth : shl1_usize depth = keys.
Proof.
  unfold shl1_usize. rewrite N.mod_small; [by rewrite N.shiftl_1_l|].
  pose proof word_bits. lia.
Qed.

(** ** States *)

(** The sibling of leaf [n] at height [h]. *)
Definition sibling (n : N) (h : nat) : F := node h (N.lxor (n / 2 ^ N.of_nat h) 1).

(** The nodes of height [h] that a retained level hands out, and how many it has. *)
Definition retained (h : nat) (next : N) : RetainLevel :=
  {| rl_nodes := (fun m => node h (2 * N.of_nat m + 3)) <$> seq 0 (N.to_nat (2 ^ N.of_nat (depth - S h) - 1));
     rl_next := N.to_nat next |}.

Definition keeps (n : N) (l : list FeltSlot) : Prop :=
  length l = depth /\
  forall j, (j < depth - 1)%nat -> N.odd (n / 2 ^ N.of_nat j) = true ->
    N.odd (n / 2 ^ N.of_nat (S j)) = false ->
    l !! j = Some (slot_some (node j (n / 2 ^ N.of_nat j))).

(** The levels above the treehash instances. *)
Definition upper (h : nat) : Prop := (levels <= h < depth - 1)%nat.

Definition retains (n : N) (l : list RetainLevel) : Prop :=
  length l = depth /\ forall h, upper h -> l !! h = Some (retained h (n / 2 ^ N.of_nat (S h))).

(** The instances whose node does not exist are the idle ones. *)
Definition idle_beyond (n : N) (sts : nat -> status) : Prop :=
  forall j, (j < levels)%nat -> sts j = Idle <-> keys <= target n j * 2 ^ N.of_nat j.

Definition schedule (n : N) (l : list TreeHashState) : Prop := exists sts,
  instances ask_j pub_seed levels n sts l /\ on_time levels budget n (N.of_nat budget) sts /\
  idle_beyond n sts.

Record bds_repr (n : N) (s : XmssBdsState) : Prop := {
  br_next : bd_next_index s = n;
  br_auth : bd_auth_path s = sibling n <$> seq 0 depth;
  br_keep : keeps n (bd_keep s);
  br_treehash : schedule n (bd_treehash s);
  br_retain : retains n (bd_retain s)
}.

Lemma idle_beyond_in_range n sts : idle_beyond n sts -> in_range levels n sts.
Proof.
  intros Hid j c Hj Hr. assert (target n j * 2 ^ N.of_nat j < keys) as Hlt.
  { apply N.lt_nge. intros Hge. apply Hid in Hge; [|done]. congruence. }
  pose proof keys_limit. pose proof (pow2_split j depth ltac:(lia)) as E. pose proof (pow2_pos j).
  etransitivity; [|eassumption]. rewrite E in *. apply N.mul_le_mono_r.
  apply N.mul_lt_mono_pos_r in Hlt; lia.
Qed.

(** ** Siblings *)
Section Step.
Context (n : N) (tau : nat) (Hn : n + 1 < keys) (Hc : carry n tau).

Lemma tau_depth : (tau < depth)%nat.
Proof.
  destruct (ca_at _ _ Hc) as (a & _ & _ & E). apply Nat.nle_gt. intros Hle.
  apply pow2_le in Hle. pose proof (pow2_pos tau). nia.
Qed.

Lemma sibling_high h : (tau < h)%nat -> sibling (n + 1) h = sibling n h.
Proof. intros Hh. unfold sibling. by rewrite (carry_div_high n tau). Qed.

Lemma sibling_low h : (h < tau)%nat -> sibling (n + 1) h = node h (target n h).
Proof.
  intros Hh. unfold sibling. rewrite (target_low n tau Hc) by done.
  destruct (carry_digit_low n tau Hc h Hh) as [-> _]. rewrite lxor_1.
  by rewrite (proj2 (N.even_spec _)) by by eexists.
Qed.

Lemma sibling_before h : (h < tau)%nat -> sibling n h = node h (2 * (n / 2 ^ N.of_nat (S h))).
Proof.
  intros Hh. unfold sibling. destruct (carry_digit_low n tau Hc h Hh) as [_ ->]. rewrite lxor_1.
  rewrite <-N.negb_odd, odd_double_1. cbn [negb]. f_equal. lia_div.
Qed.

Lemma sibling_at : sibling n tau = node tau ((n + 1) / 2 ^ N.of_nat tau) /\
  sibling (n + 1) tau = node tau (n / 2 ^ N.of_nat tau).
Proof.
  destruct (ca_at _ _ Hc) as (a & E1 & E2 & _). unfold sibling. rewrite E1, E2, !lxor_1.
  rewrite <-!N.negb_odd, odd_double, odd_double_1. cbn [negb]. by rewrite N.add_sub.
Qed.

(** ** The node above the kept one *)

Lemma parent_index : (0 < tau)%nat ->
  shr_u32 (sub_u32 (add_u32 n 1) (shl1_u32 tau)) tau = n / 2 ^ N.of_nat tau.
Proof.
  intros Ht. destruct (ca_at _ _ Hc) as (a & -> & _ & E). pose proof tau_depth.
  pose proof keys_limit. pose proof (pow2_pos tau).
  unfold shr_u32, sub_u32, add_u32, shl1_u32, U32_LIMIT. rewrite !N.mod_small with (b := 32) by lia.
  rewrite N.shiftl_1_l, N.shiftr_div_pow2. rewrite (N.mod_small (n + 1)) by lia.
  assert (n + 1 + 2 ^ 32 - 2 ^ N.of_nat tau = 2 * a * 2 ^ N.of_nat tau + 1 * 2 ^ 32) as -> by lia.
  rewrite N.Div0.mod_add, N.mod_small by lia. apply N.div_mul. lia.
Qed.

Lemma merge_kept_ok s :
  (0 < tau)%nat -> bd_auth_path s = sibling n <$> seq 0 depth -> keeps n (bd_keep s) ->
  merge_kept pub_seed n tau s =
    (with_auth (<[tau := sibling (n + 1) tau]> (bd_auth_path s))
       (with_keep (<[(tau - 1)%nat := {| fs_present := false;
          fs_value := node (tau - 1) (n / 2 ^ N.of_nat (tau - 1)) |}]> (bd_keep s)) s), Ok tt).
Proof.
  intros Ht Ha [Hlen Hkp]. pose proof tau_depth as Hd. pose proof (parent_index Ht) as Hpar.
  unfold merge_kept.
  assert (tau - 1 < tau)%nat as Hlt by lia.
  destruct (carry_digit_low n tau Hc (tau - 1) Hlt) as [_ Edig].
  pose proof (sibling_before (tau - 1) Hlt) as Esib.
  replace (S (tau - 1)) with tau in * by lia.
  assert (bd_auth_path s !! (tau - 1)%nat = Some (sibling n (tau - 1))) as Ea
    by (rewrite Ha; apply map_seq_lookup; lia).
  assert (bd_keep s !! (tau - 1)%nat = Some (slot_some (node (tau - 1) (n / 2 ^ N.of_nat (tau - 1))))) as Ek.
  { apply Hkp; [lia|rewrite Edig; apply odd_double_1|]. replace (S (tau - 1)) with tau by lia.
    destruct (ca_at _ _ Hc) as (a & -> & _). apply odd_double. }
  rewrite (ST_run _ _ _ _ _ (reads_at bd_auth_path _ _ _ Ea)); cbv beta.
  rewrite (ST_run _ _ _ _ _ (reads_at bd_keep _ _ _ Ek)); cbv beta.
  unfold slot_take, slot_some at 1. cbn [fs_present fs_value].
  unfold set_keep. rewrite (ST_run _ _ _ _ _ (set_at_ok bd_keep with_keep (tau - 1) _ s ltac:(lia))).
  rewrite (ST_run _ _ _ _ _ (eq_refl : lift (ok_or (Some _) _) _ = (_, Ok _))).
  unfold set_auth. rewrite set_at_ok by (cbn [bd_auth_path with_keep]; rewrite Ha, length_fmap, length_seq; lia).
  rewrite Hpar. cbn [bd_auth_path with_keep]. do 3 f_equal.
  destruct (sibling_at) as [_ ->]. rewrite Esib, Edig.
  replace (n / 2 ^ N.of_nat tau) with (n / 2 ^ N.of_nat (S (tau - 1))) by (do 3 f_equal; lia).
  replace (node tau) with (node (S (tau - 1))) by (f_equal; lia).
  cbn [bnode]. replace (S (tau - 1)) with tau by lia. done.
Qed.

(** ** Refilling *)

Definition part_sibling (a h : nat) : F :=
  if (h <? a)%nat || (tau <=? h)%nat then sibling (n + 1) h else sibling n h.

(** The state after [a] of the levels below the carry were refilled. *)
Record refilled (sts : nat -> status) (kept : list FeltSlot) (a : nat) (s : XmssBdsState) : Prop := {
  rf_next : bd_next_index s = n;
  rf_auth : bd_auth_path s = part_sibling a <$> seq 0 depth;
  rf_keep : bd_keep s = kept;
  rf_treehash : length (bd_treehash s) = levels /\
    forall j t, bd_treehash s !! j = Some t ->
      instance_at ask_j pub_seed j (target n j) (if (j <? a)%nat then Idle else sts j) t;
  rf_retain : length (bd_retain s) = depth /\
    forall h, upper h -> bd_retain s !! h =
      Some (retained h ((if (h <? a)%nat then n + 1 else n) / 2 ^ N.of_nat (S h)))
}.

Lemma part_sibling_insert a :
  (a < tau)%nat ->
  <[a := node a (target n a)]> (part_sibling a <$> seq 0 depth) = part_sibling (S a) <$> seq 0 depth.
Proof.
  intros Ha. pose proof tau_depth. apply map_seq_insert; [lia| |].
  - unfold part_sibling. rewrite (proj2 (Nat.ltb_lt a (S a))) by lia. cbn [orb]. by apply sibling_low.
  - intros j _ Hne. unfold part_sibling.
    by replace (j <? S a)%nat with (j <? a)%nat
      by (destruct (Nat.ltb_spec j a), (Nat.ltb_spec j (S a)); lia).
Qed.

Lemma target_exists h : (h < tau)%nat -> target n h * 2 ^ N.of_nat h < keys.
Proof.
  intros Hh. pose proof tau_depth as Hd. rewrite (target_low n tau Hc) by done.
  destruct (carry_digit_low n tau Hc h Hh) as [-> _].
  pose proof (pow2_pos (S h)) as Hp. pose proof (pow2_split (S h) depth ltac:(lia)) as E.
  pose proof (N.div_mod (n + 1) (2 ^ N.of_nat (S h)) ltac:(lia)) as Em.
  rewrite (ca_low _ _ Hc h Hh), N.add_0_r in Em.
  revert Em. generalize ((n + 1) / 2 ^ N.of_nat (S h)). intros q Em. rewrite E in *.
  assert (q < 2 ^ N.of_nat (depth - S h)) as Hq by (apply (N.mul_lt_mono_pos_l (2 ^ N.of_nat (S h))); lia).
  rewrite pow2_S in *. pose proof (pow2_pos h). nia.
Qed.

Lemma target_retained h :
  (h < tau)%nat -> (h < depth - 1)%nat -> n / 2 ^ N.of_nat (S h) < 2 ^ N.of_nat (depth - S h) - 1.
Proof.
  intros Hh Hd. pose proof (carry_div_low n tau Hc h Hh) as E.
  assert ((n + 1) / 2 ^ N.of_nat (S h) < 2 ^ N.of_nat (depth - S h)) as Hlt.
  { apply N.Div0.div_lt_upper_bound. rewrite N.mul_comm, <-pow2_split by lia. done. }
  lia_div.
Qed.

Lemma refill_ok sts kept a s :
  (a < tau)%nat -> (forall j, (j < levels)%nat -> (j < tau)%nat -> sts j = Done) ->
  refilled sts kept a s ->
  exists s', refill levels a s = (s', Ok tt) /\ refilled sts kept (S a) s'.
Proof.
  intros Ha Hdone [Hnx Hau Hke [Hlen Hth] [Hrl Hre]]. pose proof tau_depth as Hd.
  unfold refill. destruct (Nat.ltb_spec a levels) as [Hlv|Hlv].
  - destruct (lookup_lt_is_Some_2 (bd_treehash s) a ltac:(lia)) as [t Ht].
    pose proof (Hth a t Ht) as Hat. rewrite Nat.ltb_irrefl, (Hdone a Hlv Ha) in Hat.
    destruct Hat as (Htgt & Hfin & Hnode).
    rewrite (ST_run _ _ _ _ _ (reads_at bd_treehash _ _ _ Ht)); cbv beta.
    unfold take_ready, slot_take. rewrite Hnode. cbn [fs_present fs_value slot_some].
    unfold set_treehash. rewrite (ST_run _ _ _ _ _ (set_at_ok bd_treehash with_treehash a _ s ltac:(lia))).
    rewrite (ST_run _ _ _ _ _ (eq_refl : lift (ok_or (Some _) _) _ = (_, Ok _))).
    unfold set_auth. rewrite set_at_ok
      by (cbn [bd_auth_path with_treehash]; rewrite Hau, length_fmap, length_seq; lia).
    eexists. split; [reflexivity|]. constructor; cbn [bd_next_index bd_auth_path bd_keep bd_treehash
      bd_retain with_auth with_treehash]; try done.
    + rewrite Hau. by apply part_sibling_insert.
    + rewrite length_insert. split; [done|]. intros j t' Hj.
      destruct (decide (j = a)) as [->|Hne].
      * rewrite list_lookup_insert_eq in Hj by lia. injection Hj as <-.
        rewrite (proj2 (Nat.ltb_lt a (S a))) by lia. done.
      * rewrite list_lookup_insert_ne in Hj by done. pose proof (Hth j t' Hj) as Hj'.
        by replace (j <? S a)%nat with (j <? a)%nat
          by (destruct (Nat.ltb_spec j a), (Nat.ltb_spec j (S a)); lia).
    + split; [done|]. intros h Hh. rewrite (Hre h Hh).
      by replace (h <? S a)%nat with (h <? a)%nat
        by (unfold upper in Hh; destruct (Nat.ltb_spec h a), (Nat.ltb_spec h (S a)); lia).
  - assert (upper a) as Hup by (unfold upper; lia).
    pose proof (Hre a Hup) as Hra. rewrite Nat.ltb_irrefl in Hra.
    rewrite (ST_run _ _ _ _ _ (reads_at bd_retain _ _ _ Hra)); cbv beta.
    pose proof (target_retained a Ha ltac:(lia)) as Hroom.
    unfold retain_pop. cbn [rl_nodes rl_next retained].
    rewrite map_seq_lookup by lia_div.
    unfold set_retain. rewrite (ST_run _ _ _ _ _ (set_at_ok bd_retain with_retain a _ s ltac:(lia))).
    rewrite (ST_run _ _ _ _ _ (eq_refl : lift (ok_or (Some _) _) _ = (_, Ok _))).
    unfold set_auth. rewrite set_at_ok
      by (cbn [bd_auth_path with_retain]; rewrite Hau, length_fmap, length_seq; lia).
    eexists. split; [reflexivity|]. constructor; cbn [bd_next_index bd_auth_path bd_keep bd_treehash
      bd_retain with_auth with_retain]; try done.
    + rewrite Hau, N2Nat.id. by apply part_sibling_insert.
    + split; [done|]. intros j t' Hj. pose proof (Hth j t' Hj) as Hj'.
      pose proof (lookup_lt_Some _ _ _ Hj).
      by replace (j <? S a)%nat with (j <? a)%nat
        by (destruct (Nat.ltb_spec j a), (Nat.ltb_spec j (S a)); lia).
    + rewrite length_insert. split; [done|]. intros h Hh. destruct (decide (h = a)) as [->|Hne].
      * rewrite list_lookup_insert_eq by lia. rewrite (proj2 (Nat.ltb_lt a (S a))) by lia.
        unfold retained. rewrite (carry_div_low n tau Hc a Ha). do 2 f_equal. lia_div.
      * rewrite list_lookup_insert_ne by done. rewrite (Hre h Hh).
        by replace (h <? S a)%nat with (h <? a)%nat
          by (destruct (Nat.ltb_spec h a), (Nat.ltb_spec h (S a)); lia).
Qed.

(** ** Restarting *)

Definition restarted (sts : nat -> status) (j : nat) : status :=
  if (j <? tau)%nat
  then (if target (n + 1) j * 2 ^ N.of_nat j <? keys then Running 0 else Idle)
  else sts j.

(** The instances after the first [a] of those below the carry were restarted. *)
Definition restarting (sts : nat -> status) (s0 : XmssBdsState) (a : nat) (s : XmssBdsState) : Prop :=
  exists l, s = with_treehash l s0 /\ length l = levels /\
    forall j t, l !! j = Some t -> instance_at ask_j pub_seed j (target (n + 1) j)
      (if (j <? a)%nat then restarted sts j else if (j <? tau)%nat then Idle else sts j) t.

Lemma start_index a :
  (a < tau)%nat -> add_u32 (add_u32 n 1) (shl_u32 3 a) = target (n + 1) a * 2 ^ N.of_nat a.
Proof.
  intros Ha. rewrite (target_start n tau Hc a Ha). pose proof tau_depth. pose proof keys_limit.
  pose proof (pow2_le (S a) 31 ltac:(lia)) as Hle. rewrite pow2_S in Hle.
  assert (2 * 2 ^ N.of_nat a <= n + 1) as Hge.
  { destruct (ca_at _ _ Hc) as (b & _ & _ & ->). pose proof (pow2_le (S a) tau ltac:(lia)) as Hp.
    rewrite pow2_S in Hp. nia. }
  assert (n + 1 + 2 * 2 ^ N.of_nat a <= keys) as Hroom.
  { pose proof (ca_low _ _ Hc a Ha) as Hm. pose proof (pow2_split (S a) depth ltac:(lia)) as E.
    pose proof (pow2_pos (S a)) as Hp. pose proof (N.div_mod (n + 1) (2 ^ N.of_nat (S a)) ltac:(lia)) as Em.
    rewrite Hm, N.add_0_r in Em. revert Em. generalize ((n + 1) / 2 ^ N.of_nat (S a)). intros q Em.
    rewrite E in *. rewrite <-pow2_S, Em in *.
    assert (q < 2 ^ N.of_nat (depth - S a)) by (apply (N.mul_lt_mono_pos_l (2 ^ N.of_nat (S a))); lia).
    nia. }
  change (N.of_nat 31) with 31 in *. unfold add_u32, shl_u32, U32_LIMIT.
  rewrite (N.mod_small (N.of_nat a)) by lia. rewrite N.shiftl_mul_pow2.
  rewrite (N.mod_small (3 * _)) by lia. rewrite (N.mod_small (n + 1)) by lia. apply N.mod_small. lia.
Qed.

Lemma restart_ok sts s0 a s :
  (a < tau)%nat -> (a < levels)%nat -> restarting sts s0 a s ->
  exists s', restart keys n a s = (s', Ok tt) /\ restarting sts s0 (S a) s'.
Proof.
  intros Ha Hlv (l & -> & Hlen & Hth). destruct (lookup_lt_is_Some_2 l a ltac:(lia)) as [t Ht].
  pose proof (Hth a t Ht) as Hat. rewrite Nat.ltb_irrefl, (proj2 (Nat.ltb_lt _ _)) in Hat by done.
  unfold restart. rewrite (ST_run _ _ _ _ _ (reads_at bd_treehash _ _ (with_treehash l s0) Ht)); cbv beta.
  cbv zeta. rewrite (start_index a Ha).
  unfold set_treehash. rewrite set_at_ok by (cbn [bd_treehash with_treehash]; lia).
  eexists. split; [reflexivity|]. eexists. split; [reflexivity|].
  cbn [bd_treehash with_treehash]. rewrite length_insert. split; [done|].
  intros j t' Hj. destruct (decide (j = a)) as [->|Hne].
  - rewrite list_lookup_insert_eq in Hj by lia. injection Hj as <-.
    rewrite (proj2 (Nat.ltb_lt a (S a))) by lia. unfold restarted.
    rewrite (proj2 (Nat.ltb_lt _ _)) by done. destruct Hat as [Htgt _].
    destruct (_ <? keys); [|done]. unfold instance_at, treehash_start.
    cbn [th_target_height th_initialized th_finished th_start_idx th_next_idx th_stack].
    rewrite stack_zero, N.add_0_r. repeat split; [done|apply pow2_pos].
  - rewrite list_lookup_insert_ne in Hj by done. pose proof (Hth j t' Hj) as Hj'.
    by replace (j <? S a)%nat with (j <? a)%nat
      by (destruct (Nat.ltb_spec j a), (Nat.ltb_spec j (S a)); lia).
Qed.

Lemma restarted_idle sts : idle_beyond n sts -> idle_beyond (n + 1) (restarted sts).
Proof.
  intros Hid j Hj. unfold restarted. destruct (Nat.ltb_spec j tau) as [Hlt|Hge].
  - destruct (N.ltb_spec (target (n + 1) j * 2 ^ N.of_nat j) keys) as [Hk'|Hk'].
    + split; [done|]. lia.
    + done.
  - rewrite (target_high n tau Hc j Hge). by apply Hid.
Qed.

Lemma running_count sts l : instances ask_j pub_seed levels n sts l ->
  forall j c, (j < levels)%nat -> sts j = Running c -> c < 2 ^ N.of_nat j.
Proof.
  intros [Hlen Hin] j c Hj Hr. destruct (lookup_lt_is_Some_2 l j ltac:(lia)) as [t Ht].
  pose proof (Hin j t Ht) as Hat. rewrite Hr in Hat. by destruct Hat as (_ & _ & _ & ? & _).
Qed.

Lemma done_below sts l j :
  instances ask_j pub_seed levels n sts l -> on_time levels budget n (N.of_nat budget) sts ->
  idle_beyond n sts -> (j < levels)%nat -> (j < tau)%nat -> sts j = Done.
Proof.
  intros Hin Hot Hid Hj Ht. destruct (sts j) as [|c|] eqn:E; [|exfalso|done].
  - apply Hid in E; [|done]. pose proof (target_exists j Ht). lia.
  - apply (ready_in_time levels budget levels_budget levels_small n sts j Hot Hj (ca_low _ _ Hc j Ht)) with (c := c); [|done].
    intros c' Hc'. by apply (running_count sts l Hin).
Qed.

Lemma restarted_on_time sts l :
  instances ask_j pub_seed levels n sts l -> on_time levels budget n (N.of_nat budget) sts ->
  idle_beyond n sts -> on_time levels budget (n + 1) 0 (restarted sts).
Proof.
  intros Hin Hot Hid.
  apply (restart_on_time levels budget levels_budget levels_small n sts (restarted sts) tau Hot).
  - apply (ca_low _ _ Hc).
  - apply (ca_high _ _ Hc).
  - intros j Hj Ht. left. by eapply done_below.
  - intros j Hj. unfold restarted. by rewrite (proj2 (Nat.ltb_ge _ _)).
Qed.
End Step.

(** ** Updating *)

Lemma with_treehash_same s : with_treehash (bd_treehash s) s = s.
Proof. by destruct s. Qed.

Lemma updates_ok m n q sts s :
  instances ask_j pub_seed levels n sts (bd_treehash s) -> on_time levels budget n q sts ->
  idle_beyond n sts -> exists l sts',
    updates ask_j pub_seed m s = (with_treehash l s, Ok tt) /\
    instances ask_j pub_seed levels n sts' l /\ on_time levels budget n (q + N.of_nat m) sts' /\
    idle_beyond n sts'.
Proof.
  revert q sts s. induction m as [|m IH]; intros q sts s Hin Hot Hid; cbn [updates].
  - exists (bd_treehash s), sts. rewrite with_treehash_same, N.add_0_r. done.
  - pose proof (pick_step ask_j pub_seed levels budget levels_budget levels_small n q sts (bd_treehash s) Hin Hot
      (idle_beyond_in_range n sts Hid)) as Hpick.
    rewrite (ST_run _ _ _ _ _ (eq_refl : reads _ s = (s, Ok (best_instance (bd_treehash s))))).
    destruct (best_instance (bd_treehash s)) as [i|].
    + destruct Hpick as (t & sts1 & Ht & Hin1 & Hot1 & _ & Hsame).
      rewrite (ST_run _ _ _ _ _ (reads_at bd_treehash _ _ _ Ht)); cbv beta. unfold set_treehash.
      rewrite (ST_run _ _ _ _ _ (set_at_ok bd_treehash with_treehash i _ s
        ltac:(by eapply lookup_lt_Some))).
      destruct (IH (q + 1) sts1 (with_treehash (<[i := treehash_step ask_j pub_seed t]> (bd_treehash s)) s))
        as (l & sts' & E & Hin' & Hot' & Hid'); [done|done| |].
      { intros j Hj. rewrite Hsame. by apply Hid. }
      exists l, sts'. split; [exact E|]. split; [done|]. split; [|done].
      by replace (q + N.of_nat (S m)) with (q + 1 + N.of_nat m) by lia.
    + exists (bd_treehash s), sts. rewrite with_treehash_same. split; [done|]. split; [done|].
      split; [|done]. by apply on_time_idle.
Qed.

(** ** Keeping *)

Section Keep.
Context (n : N) (tau : nat) (Hn : n + 1 < keys) (Hc : carry n tau).

Definition keep_here : bool :=
  (tau <? depth - 1)%nat && (N.land (shr_u32 n (S tau)) 1 =? 0).

Lemma keep_here_spec : keep_here = true <-> (tau < depth - 1)%nat /\ N.odd (n / 2 ^ N.of_nat (S tau)) = false.
Proof.
  pose proof (tau_depth n tau Hn Hc). unfold keep_here. rewrite andb_true_iff, Nat.ltb_lt.
  unfold shr_u32. rewrite N.mod_small, N.shiftr_div_pow2 by lia.
  change 1 with (N.ones 1) at 1. rewrite N.land_ones. change (2 ^ 1) with 2.
  rewrite N.eqb_eq. split; intros [Ht Hm]; (split; [done|]).
  - apply N.Div0.mod_divides in Hm as [m ->]. apply odd_double.
  - destruct (even_half _ Hm) as (m & -> & _). symmetry. apply (N.mod_unique _ _ m); lia.
Qed.

Definition kept_at (l : list FeltSlot) : list FeltSlot :=
  if keep_here then <[tau := slot_some (sibling n tau)]> l else l.

Lemma keep_step s :
  bd_auth_path s = sibling n <$> seq 0 depth -> keeps n (bd_keep s) ->
  (if keep_here then
     sibling ← reads (fun s => index_at (bd_auth_path s) tau); set_keep tau (slot_some sibling)
   else mret tt) s = (with_keep (kept_at (bd_keep s)) s, Ok tt).
Proof.
  intros Ha [Hlen _]. unfold kept_at. destruct keep_here eqn:E.
  - pose proof (tau_depth n tau Hn Hc).
    assert (bd_auth_path s !! tau = Some (sibling n tau)) as Hs by (rewrite Ha; by apply map_seq_lookup).
    rewrite (ST_run _ _ _ _ _ (reads_at bd_auth_path _ _ _ Hs)); cbv beta.
    unfold set_keep. by rewrite set_at_ok by lia.
  - by destruct s.
Qed.

Lemma keeps_kept l : keeps n l -> keeps n (kept_at l).
Proof.
  intros [Hlen Hk']. unfold kept_at. destruct keep_here; [|done]. split; [by rewrite length_insert|].
  intros j Hj Ho He. rewrite list_lookup_insert_ne; [by apply Hk'|]. intros ->.
  destruct (ca_at _ _ Hc) as (a & E & _). by rewrite E, odd_double in Ho.
Qed.

(** Writes below the carry leave what the next key needs. *)
Lemma keeps_next l l' :
  keeps n l -> length l' = depth -> (forall j, (tau <= j)%nat -> l' !! j = kept_at l !! j) ->
  keeps (n + 1) l'.
Proof.
  intros [Hlen Hk'] Hl' Hsame. split; [done|]. intros j Hj Ho He.
  destruct (decide (j < tau)%nat) as [Hlt|Hge].
  { destruct (carry_digit_low n tau Hc j Hlt) as [E _]. by rewrite E, odd_double in Ho. }
  rewrite Hsame by lia. rewrite (carry_div_high n tau Hc) in He by lia. unfold kept_at.
  destruct (decide (j = tau)) as [->|Hne].
  - rewrite (proj2 keep_here_spec) by done. rewrite list_lookup_insert_eq by lia.
    by destruct (sibling_at n tau Hc) as [-> _].
  - rewrite (carry_div_high n tau Hc) in Ho |- * by lia.
    destruct keep_here; [rewrite list_lookup_insert_ne by lia|]; by apply Hk'.
Qed.
End Keep.

(** ** One key *)

(** After the path's own node is in place, the state is ready to be refilled. *)
Lemma refilled_start n tau sts s kept :
  n + 1 < keys -> carry n tau -> bds_repr n s ->
  instances ask_j pub_seed levels n sts (bd_treehash s) ->
  refilled n tau sts kept 0
    (with_auth (<[tau := sibling (n + 1) tau]> (bd_auth_path s)) (with_keep kept s)).
Proof.
  intros Hn Hc [Hnx Hau _ _ [Hrl Hre]] [Hlen Hin]. pose proof (tau_depth n tau Hn Hc).
  constructor; cbn [bd_next_index bd_auth_path bd_keep bd_treehash bd_retain with_auth with_keep];
    try done.
  rewrite Hau. apply map_seq_insert; [done| |]; unfold part_sibling.
  - by rewrite Nat.leb_refl, orb_true_r.
  - intros j _ Hne. cbn. destruct (Nat.leb_spec tau j); [|done].
    apply (sibling_high n tau Hc). lia.
Qed.

(** The loops below the carry. *)
Lemma loops_ok n tau sts kept s l0 :
  n + 1 < keys -> carry n tau -> refilled n tau sts kept 0 s ->
  instances ask_j pub_seed levels n sts l0 -> on_time levels budget n (N.of_nat budget) sts ->
  idle_beyond n sts -> exists s',
    (for_each (refill levels) (seq 0 tau) ;;
     for_each (restart keys n) (seq 0 (Nat.min tau levels))) s = (s', Ok tt) /\
    bd_next_index s' = n /\ bd_auth_path s' = sibling (n + 1) <$> seq 0 depth /\
    bd_keep s' = kept /\ retains (n + 1) (bd_retain s') /\
    instances ask_j pub_seed levels (n + 1) (restarted n tau sts) (bd_treehash s').
Proof.
  intros Hn Hc Hrf Hin Hot Hid.
  destruct (for_each_seq (refilled n tau sts kept) (refill levels) tau 0 s Hrf) as (s1 & E1 & Hs1).
  { intros i s' Hi Hs'. apply (refill_ok n tau Hn Hc); [lia| |done].
    intros j Hj Ht. by eapply done_below. }
  rewrite (ST_run _ _ _ _ _ E1). cbn [plus] in Hs1.
  destruct Hs1 as [Hnx Hau Hke [Hlen Hth] [Hrl Hre]].
  destruct (for_each_seq (restarting n tau sts s1) (restart keys n) (Nat.min tau levels) 0 s1)
    as (s2 & E2 & (l & -> & Hl & Hl')).
  { exists (bd_treehash s1). rewrite with_treehash_same. split; [done|]. split; [done|].
    intros j t Hj. change (j <? 0)%nat with false. cbv beta iota. pose proof (Hth j t Hj) as Hat.
    destruct (Nat.ltb_spec j tau) as [Hlt|Hge]; [exact Hat|].
    by rewrite (target_high n tau Hc). }
  { intros i s2 Hi. apply (restart_ok n tau Hn Hc); lia. }
  exists (with_treehash l s1). split; [exact E2|].
  cbn [bd_next_index bd_auth_path bd_keep bd_treehash bd_retain with_treehash].
  split; [done|]. split; [|split; [done|split; [split; [done|]|split; [done|]]]].
  - rewrite Hau. apply map_seq_ext. intros j _. unfold part_sibling.
    destruct (Nat.ltb_spec j tau); [done|]. by rewrite (proj2 (Nat.leb_le _ _)).
  - intros h Hh. rewrite (Hre h Hh). destruct (Nat.ltb_spec h tau); [done|].
    by rewrite (carry_div_high n tau Hc) by lia.
  - intros j t Hj. pose proof (Hl' j t Hj) as Hat. cbn [plus] in Hat.
    pose proof (lookup_lt_Some _ _ _ Hj) as Hjl. rewrite Hl in Hjl.
    destruct (Nat.ltb_spec j (Nat.min tau levels)) as [|Hge]; [done|].
    unfold restarted. rewrite (proj2 (Nat.ltb_ge j tau)) in * by lia. done.
Qed.

(** The new path, from the state with the kept node. *)
Lemma path_ok n tau sts s :
  n + 1 < keys -> carry n tau -> bds_repr n s ->
  instances ask_j pub_seed levels n sts (bd_treehash s) ->
  on_time levels budget n (N.of_nat budget) sts -> idle_beyond n sts -> exists s',
    (if (tau =? 0)%nat then set_auth 0 (auth_leaf_hash_with_pub_seed ask_j pub_seed n)
     else
       merge_kept pub_seed n tau ;;
       for_each (refill levels) (seq 0 tau) ;;
       for_each (restart keys n) (seq 0 (Nat.min tau levels)))
      (with_keep (kept_at n tau (bd_keep s)) s) = (s', Ok tt) /\
    bd_next_index s' = n /\ bd_auth_path s' = sibling (n + 1) <$> seq 0 depth /\
    keeps (n + 1) (bd_keep s') /\ retains (n + 1) (bd_retain s') /\
    instances ask_j pub_seed levels (n + 1) (restarted n tau sts) (bd_treehash s').
Proof.
  intros Hn Hc Hr Hin Hot Hid. pose proof (br_keep _ _ Hr) as Hkeep. pose proof (br_auth _ _ Hr) as Hau.
  pose proof (keeps_kept n tau Hc _ Hkeep) as Hkept. pose proof (tau_depth n tau Hn Hc) as Hd.
  destruct (Nat.eqb_spec tau 0) as [->|Hne].
  - assert (auth_leaf_hash_with_pub_seed ask_j pub_seed n = sibling (n + 1) 0) as ->.
    { destruct (sibling_at n 0 Hc) as [_ ->]. change (2 ^ N.of_nat 0) with 1. by rewrite N.div_1_r. }
    unfold set_auth. rewrite set_at_ok by (cbn [bd_auth_path with_keep]; rewrite Hau, length_fmap, length_seq; lia).
    destruct (loops_ok n 0 sts (kept_at n 0 (bd_keep s)) _ _ Hn Hc
      (refilled_start n 0 sts s (kept_at n 0 (bd_keep s)) Hn Hc Hr Hin) Hin Hot Hid)
      as (s' & E & Hnx & Ha' & Hk' & Hre & Hin').
    injection E as <-. eexists. split; [reflexivity|]. split; [done|]. split; [done|].
    split; [|by split]. apply (keeps_next n 0 Hn Hc (bd_keep s)); [done|apply Hkept|done].
  - set (kept := <[(tau - 1)%nat := {| fs_present := false;
      fs_value := node (tau - 1) (n / 2 ^ N.of_nat (tau - 1)) |}]> (kept_at n tau (bd_keep s))).
    rewrite (ST_run _ _ _ _ _ (merge_kept_ok n tau Hn Hc (with_keep (kept_at n tau (bd_keep s)) s)
      ltac:(lia) Hau Hkept)).
    destruct (loops_ok n tau sts kept _ _ Hn Hc (refilled_start n tau sts s kept Hn Hc Hr Hin) Hin Hot Hid)
      as (s' & E & Hnx & Ha' & Hk' & Hre & Hin').
    exists s'. split; [exact E|]. split; [done|]. split; [done|]. split; [|by split].
    apply (keeps_next n tau Hn Hc (bd_keep s)); [done|rewrite Hk'; unfold kept; rewrite length_insert; apply Hkept|].
    intros j Hj. rewrite Hk'. unfold kept. by rewrite list_lookup_insert_ne by lia.
Qed.

Lemma add_u32_key n : n < keys -> add_u32 n 1 = n + 1.
Proof. intros Hn. pose proof keys_limit. unfold add_u32, U32_LIMIT. apply N.mod_small. lia. Qed.

Lemma advance_ok n s :
  n + 1 < keys -> bds_repr n s -> exists s',
    advance ask_j pub_seed s = (s', Ok tt) /\ bds_repr (n + 1) s'.
Proof.
  intros Hn Hr. pose proof keys_limit. pose proof (br_next _ _ Hr) as Hnx. pose proof (br_auth _ _ Hr) as Hau.
  destruct (br_treehash _ _ Hr) as (sts & Hin & Hot & Hid).
  pose proof (trailing_carry n ltac:(lia)) as Hc. set (tau := trailing_ones n) in Hc.
  assert (length (bd_auth_path s) = depth) as Hla by by rewrite Hau, length_fmap, length_seq.
  unfold advance. do 3 (erewrite ST_run by reflexivity; cbv beta). cbv zeta.
  rewrite Hla, (proj1 Hin), Hnx, shl1_depth.
  rewrite (proj2 (N.leb_gt _ _)) by lia. rewrite (ST_run _ _ _ _ _ (eq_refl : lift (fail_if false _) _ = (_, Ok tt))).
  rewrite (proj2 (N.eqb_neq _ _)) by lia. fold tau.
  change ((tau <? depth - 1)%nat && (N.land (shr_u32 n (S tau)) 1 =? 0)) with (keep_here n tau).
  rewrite (ST_run _ _ _ _ _ (keep_step n tau Hn Hc s Hau (br_keep _ _ Hr))).
  destruct (path_ok n tau sts s Hn Hc Hr Hin Hot Hid) as (s1 & E & Hn1 & Ha1 & Hk1 & Hre1 & Hin1).
  rewrite (ST_run _ _ _ _ _ E). rewrite ST_run_writes, (add_u32_key n) by lia.
  destruct (updates_ok budget (n + 1) 0 (restarted n tau sts) (with_next (n + 1) s1)) as (l & sts' & Eu & Hin' & Hot' & Hid').
  - exact Hin1.
  - by apply (restarted_on_time n tau Hn Hc sts (bd_treehash s)).
  - by apply restarted_idle.
  - rewrite Eu. eexists. split; [reflexivity|]. constructor; try done.
    exists sts'. split; [done|]. by split.
Qed.

(** The last key ends the traversal. *)
Lemma advance_last s :
  bds_repr (keys - 1) s ->
  advance ask_j pub_seed s = (with_auth [] (with_next keys s), Ok tt).
Proof.
  intros Hr. pose proof keys_limit. pose proof (pow2_pos depth).
  assert (length (bd_auth_path s) = depth) as Hla by by rewrite (br_auth _ _ Hr), length_fmap, length_seq.
  unfold advance. do 3 (erewrite ST_run by reflexivity; cbv beta). cbv zeta.
  rewrite Hla, (br_next _ _ Hr), shl1_depth.
  rewrite (proj2 (N.leb_gt _ _)) by lia. rewrite (ST_run _ _ _ _ _ (eq_refl : lift (fail_if false _) _ = (_, Ok tt))).
  rewrite N.eqb_refl. unfold writes. rewrite add_u32_key by lia. do 3 f_equal. lia.
Qed.

(** And after it there is no other. *)
Lemma advance_exhausted s :
  bd_auth_path s = [] -> 0 < bd_next_index s ->
  advance ask_j pub_seed s = (s, Err "XMSS keys exhausted").
Proof.
  intros Ha Hn. unfold advance. do 3 (erewrite ST_run by reflexivity; cbv beta). cbv zeta. rewrite Ha.
  assert (shl1_usize (length ([] : list F)) = 1) as ->.
  { unfold shl1_usize. cbn. rewrite N.Div0.mod_0_l. done. }
  rewrite (proj2 (N.leb_le _ _)) by lia. reflexivity.
Qed.

(** The path before each key is the path of the key. *)
Lemma repr_path n s : bds_repr n s -> current_path s = sibling n <$> seq 0 depth.
Proof. apply br_auth. Qed.
End Advance.
