(* ===== verification/BdsBuild.v ===== *)
(** * BdsBuild: the first state of a traversal

    [new_with_params] visits every leaf once and records, on the way up, the right
    children that the first paths will need.  After [n] leaves the stack holds the nodes
    of the digits of [n], and each level has recorded its right children among them. *)

From S2P Require Import Prelude Felt Externals Types Hashing Merkle Wots.
From S2P Require Import Bds BdsTree BdsSchedule BdsAdvance.

Local Open Scope N_scope.

#[local] Opaque auth_leaf_hash_with_pub_seed xmss_tree_node_hash.

Section Build.
Context `{Blake2s, WordTarget}.
Variables ask_j pub_seed : F.
Variables depth k : nat.
Hypothesis Hdepth : (0 < depth < 32)%nat.
Hypothesis Hk : (k < depth)%nat.

#[local] Abbreviation levels := (depth - k)%nat.
#[local] Abbreviation keys := (2 ^ N.of_nat depth).
#[local] Abbreviation node := (bnode ask_j pub_seed).
#[local] Abbreviation upper := (upper depth k).

(** ** What has been recorded *)

Definition auth_after (c : nat -> N) (h : nat) : F := if c h =? 0 then ZERO else node h 1.

Definition treehash_after (c : nat -> N) (j : nat) : TreeHashState :=
  if 2 <=? c j then seed_completed (mk_node ask_j pub_seed j 3) (treehash_new j) else treehash_new j.

Definition retain_after (h : nat) (c : N) : RetainLevel :=
  {| rl_nodes := (fun m => node h (2 * N.of_nat m + 3)) <$> seq 0 (N.to_nat (c - 1)); rl_next := 0 |}.

(** [c h] right children of height [h] are complete. *)
Record recorded (c : nat -> N) (s : XmssBdsState) : Prop := {
  rc_next : bd_next_index s = 0;
  rc_auth : bd_auth_path s = auth_after c <$> seq 0 depth;
  rc_keep : bd_keep s = replicate depth slot_none;
  rc_treehash : bd_treehash s = treehash_after c <$> seq 0 levels;
  rc_retain : length (bd_retain s) = depth /\
    forall h, upper h -> bd_retain s !! h = Some (retain_after h (c h))
}.

(** The right children after [n] leaves, below [b] after [n + 1]. *)
Definition children (n : N) (b h : nat) : N :=
  (if (h <? b)%nat then n + 1 else n) / 2 ^ N.of_nat (S h).

Lemma recorded_ext c c' s : (forall h, (h < depth)%nat -> c h = c' h) -> recorded c s -> recorded c' s.
Proof.
  intros E [Hnx Hau Hke Hth [Hrl Hre]]. constructor; try done.
  - rewrite Hau. apply map_seq_ext. intros h Hh. unfold auth_after. by rewrite E.
  - rewrite Hth. apply map_seq_ext. intros h Hh. unfold treehash_after. by rewrite E by lia.
  - split; [done|]. intros h Hh. rewrite (Hre h Hh). rewrite E; [done|]. unfold BdsAdvance.upper in Hh. lia.
Qed.

Lemma children_stop n b a :
  n + 1 = (2 * a + 1) * 2 ^ N.of_nat b -> forall h, children n b h = children (n + 1) 0 h.
Proof.
  intros E h. unfold children. change (h <? 0)%nat with false. cbv iota.
  destruct (Nat.ltb_spec h b); [done|]. symmetry. apply (carry_div_high n b (carry_of a b n E)). lia.
Qed.

Lemma children_ne n b h : h <> b -> children n b h = children n (S b) h.
Proof.
  intros Hne. unfold children.
  by replace (h <? S b)%nat with (h <? b)%nat by (destruct (Nat.ltb_spec h b), (Nat.ltb_spec h (S b)); lia).
Qed.

Lemma children_here n b m :
  n + 1 = (2 * m + 1 + 1) * 2 ^ N.of_nat b -> children n b b = m /\ children n (S b) b = m + 1.
Proof.
  intros E. unfold children. rewrite Nat.ltb_irrefl, (proj2 (Nat.ltb_lt b (S b))) by lia.
  pose proof (pow2_pos b). rewrite pow2_S. split.
  - symmetry. apply (N.div_unique _ _ _ (2 * 2 ^ N.of_nat b - 1)); lia.
  - rewrite E. replace ((2 * m + 1 + 1) * 2 ^ N.of_nat b) with ((m + 1) * (2 * 2 ^ N.of_nat b)) by lia.
    apply N.div_mul. lia.
Qed.

(** A level that records its child number [m]; the others stay. *)
Section Record.
Context (c c' : nat -> N) (b : nat) (m : N) (s : XmssBdsState).
Context (Hb : (b < depth)%nat) (Hc : c b = m) (Hc' : c' b = m + 1).
Context (Hne : forall h, h <> b -> c h = c' h) (Hs : recorded c s).

Lemma auth_insert : <[b := node b 1]> (auth_after c <$> seq 0 depth) = auth_after c' <$> seq 0 depth.
Proof.
  apply map_seq_insert; [done| |].
  - unfold auth_after. by rewrite Hc', (proj2 (N.eqb_neq _ _)) by lia.
  - intros j _ Hj. unfold auth_after. by rewrite Hne.
Qed.

Lemma auth_same : m <> 0 -> auth_after c <$> seq 0 depth = auth_after c' <$> seq 0 depth.
Proof.
  intros Hm. apply map_seq_ext. intros j _. unfold auth_after.
  destruct (decide (j = b)) as [->|Hj]; [|by rewrite Hne].
  by rewrite Hc, Hc', !(proj2 (N.eqb_neq _ _)) by lia.
Qed.

Lemma treehash_same : m <> 1 \/ (levels <= b)%nat ->
  treehash_after c <$> seq 0 levels = treehash_after c' <$> seq 0 levels.
Proof.
  intros Hm. apply map_seq_ext. intros j Hj. unfold treehash_after.
  destruct (decide (j = b)) as [->|Hjb]; [|by rewrite Hne]. rewrite Hc, Hc'.
  destruct (N.leb_spec 2 m); [by rewrite (proj2 (N.leb_le _ _)) by lia|].
  by rewrite (proj2 (N.leb_gt _ _)) by lia.
Qed.

Lemma retain_same : m = 0 \/ ~ upper b -> forall h, upper h ->
  bd_retain s !! h = Some (retain_after h (c' h)).
Proof.
  intros Hm h Hh. rewrite (proj2 (rc_retain _ _ Hs) h Hh).
  destruct (decide (h = b)) as [->|Hhb]; [|by rewrite Hne]. destruct Hm as [->|?]; [|done].
  by rewrite Hc, Hc'.
Qed.

Lemma retain_push_after : m <> 0 ->
  retain_push (node b (2 * m + 1)) (retain_after b (c b)) = retain_after b (c' b).
Proof.
  intros Hm. unfold retain_push, retain_after. cbn [rl_nodes rl_next]. f_equal. rewrite Hc, Hc'.
  replace (N.to_nat (m + 1 - 1)) with (S (N.to_nat (m - 1))) by lia.
  rewrite seq_S, fmap_app. cbn [fmap list_fmap plus]. do 3 f_equal. lia.
Qed.

Lemma odd_digit : N.land (2 * m + 1) 1 =? 1 = true.
Proof.
  change 1 with (N.ones 1) at 2. rewrite N.land_ones. change (2 ^ 1) with 2.
  assert ((2 * m + 1) mod 2 = 1) as -> by (symmetry; apply (N.mod_unique _ _ m); lia). done.
Qed.

Lemma record_node_ok : exists s',
  record_node depth k b (2 * m + 1) (mk_node ask_j pub_seed b (2 * m + 1)) s = (s', Ok tt) /\
  recorded c' s'.
Proof.
  destruct Hs as [Hnx Hau Hke Hth [Hrl Hre]]. pose proof retain_same as Hrs. unfold record_node.
  destruct (N.eqb_spec (2 * m + 1) 1) as [E1|E1].
  { assert (m = 0) as E0 by lia. unfold set_auth.
    rewrite set_at_ok by (rewrite Hau, length_fmap, length_seq; lia). eexists. split; [reflexivity|].
    constructor; cbn [bd_next_index bd_auth_path bd_keep bd_treehash bd_retain with_auth]; try done.
    - rewrite Hau, E0. apply auth_insert.
    - rewrite Hth. apply treehash_same. left. lia.
    - split; [done|]. apply Hrs. by left. }
  rewrite auth_same in Hau by lia. destruct ((2 * m + 1 =? 3) && (b <? levels)%nat) eqn:E3.
  - apply andb_true_iff in E3 as [E3%N.eqb_eq Hbl%Nat.ltb_lt]. assert (m = 1) as E0 by lia.
    assert (bd_treehash s !! b = Some (treehash_new b)) as Hb'
      by (rewrite Hth, map_seq_lookup by done; unfold treehash_after; by rewrite Hc, E0).
    rewrite (ST_run _ _ _ _ _ (reads_at bd_treehash _ _ _ Hb')); cbv beta. unfold set_treehash.
    rewrite set_at_ok by (rewrite Hth, length_fmap, length_seq; lia). eexists. split; [reflexivity|].
    constructor; cbn [bd_next_index bd_auth_path bd_keep bd_treehash bd_retain with_treehash]; try done.
    + rewrite Hth. apply map_seq_insert; [done| |].
      * unfold treehash_after. by rewrite Hc', E0.
      * intros j _ Hj. unfold treehash_after. by rewrite Hne.
    + split; [done|]. apply Hrs. right. unfold BdsAdvance.upper. lia.
  - rewrite treehash_same in Hth
      by (apply andb_false_iff in E3 as [E3%N.eqb_neq|E3%Nat.ltb_ge]; [left|right]; lia).
    rewrite odd_digit, (proj2 (N.leb_le 3 (2 * m + 1))) by lia. cbn [andb].
    destruct ((levels <=? b)%nat && (b <? depth - 1)%nat) eqn:Eu.
    + apply andb_true_iff in Eu as [Eu1%Nat.leb_le Eu2%Nat.ltb_lt].
      assert (upper b) as Hub by (unfold BdsAdvance.upper; lia). pose proof (Hre b Hub) as Hrb.
      rewrite (ST_run _ _ _ _ _ (reads_at bd_retain _ _ _ Hrb)); cbv beta. unfold set_retain.
      rewrite set_at_ok by lia. eexists. split; [reflexivity|].
      constructor; cbn [bd_next_index bd_auth_path bd_keep bd_treehash bd_retain with_retain]; try done.
      rewrite length_insert. split; [done|]. intros h Hh. destruct (decide (h = b)) as [->|Hhb].
      * rewrite list_lookup_insert_eq by lia. f_equal. apply retain_push_after. lia.
      * rewrite list_lookup_insert_ne by done. rewrite (Hre h Hh). by rewrite Hne.
    + exists s. split; [done|]. constructor; try done. split; [done|]. apply Hrs. right.
      unfold BdsAdvance.upper. intros [Eu1 Eu2].
      rewrite (proj2 (Nat.leb_le _ _) Eu1), (proj2 (Nat.ltb_lt _ _) Eu2) in Eu. done.
Qed.
End Record.

(** ** One leaf *)

Lemma shr_node n b q : (b < 32)%nat -> n + 1 = (q + 1) * 2 ^ N.of_nat b -> shr_u32 n b = q.
Proof.
  intros Hb E. unfold shr_u32. rewrite N.mod_small, N.shiftr_div_pow2 by lia. pose proof (pow2_pos b).
  symmetry. apply (N.div_unique _ _ _ (2 ^ N.of_nat b - 1)); lia.
Qed.

Lemma absorb_ok n d b q s :
  n < keys -> (b + d = S depth)%nat -> (b <= depth)%nat -> n + 1 = (q + 1) * 2 ^ N.of_nat b ->
  recorded (children n b) s -> exists s',
    absorb pub_seed depth k n (stack_from ask_j pub_seed d b q) (mk_node ask_j pub_seed b q) s =
      (s', Ok (stack_from ask_j pub_seed d b (q + 1))) /\
    recorded (children (n + 1) 0) s'.
Proof.
  intros Hn. revert b q s. induction d as [|d IH]; intros b q s Hd Hb E Hr; [lia|].
  cbn [stack_from]. destruct (N.odd q) eqn:Eq.
  - destruct (odd_half q Eq) as (m & -> & ->). rewrite N.add_sub. cbn [app absorb].
    change (xn_height (mk_node ask_j pub_seed b (2 * m))) with b.
    change (xn_height (mk_node ask_j pub_seed b (2 * m + 1))) with b.
    rewrite Nat.eqb_refl. cbn [negb]. rewrite (shr_node n b (2 * m + 1)) by (lia || done).
    assert (b < depth)%nat as Hlt.
    { apply Nat.nle_gt. intros Hge. assert (b = depth) as -> by lia. pose proof (pow2_pos depth). nia. }
    destruct (children_here n b m E) as [Ec Ec'].
    destruct (record_node_ok (children n b) (children n (S b)) b m s Hlt Ec Ec'
      (children_ne n b) Hr) as (s1 & E1 & Hr1).
    rewrite (ST_run _ _ _ _ _ E1). rewrite join_mk_node by lia.
    replace (2 * m + 1 + 1) with (2 * (m + 1)) in * by lia. rewrite odd_double, half_double. cbn [app].
    apply IH; [lia|lia| |done]. rewrite pow2_S. lia.
  - destruct (even_half q Eq) as (m & -> & ->). rewrite odd_double_1, half_double_1, N.add_sub. cbn [app].
    exists s. split; [|by eapply recorded_ext; [intros h _; apply (children_stop n b m); lia|]].
    pose proof (stack_from_heights ask_j pub_seed d (S b) m) as Hf.
    destruct (stack_from ask_j pub_seed d (S b) m) as [|top rest]; [done|]. cbn [absorb].
    inversion Hf as [|x l Hx _]; subst. change (xn_height (mk_node ask_j pub_seed b (2 * m))) with b.
    by rewrite (proj2 (Nat.eqb_neq _ _)) by lia.
Qed.

(** The right leaf of the first pair is recorded twice. *)
Lemma leaf_ok n s :
  n < keys -> recorded (children n 0) s -> exists s',
    ((if n =? 1 then set_auth 0 (xn_value (leaf_node ask_j pub_seed n)) else mret tt) ;;
     absorb pub_seed depth k n (stack_from ask_j pub_seed (S depth) 0 n) (leaf_node ask_j pub_seed n)) s =
      (s', Ok (stack_from ask_j pub_seed (S depth) 0 (n + 1))) /\
    recorded (children (n + 1) 0) s'.
Proof.
  intros Hn Hr. rewrite leaf_mk_node.
  assert (n + 1 = (n + 1) * 2 ^ N.of_nat 0) as E by (change (2 ^ N.of_nat 0) with 1; lia).
  destruct (absorb_ok n (S depth) 0 n s Hn ltac:(lia) ltac:(lia) E Hr) as (s' & Ea & Hr').
  exists s'. split; [|done]. destruct (N.eqb_spec n 1) as [->|Hne]; [|exact Ea].
  assert (0 < length (bd_auth_path s))%nat as Hlen by (rewrite (rc_auth _ _ Hr), length_fmap, length_seq; lia).
  unfold set_auth. rewrite (ST_run _ _ _ _ _ (set_at_ok bd_auth_path with_auth 0 _ s Hlen)).
  rewrite <-Ea. cbn [stack_from]. change (N.odd 1) with true. cbn [app absorb].
  change (xn_height (mk_node ask_j pub_seed 0 (1 - 1))) with 0%nat.
  change (xn_height (mk_node ask_j pub_seed 0 1)) with 0%nat. cbn [Nat.eqb negb].
  change (shr_u32 1 0) with 1. unfold record_node. change (1 =? 1) with true. cbv iota.
  unfold set_auth. rewrite (ST_run _ _ _ _ _ (set_at_ok bd_auth_path with_auth 0 _ s Hlen)).
  assert (0 < length (bd_auth_path (with_auth (<[0%nat := xn_value (mk_node ask_j pub_seed 0 1)]>
    (bd_auth_path s)) s)))%nat as Hlen' by (cbn [bd_auth_path with_auth]; by rewrite length_insert).
  rewrite (ST_run _ _ _ _ _ (set_at_ok bd_auth_path with_auth 0 _ _ Hlen')).
  cbn [bd_auth_path with_auth]. by rewrite list_insert_insert_eq.
Qed.

Lemma ST_run_seq {St A B C} (m : ST St A) (g : ST St B) (f : B -> ST St C) s s' b :
  (m ;; g) s = (s', Ok b) -> (m ;; x ← g; f x) s = f b s'.
Proof.
  unfold mbind, ST_bind. destruct (m s) as [s0 [a|e|w]]; intros E; [|done..]. by rewrite E.
Qed.

Lemma build_ok m n s :
  (n + m <= N.to_nat keys)%nat -> recorded (children (N.of_nat n) 0) s -> exists s',
    build ask_j pub_seed depth k (N.of_nat <$> seq n m)
      (stack_from ask_j pub_seed (S depth) 0 (N.of_nat n)) s =
      (s', Ok (stack_from ask_j pub_seed (S depth) 0 (N.of_nat (n + m)))) /\
    recorded (children (N.of_nat (n + m)) 0) s'.
Proof.
  revert n s. induction m as [|m IH]; intros n s Hle Hr.
  - rewrite Nat.add_0_r. by exists s.
  - destruct (leaf_ok (N.of_nat n) s ltac:(lia) Hr) as (s1 & E1 & Hr1).
    replace (N.of_nat n + 1) with (N.of_nat (S n)) in * by lia.
    destruct (IH (S n) s1 ltac:(lia) Hr1) as (s2 & E2 & Hr2).
    exists s2. rewrite <-Nat.add_succ_comm. split; [|done].
    rewrite <-E2. cbn [seq fmap list_fmap build]. by apply ST_run_seq.
Qed.

(** ** The states it builds *)

Definition empty_state : XmssBdsState :=
  {| bd_next_index := 0; bd_auth_path := replicate depth ZERO;
     bd_keep := replicate depth slot_none;
     bd_treehash := treehash_new <$> seq 0 levels;
     bd_retain := replicate depth {| rl_nodes := []; rl_next := 0 |} |}.

Lemma children_none h : children 0 0 h = 0.
Proof. unfold children. apply N.Div0.div_0_l. Qed.

Lemma children_all h : (h < depth)%nat -> children keys 0 h = 2 ^ N.of_nat (depth - S h).
Proof.
  intros Hh. unfold children. change (h <? 0)%nat with false. cbv iota.
  rewrite (pow2_split (S h) depth) by lia. apply N.div_mul. pose proof (pow2_pos (S h)). lia.
Qed.

Lemma recorded_empty : recorded (children 0 0) empty_state.
Proof.
  constructor; cbn [bd_next_index bd_auth_path bd_keep bd_treehash bd_retain empty_state]; try done.
  - apply list_eq. intros i. destruct (decide (i < depth)%nat) as [Hi|Hi].
    + rewrite map_seq_lookup, lookup_replicate_2 by done. unfold auth_after. by rewrite children_none.
    + rewrite !lookup_ge_None_2; [done|..]; rewrite ?length_fmap, ?length_seq, ?length_replicate; lia.
  - rewrite length_replicate. split; [done|]. intros h Hh. unfold BdsAdvance.upper in Hh.
    rewrite lookup_replicate_2 by lia. unfold retain_after. by rewrite children_none.
Qed.

Lemma first_instance j : (j < levels)%nat -> instance_at ask_j pub_seed j (target 0 j)
  (if 2 <=? children keys 0 j then Done else Idle) (treehash_after (children keys 0) j).
Proof.
  intros Hj. assert (th_target_height (treehash_new j) = j) as Ht by (apply Nat.mod_small; lia).
  unfold treehash_after. destruct (2 <=? children keys 0 j).
  - split; [exact Ht|]. unfold target. by rewrite N.Div0.div_0_l.
  - by split.
Qed.

Lemma recorded_repr s : recorded (children keys 0) s -> bds_repr ask_j pub_seed depth k 0 s.
Proof.
  intros [Hnx Hau Hke Hth [Hrl Hre]]. constructor; [done|..].
  - rewrite Hau. apply map_seq_ext. intros h Hh. unfold auth_after, sibling.
    rewrite children_all, N.Div0.div_0_l by done. pose proof (pow2_pos (depth - S h)).
    by rewrite (proj2 (N.eqb_neq _ _)) by lia.
  - rewrite Hke. split; [by rewrite length_replicate|]. intros j _. by rewrite N.Div0.div_0_l.
  - exists (fun j => if 2 <=? children keys 0 j then Done else Idle). split; [|split].
    + rewrite Hth. split; [by rewrite length_fmap, length_seq|]. intros j t.
      rewrite list_lookup_fmap. destruct (seq 0 levels !! j) as [i|] eqn:E; [|done].
      apply lookup_seq in E as [-> Hj]. intros [= <-]. by apply first_instance.
    + apply on_time_idle. intros j c _. by case_match.
    + intros j Hj. rewrite children_all by lia. unfold target. rewrite N.Div0.div_0_l.
      change (2 * 0 + 3) with 3. rewrite (pow2_split (S j) depth), pow2_S by lia.
      pose proof (pow2_pos j). set (D := 2 ^ N.of_nat (depth - S j)). set (P := 2 ^ N.of_nat j) in *.
      destruct (N.leb_spec 2 D); split; try done; nia.
  - split; [done|]. intros h Hh. rewrite (Hre h Hh). unfold retain_after, retained.
    rewrite children_all, N.Div0.div_0_l by (unfold BdsAdvance.upper in Hh; lia). done.
Qed.

Lemma stack_full d b : (b + d = S depth)%nat -> (b <= depth)%nat ->
  stack_from ask_j pub_seed d b (2 ^ N.of_nat (depth - b)) = [mk_node ask_j pub_seed depth 0].
Proof.
  revert b. induction d as [|d IH]; intros b Hd Hb; [lia|]. cbn [stack_from].
  destruct (decide (b = depth)) as [->|Hne].
  - rewrite Nat.sub_diag. change (N.odd (2 ^ N.of_nat 0)) with true.
    assert (d = 0)%nat as -> by lia. done.
  - replace (depth - b)%nat with (S (depth - S b)) by lia. rewrite pow2_S, odd_double, half_double.
    apply IH; lia.
Qed.

Lemma shl1_leaves : N.to_nat (shl1_usize depth mod U32_LIMIT) = N.to_nat keys.
Proof.
  rewrite (shl1_depth depth k) by done. pose proof (keys_limit depth k Hdepth Hk).
  rewrite N.mod_small; [done|]. unfold U32_LIMIT. lia.
Qed.

Lemma new_with_params_ok : exists s,
  new_with_params false ask_j pub_seed depth k = Ok (s, node depth 0) /\
  bds_repr ask_j pub_seed depth k 0 s.
Proof.
  destruct (build_ok (N.to_nat keys) 0 empty_state ltac:(lia) recorded_empty) as (s & E & Hr).
  rewrite Nat.add_0_l, N2Nat.id in *. exists s. split; [|by apply recorded_repr].
  unfold new_with_params, assert_full_xmss_bds_rebuild_allowed. rewrite andb_false_r.
  rewrite (proj2 (Nat.eqb_neq depth 0)), (proj2 (Nat.leb_gt depth k)) by lia.
  rewrite shl1_leaves. fold empty_state. cbn [panic_unless negb fail_if mbind result_bind].
  assert (stack_from ask_j pub_seed (S depth) 0 (N.of_nat 0) = []) as E0
    by apply (stack_zero ask_j pub_seed (S depth) 0).
  rewrite E0 in E. rewrite E. rewrite <-(Nat.sub_0_r depth) at 2. rewrite stack_full by lia. done.
Qed.
End Build.
