(* ===== verification/BdsPaths.v ===== *)
(** * BdsPaths: what the wallet's traversal serves

    From the first state on, advancing key by key, the path the traversal holds is the
    path the core computes from the whole tree ([xmss_root_and_path_inner]), for each key
    of the tree, and its root is the tree's.  After the last key there is no path and no
    advance. *)

From S2P Require Import Prelude Felt Externals Concrete Types Hashing Merkle Wots.
From S2P Require Import Bds BdsTree BdsSchedule BdsAdvance BdsBuild.

Local Open Scope N_scope.

#[local] Opaque auth_leaf_hash_with_pub_seed xmss_tree_node_hash.

Section Paths.
Context `{Blake2s, WordTarget}.

(** ** Nodes of the core's tree *)

Lemma bnode_xnode ask_j h i :
  bnode ask_j (derive_auth_pub_seed ask_j) h i = xnode ask_j (derive_auth_pub_seed ask_j) h i.
Proof.
  revert i. induction h as [|h IH]; intros i; cbn [bnode xnode]; [|by rewrite !IH].
  unfold xleaf. by rewrite leaf_hash_inplace.
Qed.

Lemma sibling_xpath ask_j depth n :
  sibling ask_j (derive_auth_pub_seed ask_j) n <$> seq 0 depth =
  xpath ask_j (derive_auth_pub_seed ask_j) depth n.
Proof. apply map_seq_ext. intros h _. apply bnode_xnode. Qed.

Variables ask_j : F.
Variables depth k : nat.
Hypothesis Hdepth : (0 < depth < 32)%nat.
Hypothesis Hk : (k < depth)%nat.
Hypothesis Heven : Nat.Even (depth - k).

#[local] Abbreviation keys := (2 ^ N.of_nat depth).
#[local] Abbreviation pub_seed := (derive_auth_pub_seed ask_j).
#[local] Abbreviation repr := (bds_repr ask_j pub_seed depth k).

(** ** Advancing from the first key *)

Lemma advance_times_ok m n s :
  n + N.of_nat m < keys -> repr n s -> exists s',
    advance_times ask_j pub_seed m s = (s', Ok tt) /\ repr (n + N.of_nat m) s'.
Proof.
  revert n s. induction m as [|m IH]; intros n s Hn Hr; cbn [advance_times].
  - exists s. by rewrite N.add_0_r.
  - destruct (advance_ok ask_j pub_seed depth k Hdepth Hk Heven n s ltac:(lia) Hr) as (s1 & E & Hr1).
    rewrite (ST_run _ _ _ _ _ E). destruct (IH (n + 1) s1 ltac:(lia) Hr1) as (s2 & E2 & Hr2).
    exists s2. split; [done|]. by replace (n + N.of_nat (S m)) with (n + 1 + N.of_nat m) by lia.
Qed.

Lemma advance_times_snoc m s :
  advance_times ask_j pub_seed (S m) s =
  (advance_times ask_j pub_seed m ;; advance ask_j pub_seed) s.
Proof.
  revert s. induction m as [|m IH]; intros s.
  - cbn [advance_times]. unfold mbind, ST_bind, mret, ST_ret.
    by destruct (advance _ _ s) as [s1 [[]|e|w]].
  - cbn [advance_times] in *. unfold mbind, ST_bind in *.
    destruct (advance _ _ s) as [s1 [[]|e|w]]; [|done..]. rewrite IH. done.
Qed.

Lemma from_index_run n :
  n <= keys -> exists s0, repr 0 s0 /\
    from_index_with_params false ask_j pub_seed n depth k =
      let '(s, r) := advance_times ask_j pub_seed (N.to_nat n) s0 in
      r ;; mret (s, bnode ask_j pub_seed depth 0).
Proof.
  intros Hn. destruct (new_with_params_ok ask_j pub_seed depth k Hdepth Hk) as (s0 & E & Hr).
  exists s0. split; [done|]. unfold from_index_with_params, assert_full_xmss_bds_rebuild_allowed.
  rewrite andb_false_r, (shl1_depth depth k) by done. rewrite (proj2 (N.ltb_ge _ _)) by done.
  cbn [panic_unless negb fail_if mbind result_bind]. by rewrite E.
Qed.

Lemma from_index_ok n :
  n < keys -> exists s, repr n s /\
    from_index_with_params false ask_j pub_seed n depth k = Ok (s, bnode ask_j pub_seed depth 0).
Proof.
  intros Hn. destruct (from_index_run n ltac:(lia)) as (s0 & Hr & E).
  destruct (advance_times_ok (N.to_nat n) 0 s0 ltac:(lia) Hr) as (s & Es & Hs).
  rewrite N.add_0_l, N2Nat.id in Hs. exists s. split; [done|]. by rewrite E, Es.
Qed.

(** One index past the last key. *)
Lemma from_index_end :
  exists s, bd_auth_path s = [] /\ bd_next_index s = keys /\
    from_index_with_params false ask_j pub_seed keys depth k = Ok (s, bnode ask_j pub_seed depth 0).
Proof.
  destruct (from_index_run keys ltac:(lia)) as (s0 & Hr & E). pose proof (pow2_pos depth).
  replace (N.to_nat keys) with (S (N.to_nat (keys - 1))) in E by lia. rewrite advance_times_snoc in E.
  destruct (advance_times_ok (N.to_nat (keys - 1)) 0 s0 ltac:(lia) Hr) as (s & Es & Hs).
  rewrite N.add_0_l, N2Nat.id in Hs. rewrite (ST_run _ _ _ _ _ Es) in E.
  rewrite (advance_last ask_j pub_seed depth k Hdepth Hk s Hs) in E.
  eexists. split; [|split; [|exact E]]; done.
Qed.

(** A state before a key holds what the core computes for that key. *)
Lemma repr_whole_tree n s :
  n < keys -> repr n s ->
  xmss_root_and_path_inner false ask_j pub_seed 0 depth n =
    Ok (bnode ask_j pub_seed depth 0, Some (current_path s)).
Proof.
  intros Hn Hr. pose proof (keys_limit depth k Hdepth Hk).
  assert ((0 + 1) * keys <= U32_LIMIT) as Hu by (change U32_LIMIT with (2 ^ 32); lia).
  pose proof (xmss_root_and_path_spec ask_j pub_seed 0 depth n ltac:(lia) Hu) as Hp.
  rewrite N.mul_0_l, decide_True in Hp by by apply N.div_small.
  by rewrite Hp, bnode_xnode, <-sibling_xpath, (repr_path _ _ _ _ _ _ Hr).
Qed.
End Paths.

(** The wallet's own parameters. *)
Lemma wallet_depth : (0 < AUTH_DEPTH < 32)%nat.
Proof. unfold AUTH_DEPTH. lia. Qed.
Lemma wallet_k : (XMSS_BDS_K < AUTH_DEPTH)%nat.
Proof. unfold AUTH_DEPTH, XMSS_BDS_K. lia. Qed.
Lemma wallet_levels : Nat.Even (AUTH_DEPTH - XMSS_BDS_K).
Proof. by exists 7%nat. Qed.

(** ** Claims *)

Section Claims.
Context `{Blake2s, WordTarget}.

(** C28: Before each of its keys, a traversal of any tree of depth below 32 whose
    instance levels are even in number holds the authentication path, and has returned
    the root, that the core computes from the whole tree. *)
Theorem bds_serves_every_path (ask_j : F) (depth k : nat) (n : N) :
  (0 < depth < 32)%nat -> (k < depth)%nat -> Nat.Even (depth - k) -> n < 2 ^ N.of_nat depth ->
  let pub_seed := derive_auth_pub_seed ask_j in
  exists s root,
    from_index_with_params false ask_j pub_seed n depth k = Ok (s, root) /\
    bd_next_index s = n /\
    xmss_root_and_path_inner false ask_j pub_seed 0 depth n = Ok (root, Some (current_path s)).
Proof.
  intros Hd Hk He Hn. cbv zeta.
  destruct (from_index_ok ask_j depth k Hd Hk He n Hn) as (s & Hr & E).
  eexists _, _. split; [exact E|]. split; [apply (br_next _ _ _ _ _ _ Hr)|].
  by apply (repr_whole_tree ask_j depth k).
Qed.

(** Advancing the wallet's traversal ([from_index], depth 16 and [k = 2])
    from any key but the last leads, without an error, to the path that
    [auth_root_and_path] computes for the next key from the whole tree. *)
Theorem bds_advance_next_path (ask_j : F) (n : N) (s : XmssBdsState) (root : F) :
  n + 1 < 2 ^ 16 ->
  from_index false ask_j (derive_auth_pub_seed ask_j) n = Ok (s, root) ->
  exists s', advance ask_j (derive_auth_pub_seed ask_j) s = (s', Ok tt) /\
    bd_next_index s' = n + 1 /\
    auth_root_and_path false ask_j (n + 1) = Ok (root, current_path s').
Proof.
  unfold from_index, auth_root_and_path. change 16 with (N.of_nat AUTH_DEPTH).
  generalize wallet_depth, wallet_k, wallet_levels. generalize AUTH_DEPTH, XMSS_BDS_K. intros depth k Hd Hk He Hn E.
  destruct (from_index_ok ask_j depth k Hd Hk He n ltac:(lia)) as (s0 & Hr & E').
  rewrite E in E'. injection E' as -> ->.
  destruct (advance_ok ask_j _ depth k Hd Hk He n s0 Hn Hr) as (s' & Ea & Hr').
  exists s'. split; [done|]. split; [apply (br_next _ _ _ _ _ _ Hr')|].
  unfold assert_full_xmss_rebuild_allowed. cbn [negb panic_unless mbind result_bind].
  pose proof (keys_limit depth k Hd Hk). rewrite N.mod_small by (unfold U32_LIMIT; lia).
  by rewrite (repr_whole_tree ask_j depth k Hd Hk (n + 1) s' Hn Hr').
Qed.

(** The index one past the last key has no path and no advance; an index
    beyond it is refused. *)
Theorem bds_exhaustion (ask_j : F) (depth k : nat) (n : N) :
  (0 < depth < 32)%nat -> (k < depth)%nat -> Nat.Even (depth - k) -> 2 ^ N.of_nat depth <= n ->
  let pub_seed := derive_auth_pub_seed ask_j in
  match from_index_with_params false ask_j pub_seed n depth k with
  | Ok (s, _) => n = 2 ^ N.of_nat depth /\ current_path s = [] /\
      advance ask_j pub_seed s = (s, Err "XMSS keys exhausted")
  | Err e => 2 ^ N.of_nat depth < n /\ e = "invalid XMSS index " +:+ show_N n
  | Panic _ => False
  end.
Proof.
  intros Hd Hk He Hn. cbv zeta. pose proof (pow2_pos depth).
  destruct (N.eq_dec n (2 ^ N.of_nat depth)) as [->|Hne].
  - destruct (from_index_end ask_j depth k Hd Hk He) as (s & Ha & Hx & ->).
    split; [done|]. split; [done|]. apply (advance_exhausted ask_j _ depth k Hd Hk); [done|]. rewrite Hx. lia.
  - unfold from_index_with_params, assert_full_xmss_bds_rebuild_allowed.
    rewrite andb_false_r, (shl1_depth depth k), (proj2 (N.ltb_lt _ _)) by (done || lia).
    cbn [panic_unless negb fail_if mbind result_bind]. split; [lia|done].
Qed.
End Claims.

(** ** Witnesses *)

#[local] Existing Instances toy_blake2s host_target.
#[local] Instance bds_words : WordTarget.
Proof. vm_compute. discriminate. Qed.

Lemma bds_serves_every_path_witness :
  exists s root,
    from_index_with_params false ZERO (derive_auth_pub_seed ZERO) 5 4 2 = Ok (s, root) /\
    bd_next_index s = 5 /\
    xmss_root_and_path_inner false ZERO (derive_auth_pub_seed ZERO) 0 4 5 =
      Ok (root, Some (current_path s)).
Proof. apply bds_serves_every_path; [lia|lia|by exists 1%nat|reflexivity]. Defined.

Lemma bds_advance_next_path_witness :
  exists s root s',
    from_index false ZERO (derive_auth_pub_seed ZERO) 7 = Ok (s, root) /\
    advance ZERO (derive_auth_pub_seed ZERO) s = (s', Ok tt) /\
    bd_next_index s' = 8 /\
    auth_root_and_path false ZERO 8 = Ok (root, current_path s').
Proof.
  destruct (from_index_ok ZERO AUTH_DEPTH XMSS_BDS_K wallet_depth wallet_k wallet_levels 7) as (s & _ & E).
  - reflexivity.
  - eexists s, _. destruct (bds_advance_next_path ZERO 7 s _ eq_refl E) as (s' & Hs').
    exists s'. split; [exact E|exact Hs'].
Defined.

Lemma bds_exhaustion_witness :
  match from_index_with_params false ZERO (derive_auth_pub_seed ZERO) 16 4 2 with
  | Ok (s, _) => 16 = 2 ^ N.of_nat 4 /\ current_path s = [] /\
      advance ZERO (derive_auth_pub_seed ZERO) s = (s, Err "XMSS keys exhausted")
  | Err e => 2 ^ N.of_nat 4 < 16 /\ e = "invalid XMSS index " +:+ show_N 16
  | Panic _ => False
  end.
Proof. apply bds_exhaustion; [lia|lia|by exists 1%nat|discriminate]. Defined.
