(* ===== verification/Wallet.v ===== *)
(** * Wallet: the wallet's file and what it does with notes and one-time keys

    [WalletFile] of [apps/wallet/src/lib.rs] with its methods: addresses and their
    one-time keys, balances and note selection, output notes, the transfers and unshields
    it prepares, the check against a stale backup.  A [HashMap] is a [gmap], a [HashSet]
    a [gset].  A sum of [u64] amounts over a [Vec] is below 2^128, so the [u128] sums of
    the code are sums on [N].  Randomness is an argument. *)

From S2P Require Import Prelude Felt Externals Types Hashing Wots Notes Bds.

Local Open Scope N_scope.

Definition AUTH_TREE_SIZE : N := 2 ^ N.of_nat AUTH_DEPTH.
Definition U128_LIMIT : N := 2 ^ 128.

(** ** Data *)

Record WalletAddressState := {
  wa_index : N;
  wa_d_j : F;
  wa_auth_root : F;
  wa_auth_pub_seed : F;
  wa_nk_tag : F;
  wa_bds : XmssBdsState
}.

Record PendingSpend := {
  psp_nullifiers : list F;
  psp_description : string;
  psp_operation_hash : option string
}.

Record PendingDeposit := {
  pd_pubkey_hash : F;
  pd_blind : F;
  pd_address_index : N;
  pd_auth_domain : F;
  pd_amount : N;
  pd_operation_hash : option string;
  pd_shielded_cm : option F
}.

Record WalletFile := {
  wf_master_sk : F;
  wf_addresses : list WalletAddressState;
  wf_addr_counter : N;
  wf_notes : list Note;
  wf_scanned : N;
  wf_wots_key_indices : gmap N N;
  wf_pending_spends : list PendingSpend;
  wf_pending_deposits : list PendingDeposit;
  wf_deposit_nonce : N
}.

Record WalletXmssFloor := {
  fl_wallet_fingerprint : F;
  fl_addr_counter : N;
  fl_wots_key_indices : gmap N N
}.

Record PreparedOutputNote := {
  on_cm : F;
  on_enc : EncryptedNote;
  on_mh : F;
  on_rseed : F
}.

Record PreparedTransferSubmit := {
  pts_selected : list nat;
  pts_change : N;
  pts_req : TransferReq
}.

Record PreparedUnshieldSubmit := {
  pus_selected : list nat;
  pus_change : N;
  pus_req : UnshieldReq
}.

(** What a note builder draws: the seed of the note and its two ephemerals. *)
Record NoteRandomness := { nr_rseed : F; nr_detect : F; nr_view : F }.

(** ** Fields of the wallet *)

Definition wf_with_addresses (l : list WalletAddressState) (w : WalletFile) : WalletFile :=
  {| wf_master_sk := wf_master_sk w; wf_addresses := l; wf_addr_counter := wf_addr_counter w;
     wf_notes := wf_notes w; wf_scanned := wf_scanned w;
     wf_wots_key_indices := wf_wots_key_indices w; wf_pending_spends := wf_pending_spends w;
     wf_pending_deposits := wf_pending_deposits w; wf_deposit_nonce := wf_deposit_nonce w |}.
Definition wf_with_addr_counter (n : N) (w : WalletFile) : WalletFile :=
  {| wf_master_sk := wf_master_sk w; wf_addresses := wf_addresses w; wf_addr_counter := n;
     wf_notes := wf_notes w; wf_scanned := wf_scanned w;
     wf_wots_key_indices := wf_wots_key_indices w; wf_pending_spends := wf_pending_spends w;
     wf_pending_deposits := wf_pending_deposits w; wf_deposit_nonce := wf_deposit_nonce w |}.
Definition wf_with_notes (l : list Note) (w : WalletFile) : WalletFile :=
  {| wf_master_sk := wf_master_sk w; wf_addresses := wf_addresses w;
     wf_addr_counter := wf_addr_counter w; wf_notes := l; wf_scanned := wf_scanned w;
     wf_wots_key_indices := wf_wots_key_indices w; wf_pending_spends := wf_pending_spends w;
     wf_pending_deposits := wf_pending_deposits w; wf_deposit_nonce := wf_deposit_nonce w |}.
Definition wf_with_scanned (n : N) (w : WalletFile) : WalletFile :=
  {| wf_master_sk := wf_master_sk w; wf_addresses := wf_addresses w;
     wf_addr_counter := wf_addr_counter w; wf_notes := wf_notes w; wf_scanned := n;
     wf_wots_key_indices := wf_wots_key_indices w; wf_pending_spends := wf_pending_spends w;
     wf_pending_deposits := wf_pending_deposits w; wf_deposit_nonce := wf_deposit_nonce w |}.
Definition wf_with_wots_key_indices (m : gmap N N) (w : WalletFile) : WalletFile :=
  {| wf_master_sk := wf_master_sk w; wf_addresses := wf_addresses w;
     wf_addr_counter := wf_addr_counter w; wf_notes := wf_notes w; wf_scanned := wf_scanned w;
     wf_wots_key_indices := m; wf_pending_spends := wf_pending_spends w;
     wf_pending_deposits := wf_pending_deposits w; wf_deposit_nonce := wf_deposit_nonce w |}.
Definition wf_with_pending_spends (l : list PendingSpend) (w : WalletFile) : WalletFile :=
  {| wf_master_sk := wf_master_sk w; wf_addresses := wf_addresses w;
     wf_addr_counter := wf_addr_counter w; wf_notes := wf_notes w; wf_scanned := wf_scanned w;
     wf_wots_key_indices := wf_wots_key_indices w; wf_pending_spends := l;
     wf_pending_deposits := wf_pending_deposits w; wf_deposit_nonce := wf_deposit_nonce w |}.
Definition wf_with_pending_deposits (l : list PendingDeposit) (w : WalletFile) : WalletFile :=
  {| wf_master_sk := wf_master_sk w; wf_addresses := wf_addresses w;
     wf_addr_counter := wf_addr_counter w; wf_notes := wf_notes w; wf_scanned := wf_scanned w;
     wf_wots_key_indices := wf_wots_key_indices w; wf_pending_spends := wf_pending_spends w;
     wf_pending_deposits := l; wf_deposit_nonce := wf_deposit_nonce w |}.
Definition wf_with_deposit_nonce (n : N) (w : WalletFile) : WalletFile :=
  {| wf_master_sk := wf_master_sk w; wf_addresses := wf_addresses w;
     wf_addr_counter := wf_addr_counter w; wf_notes := wf_notes w; wf_scanned := wf_scanned w;
     wf_wots_key_indices := wf_wots_key_indices w; wf_pending_spends := wf_pending_spends w;
     wf_pending_deposits := wf_pending_deposits w; wf_deposit_nonce := n |}.

(** The wallet [cmd_keygen] writes: [at_tree_size] skips the notes of a tree already
    that large. *)
Definition new_wallet `{Target} (master_sk : F) (at_tree_size : option N) : WalletFile :=
  {| wf_master_sk := master_sk; wf_addresses := []; wf_addr_counter := 0; wf_notes := [];
     wf_scanned := from_option (fun n => default (usize_limit - 1) (to_usize n)) 0 at_tree_size;
     wf_wots_key_indices := ∅; wf_pending_spends := []; wf_pending_deposits := [];
     wf_deposit_nonce := 0 |}.

(** [a..b]. *)
Definition range (a b : N) : list N := (fun i => a + N.of_nat i) <$> seq 0 (N.to_nat (b - a)).

(** [sort_by(|a, b| b.1.cmp(&a.1))]: stable, the largest first. *)
Fixpoint insert_desc {A} (x : A * N) (l : list (A * N)) : list (A * N) :=
  match l with
  | [] => [x]
  | y :: l' => if snd x <? snd y then y :: insert_desc x l' else x :: l
  end.
Definition sort_desc {A} (l : list (A * N)) : list (A * N) := foldr insert_desc [] l.

Definition sum_amounts (l : list N) : N := foldr N.add 0 l.

(** [a - b] on [u128] in a release build. *)
Definition sub_u128 (a b : N) : N := (a + U128_LIMIT - b) mod U128_LIMIT.

(** Keys of other wallets, parsed: [EncapsulationKey::new] on an array of the crate's
    key size. *)
Definition ML_KEM768_EK_BYTES : nat := 1184.

Class MlKemImport `{MlKem} := { kem_ek_new : bytes -> option Ek }.

Class MlKemImportLaws `{MlKemImport} : Prop := {
  length_kem_ek_bytes : forall dk, length (kem_ek_bytes (kem_encapsulation_key dk)) = ML_KEM768_EK_BYTES;
  kem_ek_new_bytes : forall dk,
    kem_ek_new (kem_ek_bytes (kem_encapsulation_key dk)) = Some (kem_encapsulation_key dk);
  kem_decapsulate_total : forall dk ct,
    length ct = ML_KEM768_CIPHERTEXT_BYTES -> is_Some (kem_try_decapsulate dk ct)
}.

Section Wallet.
Context `{Blake2s, MlKem, !MlKemImport, Aead, Hex, Target}.

(** The environment traps a full rebuild of a key tree. *)
Variable rebuild_trapped : bool.

Definition payment_address (st : WalletAddressState) (ek_v ek_d : Ek) : PaymentAddress :=
  {| pa_d_j := wa_d_j st; pa_auth_root := wa_auth_root st; pa_auth_pub_seed := wa_auth_pub_seed st;
     pa_nk_tag := wa_nk_tag st; pa_ek_v := kem_ek_bytes ek_v; pa_ek_d := kem_ek_bytes ek_d |}.

Definition account (w : WalletFile) : Account := derive_account (wf_master_sk w).

(** ** Addresses and their one-time keys *)

Definition derive_address_state (w : WalletFile) (j next_wots_index : N) : result WalletAddressState :=
  let acc := account w in
  let d_j := derive_address (acc_incoming_seed acc) j in
  let ask_j := derive_ask (acc_ask_base acc) j in
  let auth_pub_seed := derive_auth_pub_seed ask_j in
  '(bds, auth_root) ← from_index rebuild_trapped ask_j auth_pub_seed next_wots_index;
  let nk_spend := derive_nk_spend (acc_nk acc) d_j in
  let nk_tag := derive_nk_tag nk_spend in
  mret {| wa_index := j; wa_d_j := d_j; wa_auth_root := auth_root;
          wa_auth_pub_seed := auth_pub_seed; wa_nk_tag := nk_tag; wa_bds := bds |}.

Definition addresses_len (w : WalletFile) : N := N.of_nat (length (wf_addresses w)).

Definition push_address (st : WalletAddressState) (w : WalletFile) : WalletFile :=
  wf_with_addresses (wf_addresses w ++ [st]) w.

Definition materialize_one (j : N) : ST WalletFile unit :=
  st ← reads (fun w =>
    derive_address_state w j (default 0 (wf_wots_key_indices w !! j)));
  writes (push_address st).

(** [wots_key_indices] as the addresses have them. *)
Definition record_next_indices (w : WalletFile) : WalletFile :=
  wf_with_wots_key_indices
    (foldl (fun m addr => <[wa_index addr := bd_next_index (wa_bds addr)]> m)
       (wf_wots_key_indices w) (wf_addresses w)) w.

Definition materialize_addresses : ST WalletFile unit :=
  existing ← reads (fun w => mret (addresses_len w mod U32_LIMIT));
  addr_counter ← reads (fun w => mret (wf_addr_counter w));
  for_each materialize_one (range existing addr_counter) ;;
  writes record_next_indices.

Definition kem_keys (w : WalletFile) (j : N) : Ek * Dk * Ek * Dk :=
  derive_kem_keys (acc_incoming_seed (account w)) j.

Definition next_address : ST WalletFile (WalletAddressState * PaymentAddress) :=
  j ← reads (fun w => mret (wf_addr_counter w));
  state ← reads (fun w =>
    match wf_addresses w !! N.to_nat j with
    | Some existing => mret existing
    | None => derive_address_state w j 0
    end);
  keys ← reads (fun w => mret (kem_keys w j));
  let '(ek_v, _, ek_d, _) := keys in
  writes (fun w => wf_with_addr_counter (add_u32 (wf_addr_counter w) 1) w) ;;
  writes (fun w => if addresses_len w <=? j then push_address state w else w) ;;
  mret (state, payment_address state ek_v ek_d).

(** The address record with its traversal replaced. *)
Definition with_bds (st : WalletAddressState) (bds : XmssBdsState) : WalletAddressState :=
  {| wa_index := wa_index st; wa_d_j := wa_d_j st; wa_auth_root := wa_auth_root st;
     wa_auth_pub_seed := wa_auth_pub_seed st; wa_nk_tag := wa_nk_tag st; wa_bds := bds |}.

(** [bds.advance(..)?] on the record at [i]. *)
Definition advance_address (i : nat) (ask_j : F) : ST WalletFile unit := fun w =>
  match wf_addresses w !! i with
  | None => (w, Panic "index out of bounds")
  | Some addr =>
      let '(bds, r) := advance ask_j (wa_auth_pub_seed addr) (wa_bds addr) in
      (wf_with_addresses (<[i := with_bds addr bds]> (wf_addresses w)) w, r)
  end.

Definition reserve_next_auth (addr_index : N) : ST WalletFile (N * F * F * list F) :=
  ask_base ← reads (fun w => mret (acc_ask_base (account w)));
  addr ← reads (fun w =>
    ok_or (wf_addresses w !! N.to_nat addr_index) ("missing address record " +:+ show_N addr_index));
  let ask_j := derive_ask ask_base addr_index in
  let key_idx := bd_next_index (wa_bds addr) in
  lift (fail_if (AUTH_TREE_SIZE <=? key_idx)
    ("XMSS keys exhausted for address " +:+ show_N addr_index +:+ " — generate a new address")) ;;
  let path := current_path (wa_bds addr) in
  advance_address (N.to_nat addr_index) ask_j ;;
  next_index ← reads (fun w =>
    addr ← index_at (wf_addresses w) (N.to_nat addr_index); mret (bd_next_index (wa_bds addr)));
  writes (fun w => wf_with_wots_key_indices (<[addr_index := next_index]> (wf_wots_key_indices w)) w) ;;
  mret (key_idx, wa_auth_root addr, wa_auth_pub_seed addr, path).

(** ** The floor kept beside the wallet *)

Definition wallet_xmss_floor (w : WalletFile) : WalletXmssFloor :=
  {| fl_wallet_fingerprint := hash (F_bytes (wf_master_sk w));
     fl_addr_counter := wf_addr_counter w;
     fl_wots_key_indices :=
       foldl (fun m addr =>
         let next_index := bd_next_index (wa_bds addr) in
         <[wa_index addr := from_option (N.max next_index) next_index (m !! wa_index addr)]> m)
         (wf_wots_key_indices w) (wf_addresses w) |}.

Definition current_wallet_wots_floor (w : WalletFile) (addr_index : N) : N :=
  match wf_wots_key_indices w !! addr_index with
  | Some next => next
  | None =>
      default 0 ((fun addr => bd_next_index (wa_bds addr)) <$>
        head (filter (fun addr => wa_index addr = addr_index) (wf_addresses w)))
  end.

(** The loop over the floor's map; [entries] is the order in which the map is iterated. *)
Fixpoint enforce_entries (w : WalletFile) (entries : list (N * N)) : result unit :=
  match entries with
  | [] => mret tt
  | (addr_index, required_next) :: entries =>
      let current_next := current_wallet_wots_floor w addr_index in
      fail_if (current_next <? required_next)
        ("wallet appears to be restored from a stale backup: address " +:+ show_N addr_index +:+
         " next_wots_index " +:+ show_N current_next +:+ " is behind durable XMSS floor " +:+
         show_N required_next) ;;
      enforce_entries w entries
  end.

(** On a floor read from its file and parsed; without a floor nothing is checked. *)
Definition enforce_wallet_xmss_floor (floor : option WalletXmssFloor) (entries : list (N * N))
    (w : WalletFile) : result unit :=
  match floor with
  | None => mret tt
  | Some floor =>
      if negb (bool_decide (fl_wallet_fingerprint floor = hash (F_bytes (wf_master_sk w)))) then mret tt
      else
        fail_if (wf_addr_counter w <? fl_addr_counter floor)
          ("wallet appears to be restored from a stale backup: addr_counter " +:+
           show_N (wf_addr_counter w) +:+ " is behind durable XMSS floor " +:+
           show_N (fl_addr_counter floor)) ;;
        enforce_entries w entries
  end.

(** [load_wallet] on the two files' contents. *)
Definition load_wallet (w : WalletFile) (floor : option WalletXmssFloor) (entries : list (N * N))
    : result WalletFile :=
  enforce_wallet_xmss_floor floor entries w ;;
  let '(w, r) := materialize_addresses w in
  r ;; mret w.

(** ** Notes and balances *)

(** [note.index as u64]. *)
Definition note_nullifier (note : Note) : F :=
  nullifier (note_nk_spend note) (note_cm note) (note_index note mod U64_LIMIT).

Definition recover_note_for_address (acc : Account) (addr : WalletAddressState) (v : N)
    (rseed cm : F) (index : N) : option Note :=
  let nk_sp := derive_nk_spend (acc_nk acc) (wa_d_j addr) in
  let nk_tg := derive_nk_tag nk_sp in
  let otag := owner_tag (wa_auth_root addr) (wa_auth_pub_seed addr) nk_tg in
  let rcm := derive_rcm rseed in
  if bool_decide (commit (wa_d_j addr) v rcm otag = cm) then
    Some {| note_nk_spend := nk_sp; note_nk_tag := nk_tg; note_auth_root := wa_auth_root addr;
            note_d_j := wa_d_j addr; note_v := v; note_rseed := rseed; note_cm := cm;
            note_index := index; note_addr_index := wa_index addr |}
  else None.

(** The loop over the addresses of [try_recover_note]. *)
Fixpoint recover_from (w : WalletFile) (acc : Account) (addresses : list WalletAddressState)
    (nm : NoteMemo) : result (option Note) :=
  match addresses with
  | [] => mret None
  | addr :: addresses =>
      let '(_, dk_v_j, _, dk_d_j) := kem_keys w (wa_index addr) in
      detected ← detect (nm_enc nm) dk_d_j;
      if negb detected then recover_from w acc addresses nm
      else
        opened ← decrypt_memo (nm_enc nm) dk_v_j;
        match opened with
        | None => recover_from w acc addresses nm
        | Some (v, rseed, _memo) =>
            match recover_note_for_address acc addr v rseed (nm_cm nm) (nm_index nm) with
            | Some note => mret (Some note)
            | None => recover_from w acc addresses nm
            end
        end
  end.

Definition try_recover_note (w : WalletFile) (nm : NoteMemo) : result (option Note) :=
  recover_from w (account w) (wf_addresses w) nm.

Definition balance (w : WalletFile) : N := sum_amounts (note_v <$> wf_notes w).

Definition pending_nullifier_set (w : WalletFile) : gset F :=
  list_to_set (wf_pending_spends w ≫= psp_nullifiers).

Definition available_notes (w : WalletFile) : list Note :=
  filter (fun note => note_nullifier note ∉ pending_nullifier_set w) (wf_notes w).

Definition available_balance (w : WalletFile) : N := sum_amounts (note_v <$> available_notes w).

Definition pending_outgoing_balance (w : WalletFile) : N :=
  sum_amounts (note_v <$>
    filter (fun note => note_nullifier note ∈ pending_nullifier_set w) (wf_notes w)).

Definition register_pending_spend (nullifiers : list F) (description : string)
    (operation_hash : option string) (w : WalletFile) : WalletFile :=
  wf_with_pending_spends
    (wf_pending_spends w ++ [{| psp_nullifiers := nullifiers; psp_description := description;
                                psp_operation_hash := operation_hash |}]) w.

(** The positions and values of the notes that are not pending. *)
Definition indexed_notes (w : WalletFile) : list (nat * N) :=
  (fun '(i, n) => (i, note_v n)) <$>
    filter (fun '(_, note) => note_nullifier note ∉ pending_nullifier_set w) (imap pair (wf_notes w)).

(** The loop over the sorted notes. *)
Fixpoint take_notes (amount : N) (sum : N) (selected : list nat) (indexed : list (nat * N))
    : option (list nat) :=
  match indexed with
  | [] => None
  | (i, v) :: indexed =>
      let selected := selected ++ [i] in
      let sum := sum + v in
      if amount <=? sum then Some selected else take_notes amount sum selected indexed
  end.

Definition select_notes (w : WalletFile) (amount : N) : result (list nat) :=
  ok_or (take_notes amount 0 [] (sort_desc (indexed_notes w)))
    ("insufficient funds: have " +:+ show_N (available_balance w) +:+ " available (" +:+
     show_N (pending_outgoing_balance w) +:+ " pending) need " +:+ show_N amount).

(** ** Fees *)

(** [ensure_required_tx_fee] prints the required fee in tez as well. *)
Fixpoint trim_zeros (b : bytes) : bytes :=
  match b with
  | [] => []
  | c :: b =>
      match trim_zeros b with
      | [] => if decide (c = Byte.x30) then [] else [c]
      | b => c :: b
      end
  end.

(** [{:06}] of a number below a million. *)
Definition pad6 (n : N) : bytes :=
  let digits := str_bytes (pretty n) in
  replicate (6 - length digits) Byte.x30 ++ digits.

Definition mutez_to_tez_string (amount_mutez : N) : string :=
  let whole := amount_mutez / 1000000 in
  let fractional := amount_mutez mod 1000000 in
  if fractional =? 0 then pretty whole
  else bytes_str (trim_zeros (str_bytes (pretty whole) ++ [Byte.x2e] ++ pad6 fractional)).

Definition ensure_required_tx_fee (fee required_fee : N) : result unit :=
  fail_if (fee <? required_fee)
    ("fee below minimum: " +:+ show_N fee +:+ " mutez < " +:+ show_N required_fee +:+ " mutez (" +:+
     mutez_to_tez_string required_fee +:+ " tez)").

Definition resolve_requested_tx_fee (requested_fee : option N) (required_fee : N) : result N :=
  let fee := default required_fee requested_fee in
  ensure_required_tx_fee fee required_fee ;;
  mret fee.

Definition ensure_positive_dal_fee (dal_fee : N) : result unit :=
  fail_if (dal_fee =? 0) "dal_fee must be greater than zero".

(** ** Output notes *)

Definition outgoing_recovery_plaintext (address : PaymentAddress) (role : OutgoingNoteRole)
    (value : N) (rseed : F) : OutgoingRecoveryPlaintext :=
  {| or_role := role; or_value := value; or_rseed := rseed; or_d_j := pa_d_j address;
     or_auth_root := pa_auth_root address; or_auth_pub_seed := pa_auth_pub_seed address;
     or_nk_tag := pa_nk_tag address |}.

Definition parse_ek (bad invalid : string) (b : bytes) : result Ek :=
  fail_if (negb (length b =? ML_KEM768_EK_BYTES)%nat) bad ;;
  ok_or (kem_ek_new b) invalid.

(** [enc.outgoing_ct = ct]. *)
Definition with_outgoing_ct (ct : bytes) (enc : EncryptedNote) : EncryptedNote :=
  {| en_ct_d := en_ct_d enc; en_tag := en_tag enc; en_ct_v := en_ct_v enc; en_nonce := en_nonce enc;
     en_encrypted_data := en_encrypted_data enc; en_outgoing_ct := ct |}.

Definition build_output_note_inner (rnd : NoteRandomness) (address : PaymentAddress) (value : N)
    (memo : option bytes) (outgoing : option (F * OutgoingNoteRole)) : result PreparedOutputNote :=
  let rseed := nr_rseed rnd in
  let rcm := derive_rcm rseed in
  ek_v ← parse_ek "bad ek_v" "invalid ek_v" (pa_ek_v address);
  ek_d ← parse_ek "bad ek_d" "invalid ek_d" (pa_ek_d address);
  let otag := owner_tag (pa_auth_root address) (pa_auth_pub_seed address) (pa_nk_tag address) in
  let cm := commit (pa_d_j address) value rcm otag in
  enc ← encrypt_note false value rseed memo ek_v ek_d (nr_detect rnd) (nr_view rnd);
  enc ←
    match outgoing with
    | Some (outgoing_seed, role) =>
        let recovery := outgoing_recovery_plaintext address role value rseed in
        ct ← encrypt_outgoing_recovery outgoing_seed cm recovery;
        mret (with_outgoing_ct ct enc)
    | None => mret enc
    end;
  let mh := memo_ct_hash enc in
  mret {| on_cm := cm; on_enc := enc; on_mh := mh; on_rseed := rseed |}.

Definition build_output_note_with_outgoing (rnd : NoteRandomness) (address : PaymentAddress)
    (value : N) (memo : option bytes) (outgoing_seed : F) (role : OutgoingNoteRole)
    : result PreparedOutputNote :=
  build_output_note_inner rnd address value memo (Some (outgoing_seed, role)).

(** ** Spending *)

(** [amount.checked_add(fee).and_then(|value| value.checked_add(dal_fee))]. *)
Definition total_spend (amount fee dal_fee : N) (msg : string) : result N :=
  ok_or (checked_add_u64 amount fee ≫= fun value => checked_add_u64 value dal_fee) msg.

Definition selected_notes (w : WalletFile) (selected : list nat) : result (list Note) :=
  map_result (index_at (wf_notes w)) selected.

(** [(sum_in - amount - fee - dal_fee) as u64], on [u128]. *)
Definition change_of (notes : list Note) (amount fee dal_fee : N) : N :=
  sub_u128 (sub_u128 (sub_u128 (sum_amounts (note_v <$> notes)) amount) fee) dal_fee mod U64_LIMIT.

Definition dal_memo : option bytes := Some (str_bytes "dal").

(** A note of the wallet to itself, at a new address. *)
Definition change_output (rnd : NoteRandomness) (change : N) (outgoing_seed : F) (role : OutgoingNoteRole)
    : ST WalletFile (WalletAddressState * PreparedOutputNote) :=
  '(change_state, _) ← next_address;
  keys ← reads (fun w => mret (kem_keys w (wa_index change_state)));
  let '(ek_v_c, _, ek_d_c, _) := keys in
  let change_address := payment_address change_state ek_v_c ek_d_c in
  note ← lift (build_output_note_with_outgoing rnd change_address change None outgoing_seed role);
  mret (change_state, note).

Definition change_note (rnd : NoteRandomness) (change : N) (outgoing_seed : F) (role : OutgoingNoteRole)
    : ST WalletFile PreparedOutputNote :=
  '(_, note) ← change_output rnd change outgoing_seed role;
  mret note.

Definition prepare_transfer_skip_proof (rnd_1 rnd_2 rnd_3 : NoteRandomness) (root : F)
    (recipient : PaymentAddress) (amount fee dal_fee : N) (producer_address : PaymentAddress)
    (memo : option string) : ST WalletFile PreparedTransferSubmit :=
  total ← lift (total_spend amount fee dal_fee "transfer total spend overflow");
  selected ← reads (fun w => select_notes w total);
  notes ← reads (fun w => selected_notes w selected);
  let change := change_of notes amount fee dal_fee in
  let nullifiers := note_nullifier <$> notes in
  outgoing_seed ← reads (fun w => mret (acc_outgoing_seed (account w)));
  note_1 ← lift (build_output_note_with_outgoing rnd_1 recipient amount (str_bytes <$> memo)
    outgoing_seed TransferRecipient);
  note_2 ← change_note rnd_2 change outgoing_seed TransferChange;
  note_3 ← lift (build_output_note_with_outgoing rnd_3 producer_address dal_fee dal_memo
    outgoing_seed ProducerFee);
  mret {| pts_selected := selected; pts_change := change;
          pts_req := {| tr_root := root; tr_nullifiers := nullifiers; tr_fee := fee;
                        tr_cm_1 := on_cm note_1; tr_cm_2 := on_cm note_2; tr_cm_3 := on_cm note_3;
                        tr_enc_1 := on_enc note_1; tr_enc_2 := on_enc note_2;
                        tr_enc_3 := on_enc note_3; tr_proof := TrustMeBro |} |}.

Definition prepare_unshield_skip_proof (rnd_change rnd_fee : NoteRandomness) (root : F)
    (amount fee dal_fee : N) (producer_address : PaymentAddress) (recipient : string)
    : ST WalletFile PreparedUnshieldSubmit :=
  total ← lift (total_spend amount fee dal_fee "unshield total spend overflow");
  selected ← reads (fun w => select_notes w total);
  notes ← reads (fun w => selected_notes w selected);
  let change := change_of notes amount fee dal_fee in
  let nullifiers := note_nullifier <$> notes in
  outgoing_seed ← reads (fun w => mret (acc_outgoing_seed (account w)));
  '(cm_change, enc_change) ←
    (if 0 <? change then
       note ← change_note rnd_change change outgoing_seed UnshieldChange;
       mret (on_cm note, Some (on_enc note))
     else mret (ZERO, None));
  producer_note ← lift (build_output_note_with_outgoing rnd_fee producer_address dal_fee dal_memo
    outgoing_seed ProducerFee);
  mret {| pus_selected := selected; pus_change := change;
          pus_req := {| ur_root := root; ur_nullifiers := nullifiers; ur_v_pub := amount;
                        ur_fee := fee; ur_recipient := recipient; ur_cm_change := cm_change;
                        ur_enc_change := enc_change; ur_cm_fee := on_cm producer_note;
                        ur_enc_fee := on_enc producer_note; ur_proof := TrustMeBro |} |}.

(** [w.notes.remove(i)], which panics out of range. *)
Definition remove_note (i : nat) : ST WalletFile unit := fun w =>
  if (i <? length (wf_notes w))%nat then (wf_with_notes (delete i (wf_notes w)) w, Ok tt)
  else (w, Panic "removal index should be < len").

(** [finalize_successful_spend] up to its save: from the highest position down. *)
Definition remove_selected (selected : list nat) : ST WalletFile unit :=
  for_each remove_note (fst <$> sort_desc ((fun i => (i, N.of_nat i)) <$> selected)).
End Wallet.
