(* ===== verification/WalletSelect.v ===== *)
(** * WalletSelect: which notes the wallet spends

    [select_notes] takes available notes, the largest first, until they cover the amount.
    It fails only when no choice of available notes covers it, and no choice covers it
    with fewer notes. *)

From stdpp Require Import sorting.
From S2P Require Import Prelude Felt Externals Types Hashing Wots Notes Bds Wallet.

Local Open Scope N_scope.

(** ** Sums *)

Lemma sum_amounts_app l l' : sum_amounts (l ++ l') = sum_amounts l + sum_amounts l'.
Proof. unfold sum_amounts. induction l as [|x l IH]; cbn; lia. Qed.

#[export] Instance sum_amounts_perm : Proper ((≡ₚ) ==> eq) sum_amounts.
Proof. unfold sum_amounts. induction 1; cbn in *; lia. Qed.

Lemma sum_amounts_elem x l : x ∈ l -> x <= sum_amounts l.
Proof. unfold sum_amounts. induction 1; cbn; lia. Qed.

(** ** The sort *)
Section Sort.
Context {A : Type}.
Implicit Types (x y : A * N) (l : list (A * N)).

Definition desc x y : Prop := snd y <= snd x.

Lemma insert_desc_perm x l : insert_desc x l ≡ₚ x :: l.
Proof.
  induction l as [|y l IH]; cbn [insert_desc]; [done|]. case_match; [|done].
  rewrite IH. apply Permutation_swap.
Qed.

Lemma sort_desc_perm l : sort_desc l ≡ₚ l.
Proof. induction l as [|x l IH]; cbn; [done|]. by rewrite insert_desc_perm, IH. Qed.

Lemma insert_desc_sorted x l : StronglySorted desc l -> StronglySorted desc (insert_desc x l).
Proof.
  induction 1 as [|y l Hs IH Hy]; cbn [insert_desc]; [repeat constructor|].
  destruct (N.ltb_spec (snd x) (snd y)) as [Hlt|Hge].
  - constructor; [done|]. rewrite insert_desc_perm. constructor; [unfold desc; lia|done].
  - constructor; [by constructor|]. constructor; [done|].
    eapply Forall_impl; [exact Hy|]. unfold desc. intros z Hz. lia.
Qed.

Lemma sort_desc_sorted l : StronglySorted desc (sort_desc l).
Proof. induction l as [|x l IH]; cbn; [constructor|]. by apply insert_desc_sorted. Qed.

(** ** Prefixes of a sorted list *)

Definition total l : N := sum_amounts (snd <$> l).

Lemma total_app l l' : total (l ++ l') = total l + total l'.
Proof. unfold total. by rewrite fmap_app, sum_amounts_app. Qed.

Lemma total_cons x l : total (x :: l) = snd x + total l.
Proof. done. Qed.

#[export] Instance total_perm : Proper ((≡ₚ) ==> eq) total.
Proof. intros l l' Hp. unfold total. by rewrite Hp. Qed.

Lemma total_take_S k l y : l !! k = Some y -> total (take (S k) l) = total (take k l) + snd y.
Proof. intros Hk. rewrite (take_S_r _ _ y) by done. rewrite total_app, total_cons. cbn. lia. Qed.

(** Dropping a larger head for one more element does not pay. *)
Lemma total_take_shift y l m :
  Forall (desc y) l -> (0 < m)%nat -> total (take m l) <= snd y + total (take (m - 1) l).
Proof.
  intros Hy Hm. destruct m as [|m]; [lia|]. replace (S m - 1)%nat with m by lia.
  destruct (l !! m) as [z|] eqn:Ez.
  - rewrite (total_take_S _ _ z Ez). rewrite Forall_lookup in Hy. specialize (Hy m z Ez).
    unfold desc in Hy. lia.
  - apply lookup_ge_None in Ez. rewrite !take_ge by lia. lia.
Qed.

(** No elements have a larger sum than as many of the first. *)
Lemma total_prefix_max l s :
  StronglySorted desc l -> s ⊆+ l -> total s <= total (take (length s) l).
Proof.
  intros Hs. revert s. induction Hs as [|y l Hs IH Hy]; intros s Hsub.
  - by apply submseteq_nil_r in Hsub as ->.
  - apply submseteq_cons_r in Hsub as [Hsub|(s' & Hp & Hsub)].
    + destruct s as [|x s]; [cbn; lia|]. specialize (IH _ Hsub). cbn [length] in *.
      cbn [take]. rewrite (total_cons y).
      pose proof (total_take_shift y l (S (length s)) Hy ltac:(lia)) as Hsh.
      replace (S (length s) - 1)%nat with (length s) in Hsh by lia. lia.
    + rewrite Hp. cbn [length take]. rewrite !total_cons. specialize (IH _ Hsub). lia.
Qed.

Lemma total_take_last k l y x :
  StronglySorted desc l -> l !! k = Some y -> x ∈ take (S k) l -> snd y <= snd x.
Proof.
  intros Hs Hk Hx. rewrite (take_S_r _ _ y) in Hx by done.
  apply elem_of_app in Hx as [Hx| ->%list_elem_of_singleton]; [|done].
  rewrite <-(take_drop k l), (drop_S _ y) in Hs by done.
  eapply (StronglySorted_app_1_elem_of desc); [exact Hs|exact Hx|left].
Qed.

End Sort.

(** ** The loop *)

Lemma take_notes_Some amount l sum sel r :
  take_notes amount sum sel l = Some r -> exists k,
    (0 < k <= length l)%nat /\ r = sel ++ (fst <$> take k l) /\
    amount <= sum + total (take k l) /\
    forall j, (0 < j < k)%nat -> sum + total (take j l) < amount.
Proof.
  revert sum sel. induction l as [|[i v] l IH]; intros sum sel; cbn [take_notes]; [done|].
  destruct (N.leb_spec amount (sum + v)) as [Hle|Hlt].
  - intros [= <-]. exists 1%nat. cbn [length take fmap list_fmap fst]. rewrite take_0.
    split; [lia|]. split; [done|]. rewrite total_cons. cbn. split; [lia|]. intros j Hj. lia.
  - intros E. destruct (IH _ _ E) as (k & Hk & -> & Hsum & Hmin). exists (S k).
    cbn [length take fmap list_fmap]. rewrite total_cons. cbn [snd fst]. split; [lia|].
    split; [by rewrite <-app_assoc|]. split; [lia|]. intros [|[|j]] Hj; [lia| |].
    + cbn [take]. rewrite take_0, total_cons. cbn. lia.
    + specialize (Hmin (S j) ltac:(lia)). cbn [take] in *. rewrite total_cons. cbn [snd]. lia.
Qed.

Lemma take_notes_None amount l sum sel :
  take_notes amount sum sel l = None ->
  forall j, (0 < j <= length l)%nat -> sum + total (take j l) < amount.
Proof.
  revert sum sel. induction l as [|[i v] l IH]; intros sum sel; cbn [take_notes length]; [lia|].
  destruct (N.leb_spec amount (sum + v)) as [Hle|Hlt]; [done|].
  intros E [|[|j]] Hj; [lia| |].
  - cbn [take]. rewrite take_0, total_cons. cbn. lia.
  - specialize (IH _ _ E (S j) ltac:(lia)). cbn [take] in *. rewrite total_cons. cbn [snd]. lia.
Qed.

(** ** Choices of notes *)
Section Choice.
Context `{Blake2s}.
Variable w : WalletFile.

Definition available (note : Note) : Prop := note_nullifier note ∉ pending_nullifier_set w.

Definition value_at (i : nat) : N := from_option note_v 0 (wf_notes w !! i).

(** Distinct positions of available notes. *)
Definition choice (sel : list nat) : Prop :=
  NoDup sel /\ forall i, i ∈ sel -> exists note, wf_notes w !! i = Some note /\ available note.

Definition chosen_sum (sel : list nat) : N := sum_amounts (value_at <$> sel).

Lemma elem_of_imap_notes {A} (l : list A) i x : (i, x) ∈ imap pair l <-> l !! i = Some x.
Proof.
  rewrite list_elem_of_lookup. setoid_rewrite list_lookup_imap. split.
  - intros (j & E). destruct (l !! j) eqn:El; cbn in E; [|done]. by injection E as -> ->.
  - intros E. exists i. by rewrite E.
Qed.

Lemma indexed_elem i v :
  (i, v) ∈ indexed_notes w <->
  exists note, wf_notes w !! i = Some note /\ available note /\ v = note_v note.
Proof.
  unfold indexed_notes. rewrite list_elem_of_fmap. split.
  - intros ([i' note] & E & Hin). apply list_elem_of_filter in Hin as [Ha Hin].
    apply elem_of_imap_notes in Hin. injection E as -> ->. by exists note.
  - intros (note & Hn & Ha & ->). exists (i, note). split; [done|].
    apply list_elem_of_filter. split; [done|]. by apply elem_of_imap_notes.
Qed.

Lemma fst_imap_pair {A} (l : list A) : fst <$> imap pair l = seq 0 (length l).
Proof.
  apply list_eq. intros i. rewrite list_lookup_fmap, list_lookup_imap.
  destruct (l !! i) eqn:E; cbn.
  - rewrite lookup_seq_lt; [done|]. by eapply lookup_lt_Some.
  - apply lookup_ge_None in E. by rewrite lookup_seq_ge.
Qed.

Lemma indexed_nodup : NoDup (fst <$> indexed_notes w).
Proof.
  unfold indexed_notes. rewrite <-list_fmap_compose.
  assert (forall l : list (nat * Note), (fst ∘ (fun '(i, n) => (i, note_v n))) <$> l = fst <$> l) as ->.
  { intros l. apply list_fmap_ext. by intros _ [i n] _. }
  eapply sublist_NoDup; [apply (NoDup_seq 0 (length (wf_notes w)))|].
  rewrite <-fst_imap_pair. apply fmap_sublist, sublist_filter.
Qed.

Lemma choice_sub sel :
  choice sel -> exists s, s ⊆+ indexed_notes w /\ fst <$> s = sel /\ total s = chosen_sum sel.
Proof.
  intros [Hnd Hin]. exists ((fun i => (i, value_at i)) <$> sel). split; [|split].
  - apply NoDup_submseteq.
    + apply NoDup_fmap_2; [|done]. by intros i j [= ->].
    + intros [i v] (i' & [= -> ->] & Hi)%list_elem_of_fmap. apply indexed_elem.
      destruct (Hin _ Hi) as (note & Hn & Ha). exists note. unfold value_at. by rewrite Hn.
  - rewrite <-list_fmap_compose. apply list_fmap_id.
  - unfold total, chosen_sum. by rewrite <-list_fmap_compose.
Qed.

Lemma sub_choice s :
  s ⊆+ indexed_notes w -> choice (fst <$> s) /\ total s = chosen_sum (fst <$> s).
Proof.
  intros Hs. assert (forall x, x ∈ s -> x ∈ indexed_notes w) as Hin
    by (intros x Hx; by eapply elem_of_submseteq).
  split; [split|].
  - apply submseteq_Permutation in Hs as [k Hp]. pose proof indexed_nodup as Hnd.
    rewrite Hp, fmap_app in Hnd. by apply NoDup_app in Hnd as (? & _).
  - intros i ([i' v] & -> & Hi)%list_elem_of_fmap. apply Hin, indexed_elem in Hi as (note & Hn & Ha & _).
    by exists note.
  - unfold total, chosen_sum. rewrite <-list_fmap_compose. f_equal. apply list_fmap_ext.
    intros j [i v] Hj. apply list_elem_of_lookup_2, Hin, indexed_elem in Hj as (note & Hn & _ & ->).
    cbn. unfold value_at. by rewrite Hn.
Qed.
End Choice.

Lemma select_notes_spec `{Blake2s} (w : WalletFile) (amount : N) :
  match select_notes w amount with
  | Ok sel =>
      choice w sel /\ sel <> [] /\ amount <= chosen_sum w sel /\
      (forall sel', choice w sel' -> sel' <> [] -> amount <= chosen_sum w sel' ->
         (length sel <= length sel')%nat) /\
      (0 < amount -> forall i, i ∈ sel -> chosen_sum w sel < amount + value_at w i)
  | Err _ => forall sel', choice w sel' -> sel' <> [] -> chosen_sum w sel' < amount
  | Panic _ => False
  end.
Proof.
  unfold select_notes. set (l := indexed_notes w).
  pose proof (sort_desc_perm l) as Hp. pose proof (sort_desc_sorted l) as Hs.
  assert (forall sel', choice w sel' -> sel' <> [] -> (0 < length sel' <= length (sort_desc l))%nat /\
    chosen_sum w sel' <= total (take (length sel') (sort_desc l))) as Hmax.
  { intros sel' (s & Hsub & <- & <-)%choice_sub Hne. rewrite length_fmap.
    fold l in Hsub. rewrite <-Hp in Hsub. split; [|by apply total_prefix_max].
    apply submseteq_length in Hsub. destruct s; [done|cbn in *; lia]. }
  destruct (take_notes amount 0 [] (sort_desc l)) as [sel|] eqn:E; cbn [ok_or].
  - apply take_notes_Some in E as (k & Hk & -> & Hsum & Hmin). cbn [app] in *.
    destruct (sub_choice w (take k (sort_desc l))) as [Hc Ht].
    { etransitivity; [apply sublist_submseteq, sublist_take|]. fold l. by rewrite Hp. }
    rewrite <-Ht. split; [done|]. split.
    { intros E%fmap_nil_inv. apply (f_equal length) in E. rewrite length_take in E. cbn in E. lia. }
    split; [lia|]. split.
    + intros sel' Hc' Hne Hle. rewrite length_fmap, length_take. apply Nat.nlt_ge. intros Hlt.
      destruct (Hmax sel' Hc' Hne) as [Hl Hm]. specialize (Hmin (length sel') ltac:(lia)). lia.
    + intros Hpos i Hi. destruct k as [|k]; [lia|].
      destruct (lookup_lt_is_Some_2 (sort_desc l) k ltac:(lia)) as [y Hy].
      rewrite (total_take_S _ _ y Hy).
      assert (total (take k (sort_desc l)) < amount) as Hlt.
      { destruct k as [|k]; [by cbn|]. specialize (Hmin (S k) ltac:(lia)). lia. }
      apply list_elem_of_fmap in Hi as ([i' v] & -> & Hi).
      pose proof (total_take_last k _ y _ Hs Hy Hi) as Hle. cbn [snd fst] in *.
      assert ((i', v) ∈ l) as Hin.
      { rewrite <-Hp. by eapply elem_of_take in Hi as (? & ?%list_elem_of_lookup_2 & _). }
      apply indexed_elem in Hin as (note & Hn & _ & ->). unfold value_at. rewrite Hn. cbn. lia.
  - intros sel' Hc Hne. destruct (Hmax sel' Hc Hne) as [Hl Hm].
    pose proof (take_notes_None _ _ _ _ E (length sel') Hl). lia.
Qed.

(** C27: Selection returns distinct available notes that cover the amount; no other
    choice that covers it has fewer notes, and leaving out any one of them would not
    cover it.  It fails exactly when no choice covers the amount, and never panics. *)
Theorem select_notes_correct `{Blake2s} (w : WalletFile) (amount : N) :
  match select_notes w amount with
  | Ok sel =>
      choice w sel /\ sel <> [] /\ amount <= chosen_sum w sel /\
      (forall sel', choice w sel' -> sel' <> [] -> amount <= chosen_sum w sel' ->
         (length sel <= length sel')%nat) /\
      (0 < amount -> forall i, i ∈ sel -> chosen_sum w sel < amount + value_at w i)
  | Err _ => forall sel', choice w sel' -> sel' <> [] -> chosen_sum w sel' < amount
  | Panic _ => False
  end.
Proof. exact (select_notes_spec w amount). Qed.
