(* ===== verification/WalletKeys.v ===== *)
(** * WalletKeys: addresses and one-time keys of a wallet

    The wallet's addresses are those its master key derives, each with a traversal of its
    key tree at the next unused key.  Reserving a key hands out the next one with the
    path of the whole tree and never the same again; creating addresses and loading a file
    keep the invariant. *)

From S2P Require Import Prelude Felt Externals Types Hashing Wots Notes.
From S2P Require Import Bds BdsTree BdsSchedule BdsAdvance BdsPaths Wallet.

Local Open Scope N_scope.

#[local] Opaque auth_leaf_hash_with_pub_seed xmss_tree_node_hash AUTH_DEPTH XMSS_BDS_K.

(** ** Maps filled from a list of records *)
Section Fill.
Context {A B : Type} (key : A -> N) (val : A -> option B -> B).

Definition aligned (l : list A) : Prop := forall i x, l !! i = Some x -> key x = N.of_nat i.

Lemma aligned_app_l l l' : aligned (l ++ l') -> aligned l.
Proof. intros Hl i x Hx. apply Hl. by apply lookup_app_l_Some. Qed.

Lemma fill_lookup l (m : gmap N B) j :
  aligned l ->
  foldl (fun m x => <[key x := val x (m !! key x)]> m) m l !! j =
  match l !! N.to_nat j with Some x => Some (val x (m !! j)) | None => m !! j end.
Proof.
  revert j. induction l as [|x l IH] using rev_ind; intros j Hl; [done|].
  pose proof (aligned_app_l _ _ Hl) as Hl'. rewrite foldl_snoc.
  assert (key x = N.of_nat (length l)) as Hx by (apply Hl; by apply list_lookup_middle).
  destruct (decide (j = key x)) as [->|Hne].
  - rewrite lookup_insert_eq, Hx, Nat2N.id, list_lookup_middle by done.
    rewrite (IH (N.of_nat (length l)) Hl'), Nat2N.id.
    by rewrite (lookup_ge_None_2 l) by lia.
  - rewrite lookup_insert_ne by done. rewrite (IH j Hl').
    destruct (decide (N.to_nat j < length l)%nat) as [Hlt|Hge].
    + by rewrite lookup_app_l.
    + rewrite !lookup_ge_None_2; [done|rewrite length_app; cbn; lia|lia].
Qed.

Lemma filter_aligned l j : aligned l ->
  head (filter (fun x => key x = j) l) = l !! N.to_nat j.
Proof.
  induction l as [|x l IH] using rev_ind; intros Hl; [done|].
  pose proof (aligned_app_l _ _ Hl) as Hl'. specialize (IH Hl').
  assert (key x = N.of_nat (length l)) as Hx by (apply Hl; by apply list_lookup_middle).
  rewrite filter_app. destruct (decide (N.to_nat j < length l)%nat) as [Hlt|Hge].
  - rewrite lookup_app_l by done. destruct (filter _ l) as [|y f]; [|exact IH].
    destruct (lookup_lt_is_Some_2 l _ Hlt) as [y Hy]. by rewrite Hy in IH.
  - rewrite (lookup_ge_None_2 l) in IH by lia. destruct (filter _ l) as [|y f]; [|done].
    cbn [app]. destruct (decide (key x = j)) as [<-|Hne].
    + rewrite filter_cons_True by done. cbn. rewrite Hx, Nat2N.id. by rewrite list_lookup_middle.
    + rewrite filter_cons_False by done. cbn. symmetry. apply lookup_ge_None_2.
      rewrite length_app. cbn. lia.
Qed.
End Fill.

Section Keys.
Context `{Blake2s, MlKem, !MlKemImport, Aead, Hex, WordTarget}.

(** ** The invariant *)

(** The one-time key seed of an address, its public seed and the root of its keys. *)
Definition ask_of (w : WalletFile) (j : N) : F := derive_ask (acc_ask_base (account w)) j.
Definition root_of (w : WalletFile) (j : N) : F :=
  bnode (ask_of w j) (derive_auth_pub_seed (ask_of w j)) AUTH_DEPTH 0.

(** A traversal that is at key [bd_next_index], or past the last one. *)
Definition keys_at (ask_j : F) (bds : XmssBdsState) : Prop :=
  let next := bd_next_index bds in
  (next < AUTH_TREE_SIZE /\
   bds_repr ask_j (derive_auth_pub_seed ask_j) AUTH_DEPTH XMSS_BDS_K next bds) \/
  (next = AUTH_TREE_SIZE /\ bd_auth_path bds = []).

(** What [derive_address_state] computes, but for the traversal's position. *)
Definition address_for (w : WalletFile) (j : N) (bds : XmssBdsState) : WalletAddressState :=
  let acc := account w in
  let d_j := derive_address (acc_incoming_seed acc) j in
  {| wa_index := j; wa_d_j := d_j; wa_auth_root := root_of w j;
     wa_auth_pub_seed := derive_auth_pub_seed (ask_of w j);
     wa_nk_tag := derive_nk_tag (derive_nk_spend (acc_nk acc) d_j); wa_bds := bds |}.

Definition address_ok (w : WalletFile) (i : nat) (st : WalletAddressState) : Prop :=
  st = address_for w (N.of_nat i) (wa_bds st) /\ keys_at (ask_of w (N.of_nat i)) (wa_bds st).

(** The next unused key of an address; a file may know it without the address. *)
Definition next_unused (w : WalletFile) (j : N) : N :=
  match wf_addresses w !! N.to_nat j with
  | Some st => bd_next_index (wa_bds st)
  | None => default 0 (wf_wots_key_indices w !! j)
  end.

(** A file that the wallet may have written. *)
Record file_ok (w : WalletFile) : Prop := {
  fo_addresses : forall i st, wf_addresses w !! i = Some st -> address_ok w i st;
  fo_indices : forall j n, wf_wots_key_indices w !! j = Some n ->
    n = next_unused w j /\ n <= AUTH_TREE_SIZE /\ j < N.max (addresses_len w) (wf_addr_counter w);
  fo_limit : addresses_len w < U32_LIMIT /\ wf_addr_counter w < U32_LIMIT
}.

(** A wallet in memory: every address below the counter is there. *)
Record wallet_ok (w : WalletFile) : Prop := {
  wo_file : file_ok w;
  wo_counter : wf_addr_counter w <= addresses_len w
}.

(** What the operations on keys leave alone. *)
Record same_book (w w' : WalletFile) : Prop := {
  sb_master : wf_master_sk w' = wf_master_sk w;
  sb_notes : wf_notes w' = wf_notes w;
  sb_scanned : wf_scanned w' = wf_scanned w;
  sb_spends : wf_pending_spends w' = wf_pending_spends w;
  sb_deposits : wf_pending_deposits w' = wf_pending_deposits w /\ wf_deposit_nonce w' = wf_deposit_nonce w
}.

#[export] Instance same_book_preorder : PreOrder same_book.
Proof.
  split; [by intros w|]. intros w1 w2 w3 [E1 E2 E3 E4 [E5 E6]] [F1 F2 F3 F4 [F5 F6]].
  constructor; [congruence..|split; congruence].
Qed.

(** Notes are no part of it. *)
Lemma wallet_ok_notes w l : wallet_ok w -> wallet_ok (wf_with_notes l w).
Proof.
  intros [[Ha Hi Hl] Hc]. split; [constructor|exact Hc].
  - intros i st Hst. exact (Ha i st Hst).
  - intros j n Hj. exact (Hi j n Hj).
  - exact Hl.
Qed.

(** ** Addresses *)

Lemma address_for_master w w' j bds :
  wf_master_sk w' = wf_master_sk w -> address_for w' j bds = address_for w j bds.
Proof. intros E. unfold address_for, root_of, ask_of, account. by rewrite E. Qed.

Lemma address_ok_master w w' i st :
  wf_master_sk w' = wf_master_sk w -> address_ok w i st -> address_ok w' i st.
Proof.
  intros E [Hst Hk]. split; [by rewrite (address_for_master w)|].
  unfold ask_of, account in *. by rewrite E.
Qed.

Lemma address_index w i st : address_ok w i st -> wa_index st = N.of_nat i.
Proof. intros [-> _]. done. Qed.

Lemma keys_limit_at ask_j bds : keys_at ask_j bds -> bd_next_index bds <= AUTH_TREE_SIZE.
Proof. intros [[Hn _]|[Hn _]]; lia. Qed.

Lemma derive_address_ok w j n :
  n <= AUTH_TREE_SIZE -> exists bds,
    derive_address_state false w j n = Ok (address_for w j bds) /\
    keys_at (ask_of w j) bds /\ bd_next_index bds = n.
Proof.
  intros Hn. unfold derive_address_state. fold (ask_of w j).
  assert (exists bds, keys_at (ask_of w j) bds /\ bd_next_index bds = n /\
    from_index false (ask_of w j) (derive_auth_pub_seed (ask_of w j)) n = Ok (bds, root_of w j))
    as (bds & Hk & Hnx & E).
  { unfold from_index. destruct (N.eq_dec n AUTH_TREE_SIZE) as [->|Hne].
    - destruct (from_index_end (ask_of w j) AUTH_DEPTH XMSS_BDS_K wallet_depth wallet_k wallet_levels)
        as (bds & Ha & Hx & E). exists bds. split; [by right|]. by split.
    - destruct (from_index_ok (ask_of w j) AUTH_DEPTH XMSS_BDS_K wallet_depth wallet_k wallet_levels n)
        as (bds & Hr & E); [unfold AUTH_TREE_SIZE in *; lia|].
      pose proof (br_next _ _ _ _ _ _ Hr) as Hx. exists bds. split; [|by split].
      left. rewrite Hx. split; [lia|done]. }
  exists bds. rewrite E. done.
Qed.

Lemma file_aligned w : file_ok w -> aligned wa_index (wf_addresses w).
Proof. intros Hw i st Hst. eapply address_index, (fo_addresses _ Hw). exact Hst. Qed.

Lemma derive_next w j bds :
  next_unused w j = bd_next_index bds -> bd_next_index (wa_bds (address_for w j bds)) = next_unused w j.
Proof. intros ->. done. Qed.

(** The next address, at its known position. *)
Lemma push_ok w bds :
  let j := addresses_len w in
  file_ok w -> keys_at (ask_of w j) bds -> bd_next_index bds = next_unused w j ->
  j + 1 < U32_LIMIT ->
  let w' := push_address (address_for w j bds) w in
  file_ok w' /\ same_book w w' /\ (forall i, next_unused w' i = next_unused w i) /\
  addresses_len w' = j + 1.
Proof.
  intros j Hw Hk Hn Hlim w'.
  assert (addresses_len w' = j + 1) as Hlen.
  { unfold addresses_len, w', push_address. cbn [wf_addresses wf_with_addresses].
    rewrite length_app. cbn [length]. unfold j, addresses_len. lia. }
  assert (forall i, next_unused w' i = next_unused w i) as Hnx.
  { intros i. unfold next_unused, w', push_address. cbn [wf_addresses wf_with_addresses wf_wots_key_indices].
    destruct (decide (N.to_nat i < length (wf_addresses w))%nat) as [Hlt|Hge].
    - by rewrite lookup_app_l.
    - rewrite (lookup_ge_None_2 (wf_addresses w)) by lia.
      destruct (decide (i = j)) as [->|Hne].
      + unfold j at 1. unfold addresses_len. rewrite Nat2N.id, list_lookup_middle by done.
        cbn [wa_bds address_for]. rewrite Hn. unfold next_unused, j, addresses_len.
        by rewrite Nat2N.id, lookup_ge_None_2.
      + rewrite lookup_ge_None_2; [done|]. rewrite length_app. cbn [length].
        unfold j, addresses_len in Hne. lia. }
  split; [constructor|split; [by constructor|by split]].
  - intros i st Hi. eapply address_ok_master; [reflexivity|].
    unfold w', push_address in Hi. cbn [wf_addresses wf_with_addresses] in Hi.
    apply lookup_app_Some in Hi as [Hi|[Hge Hi]]; [by apply (fo_addresses _ Hw)|].
    apply list_lookup_singleton_Some in Hi as [Hi <-].
    assert (N.of_nat i = j) as Ei by (unfold j, addresses_len; lia).
    split; rewrite Ei; [done|exact Hk].
  - intros i n Hi. rewrite Hnx, Hlen. destruct (fo_indices _ Hw i n Hi) as (? & ? & ?).
    split; [done|]. split; [done|]. cbn [wf_addr_counter push_address wf_with_addresses].
    unfold w', push_address. cbn. unfold j. lia.
  - split; [lia|]. apply Hw.
Qed.

Lemma next_unused_limit w j : file_ok w -> next_unused w j <= AUTH_TREE_SIZE.
Proof.
  intros Hw. unfold next_unused. destruct (wf_addresses w !! N.to_nat j) as [st|] eqn:E.
  - eapply keys_limit_at, (fo_addresses _ Hw). exact E.
  - destruct (wf_wots_key_indices w !! j) as [n|] eqn:En; cbn; [|lia].
    by apply (fo_indices _ Hw) in En as (_ & ? & _).
Qed.

(** ** Loading *)

Lemma materialize_one_ok w :
  file_ok w -> addresses_len w + 1 < U32_LIMIT -> exists w',
    materialize_one false (addresses_len w) w = (w', Ok tt) /\
    file_ok w' /\ same_book w w' /\ (forall i, next_unused w' i = next_unused w i) /\
    addresses_len w' = addresses_len w + 1 /\ wf_addr_counter w' = wf_addr_counter w.
Proof.
  intros Hw Hlim. set (j := addresses_len w).
  assert (default 0 (wf_wots_key_indices w !! j) = next_unused w j) as Hnx.
  { unfold next_unused. by rewrite lookup_ge_None_2 by (unfold j, addresses_len; lia). }
  destruct (derive_address_ok w j (next_unused w j) (next_unused_limit w j Hw)) as (bds & E & Hk & Hb).
  assert (reads (fun w => derive_address_state false w j (default 0 (wf_wots_key_indices w !! j))) w =
    (w, Ok (address_for w j bds))) as Er by (unfold reads; by rewrite Hnx, E).
  unfold materialize_one. rewrite (ST_run _ _ _ _ _ Er).
  destruct (push_ok w bds Hw Hk Hb Hlim) as (Hf & Hs & Hn & Hl).
  eexists. split; [reflexivity|]. by split.
Qed.

Lemma range_S a b : a < b -> range a b = a :: range (a + 1) b.
Proof.
  intros Hab. unfold range. replace (N.to_nat (b - a)) with (S (N.to_nat (b - (a + 1)))) by lia.
  cbn [seq fmap list_fmap]. f_equal; [lia|]. rewrite <-seq_shift, <-list_fmap_compose.
  apply list_fmap_ext. intros i x _. cbn. lia.
Qed.

Lemma range_nil a b : b <= a -> range a b = [].
Proof. intros Hab. unfold range. by replace (N.to_nat (b - a)) with 0%nat by lia. Qed.

Lemma materialize_loop m w :
  file_ok w -> N.to_nat (wf_addr_counter w - addresses_len w) = m -> exists w',
    for_each (materialize_one false) (range (addresses_len w) (wf_addr_counter w)) w = (w', Ok tt) /\
    wallet_ok w' /\ same_book w w' /\ (forall i, next_unused w' i = next_unused w i) /\
    addresses_len w' = N.max (addresses_len w) (wf_addr_counter w) /\
    wf_addr_counter w' = wf_addr_counter w.
Proof.
  revert w. induction m as [|m IH]; intros w Hw Hm.
  - rewrite range_nil by lia. exists w. split; [done|]. split; [by split; [|lia]|].
    split; [done|]. split; [done|]. lia.
  - destruct (fo_limit _ Hw) as [_ Hc].
    rewrite range_S by lia. cbn [for_each].
    destruct (materialize_one_ok w Hw ltac:(lia)) as (w1 & E & Hw1 & Hs1 & Hn1 & Hl1 & Hc1).
    rewrite (ST_run _ _ _ _ _ E), <-Hl1, <-Hc1.
    destruct (IH w1 Hw1 ltac:(lia)) as (w2 & E2 & Hw2 & Hs2 & Hn2 & Hl2 & Hc2).
    exists w2. split; [done|]. split; [done|]. split; [by etransitivity|].
    split; [by intros i; rewrite Hn2|]. lia.
Qed.

(** The map of next keys, brought up to date. *)
Lemma record_next_ok w :
  wallet_ok w -> let w' := record_next_indices w in
  wallet_ok w' /\ same_book w w' /\ (forall i, next_unused w' i = next_unused w i) /\
  wf_addresses w' = wf_addresses w /\ wf_addr_counter w' = wf_addr_counter w.
Proof.
  intros [Hw Hc] w'.
  assert (forall j, wf_wots_key_indices w' !! j =
    match wf_addresses w !! N.to_nat j with
    | Some st => Some (bd_next_index (wa_bds st)) | None => wf_wots_key_indices w !! j end) as Hlk.
  { intros j. apply (fill_lookup wa_index (fun st _ => bd_next_index (wa_bds st))).
    by apply file_aligned. }
  assert (forall i, next_unused w' i = next_unused w i) as Hn.
  { intros i. unfold next_unused. rewrite Hlk. cbn [wf_addresses w' record_next_indices wf_with_wots_key_indices].
    change (wf_addresses w') with (wf_addresses w). by destruct (wf_addresses w !! N.to_nat i). }
  split; [|split; [by constructor|done]]. split; [|exact Hc]. constructor; [|..|apply Hw].
  - intros i st Hi. eapply address_ok_master; [reflexivity|]. by apply (fo_addresses _ Hw).
  - intros j n Hj. rewrite Hn. rewrite Hlk in Hj.
    destruct (wf_addresses w !! N.to_nat j) as [st|] eqn:E; [|by apply (fo_indices _ Hw)].
    injection Hj as <-. split; [unfold next_unused; by rewrite E|]. split.
    + eapply keys_limit_at, (fo_addresses _ Hw). exact E.
    + apply lookup_lt_Some in E. change (addresses_len w') with (addresses_len w). unfold addresses_len. lia.
Qed.

Lemma materialize_ok w :
  file_ok w -> exists w',
    materialize_addresses false w = (w', Ok tt) /\
    wallet_ok w' /\ same_book w w' /\ (forall i, next_unused w' i = next_unused w i) /\
    addresses_len w' = N.max (addresses_len w) (wf_addr_counter w) /\
    wf_addr_counter w' = wf_addr_counter w.
Proof.
  intros Hw. destruct (materialize_loop _ w Hw eq_refl) as (w1 & E & Hw1 & Hs1 & Hn1 & Hl1 & Hc1).
  destruct (record_next_ok w1 Hw1) as (Hw2 & Hs2 & Hn2 & Hl2 & Hc2).
  exists (record_next_indices w1). unfold materialize_addresses, reads.
  do 2 (erewrite ST_run by reflexivity; cbv beta).
  rewrite N.mod_small by apply Hw. rewrite (ST_run _ _ _ _ _ E).
  split; [done|]. split; [done|]. split; [by etransitivity|]. split; [by intros i; rewrite Hn2|].
  unfold addresses_len in *. rewrite Hl2, Hc2. done.
Qed.

(** ** New addresses *)

Lemma counter_ok w n :
  file_ok w -> wf_addr_counter w <= n -> n < U32_LIMIT ->
  let w' := wf_with_addr_counter n w in
  file_ok w' /\ same_book w w' /\ (forall i, next_unused w' i = next_unused w i).
Proof.
  intros Hw Hle Hlim w'. split; [|by split; [constructor|]]. constructor.
  - intros i st Hi. eapply address_ok_master; [reflexivity|]. by apply (fo_addresses _ Hw).
  - intros j m Hj. destruct (fo_indices _ Hw j m Hj) as (? & ? & ?). split; [done|]. split; [done|].
    cbn [w' wf_with_addr_counter wf_addr_counter]. change (addresses_len w') with (addresses_len w). 
    unfold w'. cbn. lia.
  - split; [apply Hw|done].
Qed.

(** The address others pay to. *)
Definition own_address (w : WalletFile) (st : WalletAddressState) : PaymentAddress :=
  let '(ek_v, _, ek_d, _) := kem_keys w (wa_index st) in payment_address st ek_v ek_d.

Lemma next_address_ok w :
  wallet_ok w -> wf_addr_counter w + 1 < U32_LIMIT -> exists w' bds,
    let j := wf_addr_counter w in
    let st := address_for w j bds in
    next_address false w = (w', Ok (st, own_address w st)) /\
    wallet_ok w' /\ same_book w w' /\ (forall i, next_unused w' i = next_unused w i) /\
    wf_addr_counter w' = j + 1 /\ wf_addresses w' !! N.to_nat j = Some st /\
    addresses_len w <= addresses_len w'.
Proof.
  intros [Hw Hc] Hlim. set (j := wf_addr_counter w).
  assert (exists bds, match wf_addresses w !! N.to_nat j with
      | Some existing => mret existing | None => derive_address_state false w j 0 end =
      Ok (address_for w j bds) /\
    (addresses_len w = j -> keys_at (ask_of w j) bds /\ bd_next_index bds = next_unused w j) /\
    (j < addresses_len w -> wf_addresses w !! N.to_nat j = Some (address_for w j bds)))
    as (bds & Est & Hnew & Hold).
  { destruct (wf_addresses w !! N.to_nat j) as [st|] eqn:E.
    - pose proof (lookup_lt_Some _ _ _ E). destruct (fo_addresses _ Hw _ _ E) as [Hst _].
      rewrite N2Nat.id in Hst. exists (wa_bds st). rewrite <-Hst. split; [done|].
      unfold addresses_len. split; [lia|done].
    - apply lookup_ge_None in E. assert (next_unused w j = 0) as Hz.
      { unfold next_unused. rewrite lookup_ge_None_2 by done.
        destruct (wf_wots_key_indices w !! j) as [n|] eqn:En; [|done].
        apply (fo_indices _ Hw) in En as (_ & _ & Hlt). unfold addresses_len in *. lia. }
      destruct (derive_address_ok w j 0 ltac:(lia)) as (bds & Ed & Hk & Hb).
      exists bds. split; [done|]. rewrite Hz. split; [done|]. unfold addresses_len. lia. }
  destruct (kem_keys w j) as [[[ek_v dk_v] ek_d] dk_d] eqn:Ek.
  destruct (counter_ok w (j + 1) Hw ltac:(lia) Hlim) as (Hw1 & Hs1 & Hn1).
  set (w1 := wf_with_addr_counter (j + 1) w) in *.
  assert (address_for w1 j bds = address_for w j bds) as Eaf by by apply address_for_master.
  set (w2 := if addresses_len w1 <=? j then push_address (address_for w j bds) w1 else w1).
  assert (next_address false w =
    (w2, Ok (address_for w j bds, own_address w (address_for w j bds)))) as E.
  { unfold own_address. change (wa_index (address_for w j bds)) with j. rewrite Ek. unfold next_address. erewrite ST_run by reflexivity. cbv beta. fold j.
    assert (reads (fun w => match wf_addresses w !! N.to_nat j with
      | Some existing => mret existing | None => derive_address_state false w j 0 end) w =
      (w, Ok (address_for w j bds))) as Er by (unfold reads; by rewrite Est).
    rewrite (ST_run _ _ _ _ _ Er). erewrite ST_run by reflexivity. cbv beta. rewrite Ek.
    rewrite !ST_run_writes. unfold add_u32. fold j. rewrite N.mod_small by (unfold U32_LIMIT in *; lia).
    done. }
  exists w2, bds. cbv zeta. split; [exact E|]. unfold w2.
  change (addresses_len w1) with (addresses_len w).
  destruct (N.leb_spec (addresses_len w) j) as [Hle|Hgt].
  - assert (addresses_len w = j) as Hj by (fold j in Hc; lia). destruct (Hnew Hj) as [Hk Hb].
    destruct (push_ok w1 bds Hw1) as (Hf & Hs & Hn & Hl).
    + by change (addresses_len w1) with (addresses_len w); rewrite Hj.
    + change (addresses_len w1) with (addresses_len w). by rewrite Hj, Hn1.
    + change (addresses_len w1) with (addresses_len w). by rewrite Hj.
    + change (addresses_len w1) with (addresses_len w) in *. rewrite Hj, Eaf in *.
      split; [split; [done|rewrite Hl; done]|]. split; [by etransitivity|].
      split; [intros i; by rewrite Hn|]. split; [done|]. rewrite Hl. split; [|lia].
      unfold push_address. cbn [wf_addresses wf_with_addresses].
      replace (N.to_nat j) with (length (wf_addresses w1)) by (rewrite <-Hj; unfold addresses_len; cbn; lia).
      by apply list_lookup_middle.
  - split; [split; [done|change (j + 1 <= addresses_len w); lia]|]. split; [done|]. split; [done|]. split; [done|].
    split; [by apply Hold|exact (N.le_refl _)].
Qed.

(** ** Reserving a key *)

Lemma tree_keys : AUTH_TREE_SIZE <= 2 ^ 31.
Proof. apply (keys_limit AUTH_DEPTH XMSS_BDS_K wallet_depth wallet_k). Qed.

Lemma advance_keys ask_j bds :
  keys_at ask_j bds -> bd_next_index bds < AUTH_TREE_SIZE -> exists bds',
    advance ask_j (derive_auth_pub_seed ask_j) bds = (bds', Ok tt) /\
    keys_at ask_j bds' /\ bd_next_index bds' = bd_next_index bds + 1.
Proof.
  intros [[_ Hr]|[Hx _]] Hlt; [|lia]. set (n := bd_next_index bds) in *.
  destruct (N.eq_dec (n + 1) AUTH_TREE_SIZE) as [Hl|Hl].
  - replace n with (AUTH_TREE_SIZE - 1) in Hr by lia.
    pose proof (advance_last ask_j _ AUTH_DEPTH XMSS_BDS_K wallet_depth wallet_k bds Hr) as E.
    fold AUTH_TREE_SIZE in E. eexists. split; [exact E|]. split; [by right|]. by rewrite Hl.
  - destruct (advance_ok ask_j (derive_auth_pub_seed ask_j) AUTH_DEPTH XMSS_BDS_K wallet_depth wallet_k wallet_levels n bds)
      as (bds' & E & Hr'); [unfold AUTH_TREE_SIZE in *; lia|done|].
    pose proof (br_next _ _ _ _ _ _ Hr') as Hn. exists bds'. split; [done|]. split; [|done].
    left. rewrite Hn. split; [lia|done].
Qed.

Lemma path_keys ask_j bds :
  keys_at ask_j bds -> bd_next_index bds < AUTH_TREE_SIZE ->
  auth_root_and_path false ask_j (bd_next_index bds) =
    Ok (bnode ask_j (derive_auth_pub_seed ask_j) AUTH_DEPTH 0, current_path bds).
Proof.
  intros [[_ Hr]|[Hx _]] Hlt; [|lia]. revert Hlt Hr. unfold AUTH_TREE_SIZE, auth_root_and_path.
  generalize wallet_depth, wallet_k. generalize AUTH_DEPTH, XMSS_BDS_K. intros depth k Hd Hk Hlt Hr.
  unfold assert_full_xmss_rebuild_allowed. cbn [negb panic_unless mbind result_bind].
  pose proof (keys_limit depth k Hd Hk). rewrite N.mod_small by (unfold U32_LIMIT; lia).
  by rewrite (repr_whole_tree ask_j depth k Hd Hk _ bds Hlt Hr).
Qed.

(** The wallet with the traversal of one address at its next key. *)
Definition reserved (w : WalletFile) (j : N) (bds : XmssBdsState) : WalletFile :=
  wf_with_wots_key_indices (<[j := bd_next_index bds]> (wf_wots_key_indices w))
    (wf_with_addresses (<[N.to_nat j := address_for w j bds]> (wf_addresses w)) w).

Lemma reserved_ok w j st bds :
  wallet_ok w -> wf_addresses w !! N.to_nat j = Some st -> keys_at (ask_of w j) bds ->
  let w' := reserved w j bds in
  wallet_ok w' /\ same_book w w' /\ wf_addr_counter w' = wf_addr_counter w /\
  addresses_len w' = addresses_len w /\
  (forall i, next_unused w' i = if decide (i = j) then bd_next_index bds else next_unused w i).
Proof.
  intros [Hw Hc] Hj Hk w'. pose proof (lookup_lt_Some _ _ _ Hj) as Hlt.
  assert (addresses_len w' = addresses_len w) as Hlen
    by (unfold addresses_len, w', reserved; cbn; by rewrite length_insert).
  assert (forall i, next_unused w' i = if decide (i = j) then bd_next_index bds else next_unused w i) as Hn.
  { intros i. unfold next_unused, w', reserved.
    cbn [wf_addresses wf_with_addresses wf_with_wots_key_indices wf_wots_key_indices].
    destruct (decide (i = j)) as [->|Hne]; [by rewrite list_lookup_insert_eq|].
    rewrite list_lookup_insert_ne by lia. by rewrite lookup_insert_ne. }
  split; [split; [constructor|by rewrite Hlen]|by split; [constructor|]].
  - intros i st' Hi. eapply address_ok_master; [reflexivity|].
    unfold w', reserved in Hi. cbn [wf_addresses wf_with_addresses wf_with_wots_key_indices] in Hi.
    apply list_lookup_insert_Some in Hi as [(<- & <- & _)|[_ Hi]]; [|by apply (fo_addresses _ Hw)].
    split; rewrite N2Nat.id; done.
  - intros i n Hi. rewrite Hn, Hlen. unfold w', reserved in Hi.
    cbn [wf_wots_key_indices wf_with_wots_key_indices] in Hi.
    apply lookup_insert_Some in Hi as [(<- & <-)|[Hne Hi]].
    + rewrite decide_True by done. split; [done|]. split; [by eapply keys_limit_at|].
      unfold addresses_len. lia.
    + rewrite decide_False by done. by apply (fo_indices _ Hw).
  - rewrite Hlen. apply Hw.
Qed.

Lemma reserve_ok w j st :
  wallet_ok w -> wf_addresses w !! N.to_nat j = Some st -> next_unused w j < AUTH_TREE_SIZE ->
  exists bds path,
    reserve_next_auth j w =
      (reserved w j bds, Ok (next_unused w j, root_of w j, derive_auth_pub_seed (ask_of w j), path)) /\
    auth_root_and_path false (ask_of w j) (next_unused w j) = Ok (root_of w j, path) /\
    keys_at (ask_of w j) bds /\ bd_next_index bds = next_unused w j + 1.
Proof.
  intros Hw Hj. destruct (fo_addresses _ (wo_file _ Hw) _ _ Hj) as [Hst Hk]. rewrite N2Nat.id in Hst, Hk.
  unfold next_unused. rewrite Hj. intros Hlt.
  destruct (advance_keys _ _ Hk Hlt) as (bds & Ea & Hk' & Hn). exists bds, (current_path (wa_bds st)).
  split; [|split; [by apply path_keys|by split]].
  unfold reserve_next_auth. erewrite ST_run by reflexivity. cbv beta.
  assert (reads (fun w => ok_or (wf_addresses w !! N.to_nat j) ("missing address record " +:+ show_N j)) w =
    (w, Ok st)) as Er by (unfold reads; by rewrite Hj).
  rewrite (ST_run _ _ _ _ _ Er). rewrite (proj2 (N.leb_gt _ _)) by done.
  rewrite (ST_run _ _ _ _ _ (eq_refl : lift (fail_if false _) _ = (_, Ok tt))).
  assert (advance_address (N.to_nat j) (derive_ask (acc_ask_base (account w)) j) w =
    (wf_with_addresses (<[N.to_nat j := address_for w j bds]> (wf_addresses w)) w, Ok tt)) as Ed.
  { unfold advance_address. rewrite Hj. rewrite Hst at 1. cbn [wa_auth_pub_seed address_for].
    fold (ask_of w j). rewrite Ea. unfold with_bds. by rewrite Hst. }
  rewrite (ST_run _ _ _ _ _ Ed). unfold reads at 1, index_at.
  erewrite ST_run; [|cbn [wf_addresses wf_with_addresses];
    rewrite list_lookup_insert_eq by (by eapply lookup_lt_Some); reflexivity].
  rewrite ST_run_writes. unfold mret, ST_ret. do 2 f_equal. by rewrite Hst.
Qed.

Lemma reserve_next_auth_spec (w : WalletFile) (j : N) :
  wallet_ok w ->
  match wf_addresses w !! N.to_nat j with
  | None => reserve_next_auth j w = (w, Err ("missing address record " +:+ show_N j))
  | Some _ =>
      if decide (next_unused w j < AUTH_TREE_SIZE) then
        exists w' root path,
          reserve_next_auth j w =
            (w', Ok (next_unused w j, root, derive_auth_pub_seed (ask_of w j), path)) /\
          auth_root_and_path false (ask_of w j) (next_unused w j) = Ok (root, path) /\
          wallet_ok w' /\ same_book w w' /\ wf_addr_counter w' = wf_addr_counter w /\
          forall i, next_unused w' i = if decide (i = j) then next_unused w j + 1 else next_unused w i
      else
        reserve_next_auth j w = (w, Err ("XMSS keys exhausted for address " +:+ show_N j +:+
          " — generate a new address"))
  end.
Proof.
  intros Hw. destruct (wf_addresses w !! N.to_nat j) as [st|] eqn:Hj.
  - destruct (decide _) as [Hlt|Hge].
    + destruct (reserve_ok w j st Hw Hj Hlt) as (bds & path & E & Hp & Hk & Hn).
      destruct (reserved_ok w j st bds Hw Hj Hk) as (Hw' & Hs & Hc & _ & Hx).
      eexists _, _, _. split; [exact E|]. split; [exact Hp|]. split; [done|]. split; [done|].
      split; [done|]. intros i. by rewrite Hx, Hn.
    + unfold reserve_next_auth. erewrite ST_run by reflexivity. cbv beta.
      assert (reads (fun w => ok_or (wf_addresses w !! N.to_nat j) ("missing address record " +:+ show_N j)) w =
        (w, Ok st)) as Er by (unfold reads; by rewrite Hj).
      rewrite (ST_run _ _ _ _ _ Er). unfold next_unused in Hge. rewrite Hj in Hge.
      rewrite (proj2 (N.leb_le _ _)) by lia. done.
  - unfold reserve_next_auth. erewrite ST_run by reflexivity. cbv beta.
    apply ST_run_Err. unfold reads. by rewrite Hj.
Qed.

(** C25: On a well-formed wallet, a reservation hands out the next unused key of
    the address with its path in the whole tree and moves that address, and only it, one
    key on; an exhausted tree or a missing address is an error that changes nothing. *)
Theorem reserve_next_auth_correct (w : WalletFile) (j : N) :
  wallet_ok w ->
  match wf_addresses w !! N.to_nat j with
  | None => reserve_next_auth j w = (w, Err ("missing address record " +:+ show_N j))
  | Some _ =>
      if decide (next_unused w j < AUTH_TREE_SIZE) then
        exists w' root path,
          reserve_next_auth j w =
            (w', Ok (next_unused w j, root, derive_auth_pub_seed (ask_of w j), path)) /\
          auth_root_and_path false (ask_of w j) (next_unused w j) = Ok (root, path) /\
          wallet_ok w' /\ same_book w w' /\ wf_addr_counter w' = wf_addr_counter w /\
          forall i, next_unused w' i = if decide (i = j) then next_unused w j + 1 else next_unused w i
      else
        reserve_next_auth j w = (w, Err ("XMSS keys exhausted for address " +:+ show_N j +:+
          " — generate a new address"))
  end.
Proof. apply reserve_next_auth_spec. Qed.

(** ** The floor *)

Lemma current_floor w j : file_ok w -> current_wallet_wots_floor w j = next_unused w j.
Proof.
  intros Hw. unfold current_wallet_wots_floor.
  rewrite (filter_aligned wa_index _ j (file_aligned w Hw)).
  destruct (wf_wots_key_indices w !! j) as [n|] eqn:E; [by apply (fo_indices _ Hw) in E as [-> _]|].
  unfold next_unused. rewrite E. by destruct (wf_addresses w !! N.to_nat j).
Qed.

Lemma floor_lookup w j n :
  wallet_ok w -> fl_wots_key_indices (wallet_xmss_floor w) !! j = Some n -> n = next_unused w j.
Proof.
  intros [Hw Hc]. cbn [fl_wots_key_indices wallet_xmss_floor].
  rewrite (fill_lookup wa_index (fun st old =>
    from_option (N.max (bd_next_index (wa_bds st))) (bd_next_index (wa_bds st)) old) _ _ j (file_aligned w Hw)).
  destruct (wf_addresses w !! N.to_nat j) as [st|] eqn:Ej.
  - intros [= <-]. assert (next_unused w j = bd_next_index (wa_bds st)) as En
      by (unfold next_unused; by rewrite Ej).
    destruct (wf_wots_key_indices w !! j) as [m|] eqn:Em; cbn; [|done].
    apply (fo_indices _ Hw) in Em as [-> _]. lia.
  - intros Hn. by apply (fo_indices _ Hw) in Hn as [-> _].
Qed.

Lemma floor_covers w j :
  wallet_ok w -> next_unused w j <> 0 ->
  fl_wots_key_indices (wallet_xmss_floor w) !! j = Some (next_unused w j).
Proof.
  intros Hw Hj. destruct (fl_wots_key_indices (wallet_xmss_floor w) !! j) as [n|] eqn:E.
  - by rewrite (floor_lookup w j n).
  - exfalso. cbn [fl_wots_key_indices wallet_xmss_floor] in E.
    rewrite (fill_lookup wa_index (fun st old =>
      from_option (N.max (bd_next_index (wa_bds st))) (bd_next_index (wa_bds st)) old) _ _ j
      (file_aligned w (wo_file _ Hw))) in E.
    unfold next_unused in Hj. destruct (wf_addresses w !! N.to_nat j); [done|]. by rewrite E in Hj.
Qed.

Lemma enforce_entries_spec w entries :
  file_ok w ->
  match enforce_entries w entries with
  | Ok _ => forall j n, (j, n) ∈ entries -> n <= next_unused w j
  | Err _ => exists j n, (j, n) ∈ entries /\ next_unused w j < n
  | Panic _ => False
  end.
Proof.
  intros Hw. induction entries as [|[j n] entries IH]; cbn [enforce_entries].
  - intros j n Hin. by apply not_elem_of_nil in Hin.
  - rewrite (current_floor w j Hw). destruct (N.ltb_spec (next_unused w j) n) as [Hlt|Hge].
    + exists j, n. split; [left|done].
    + cbn [fail_if mbind result_bind]. destruct (enforce_entries w entries) as [u|e|m]; [|..|done].
      * intros j' n' [[= -> ->]|Hin]%elem_of_cons; [done|by apply IH].
      * destruct IH as (j' & n' & Hin & Hlt). exists j', n'. split; [by right|done].
Qed.

Lemma load_wallet_spec (w0 w : WalletFile) (entries : list (N * N)) :
  wallet_ok w0 -> file_ok w -> wf_master_sk w = wf_master_sk w0 ->
  entries ≡ₚ map_to_list (fl_wots_key_indices (wallet_xmss_floor w0)) ->
  match load_wallet false w (Some (wallet_xmss_floor w0)) entries with
  | Ok w' =>
      wallet_ok w' /\ same_book w w' /\ wf_addr_counter w0 <= wf_addr_counter w' /\
      (forall j, next_unused w' j = next_unused w j) /\ forall j, next_unused w0 j <= next_unused w' j
  | Err _ => wf_addr_counter w < wf_addr_counter w0 \/ exists j, next_unused w j < next_unused w0 j
  | Panic _ => False
  end.
Proof.
  intros Hw0 Hw Hm Hp. unfold load_wallet, enforce_wallet_xmss_floor.
  cbn [fl_wallet_fingerprint fl_addr_counter wallet_xmss_floor].
  rewrite bool_decide_eq_true_2 by by rewrite Hm. cbn [negb].
  destruct (N.ltb_spec (wf_addr_counter w) (wf_addr_counter w0)) as [Hlt|Hge]; [by left|].
  cbn [fail_if mbind result_bind]. pose proof (enforce_entries_spec w entries Hw) as He.
  destruct (enforce_entries w entries) as [u|e|m]; [| |done].
  - destruct (materialize_ok w Hw) as (w' & -> & Hw' & Hs & Hn & _ & Hc).
    split; [done|]. split; [done|]. split; [by rewrite Hc|]. split; [done|].
    intros j. rewrite Hn. destruct (N.eq_dec (next_unused w0 j) 0) as [->|Hne]; [lia|].
    apply He. rewrite Hp. apply elem_of_map_to_list. by apply floor_covers.
  - destruct He as (j & n & Hin & Hlt). right. exists j. rewrite Hp in Hin.
    apply elem_of_map_to_list in Hin. by apply floor_lookup in Hin as ->.
Qed.

(** C26: A wallet file is loaded beside the floor a wallet of the same key left
    exactly when it is not behind that wallet: no address fewer, no key earlier.  It is
    then a well-formed wallet that goes on after every key the other had handed out. *)
Theorem load_wallet_refuses_stale (w0 w : WalletFile) (entries : list (N * N)) :
  wallet_ok w0 -> file_ok w -> wf_master_sk w = wf_master_sk w0 ->
  entries ≡ₚ map_to_list (fl_wots_key_indices (wallet_xmss_floor w0)) ->
  match load_wallet false w (Some (wallet_xmss_floor w0)) entries with
  | Ok w' =>
      wallet_ok w' /\ same_book w w' /\ wf_addr_counter w0 <= wf_addr_counter w' /\
      (forall j, next_unused w' j = next_unused w j) /\ forall j, next_unused w0 j <= next_unused w' j
  | Err _ => wf_addr_counter w < wf_addr_counter w0 \/ exists j, next_unused w j < next_unused w0 j
  | Panic _ => False
  end.
Proof. apply load_wallet_spec. Qed.
End Keys.
