(* ===== verification/WalletScan.v ===== *)
(** * WalletScan: the wallet follows the chain

    [apply_scan_feed] and its two halves, and the loop of [cmd_rollup_sync]: notes are
    recovered from a feed, spent ones removed, spends confirmed and drained deposits
    forgotten.  The trial decryptions run in parallel and are collected in order; printing
    is not modelled.  What the loop fetches, the notes as the rollup stores them, is an
    argument, and so is what it finds at the path of its yield sentinel. *)

From S2P Require Import Prelude Felt Externals Types Hashing Wots Notes CanonicalWire Bds Wallet.

Local Open Scope N_scope.

Record NotesFeedResp := { nf_notes : list NoteMemo; nf_next_cursor : N }.

Record ScanSummary := {
  sm_found : N;
  sm_spent : N;
  sm_confirmed_pending : N;
  sm_pool_balances : gmap F N;
  sm_pruned_drained_pools : N
}.

Section Scan.
Context `{Blake2s, MlKem, Aead, Hex, Target}.

Definition note_key (n : Note) : N * F := (note_index n, note_cm n).

(** [for note in recovered.into_iter().flatten() { if known_notes.insert(..) { push } }]. *)
Fixpoint push_found (known : gset (N * F)) (recovered : list (option Note)) (notes : list Note)
    (found : N) : list Note * N :=
  match recovered with
  | [] => (notes, found)
  | None :: recovered => push_found known recovered notes found
  | Some note :: recovered =>
      if bool_decide (note_key note ∈ known) then push_found known recovered notes found
      else push_found ({[note_key note]} ∪ known) recovered (notes ++ [note]) (found + 1)
  end.

Definition known_notes (w : WalletFile) : gset (N * F) := list_to_set (note_key <$> wf_notes w).

(** Trial decryption of a feed. *)
Definition recover_feed (w : WalletFile) (feed : NotesFeedResp) : result (list (option Note)) :=
  map_result (try_recover_note w) (nf_notes feed).

Definition push_recovered (recovered : list (option Note)) : ST WalletFile N := fun w =>
  let '(notes, found) := push_found (known_notes w) recovered (wf_notes w) 0 in
  (wf_with_notes notes w, Ok found).

Definition list_cms (l : list NoteMemo) : gset F := list_to_set (nm_cm <$> l).

(** [w.notes.retain(|n| !nf_set.contains(..))]. *)
Definition prune_notes (nf_set : gset F) (l : list Note) : list Note :=
  filter (fun n => note_nullifier n ∉ nf_set) l.

Definition prune_spends (nf_set : gset F) (l : list PendingSpend) : list PendingSpend :=
  filter (fun p => ~ Forall (fun nf => nf ∈ nf_set) (psp_nullifiers p)) l.

Definition drained_on_chain (pool_balances : gmap F N) (p : PendingDeposit) : bool :=
  default 0 (pool_balances !! pd_pubkey_hash p) =? 0.

Definition cm_observed (known_cms : gset F) (p : PendingDeposit) : bool :=
  match pd_shielded_cm p with Some cm => bool_decide (cm ∈ known_cms) | None => false end.

Definition prune_deposits (pool_balances : gmap F N) (known_cms : gset F) (l : list PendingDeposit)
    : list PendingDeposit :=
  filter (fun p => negb (drained_on_chain pool_balances p && cm_observed known_cms p) = true) l.

(** [before - after.len()]. *)
Definition removed {A} (before after : list A) : N := N.of_nat (length before - length after).

(** Everything after the recovery; [extra] are the commitments of the feeds. *)
Definition prune (extra : gset F) (nullifiers : list F) (pool_balances : gmap F N) (found : N)
    (w : WalletFile) : WalletFile * ScanSummary :=
  let known_cms := list_to_set (note_cm <$> wf_notes w) ∪ extra in
  let nf_set := list_to_set nullifiers in
  let notes := prune_notes nf_set (wf_notes w) in
  let spends := prune_spends nf_set (wf_pending_spends w) in
  let deposits := prune_deposits pool_balances known_cms (wf_pending_deposits w) in
  (wf_with_pending_deposits deposits (wf_with_pending_spends spends (wf_with_notes notes w)),
   {| sm_found := found;
      sm_spent := removed (wf_notes w) notes;
      sm_confirmed_pending := removed (wf_pending_spends w) spends;
      sm_pool_balances := pool_balances;
      sm_pruned_drained_pools := removed (wf_pending_deposits w) deposits |}).

Definition apply_scan_feed (feed : NotesFeedResp) (nullifiers : list F) (pool_balances : gmap F N)
    : ST WalletFile ScanSummary :=
  recovered ← reads (fun w => recover_feed w feed);
  found ← push_recovered recovered;
  summary ← (fun w => let '(w, summary) := prune (list_cms (nf_notes feed)) nullifiers pool_balances found w in
                      (w, Ok summary));
  writes (wf_with_scanned (nf_next_cursor feed)) ;;
  mret summary.

(** Returns the number found, and [seen_cms] extended. *)
Definition apply_scan_feed_recover_batch (feed : NotesFeedResp) (seen_cms : list F)
    : ST WalletFile (N * list F) :=
  let seen_cms := seen_cms ++ (nm_cm <$> nf_notes feed) in
  recovered ← reads (fun w => recover_feed w feed);
  found ← push_recovered recovered;
  writes (wf_with_scanned (nf_next_cursor feed)) ;;
  mret (found, seen_cms).

Definition apply_scan_feed_finalize (seen_cms nullifiers : list F) (pool_balances : gmap F N)
    (w : WalletFile) : WalletFile * ScanSummary :=
  prune (list_to_set seen_cms) nullifiers pool_balances 0 w.
End Scan.
