(* ===== verification/WalletScanFacts.v ===== *)
(** * WalletScanFacts: scanning in batches, and what a scan finds

    Scanning a feed in batches and pruning once at the end is scanning it in one piece.
    Every note a scan adds opens under the wallet's own keys, and a note paid to an address
    of the wallet is found. *)

From S2P Require Import Prelude Felt Externals Types Hashing Binding Wots Notes CanonicalWire.
From S2P Require Import Bds Wallet WalletKeys WalletScan.

Local Open Scope N_scope.

(** ** Records without their repetitions *)

Section Fresh.
Context {R : Type} (key : R -> N * F).

Definition keys_in (records : list R) : gset (N * F) := list_to_set (key <$> records).

(** The records not known yet, each once. *)
Fixpoint fresh_records (records : list R) (found : list (option R)) : list R :=
  match found with
  | [] => []
  | None :: found => fresh_records records found
  | Some r :: found =>
      if bool_decide (key r ∈ keys_in records) then fresh_records records found
      else r :: fresh_records (records ++ [r]) found
  end.

Lemma keys_in_snoc records r : {[key r]} ∪ keys_in records = keys_in (records ++ [r]).
Proof. unfold keys_in. rewrite fmap_app, list_to_set_app_L. set_solver. Qed.

Lemma fresh_records_app records l k :
  fresh_records records (l ++ k) =
  fresh_records records l ++ fresh_records (records ++ fresh_records records l) k.
Proof.
  revert records. induction l as [|[r|] l IH]; intros records; cbn [app fresh_records].
  - by rewrite app_nil_r.
  - case_bool_decide; [apply IH|]. by rewrite IH, <-app_assoc.
  - apply IH.
Qed.

Lemma fresh_records_nodup records l :
  NoDup (key <$> records) -> NoDup (key <$> records ++ fresh_records records l).
Proof.
  revert records. induction l as [|[r|] l IH]; intros records Hn; cbn [fresh_records].
  - by rewrite app_nil_r.
  - case_bool_decide as Hin; [by apply IH|]. rewrite cons_middle, app_assoc. apply IH.
    rewrite fmap_app, NoDup_app. split; [done|]. split; [|apply NoDup_singleton].
    intros k Hk ->%list_elem_of_singleton. apply Hin. unfold keys_in. set_solver.
  - by apply IH.
Qed.

Lemma fresh_records_covers records l r :
  Some r ∈ l -> key r ∈ key <$> records ++ fresh_records records l.
Proof.
  revert records. induction l as [|o l IH]; intros records; [by intros ?%not_elem_of_nil|].
  intros [<-|Hin]%elem_of_cons; cbn [fresh_records].
  - case_bool_decide as Hk; rewrite fmap_app, elem_of_app; [|right; left].
    left. unfold keys_in in Hk. by apply elem_of_list_to_set in Hk.
  - destruct o as [x|]; [|by apply IH]. case_bool_decide; [by apply IH|].
    rewrite cons_middle, app_assoc. by apply IH.
Qed.

Lemma elem_of_fresh_records records l r : r ∈ fresh_records records l -> Some r ∈ l.
Proof.
  revert records. induction l as [|[x|] l IH]; intros records; cbn [fresh_records];
    [by intros ?%not_elem_of_nil|case_bool_decide|]; [right; by eapply IH| |right; by eapply IH].
  intros [->|Hr]%elem_of_cons; [left|right; by eapply IH].
Qed.

End Fresh.

Section Batches.
Context `{Blake2s, MlKem, Aead, Hex, Target}.

(** ** Pushing in pieces *)

Lemma push_found_new recovered notes found :
  push_found (keys_in note_key notes) recovered notes found =
  (notes ++ fresh_records note_key notes recovered, found + N.of_nat (length (fresh_records note_key notes recovered))).
Proof.
  revert notes found. induction recovered as [|[n|] r IH]; intros notes found; cbn [push_found fresh_records].
  - by rewrite app_nil_r, N.add_0_r.
  - case_bool_decide; [apply IH|]. rewrite keys_in_snoc, IH, <-app_assoc. cbn [length app].
    f_equal. lia.
  - apply IH.
Qed.

(** ** Wallets that differ in their notes *)

(** The part of a wallet that trial decryption reads. *)
Definition same_keys (w w' : WalletFile) : Prop :=
  wf_master_sk w' = wf_master_sk w /\ wf_addresses w' = wf_addresses w.

Lemma recover_from_keys w w' acc l nm :
  same_keys w w' -> recover_from w' acc l nm = recover_from w acc l nm.
Proof.
  intros [Hm _]. induction l as [|a l IH]; cbn [recover_from]; [done|].
  unfold kem_keys, account. rewrite Hm. destruct (derive_kem_keys _ _) as [[[? dk_v] ?] dk_d].
  destruct (detect _ dk_d) as [d| |]; cbn [mbind result_bind]; [|done..]. rewrite IH.
  destruct (negb d); [done|]. by destruct (decrypt_memo _ _) as [[[[??]?]|]| |]; cbn [mbind result_bind].
Qed.

Lemma try_recover_keys w w' nm : same_keys w w' -> try_recover_note w' nm = try_recover_note w nm.
Proof.
  intros Hk. unfold try_recover_note, account. rewrite (recover_from_keys w w') by done.
  by destruct Hk as [-> ->].
Qed.

Lemma map_result_ext {A B} (f g : A -> result B) l :
  (forall a, f a = g a) -> map_result f l = map_result g l.
Proof. intros E. induction l as [|a l IH]; cbn; [done|]. by rewrite E, IH. Qed.

Lemma map_result_app {A B} (f : A -> result B) l1 l2 :
  map_result f (l1 ++ l2) = (a ← map_result f l1; b ← map_result f l2; Ok (a ++ b)).
Proof.
  induction l1 as [|x l1 IH]; cbn [app map_result].
  - cbn. by destruct (map_result f l2).
  - destruct (f x) as [y| |]; cbn [mbind result_bind]; [|done..]. rewrite IH.
    destruct (map_result f l1) as [ys| |]; cbn [mbind result_bind]; [|done..].
    by destruct (map_result f l2).
Qed.

(** ** A batch *)

(** The wallet after its notes and its cursor moved on. *)
Definition scanned_on (w : WalletFile) (recovered : list (option Note)) (cursor : N) : WalletFile :=
  wf_with_scanned cursor (wf_with_notes (wf_notes w ++ fresh_records note_key (wf_notes w) recovered) w).

Lemma push_recovered_ok recovered w :
  push_recovered recovered w =
  (wf_with_notes (wf_notes w ++ fresh_records note_key (wf_notes w) recovered) w,
   Ok (N.of_nat (length (fresh_records note_key (wf_notes w) recovered)))).
Proof.
  unfold push_recovered. change (known_notes w) with (keys_in note_key (wf_notes w)).
  by rewrite push_found_new.
Qed.

Lemma recover_batch_ok feed seen w recovered :
  recover_feed w feed = Ok recovered ->
  apply_scan_feed_recover_batch feed seen w =
  (scanned_on w recovered (nf_next_cursor feed),
   Ok (N.of_nat (length (fresh_records note_key (wf_notes w) recovered)), seen ++ (nm_cm <$> nf_notes feed))).
Proof.
  intros E. unfold apply_scan_feed_recover_batch. cbv zeta. erewrite ST_run by (unfold reads; by rewrite E).
  rewrite (ST_run _ _ _ _ _ (push_recovered_ok recovered w)), ST_run_writes. done.
Qed.

Lemma scan_feed_ok feed nullifiers pools w recovered :
  recover_feed w feed = Ok recovered ->
  apply_scan_feed feed nullifiers pools w =
  (let n := N.of_nat (length (fresh_records note_key (wf_notes w) recovered)) in
   let '(w', summary) := prune (list_cms (nf_notes feed)) nullifiers pools n
     (scanned_on w recovered (nf_next_cursor feed)) in (w', Ok summary)).
Proof.
  intros E. unfold apply_scan_feed. erewrite ST_run by (unfold reads; by rewrite E).
  rewrite (ST_run _ _ _ _ _ (push_recovered_ok recovered w)). cbv zeta.
  reflexivity.
Qed.

Lemma scanned_on_app w r1 r2 c1 c2 :
  scanned_on (scanned_on w r1 c1) r2 c2 = scanned_on w (r1 ++ r2) c2.
Proof. unfold scanned_on. cbn. by rewrite fresh_records_app, app_assoc. Qed.

Lemma recover_feed_scanned w r c feed : recover_feed (scanned_on w r c) feed = recover_feed w feed.
Proof. apply map_result_ext. intros nm. by apply try_recover_keys. Qed.
End Batches.

(** ** What is found *)
Section Found.
Context `{Blake2s, MlKem, !MlKemImport, Aead, Hex, Target}.

Lemma decrypt_memo_u64 enc dk v rseed memo :
  decrypt_memo enc dk = Ok (Some (v, rseed, memo)) -> is_u64 v.
Proof.
  unfold decrypt_memo. destruct (_ ≫= _) as [ss|]; [|done].
  destruct (length (en_nonce enc) =? _)%nat; cbn [panic_unless mbind result_bind]; [|done].
  destruct (aead_decrypt _ _ _) as [pt|]; [|done].
  destruct (length pt =? 8 + 32 + MEMO_SIZE)%nat eqn:El; cbn [negb]; [|done].
  intros [= <- _ _]. apply Nat.eqb_eq in El. pose proof (le_val_bound (take 8 pt)) as Hb.
  rewrite length_take in Hb. unfold is_u64, U64_LIMIT.
  replace (8 `min` length pt)%nat with 8%nat in Hb by (unfold MEMO_SIZE in El; lia). exact Hb.
Qed.

Lemma decrypt_memo_shape enc dk : note_shape enc ->
  match decrypt_memo enc dk with Ok _ => True | _ => False end.
Proof.
  intros Hs. unfold decrypt_memo. rewrite (shape_nonce enc Hs), Nat.eqb_refl.
  destruct (_ ≫= _) as [ss|]; [|done]. cbn [panic_unless mbind result_bind].
  destruct (aead_decrypt _ _ _) as [pt|]; [|done]. by destruct (negb _).
Qed.

Lemma detect_total `{!MlKemImportLaws} enc dk : note_shape enc -> exists b, detect enc dk = Ok b.
Proof.
  intros Hs. unfold detect, ciphertext_try_from.
  pose proof (shape_ct_d enc Hs) as Hl. rewrite Hl, Nat.eqb_refl.
  destruct (kem_decapsulate_total dk (en_ct_d enc) Hl) as [ss ->]. cbn. by eexists.
Qed.

(** ** Notes that open *)

Definition owner_of (w : WalletFile) (st : WalletAddressState) : F :=
  owner_tag (wa_auth_root st) (wa_auth_pub_seed st)
    (derive_nk_tag (derive_nk_spend (acc_nk (account w)) (wa_d_j st))).

(** The note at an address of the wallet, with its spending key. *)
Definition note_for (w : WalletFile) (st : WalletAddressState) (v : N) (rseed cm : F) (index : N) : Note :=
  let nk_spend := derive_nk_spend (acc_nk (account w)) (wa_d_j st) in
  {| note_nk_spend := nk_spend; note_nk_tag := derive_nk_tag nk_spend;
     note_auth_root := wa_auth_root st; note_d_j := wa_d_j st; note_v := v; note_rseed := rseed;
     note_cm := cm; note_index := index; note_addr_index := wa_index st |}.

(** A note the wallet can spend: it is at one of its addresses, and its commitment opens. *)
Definition owns (w : WalletFile) (n : Note) : Prop := exists st,
  st ∈ wf_addresses w /\ is_u64 (note_v n) /\
  n = note_for w st (note_v n) (note_rseed n) (note_cm n) (note_index n) /\
  commit (wa_d_j st) (note_v n) (derive_rcm (note_rseed n)) (owner_of w st) = note_cm n.

Record notes_ok (w : WalletFile) : Prop := {
  no_owned : Forall (owns w) (wf_notes w);
  no_keys : NoDup (note_key <$> wf_notes w)
}.

Lemma owns_keys w w' n : same_keys w w' -> owns w n -> owns w' n.
Proof.
  intros [Hm Ha] (st & Hst & Hv & Hn & Hc). exists st. unfold note_for, owner_of, account in *.
  by rewrite Hm, Ha.
Qed.

(** What trial decryption looks for. *)
Definition opens (w : WalletFile) (nm : NoteMemo) (st : WalletAddressState) : Prop :=
  let '(_, dk_v, _, dk_d) := kem_keys w (wa_index st) in
  detect (nm_enc nm) dk_d = Ok true /\ exists v rseed memo,
  decrypt_memo (nm_enc nm) dk_v = Ok (Some (v, rseed, memo)) /\
  commit (wa_d_j st) v (derive_rcm rseed) (owner_of w st) = nm_cm nm.

Lemma recover_from_spec `{!MlKemImportLaws} w l nm :
  note_shape (nm_enc nm) -> l ⊆ wf_addresses w -> exists o,
  recover_from w (account w) l nm = Ok o /\
  match o with
  | Some n => owns w n /\ note_key n = (nm_index nm, nm_cm nm)
  | None => forall st, st ∈ l -> ~ opens w nm st
  end.
Proof.
  intros Hs. induction l as [|st l IH]; intros Hl; cbn [recover_from].
  - exists None. split; [done|]. by intros st ?%not_elem_of_nil.
  - destruct IH as (o & Eo & Ho); [set_solver|].
    destruct (kem_keys w (wa_index st)) as [[[? dk_v] ?] dk_d] eqn:Ek.
    assert (~ opens w nm st -> exists o0, recover_from w (account w) l nm = Ok o0 /\
      match o0 with
      | Some n => owns w n /\ note_key n = (nm_index nm, nm_cm nm)
      | None => forall st', st' ∈ st :: l -> ~ opens w nm st' end) as Hnext.
    { intros Hno. exists o. split; [done|]. destruct o; [done|].
      intros st' [->|Hin]%elem_of_cons; [done|by apply Ho]. }
    destruct (detect_total (nm_enc nm) dk_d Hs) as [d Ed]. rewrite Ed. cbn [mbind result_bind].
    destruct d; cbn [negb].
    2:{ apply Hnext. unfold opens. rewrite Ek, Ed. by intros [? _]. }
    pose proof (decrypt_memo_shape (nm_enc nm) dk_v Hs) as Hp.
    destruct (decrypt_memo (nm_enc nm) dk_v) as [[[[v rseed] memo]|]| |] eqn:Em; cbn [mbind result_bind].
    + unfold recover_note_for_address. fold (owner_of w st). case_bool_decide as Hc.
      * eexists. split; [reflexivity|]. split; [|done]. exists st. split; [set_solver|].
        split; [by eapply decrypt_memo_u64|]. by split.
      * apply Hnext. unfold opens. rewrite Ek, Em.
        by intros (_ & ? & ? & ? & [= <- <- <-] & ?).
    + apply Hnext. unfold opens. rewrite Ek, Em. by intros (_ & ? & ? & ? & ? & _).
    + done.
    + done.
Qed.

(** ** A payment to an address of the wallet *)

Lemma own_address_fields w st :
  let a := own_address w st in
  pa_d_j a = wa_d_j st /\ pa_auth_root a = wa_auth_root st /\
  pa_auth_pub_seed a = wa_auth_pub_seed st /\ pa_nk_tag a = wa_nk_tag st.
Proof. unfold own_address. by destruct (kem_keys w (wa_index st)) as [[[??]?]?]. Qed.

Lemma parse_own_ek `{!MlKemImportLaws} bad invalid dk :
  parse_ek bad invalid (kem_ek_bytes (kem_encapsulation_key dk)) = Ok (kem_encapsulation_key dk).
Proof.
  unfold parse_ek. rewrite length_kem_ek_bytes, Nat.eqb_refl, kem_ek_new_bytes. done.
Qed.

(** The keys of an address open an encryption to a value and its seed. *)
Definition opened_to (w : WalletFile) (enc : EncryptedNote) (st : WalletAddressState) (value : N)
    (rseed : F) : Prop :=
  let '(_, dk_v, _, dk_d) := kem_keys w (wa_index st) in
  detect enc dk_d = Ok true /\ exists memo, decrypt_memo enc dk_v = Ok (Some (value, rseed, memo)).

Lemma opened_opens w st value rseed index cm enc :
  opened_to w enc st value rseed -> cm = commit (wa_d_j st) value (derive_rcm rseed) (owner_of w st) ->
  opens w {| nm_index := index; nm_cm := cm; nm_enc := enc |} st.
Proof.
  unfold opened_to, opens. destruct (kem_keys w (wa_index st)) as [[[??]?]?].
  intros [Hd [memo Hm]] ->. split; [exact Hd|]. by exists value, rseed, memo.
Qed.

(** What is built for an address of the wallet is opened by it. *)
Lemma build_own_note `{!AeadLaws, !MlKemLaws, !MlKemImportLaws} w st rnd value memo seed role :
  wa_nk_tag st = derive_nk_tag (derive_nk_spend (acc_nk (account w)) (wa_d_j st)) ->
  is_u64 value -> exists on,
  build_output_note_with_outgoing rnd (own_address w st) value memo seed role = Ok on /\
  note_shape (on_enc on) /\
  on_cm on = commit (wa_d_j st) value (derive_rcm (nr_rseed rnd)) (owner_of w st) /\
  opened_to w (on_enc on) st value (nr_rseed rnd).
Proof.
  intros Hnk Hv. destruct (own_address_fields w st) as (Ed & Er & Ep & En).
  unfold build_output_note_with_outgoing, build_output_note_inner. rewrite Ed, Er, Ep, En, Hnk.
  fold (owner_of w st). set (cm := commit _ _ _ _).
  unfold own_address, opened_to, kem_keys, derive_kem_keys.
  pose proof (encrypt_note_correct value (nr_rseed rnd) memo
    (derive_kem_view_seed (acc_incoming_seed (account w)) (wa_index st))
    (derive_kem_detect_seed (acc_incoming_seed (account w)) (wa_index st))
    (nr_detect rnd) (nr_view rnd) Hv) as He.
  unfold kem_keygen_from_seed in *. cbn [pa_ek_v pa_ek_d payment_address].
  set (dk_v := kem_dk_from_seed (derive_kem_view_seed _ _)) in *.
  set (dk_d := kem_dk_from_seed (derive_kem_detect_seed _ _)) in *.
  destruct He as (enc & Ee & Hs & Hd & Hm).
  rewrite !parse_own_ek. cbn [mbind result_bind]. unfold encrypt_note. rewrite Ee.
  cbn [mbind result_bind]. set (rec := outgoing_recovery_plaintext _ _ _ _).
  destruct (outgoing_recovery_roundtrip seed cm rec Hv) as (ct & Ec & Hl & _). rewrite Ec.
  cbn [mbind result_bind]. eexists. split; [reflexivity|]. cbn [on_enc on_cm].
  split; [destruct Hs; by constructor|]. split; [done|]. split; [exact Hd|]. eexists. exact Hm.
Qed.

Lemma opened_or_collision w st value rseed cm n :
  is_u64 value -> cm = commit (wa_d_j st) value (derive_rcm rseed) (owner_of w st) ->
  owns w n -> note_cm n = cm ->
  note_v n = value /\ note_d_j n = wa_d_j st \/
  exists st', st' ∈ wf_addresses w /\
    is_collision "cmmtSP__"
      (commit_input (wa_d_j st') (note_v n) (derive_rcm (note_rseed n)) (owner_of w st'))
      (commit_input (wa_d_j st) value (derive_rcm rseed) (owner_of w st)).
Proof.
  intros Hv -> (st' & Hst & Hn & En & Hc) E. rewrite <-Hc in E.
  apply blake2s_binding in E as [E|C]; [|by right; exists st'].
  apply commit_input_inj in E as (Ed & Ev & _); [|done..]. left. split; [done|].
  by rewrite En, <-Ed.
Qed.

(** ** A whole feed *)

Lemma recover_feed_ok `{!MlKemImportLaws} w feed :
  Forall (fun nm => note_shape (nm_enc nm)) (nf_notes feed) -> exists recovered,
  recover_feed w feed = Ok recovered /\
  (forall n, Some n ∈ recovered -> owns w n) /\
  (forall nm st, nm ∈ nf_notes feed -> st ∈ wf_addresses w -> opens w nm st ->
    exists n, Some n ∈ recovered /\ note_key n = (nm_index nm, nm_cm nm)).
Proof.
  unfold recover_feed. induction (nf_notes feed) as [|nm l IH]; intros Hl.
  - exists []. split; [done|]. split; [by intros n ?%not_elem_of_nil|].
    by intros nm st ?%not_elem_of_nil.
  - apply Forall_cons in Hl as [Hs Hl]. destruct (IH Hl) as (r & Er & Ho & Hf).
    destruct (recover_from_spec w (wf_addresses w) nm Hs (reflexivity _)) as (o & Eo & Hn).
    exists (o :: r). cbn [map_result]. assert (try_recover_note w nm = Ok o) as -> by exact Eo. rewrite Er.
    split; [done|]. split.
    + intros n [<-|Hin]%elem_of_cons; [apply Hn|by apply Ho].
    + intros nm' st [->|Hin]%elem_of_cons Hst Hop.
      * destruct o as [n|]; [|by destruct (Hn st Hst Hop)]. exists n. split; [left|apply Hn].
      * destruct (Hf nm' st Hin Hst Hop) as (n & Hr & Hk). exists n. split; [by right|done].
Qed.

Lemma scanned_notes_ok w recovered cursor :
  notes_ok w -> (forall n, Some n ∈ recovered -> owns w n) ->
  notes_ok (scanned_on w recovered cursor).
Proof.
  intros [Ho Hk] Hr. split.
  - apply Forall_app. split; (eapply Forall_impl; [|intros n Hn; eapply owns_keys; [|exact Hn]; done]).
    + exact Ho.
    + apply Forall_forall. intros n Hn%elem_of_fresh_records. by apply Hr.
  - by apply fresh_records_nodup.
Qed.

Lemma NoDup_fmap_filter {A B} (f : A -> B) (P : A -> Prop) `{forall x, Decision (P x)} l :
  NoDup (f <$> l) -> NoDup (f <$> filter P l).
Proof.
  induction l as [|x l IH]; [done|]. cbn [fmap list_fmap]. intros [Hx Hl]%NoDup_cons.
  rewrite filter_cons. case_decide; [|by apply IH]. apply NoDup_cons. split; [|by apply IH].
  intros (y & Hy & Hin)%list_elem_of_fmap. apply Hx. apply list_elem_of_fmap. exists y.
  split; [done|]. by apply list_elem_of_filter in Hin as [_ ?].
Qed.

Lemma prune_notes_ok extra nfs pools n w : notes_ok w -> notes_ok (fst (prune extra nfs pools n w)).
Proof.
  intros [Ho Hk]. split; cbn [fst prune].
  - apply Forall_forall. intros m Hm. unfold prune in Hm. cbn in Hm.
    apply list_elem_of_filter in Hm as [_ Hm]. eapply owns_keys; [|by eapply Forall_forall in Ho]; done.
  - unfold prune. cbn. by apply NoDup_fmap_filter.
Qed.

(** A note of the feed that an address opens is in the wallet afterwards, or is spent. *)
Lemma scan_finds_opening `{!MlKemImportLaws} (w : WalletFile) (feed : NotesFeedResp)
    (nullifiers : list F) (pools : gmap F N) :
  notes_ok w -> Forall (fun nm => note_shape (nm_enc nm)) (nf_notes feed) ->
  exists w' summary,
    apply_scan_feed feed nullifiers pools w = (w', Ok summary) /\ notes_ok w' /\
    forall nm st, nm ∈ nf_notes feed -> st ∈ wf_addresses w -> opens w nm st ->
      exists n, note_key n = (nm_index nm, nm_cm nm) /\ owns w n /\
        (n ∈ wf_notes w' \/ note_nullifier n ∈ nullifiers).
Proof.
  intros Hn Hf. destruct (recover_feed_ok w feed Hf) as (r & Er & Ho & Hfound).
  pose proof (scanned_notes_ok w r (nf_next_cursor feed) Hn Ho) as Hn1.
  set (w1 := scanned_on w r (nf_next_cursor feed)) in *.
  destruct (prune (list_cms (nf_notes feed)) nullifiers pools
    (N.of_nat (length (fresh_records note_key (wf_notes w) r))) w1) as [w' summary] eqn:Ep.
  pose proof (prune_notes_ok (list_cms (nf_notes feed)) nullifiers pools
    (N.of_nat (length (fresh_records note_key (wf_notes w) r))) w1 Hn1) as Hn2.
  rewrite Ep in Hn2. cbn [fst] in Hn2.
  exists w', summary. split; [rewrite (scan_feed_ok _ _ _ _ r Er); cbv zeta; fold w1; by rewrite Ep|].
  split; [done|]. intros nm st Hin Hst Hop.
  destruct (Hfound _ _ Hin Hst Hop) as (n & Hr & Hkey).
  pose proof (fresh_records_covers note_key (wf_notes w) r n Hr) as Hcov.
  apply list_elem_of_fmap in Hcov as (m & Hm & Hin'). exists m. rewrite <-Hm.
  assert (owns w m) as Hown.
  { apply elem_of_app in Hin' as [Hin'|Hin'%elem_of_fresh_records]; [|by apply Ho].
    by eapply Forall_forall in Hin'; [|apply Hn]. }
  split; [exact Hkey|]. split; [done|].
  destruct (decide (note_nullifier m ∈ nullifiers)) as [Hsp|Hsp]; [by right|left].
  injection Ep as <- _. cbn. apply list_elem_of_filter. split; [|exact Hin'].
  by rewrite elem_of_list_to_set.
Qed.

(** C19: A scan of well-formed notes always succeeds, and leaves a wallet each of whose
    notes is new, at one of its addresses, and opens its commitment.  A note paid to an
    address of the wallet and published in the feed is in the wallet afterwards with the
    value paid, unless it was spent, or a collision of the commitment hash is exhibited. *)
Theorem scan_finds_payment `{!AeadLaws, !MlKemLaws, !MlKemImportLaws} (w : WalletFile)
    (feed : NotesFeedResp) (nullifiers : list F) (pools : gmap F N) (st : WalletAddressState)
    (rnd : NoteRandomness) (value : N) (memo : option bytes) (seed : F) (role : OutgoingNoteRole) :
  wallet_ok w -> notes_ok w -> st ∈ wf_addresses w -> is_u64 value ->
  Forall (fun nm => note_shape (nm_enc nm)) (nf_notes feed) ->
  exists w' summary on,
    apply_scan_feed feed nullifiers pools w = (w', Ok summary) /\ notes_ok w' /\
    build_output_note_with_outgoing rnd (own_address w st) value memo seed role = Ok on /\
    note_shape (on_enc on) /\
    forall index,
      {| nm_index := index; nm_cm := on_cm on; nm_enc := on_enc on |} ∈ nf_notes feed ->
      exists n, note_key n = (index, on_cm on) /\ owns w n /\
        (n ∈ wf_notes w' \/ note_nullifier n ∈ nullifiers) /\
        (note_v n = value /\ note_d_j n = wa_d_j st \/
         exists st', st' ∈ wf_addresses w /\
           is_collision "cmmtSP__"
             (commit_input (wa_d_j st') (note_v n) (derive_rcm (note_rseed n)) (owner_of w st'))
             (commit_input (wa_d_j st) value (derive_rcm (nr_rseed rnd)) (owner_of w st))).
Proof.
  intros Hw Hn Hst Hv Hf.
  assert (wa_nk_tag st = derive_nk_tag (derive_nk_spend (acc_nk (account w)) (wa_d_j st))) as Hnk.
  { apply list_elem_of_lookup in Hst as [i Hi]. by destruct (fo_addresses _ (wo_file _ Hw) _ _ Hi) as [-> _]. }
  destruct (build_own_note w st rnd value memo seed role Hnk Hv) as (on & Eb & Hs & Ec & Hop).
  destruct (scan_finds_opening w feed nullifiers pools Hn Hf) as (w' & summary & Es & Hn' & Hfound).
  exists w', summary, on. do 4 (split; [done|]). intros index Hin.
  destruct (Hfound _ st Hin Hst (opened_opens _ _ _ _ index _ _ Hop Ec)) as (n & Hk & Hown & Hw').
  exists n. split; [done|]. split; [done|]. split; [done|].
  eapply opened_or_collision; [done|exact Ec|done|]. by injection Hk.
Qed.
End Found.
