(* ===== verification/WalletSpend.v ===== *)
(** * WalletSpend: the transfers and unshields a wallet prepares

    A prepared transfer or unshield spends available notes whose values are exactly what it
    pays, burns and returns as change; its notes pay the recipient, the producer and a new
    address of the wallet; and the ledger accepts it. *)

From S2P Require Import Prelude Felt Externals Types Recipients Hashing Binding Wots Notes.
From S2P Require Import Outputs Ledger LedgerSpec Bds Wallet WalletSelect WalletKeys WalletScan.
From S2P Require Import WalletScanFacts.

Local Open Scope N_scope.

Section Spend.
Context `{Blake2s, MlKem, !MlKemImport, Aead, Hex, WordTarget}.
Context `{!AeadLaws, !MlKemLaws, !MlKemImportLaws}.

(** ** Output notes *)

Record valid_address (a : PaymentAddress) : Prop := {
  va_view : length (pa_ek_v a) = ML_KEM768_EK_BYTES /\ is_Some (kem_ek_new (pa_ek_v a));
  va_detect : length (pa_ek_d a) = ML_KEM768_EK_BYTES /\ is_Some (kem_ek_new (pa_ek_d a))
}.

(** A well-formed note whose commitment opens to a payment of [v] to [a]. *)
Definition pays (a : PaymentAddress) (v : N) (rseed : F) (cm : F) (enc : EncryptedNote) : Prop :=
  cm = commit (pa_d_j a) v (derive_rcm rseed)
         (owner_tag (pa_auth_root a) (pa_auth_pub_seed a) (pa_nk_tag a)) /\
  note_shape enc.

Lemma encrypt_note_total v rseed memo ek_v ek_d m_d m_v : exists enc,
  encrypt_note_deterministic v rseed memo ek_v ek_d m_d m_v = Ok enc /\ note_shape enc.
Proof.
  unfold encrypt_note_deterministic.
  pose proof (length_kem_ciphertext ek_d m_d) as Ld. pose proof (length_kem_ciphertext ek_v m_v) as Lv.
  destruct (kem_encapsulate_deterministic ek_d m_d) as [ct_d ss_d].
  destruct (kem_encapsulate_deterministic ek_v m_v) as [ct_v ss_v]. cbn [fst] in *.
  set (pt := note_plaintext v rseed memo).
  destruct (aead_encrypt_total (hash ss_v) (derive_note_aead_nonce (hash ss_v) pt) pt) as [ct Hct];
    [apply length_nonce_of|unfold pt; by rewrite length_note_plaintext|].
  rewrite Hct. eexists. split; [reflexivity|]. constructor;
    cbn [en_ct_d en_ct_v en_nonce en_encrypted_data en_outgoing_ct en_tag]; [done|done| | | |].
  - apply length_nonce_of.
  - rewrite (length_aead_encrypt _ _ _ _ Hct). unfold pt. by rewrite length_note_plaintext.
  - apply length_replicate.
  - apply detection_tag_bound.
Qed.

Lemma build_note_ok rnd a v memo seed role :
  valid_address a -> is_u64 v -> exists on,
  build_output_note_with_outgoing rnd a v memo seed role = Ok on /\
  pays a v (nr_rseed rnd) (on_cm on) (on_enc on).
Proof.
  intros [[Lv [ek_v Ev]] [Ld [ek_d Ed]]] Hv.
  unfold build_output_note_with_outgoing, build_output_note_inner, parse_ek.
  rewrite Lv, Ld, Ev, Ed, !Nat.eqb_refl. cbn [negb fail_if ok_or mbind result_bind].
  destruct (encrypt_note_total v (nr_rseed rnd) memo ek_v ek_d (nr_detect rnd) (nr_view rnd))
    as (enc & Ee & Hs).
  unfold encrypt_note. rewrite Ee. cbn [mbind result_bind]. set (cm := commit _ _ _ _).
  destruct (outgoing_recovery_roundtrip seed cm (outgoing_recovery_plaintext a role v (nr_rseed rnd)) Hv)
    as (ct & Ec & Hl & _).
  rewrite Ec. cbn [mbind result_bind]. eexists. split; [reflexivity|].
  split; [done|]. destruct Hs. by constructor.
Qed.

Lemma valid_own w st : valid_address (own_address w st).
Proof.
  unfold own_address, kem_keys, derive_kem_keys, kem_keygen_from_seed.
  split; cbn [pa_ek_v pa_ek_d payment_address]; (split; [apply length_kem_ek_bytes|]);
    rewrite kem_ek_new_bytes; by eexists.
Qed.

(** ** Selection *)

Lemma total_spend_Ok amount fee dal_fee msg total :
  total_spend amount fee dal_fee msg = Ok total ->
  total = amount + fee + dal_fee /\ is_u64 total.
Proof.
  unfold total_spend, checked_add_u64, checked_add.
  destruct (N.ltb_spec (amount + fee) U64_LIMIT) as [Ha|Ha]; cbn [mbind option_bind]; [|done].
  destruct (N.ltb_spec (amount + fee + dal_fee) U64_LIMIT) as [Hb|Hb]; cbn; [|done].
  intros [= <-]. by split.
Qed.

Lemma selected_ok w sel :
  choice w sel -> exists notes,
    selected_notes w sel = Ok notes /\
    Forall2 (fun i n => wf_notes w !! i = Some n /\ available w n) sel notes /\
    note_v <$> notes = value_at w <$> sel.
Proof.
  intros [_ Hin]. unfold selected_notes, index_at. induction sel as [|i sel IH].
  - exists []. by split; [|split; [constructor|]].
  - destruct IH as (notes & E & Hf & Hv); [intros j Hj; apply Hin; by right|].
    destruct (Hin i ltac:(left)) as (n & Hn & Ha). exists (n :: notes).
    cbn [map_result]. rewrite Hn, E. split; [done|]. split; [by constructor|].
    cbn [fmap list_fmap]. f_equal; [|exact Hv]. unfold value_at. by rewrite Hn.
Qed.

Lemma notes_u64 w i n : notes_ok w -> wf_notes w !! i = Some n -> is_u64 (note_v n).
Proof.
  intros [Ho _] Hi. eapply Forall_lookup_1 in Ho; [|exact Hi]. by destruct Ho as (? & _ & ? & _).
Qed.

Lemma choice_single w sel i : choice w sel -> i ∈ sel -> choice w [i].
Proof.
  intros [_ Hin] Hi. split; [apply NoDup_singleton|].
  intros j ->%list_elem_of_singleton. by apply Hin.
Qed.

(** The largest selection exceeds what is asked by less than one note. *)
Lemma change_u64 w total sel :
  notes_ok w -> select_notes w total = Ok sel -> is_u64 (chosen_sum w sel - total).
Proof.
  intros Hn E. pose proof (select_notes_spec w total) as Hs. rewrite E in Hs.
  destruct Hs as (Hc & Hne & Hle & Hfew & Hmin). destruct sel as [|i sel]; [done|].
  destruct (proj2 Hc i ltac:(left)) as (n & Hi & Ha). pose proof (notes_u64 w i n Hn Hi) as Hv.
  assert (value_at w i = note_v n) as Ev by (unfold value_at; by rewrite Hi).
  destruct (N.eq_dec total 0) as [->|Hpos].
  - assert (length (i :: sel) <= length [i])%nat as Hl.
    { apply Hfew; [by eapply choice_single; [|left]|done|lia]. }
    destruct sel; [|cbn in Hl; lia]. unfold chosen_sum, sum_amounts. cbn. rewrite Ev.
    unfold is_u64 in *. lia.
  - specialize (Hmin ltac:(lia) i ltac:(left)). rewrite Ev in Hmin. unfold is_u64 in *. lia.
Qed.

Lemma sub_u128_small a b : b <= a -> a < U128_LIMIT -> sub_u128 a b = a - b.
Proof.
  intros Hle Hlt. unfold sub_u128.
  replace (a + U128_LIMIT - b) with (a - b + 1 * U128_LIMIT) by lia.
  rewrite N.Div0.mod_add. apply N.mod_small. lia.
Qed.

(** A selection is exactly its payments and a change that fits. *)
Lemma selection_ok w amount fee dal_fee msg total sel :
  notes_ok w -> total_spend amount fee dal_fee msg = Ok total ->
  select_notes w total = Ok sel -> exists notes,
    selected_notes w sel = Ok notes /\ choice w sel /\
    Forall2 (fun i n => wf_notes w !! i = Some n /\ available w n) sel notes /\
    notes <> [] /\
    let change := change_of notes amount fee dal_fee in
    sum_amounts (note_v <$> notes) = amount + fee + dal_fee + change /\ is_u64 change.
Proof.
  intros Hn [Et Hu]%total_spend_Ok E. pose proof (change_u64 w total sel Hn E) as Hch.
  pose proof (select_notes_spec w total) as Hs. rewrite E in Hs.
  destruct Hs as (Hc & Hne & Hle & _). destruct (selected_ok w sel Hc) as (notes & En & Hf & Hv).
  exists notes. split; [done|]. split; [done|]. split; [done|]. split.
  { intros ->. apply Forall2_nil_inv_r in Hf. done. }
  unfold change_of. rewrite Hv. fold (chosen_sum w sel). set (s := chosen_sum w sel) in *.
  assert (s < U128_LIMIT) as Hs by (unfold is_u64, U64_LIMIT, U128_LIMIT in *; lia).
  subst total. rewrite (sub_u128_small s amount), (sub_u128_small (s - amount) fee),
    (sub_u128_small (s - amount - fee) dal_fee) by lia. rewrite N.mod_small by (unfold is_u64, U64_LIMIT in *; lia).
  split; [lia|]. by replace (s - amount - fee - dal_fee) with (s - (amount + fee + dal_fee)) by lia.
Qed.

Lemma selected_nullifiers w sel notes :
  NoDup (note_nullifier <$> wf_notes w) -> NoDup sel ->
  Forall2 (fun i n => wf_notes w !! i = Some n /\ available w n) sel notes ->
  NoDup (note_nullifier <$> notes).
Proof.
  intros Hd Hs Hf. induction Hf as [|i n sel notes [Hi Ha] Hf IH]; [constructor|].
  apply NoDup_cons in Hs as [Hni Hs]. apply NoDup_cons. split; [|by apply IH].
  intros (m & Em & Hm)%list_elem_of_fmap. apply list_elem_of_lookup in Hm as [k Hk].
  destruct (Forall2_lookup_r _ _ _ _ _ Hf Hk) as (j & Hj & Hjm & _).
  apply Hni. apply list_elem_of_lookup. exists k. rewrite Hj. f_equal. symmetry.
  eapply NoDup_lookup; [exact Hd|rewrite list_lookup_fmap, Hi; reflexivity|].
  by rewrite list_lookup_fmap, Hjm, Em.
Qed.

(** ** Preparing *)

Lemma change_output_ok rnd change seed role w :
  wallet_ok w -> wf_addr_counter w + 1 < U32_LIMIT -> is_u64 change -> exists w' st on,
  change_output false rnd change seed role w = (w', Ok (st, on)) /\
  wallet_ok w' /\ same_book w w' /\ (forall j, next_unused w' j = next_unused w j) /\
  wf_addr_counter w' = wf_addr_counter w + 1 /\ st ∈ wf_addresses w' /\
  pays (own_address w' st) change (nr_rseed rnd) (on_cm on) (on_enc on).
Proof.
  intros Hw Hc Hv. destruct (next_address_ok w Hw Hc) as (w' & bds & E & Hw' & Hs & Hn & Hc' & Hst & _).
  set (st := address_for w (wf_addr_counter w) bds) in *.
  assert (own_address w st = own_address w' st) as Eo.
  { unfold own_address, kem_keys, account. by rewrite (sb_master _ _ Hs). }
  destruct (build_note_ok rnd (own_address w' st) change None seed role (valid_own w' st) Hv)
    as (on & Eb & Hp).
  exists w', st, on. split; [|split; [done|split; [done|split; [done|split; [done|split; [|done]]]]]].
  - unfold change_output. rewrite (ST_run _ _ _ _ _ E). unfold reads.
    erewrite ST_run by reflexivity. cbv beta.
    revert Eb. unfold own_address. destruct (kem_keys w' (wa_index st)) as [[[ek_v ?] ek_d] ?].
    intros Eb. by rewrite (ST_run_lift _ _ _ _ Eb).
  - by eapply list_elem_of_lookup_2.
Qed.

Lemma change_note_ok rnd change seed role w :
  wallet_ok w -> wf_addr_counter w + 1 < U32_LIMIT -> is_u64 change -> exists w' st on,
  change_note false rnd change seed role w = (w', Ok on) /\
  wallet_ok w' /\ same_book w w' /\ (forall j, next_unused w' j = next_unused w j) /\
  wf_addr_counter w' = wf_addr_counter w + 1 /\ st ∈ wf_addresses w' /\
  pays (own_address w' st) change (nr_rseed rnd) (on_cm on) (on_enc on).
Proof.
  intros Hw Hc Hv. destruct (change_output_ok rnd change seed role w Hw Hc Hv) as (w' & st & on & E & Ho).
  exists w', st, on. split; [|exact Ho]. unfold change_note. by rewrite (ST_run _ _ _ _ _ E).
Qed.

(** The wallet after a change note: one address more. *)
Definition with_change (w w' : WalletFile) (st : WalletAddressState) : Prop :=
  wallet_ok w' /\ same_book w w' /\ (forall j, next_unused w' j = next_unused w j) /\
  wf_addr_counter w' = wf_addr_counter w + 1 /\ st ∈ wf_addresses w'.

(** What is spent: available notes worth the payments and the change. *)
Definition covers (w : WalletFile) (sel : list nat) (notes : list Note) (paid change : N) : Prop :=
  choice w sel /\ Forall2 (fun i n => wf_notes w !! i = Some n /\ available w n) sel notes /\
  notes <> [] /\ sum_amounts (note_v <$> notes) = paid + change /\ is_u64 change.

(** Why nothing is prepared. *)
Definition cannot_pay (w : WalletFile) (paid : N) : Prop :=
  U64_LIMIT <= paid \/ forall sel, choice w sel -> sel <> [] -> chosen_sum w sel < paid.

(** A ledger on which a selection can be spent. *)
Definition spendable (v : View) (root : F) (notes : list Note) : Prop :=
  root ∈ v_roots v /\ (length notes <= 7)%nat /\
  forall n, n ∈ notes -> note_nullifier n ∉ v_nullifiers v.

Lemma spendable_ok w sel notes paid change v root :
  NoDup (note_nullifier <$> wf_notes w) -> covers w sel notes paid change ->
  spendable v root notes -> spends_ok v root (note_nullifier <$> notes).
Proof.
  intros Hd (Hc & Hf & Hne & _) (Hr & Hl & Hu). constructor.
  - rewrite length_fmap. destruct notes; [done|cbn in *; lia].
  - done.
  - intros nf (n & -> & Hn)%list_elem_of_fmap. by apply Hu.
  - eapply selected_nullifiers; [exact Hd|apply Hc|exact Hf].
Qed.

(** The first steps both preparations share. *)
Lemma prepare_cases w amount fee dal_fee msg :
  notes_ok w ->
  (exists e, total_spend amount fee dal_fee msg = Err e /\ cannot_pay w (amount + fee + dal_fee)) \/
  exists total, total_spend amount fee dal_fee msg = Ok total /\
    ((exists e, select_notes w total = Err e /\ cannot_pay w (amount + fee + dal_fee)) \/
     exists sel notes, select_notes w total = Ok sel /\ selected_notes w sel = Ok notes /\
       covers w sel notes (amount + fee + dal_fee) (change_of notes amount fee dal_fee)).
Proof.
  intros Hn. destruct (total_spend amount fee dal_fee msg) as [total|e|m] eqn:Et.
  - right. exists total. split; [done|]. destruct (total_spend_Ok _ _ _ _ _ Et) as [Ht Hu].
    pose proof (select_notes_spec w total) as Hs.
    destruct (select_notes w total) as [sel|e|m] eqn:Es; [right| |done].
    + destruct (selection_ok w _ _ _ _ _ _ Hn Et Es) as (notes & En & Hc & Hf & Hne & Hsum & Hch).
      exists sel, notes. split; [done|]. split; [done|]. by split; [|split; [|split; [|split]]].
    + left. exists e. split; [done|]. right. by rewrite <-Ht.
  - left. exists e. split; [done|]. left. apply N.le_ngt. intros Hlt.
    revert Et. unfold total_spend, checked_add_u64, checked_add.
    rewrite (proj2 (N.ltb_lt (amount + fee) _)) by lia. cbn [mbind option_bind].
    by rewrite (proj2 (N.ltb_lt _ _)) by lia.
  - exfalso. revert Et. unfold total_spend. by destruct (checked_add_u64 _ _ ≫= _).
Qed.

(** C17: A wallet prepares a transfer exactly when available notes can pay it, and
    otherwise stays as it was.  The notes spent are worth exactly the amount, the fees and
    the change; the three notes pay the recipient, a new address of the wallet and the
    producer; no key is used; and any ledger where the notes are unspent, at most seven
    and under an accepted root, and the fee is enough, accepts the request. *)
Theorem prepare_transfer_correct (w : WalletFile) (rnd_1 rnd_2 rnd_3 : NoteRandomness) (root : F)
    (recipient producer : PaymentAddress) (amount fee dal_fee : N) (memo : option string) :
  wallet_ok w -> notes_ok w -> wf_addr_counter w + 1 < U32_LIMIT ->
  valid_address recipient -> valid_address producer -> is_u64 amount -> is_u64 dal_fee ->
  match prepare_transfer_skip_proof false rnd_1 rnd_2 rnd_3 root recipient amount fee dal_fee
    producer memo w with
  | (w', Ok p) => exists notes st,
      let req := pts_req p in
      with_change w w' st /\
      covers w (pts_selected p) notes (amount + fee + dal_fee) (pts_change p) /\
      tr_nullifiers req = note_nullifier <$> notes /\ tr_root req = root /\ tr_fee req = fee /\
      pays recipient amount (nr_rseed rnd_1) (tr_cm_1 req) (tr_enc_1 req) /\
      pays (own_address w' st) (pts_change p) (nr_rseed rnd_2) (tr_cm_2 req) (tr_enc_2 req) /\
      pays producer dal_fee (nr_rseed rnd_3) (tr_cm_3 req) (tr_enc_3 req) /\
      forall v required capacity,
        NoDup (note_nullifier <$> wf_notes w) -> spendable v root notes -> required <= fee ->
        N.of_nat (length (v_notes v)) + 3 <= capacity ->
        transfer_accepts required capacity v req
  | (w', Err _) => w' = w /\ cannot_pay w (amount + fee + dal_fee)
  | (_, Panic _) => False
  end.
Proof.
  intros Hw Hn Hc Hr Hp Ha Hd. unfold prepare_transfer_skip_proof.
  destruct (prepare_cases w amount fee dal_fee "transfer total spend overflow" Hn)
    as [(e & Et & Hno)|(total & Et & [(e & Es & Hno)|(sel & notes & Es & En & Hcov)])].
  - by rewrite (ST_lift_Err _ _ _ _ Et).
  - by rewrite (ST_run_lift _ _ _ _ Et), (ST_reads_Err (fun w => select_notes w total) _ _ _ Es).
  - rewrite (ST_run_lift _ _ _ _ Et), (ST_run_reads (fun w => select_notes w total) _ _ _ Es),
      (ST_run_reads (fun w => selected_notes w sel) _ _ _ En).
    cbv beta zeta. set (change := change_of notes amount fee dal_fee) in *.
    set (seed := acc_outgoing_seed (account w)).
    rewrite (ST_run_reads (fun w => mret (acc_outgoing_seed (account w))) _ _ seed eq_refl).
    destruct (build_note_ok rnd_1 recipient amount (str_bytes <$> memo) seed TransferRecipient Hr Ha)
      as (on_1 & E1 & P1).
    destruct (change_note_ok rnd_2 change seed TransferChange w Hw Hc) as
      (w' & st & on_2 & E2 & Hw' & Hs & Hnx & Hc' & Hst & P2); [apply Hcov|].
    destruct (build_note_ok rnd_3 producer dal_fee dal_memo seed ProducerFee Hp Hd) as (on_3 & E3 & P3).
    rewrite (ST_run_lift _ _ _ _ E1), (ST_run _ _ _ _ _ E2), (ST_run_lift _ _ _ _ E3).
    cbn [mret ST_ret]. exists notes, st. cbv zeta. cbn [pts_req pts_selected pts_change tr_nullifiers
      tr_root tr_fee tr_cm_1 tr_cm_2 tr_cm_3 tr_enc_1 tr_enc_2 tr_enc_3].
    split; [done|]. split; [done|]. split; [done|]. split; [done|]. split; [done|]. split; [done|].
    split; [done|]. split; [done|]. intros v required capacity Hdup Hspend Hfee Hroom.
    constructor; cbn [tr_fee tr_enc_1 tr_enc_2 tr_enc_3 tr_root tr_nullifiers tr_proof]; [done| | |done|done].
    + split; [apply P1|]. split; [apply P2|apply P3].
    + by eapply spendable_ok.
Qed.

(** An unshield with a trusted proof. *)
Definition unshield_of (root : F) (nullifiers : list F) (amount fee : N) (recipient : string)
    (cm_change : F) (enc_change : option EncryptedNote) (cm_fee : F) (enc_fee : EncryptedNote)
    : UnshieldReq :=
  {| ur_root := root; ur_nullifiers := nullifiers; ur_v_pub := amount; ur_fee := fee;
     ur_recipient := recipient; ur_cm_change := cm_change; ur_enc_change := enc_change;
     ur_cm_fee := cm_fee; ur_enc_fee := enc_fee; ur_proof := TrustMeBro |}.

Lemma unshield_request_ok `{TezosContracts} root nullifiers amount fee recipient cm enc cm_fee enc_fee
    v required capacity r :
  required <= fee -> N.of_nat (length (v_notes v)) + 2 <= capacity ->
  validate_l1_withdrawal_recipient recipient = Ok r -> cm_fee <> ZERO -> note_shape enc_fee ->
  (cm = ZERO /\ enc = None \/ exists e, enc = Some e /\ cm <> ZERO /\ note_shape e) ->
  spends_ok v root nullifiers ->
  unshield_accepts required capacity v
    (unshield_of root nullifiers amount fee recipient cm enc cm_fee enc_fee) r.
Proof.
  intros Hfee Hroom Hval Hf Hs Hch Hsp. constructor; try done.
  - unfold change_consistent. by destruct Hch as [[-> ->]|(e & -> & Hne & He)].
  - enough (length (new_notes (unshield_of root nullifiers amount fee recipient cm enc cm_fee enc_fee))
      <= 2)%nat by lia.
    unfold new_notes, unshield_change. rewrite length_app. cbn. case_decide; cbn; [lia|].
    destruct enc; cbn; lia.
Qed.

(** C18: The same of an unshield, which returns change only when there is some. *)
Theorem prepare_unshield_correct `{TezosContracts} (w : WalletFile) (rnd_change rnd_fee : NoteRandomness)
    (root : F) (amount fee dal_fee : N) (producer : PaymentAddress) (recipient : string) :
  wallet_ok w -> notes_ok w -> wf_addr_counter w + 1 < U32_LIMIT ->
  valid_address producer -> is_u64 dal_fee ->
  match prepare_unshield_skip_proof false rnd_change rnd_fee root amount fee dal_fee producer
    recipient w with
  | (w', Ok p) => exists notes,
      let req := pus_req p in
      covers w (pus_selected p) notes (amount + fee + dal_fee) (pus_change p) /\
      ur_nullifiers req = note_nullifier <$> notes /\ ur_root req = root /\ ur_v_pub req = amount /\
      ur_fee req = fee /\ ur_recipient req = recipient /\
      pays producer dal_fee (nr_rseed rnd_fee) (ur_cm_fee req) (ur_enc_fee req) /\
      (if decide (pus_change p = 0) then w' = w /\ ur_cm_change req = ZERO /\ ur_enc_change req = None
       else exists st enc, with_change w w' st /\ ur_enc_change req = Some enc /\
         pays (own_address w' st) (pus_change p) (nr_rseed rnd_change) (ur_cm_change req) enc) /\
      forall v required capacity r,
        NoDup (note_nullifier <$> wf_notes w) -> spendable v root notes -> required <= fee ->
        N.of_nat (length (v_notes v)) + 2 <= capacity ->
        validate_l1_withdrawal_recipient recipient = Ok r -> ur_cm_fee req <> ZERO ->
        (pus_change p <> 0 -> ur_cm_change req <> ZERO) ->
        unshield_accepts required capacity v req r
  | (w', Err _) => w' = w /\ cannot_pay w (amount + fee + dal_fee)
  | (_, Panic _) => False
  end.
Proof.
  intros Hw Hn Hc Hp Hd. unfold prepare_unshield_skip_proof.
  destruct (prepare_cases w amount fee dal_fee "unshield total spend overflow" Hn)
    as [(e & Et & Hno)|(total & Et & [(e & Es & Hno)|(sel & notes & Es & En & Hcov)])].
  - by rewrite (ST_lift_Err _ _ _ _ Et).
  - by rewrite (ST_run_lift _ _ _ _ Et), (ST_reads_Err (fun w => select_notes w total) _ _ _ Es).
  - rewrite (ST_run_lift _ _ _ _ Et), (ST_run_reads (fun w => select_notes w total) _ _ _ Es),
      (ST_run_reads (fun w => selected_notes w sel) _ _ _ En).
    cbv beta zeta. set (change := change_of notes amount fee dal_fee) in *.
    set (seed := acc_outgoing_seed (account w)).
    rewrite (ST_run_reads (fun w => mret (acc_outgoing_seed (account w))) _ _ seed eq_refl).
    destruct (build_note_ok rnd_fee producer dal_fee dal_memo seed ProducerFee Hp Hd) as (on_f & Ef & Pf).
    assert (forall cm enc, on_cm on_f <> ZERO -> (change <> 0 -> cm <> ZERO) ->
      (if decide (change = 0) then cm = ZERO /\ enc = None else from_option note_shape False enc) ->
      forall v required capacity r,
        NoDup (note_nullifier <$> wf_notes w) -> spendable v root notes -> required <= fee ->
        N.of_nat (length (v_notes v)) + 2 <= capacity ->
        validate_l1_withdrawal_recipient recipient = Ok r ->
        unshield_accepts required capacity v (unshield_of root (note_nullifier <$> notes) amount fee
          recipient cm enc (on_cm on_f) (on_enc on_f)) r) as Hacc.
    { intros cm enc Hf Hcm Henc v required capacity r Hdup Hsp Hfee Hroom Hval.
      apply unshield_request_ok;
        [exact Hfee|exact Hroom|exact Hval|exact Hf|apply Pf| |by eapply spendable_ok].
      destruct (decide (change = 0)) as [Hz|Hnz]; [left; by destruct Henc|right].
      destruct enc as [enc|]; [|done]. exists enc. split; [done|]. split; [by apply Hcm|done]. }
    destruct (N.ltb_spec 0 change) as [Hpos|Hzero].
    + destruct (change_note_ok rnd_change change seed UnshieldChange w Hw Hc) as
        (w' & st & on_c & E2 & Hw' & Hs & Hnx & Hc' & Hst & Pc); [apply Hcov|].
      assert ((note ← change_note false rnd_change change seed UnshieldChange;
        mret (on_cm note, Some (on_enc note))) w = (w', Ok (on_cm on_c, Some (on_enc on_c)))) as E3
        by by rewrite (ST_run _ _ _ _ _ E2).
      rewrite (ST_run _ _ _ _ _ E3). cbv beta iota.
      rewrite (ST_run_lift _ _ _ _ Ef). cbn [mret ST_ret]. exists notes. cbv zeta.
      cbn [pus_req pus_selected pus_change ur_nullifiers ur_root ur_v_pub ur_fee ur_recipient
        ur_cm_fee ur_enc_fee ur_cm_change ur_enc_change].
      do 7 (split; [done|]). split.
      * rewrite decide_False by lia. exists st, (on_enc on_c). done.
      * intros v required capacity r Hdup Hsp Hfee Hroom Hval Hf Hch.
        apply (Hacc _ _ Hf Hch); [|exact Hdup|exact Hsp|exact Hfee|exact Hroom|exact Hval].
        rewrite decide_False by lia. apply Pc.
    + assert (change = 0) as Hz by lia. rewrite (ST_run (mret (ZERO, None)) _ w w (ZERO, None) eq_refl). cbv beta iota.
      rewrite (ST_run_lift _ _ _ _ Ef). cbn [mret ST_ret]. exists notes. cbv zeta.
      cbn [pus_req pus_selected pus_change ur_nullifiers ur_root ur_v_pub ur_fee ur_recipient
        ur_cm_fee ur_enc_fee ur_cm_change ur_enc_change].
      do 7 (split; [done|]). split; [by rewrite decide_True|].
      intros v required capacity r Hdup Hsp Hfee Hroom Hval Hf Hch.
      apply (Hacc _ _ Hf); [by intros []|by rewrite decide_True|exact Hdup|exact Hsp|exact Hfee|
        exact Hroom|exact Hval].
Qed.
End Spend.
