(* ===== verification/WalletWitness.v ===== *)
(** * WalletWitness: the wallet's theorems at a concrete wallet

    A new wallet with one address, and the same with a note of 100 mutez at it.  Its key
    tree has 2^16 leaves, so it is used through the lemmas that give it and never
    evaluated. *)

From S2P Require Import Prelude Felt Externals Concrete Types Recipients Hashing Binding Wots Notes.
From S2P Require Import Outputs Ledger LedgerSpec Bds Wallet WalletSelect WalletKeys WalletScan.
From S2P Require Import WalletScanFacts WalletSpend.

Local Open Scope N_scope.

#[local] Opaque auth_leaf_hash_with_pub_seed xmss_tree_node_hash AUTH_DEPTH XMSS_BDS_K.

(** A KEM with keys of the real size whose shared secret travels in the open. *)
Definition sized_kem : MlKem := {|
  Ek := bytes;
  Dk := bytes;
  kem_dk_from_seed := id;
  kem_encapsulation_key := resize ML_KEM768_EK_BYTES Byte.x00;
  kem_ek_bytes := resize ML_KEM768_EK_BYTES Byte.x00;
  kem_encapsulate_deterministic := fun _ m => (F_bytes m ++ replicate 1056 Byte.x00, F_bytes m);
  kem_try_decapsulate := fun _ ct => Some (take 32 ct)
|}.

#[local] Existing Instances toy_blake2s sized_kem toy_aead toy_hex toy_contracts host_target.

#[local] Instance sized_kem_laws : MlKemLaws.
Proof.
  split; unfold sized_kem; cbn [kem_encapsulate_deterministic kem_try_decapsulate fst snd].
  - intros _ m ct ss [= <- <-]. by rewrite take_app_exact by apply length_F_bytes.
  - intros _ m. by rewrite length_app, length_F_bytes, length_replicate.
Qed.

#[local] Instance sized_import : MlKemImport :=
  {| kem_ek_new := fun b => if (length b =? ML_KEM768_EK_BYTES)%nat then Some b else None |}.

#[local] Instance sized_import_laws : MlKemImportLaws.
Proof.
  assert (forall b, length (resize ML_KEM768_EK_BYTES Byte.x00 b) = ML_KEM768_EK_BYTES) as Hl
    by (intros b; apply length_resize).
  assert (forall b, resize ML_KEM768_EK_BYTES Byte.x00 (resize ML_KEM768_EK_BYTES Byte.x00 b) =
    resize ML_KEM768_EK_BYTES Byte.x00 b) as Hr
    by (intros b; by rewrite resize_idemp).
  split; unfold sized_kem, sized_import; cbn [kem_ek_bytes kem_encapsulation_key kem_ek_new kem_try_decapsulate].
  - intros dk. apply Hl.
  - intros dk. by rewrite Hl, Nat.eqb_refl, Hr.
  - intros dk ct _. by eexists.
Qed.

#[local] Instance wallet_words : WordTarget.
Proof. vm_compute. discriminate. Qed.

(** ** The wallets *)

Definition empty_wallet : WalletFile := new_wallet ZERO None.
Lemma empty_wallet_ok : wallet_ok empty_wallet.
Proof.
  split; [constructor|cbn; lia].
  - intros i st Hi. change ([] !! i = Some st) in Hi. by rewrite lookup_nil in Hi.
  - intros j n Hj. change ((∅ : gmap N N) !! j = Some n) in Hj. by rewrite lookup_empty in Hj.
  - split; reflexivity.
Qed.

(** Its first address: the pair is opaque, so that no key tree is ever computed. *)
Lemma first_address : { w : WalletFile |
  wallet_ok w /\ wf_addr_counter w = 1 /\ wf_notes w = [] /\ wf_pending_spends w = [] /\
  next_unused w 0 = 0 /\ fst (next_address false empty_wallet) = w /\ is_Some (wf_addresses w !! 0%nat) }.
Proof.
  exists (fst (next_address false empty_wallet)).
  destruct (next_address_ok empty_wallet empty_wallet_ok eq_refl)
    as (w' & bds & E & Hw & Hs & Hn & Hc & Hst & _).
  rewrite E. cbn [fst]. split; [done|]. split; [done|].
  split; [by rewrite (sb_notes _ _ Hs)|]. split; [by rewrite (sb_spends _ _ Hs)|].
  split; [by rewrite Hn|]. split; [done|by eexists].
Qed.

Definition one_address : WalletFile := proj1_sig first_address.

Lemma one_address_ok :
  wallet_ok one_address /\ wf_addr_counter one_address = 1 /\ wf_notes one_address = [] /\
  wf_pending_spends one_address = [] /\ next_unused one_address 0 = 0.
Proof.
  unfold one_address. destruct (proj2_sig first_address) as (? & ? & ? & ? & ? & _). done.
Qed.

Lemma first_state : { st : WalletAddressState | wf_addresses one_address !! 0%nat = Some st }.
Proof.
  assert (is_Some (wf_addresses one_address !! 0%nat)) as Hs by apply (proj2_sig first_address).
  destruct (wf_addresses one_address !! 0%nat) as [st|]; [by exists st|].
  exfalso. by destruct Hs.
Qed.

Definition own : WalletAddressState := proj1_sig first_state.

Lemma own_lookup : wf_addresses one_address !! 0%nat = Some own.
Proof. exact (proj2_sig first_state). Qed.

Lemma first_key : 0 < AUTH_TREE_SIZE.
Proof. unfold AUTH_TREE_SIZE. generalize AUTH_DEPTH. intros d. pose proof (N.pow_nonzero 2 (N.of_nat d)). lia. Qed.

Lemma reserve_next_auth_correct_witness : exists w' root path,
  reserve_next_auth 0 one_address =
    (w', Ok (0, root, derive_auth_pub_seed (ask_of one_address 0), path)) /\
  auth_root_and_path false (ask_of one_address 0) 0 = Ok (root, path) /\
  wallet_ok w' /\ next_unused w' 0 = 1.
Proof.
  destruct one_address_ok as (Hw & _ & _ & _ & Hn).
  pose proof (reserve_next_auth_correct one_address 0 Hw) as Hr.
  change (N.to_nat 0) with 0%nat in Hr. rewrite own_lookup, Hn in Hr.
  destruct (decide (0 < AUTH_TREE_SIZE)) as [_|Hge]; [|by destruct (Hge first_key)].
  destruct Hr as (w' & root & path & E & Hp & Hw' & _ & _ & Hx). exists w', root, path.
  split; [exact E|]. split; [exact Hp|]. split; [exact Hw'|]. rewrite (Hx 0). destruct (decide (0 = 0)) as [_|Hne]; [reflexivity|by destruct Hne].
Defined.

Lemma load_wallet_refuses_stale_witness :
  match load_wallet false one_address (Some (wallet_xmss_floor one_address))
    (map_to_list (fl_wots_key_indices (wallet_xmss_floor one_address))) with
  | Ok w' => wallet_ok w' /\ forall j, next_unused one_address j <= next_unused w' j
  | _ => False
  end.
Proof.
  destruct one_address_ok as (Hw & _).
  pose proof (load_wallet_refuses_stale one_address one_address
    (map_to_list (fl_wots_key_indices (wallet_xmss_floor one_address))) Hw (wo_file _ Hw)) as Hl.
  specialize (Hl ltac:(reflexivity) ltac:(reflexivity)).
  destruct (load_wallet _ _ _ _) as [w'|e|m].
  - destruct Hl as (Hw' & _ & _ & _ & Hx). by split.
  - destruct Hl as [Hlt|[j Hlt]]; lia.
  - exact Hl.
Defined.

(** ** A note *)

Definition sample_randomness : NoteRandomness :=
  {| nr_rseed := u64_to_felt 1; nr_detect := u64_to_felt 2; nr_view := u64_to_felt 3 |}.

Definition held_note : Note :=
  note_for one_address own 100 (u64_to_felt 1)
    (commit (wa_d_j own) 100 (derive_rcm (u64_to_felt 1)) (owner_of one_address own)) 0.
Definition funded : WalletFile := wf_with_notes [held_note] one_address.

Lemma own_in w : wf_addresses w = wf_addresses one_address -> own ∈ wf_addresses w.
Proof. intros ->. eapply list_elem_of_lookup_2, own_lookup. Qed.

Lemma funded_ok : wallet_ok funded /\ notes_ok funded /\ wf_addr_counter funded = 1.
Proof.
  destruct one_address_ok as (Hw & Hc & _). split; [|split; [|exact Hc]].
  - by apply (wallet_ok_notes one_address [held_note]).
  - constructor; [|apply NoDup_singleton]. apply Forall_singleton. exists own.
    split; [by apply own_in|]. split; [reflexivity|]. by split.
Qed.

#[local] Opaque held_note.

Definition paid_note : PreparedOutputNote :=
  match build_output_note_with_outgoing sample_randomness (own_address one_address own) 70 None
    (u64_to_felt 9) TransferRecipient with
  | Ok on => on
  | _ => {| on_cm := ZERO; on_mh := ZERO; on_rseed := ZERO;
            on_enc := {| en_ct_d := []; en_tag := 0; en_ct_v := []; en_nonce := [];
                         en_encrypted_data := []; en_outgoing_ct := [] |} |}
  end.

Definition paid_memo : NoteMemo :=
  {| nm_index := 3; nm_cm := on_cm paid_note; nm_enc := on_enc paid_note |}.

Lemma own_nk : wa_nk_tag own = derive_nk_tag (derive_nk_spend (acc_nk (account one_address)) (wa_d_j own)).
Proof.
  destruct one_address_ok as (Hw & _).
  by destruct (fo_addresses _ (wo_file _ Hw) _ _ own_lookup) as [-> _].
Qed.

Lemma paid_shape : note_shape (on_enc paid_note).
Proof.
  destruct (build_own_note one_address own sample_randomness 70 None (u64_to_felt 9) TransferRecipient
    own_nk eq_refl) as (on & E & Hs & _).
  unfold paid_note. by rewrite E.
Qed.

Definition paid_feed : NotesFeedResp := {| nf_notes := [paid_memo]; nf_next_cursor := 4 |}.

Lemma feed_shape : Forall (fun nm => note_shape (nm_enc nm)) (nf_notes paid_feed).
Proof. constructor; [exact paid_shape|constructor]. Qed.

Lemma scan_finds_payment_witness : exists w' summary n,
  apply_scan_feed paid_feed [] ∅ one_address =
    (w', Ok summary) /\ n ∈ wf_notes w' /\ note_key n = (3, on_cm paid_note).
Proof.
  destruct one_address_ok as (Hw & _ & Hno & _).
  assert (notes_ok one_address) as Hn by (split; rewrite Hno; constructor).
  destruct (scan_finds_payment one_address paid_feed [] ∅ own
    sample_randomness 70 None (u64_to_felt 9) TransferRecipient Hw Hn (own_in _ eq_refl) eq_refl
    feed_shape) as (w' & summary & on & Es & _ & Eb & _ & Hf).
  assert (paid_note = on) as Ep by (unfold paid_note; by rewrite Eb).
  destruct (Hf 3) as (n & Hk & _ & [Hin|Hin] & _).
  - rewrite <-Ep. change (paid_memo ∈ [paid_memo]). left.
  - exists w', summary, n. rewrite Ep. by split.
  - by apply not_elem_of_nil in Hin.
Defined.

(** ** Spending it *)

Lemma held_value : note_v held_note = 100.
Proof. reflexivity. Qed.

Lemma can_pay n : n <= 100 -> ~ cannot_pay funded n.
Proof.
  intros Hn [Hbig|Hno]; [unfold U64_LIMIT in Hbig; lia|].
  assert (choice funded [0%nat]) as Hc.
  { split; [apply NoDup_singleton|]. intros i ->%list_elem_of_singleton. exists held_note.
    split; [done|]. unfold available, pending_nullifier_set.
    destruct one_address_ok as (_ & _ & _ & Hp & _).
    change (wf_pending_spends funded) with (wf_pending_spends one_address). rewrite Hp. 
    apply not_elem_of_empty. }
  specialize (Hno [0%nat] Hc ltac:(done)). unfold chosen_sum, value_at in Hno. cbn in Hno.
  rewrite held_value in Hno. lia.
Qed.

Lemma prepare_transfer_correct_witness : exists w' p,
  prepare_transfer_skip_proof false sample_randomness sample_randomness sample_randomness ZERO
    (own_address one_address own) 50 10 5 (own_address one_address own) None funded = (w', Ok p) /\
  wallet_ok w' /\ tr_fee (pts_req p) = 10.
Proof.
  destruct funded_ok as (Hw & Hn & Hc).
  pose proof (prepare_transfer_correct funded sample_randomness sample_randomness sample_randomness ZERO
    (own_address one_address own) (own_address one_address own) 50 10 5 None Hw Hn
    ltac:(rewrite Hc; reflexivity) (valid_own _ _) (valid_own _ _) eq_refl eq_refl) as Hp.
  destruct (prepare_transfer_skip_proof _ _ _ _ _ _ _ _ _ _ _ _) as [w' [p|e|m]].
  - destruct Hp as (notes & st & (Hw' & _) & _ & _ & _ & Hf & _). exists w', p. by split.
  - destruct Hp as [_ Hno]. by apply can_pay in Hno.
  - done.
Defined.

Lemma prepare_unshield_correct_witness : exists w' p,
  prepare_unshield_skip_proof false sample_randomness sample_randomness ZERO 50 10 5
    (own_address one_address own) "tz1" funded = (w', Ok p) /\ ur_v_pub (pus_req p) = 50.
Proof.
  destruct funded_ok as (Hw & Hn & Hc).
  pose proof (prepare_unshield_correct funded sample_randomness sample_randomness ZERO 50 10 5
    (own_address one_address own) "tz1" Hw Hn ltac:(rewrite Hc; reflexivity) (valid_own _ _) eq_refl) as Hp.
  destruct (prepare_unshield_skip_proof _ _ _ _ _ _ _ _ _ _) as [w' [p|e|m]].
  - destruct Hp as (notes & _ & _ & _ & Hv & _). exists w', p. by split.
  - destruct Hp as [_ Hno]. by apply can_pay in Hno.
  - done.
Defined.
