(* ===== verification/OperatorApi.v ===== *)
(** * OperatorApi: what the wallet, the operator and [octez-client] exchange

    The types of [core/src/operator_api.rs], the framing of a message for a rollup, and the
    texts that both [apps/wallet/src/lib.rs] and
    [services/tzel/src/bin/tzel_operator.rs] read from [octez-client] and from HTTP. *)

From S2P Require Import Prelude Felt Externals Types Recipients CanonicalWire KernelWire.

Local Open Scope N_scope.

(** ** The operator's API *)

Inductive RollupSubmissionKind :=
| SKConfigureVerifier | SKConfigureBridge | SKShield | SKTransfer | SKUnshield.

Inductive RollupSubmissionTransport := DirectInbox | TransportDal.

Inductive RollupSubmissionStatus :=
| PendingDal | CommitmentIncluded | Attested | SubmittedToL1 | Failed.

#[export] Instance kind_eq_dec : EqDecision RollupSubmissionKind.
Proof. solve_decision. Defined.
#[export] Instance transport_eq_dec : EqDecision RollupSubmissionTransport.
Proof. solve_decision. Defined.
#[export] Instance status_eq_dec : EqDecision RollupSubmissionStatus.
Proof. solve_decision. Defined.

(** Slots are [u16], levels [i32], lengths [usize]. *)
Record RollupDalChunk := {
  dc_slot_index : N;
  dc_published_level : Z;
  dc_payload_len : N;
  dc_commitment : string;
  dc_operation_hash : option string
}.

Record SubmitRollupMessageReq := {
  smr_kind : RollupSubmissionKind;
  smr_rollup_address : string;
  smr_payload : bytes
}.

Record RollupSubmission := {
  rs_id : string;
  rs_kind : RollupSubmissionKind;
  rs_rollup_address : string;
  rs_status : RollupSubmissionStatus;
  rs_transport : RollupSubmissionTransport;
  rs_operation_hash : option string;
  rs_dal_chunks : list RollupDalChunk;
  rs_commitment : option string;
  rs_published_level : option Z;
  rs_slot_index : option N;
  rs_payload_hash : option string;
  rs_payload_len : N;
  rs_detail : option string
}.

#[export] Instance chunk_eq_dec : EqDecision RollupDalChunk.
Proof. solve_decision. Defined.
#[export] Instance submission_eq_dec : EqDecision RollupSubmission.
Proof. solve_decision. Defined.

(** Assignments to fields. *)
Definition rs_with_status (st : RollupSubmissionStatus) (s : RollupSubmission) : RollupSubmission :=
  {| rs_id := rs_id s; rs_kind := rs_kind s; rs_rollup_address := rs_rollup_address s; rs_status := st;
     rs_transport := rs_transport s; rs_operation_hash := rs_operation_hash s;
     rs_dal_chunks := rs_dal_chunks s; rs_commitment := rs_commitment s;
     rs_published_level := rs_published_level s; rs_slot_index := rs_slot_index s;
     rs_payload_hash := rs_payload_hash s; rs_payload_len := rs_payload_len s; rs_detail := rs_detail s |}.
Definition rs_with_transport (t : RollupSubmissionTransport) (s : RollupSubmission) : RollupSubmission :=
  {| rs_id := rs_id s; rs_kind := rs_kind s; rs_rollup_address := rs_rollup_address s;
     rs_status := rs_status s; rs_transport := t; rs_operation_hash := rs_operation_hash s;
     rs_dal_chunks := rs_dal_chunks s; rs_commitment := rs_commitment s;
     rs_published_level := rs_published_level s; rs_slot_index := rs_slot_index s;
     rs_payload_hash := rs_payload_hash s; rs_payload_len := rs_payload_len s; rs_detail := rs_detail s |}.
Definition rs_with_operation_hash (h : option string) (s : RollupSubmission) : RollupSubmission :=
  {| rs_id := rs_id s; rs_kind := rs_kind s; rs_rollup_address := rs_rollup_address s;
     rs_status := rs_status s; rs_transport := rs_transport s; rs_operation_hash := h;
     rs_dal_chunks := rs_dal_chunks s; rs_commitment := rs_commitment s;
     rs_published_level := rs_published_level s; rs_slot_index := rs_slot_index s;
     rs_payload_hash := rs_payload_hash s; rs_payload_len := rs_payload_len s; rs_detail := rs_detail s |}.
Definition rs_with_chunks (l : list RollupDalChunk) (s : RollupSubmission) : RollupSubmission :=
  {| rs_id := rs_id s; rs_kind := rs_kind s; rs_rollup_address := rs_rollup_address s;
     rs_status := rs_status s; rs_transport := rs_transport s; rs_operation_hash := rs_operation_hash s;
     rs_dal_chunks := l; rs_commitment := rs_commitment s;
     rs_published_level := rs_published_level s; rs_slot_index := rs_slot_index s;
     rs_payload_hash := rs_payload_hash s; rs_payload_len := rs_payload_len s; rs_detail := rs_detail s |}.
Definition rs_with_detail (d : string) (s : RollupSubmission) : RollupSubmission :=
  {| rs_id := rs_id s; rs_kind := rs_kind s; rs_rollup_address := rs_rollup_address s;
     rs_status := rs_status s; rs_transport := rs_transport s; rs_operation_hash := rs_operation_hash s;
     rs_dal_chunks := rs_dal_chunks s; rs_commitment := rs_commitment s;
     rs_published_level := rs_published_level s; rs_slot_index := rs_slot_index s;
     rs_payload_hash := rs_payload_hash s; rs_payload_len := rs_payload_len s; rs_detail := Some d |}.

(** ** Messages for a rollup *)

(** [tezos_smart_rollup_encoding]: the address of a rollup, and
    [ExternalMessageFrame::Targetted] written out. *)
Class RollupFrames := {
  smart_rollup_address : Type;
  smart_rollup_from_b58check : string -> option smart_rollup_address;
  targetted_bin_write : smart_rollup_address -> bytes -> result bytes
}.

Definition encode_targeted_rollup_message `{RollupFrames} (rollup_address : string) (payload : bytes)
    : result bytes :=
  address ← ok_or (smart_rollup_from_b58check rollup_address)
    ("invalid rollup address: " +:+ rollup_address);
  map_err (fun e => "failed to encode targeted rollup message: " +:+ e)
    (targetted_bin_write address payload).

(** ** HTTP *)

(** [ureq]: a response with its body or why it cannot be read, a status that is an
    error, or another error. *)
Inductive UreqReply :=
| UreqResponse (body : result bytes)
| UreqStatus (code : N) (shown : string)
| UreqError (shown : string).

Definition trim_slashes (s : bytes) : bytes := rev (strip_while (length s) [[Byte.x2f]] (rev s)).

(** ** Programs *)

(** A program run to its end: whether it succeeded, its status as it is shown, and the two
    outputs as [from_utf8_lossy] reads them; or why it did not start. *)
Inductive CommandOutput :=
| CommandRan (success : bool) (status : string) (stdout stderr : bytes)
| CommandNotStarted (e : string).

Definition run_command_collect_output (o : CommandOutput) (program_name : string) : result bytes :=
  match o with
  | CommandNotStarted e => Err ("failed to start " +:+ program_name +:+ ": " +:+ e)
  | CommandRan success status stdout stderr =>
      let stdout := trim stdout in
      let stderr := trim stderr in
      let combined :=
        match (length stdout =? 0)%nat, (length stderr =? 0)%nat with
        | true, true => []
        | false, true => stdout
        | true, false => stderr
        | false, false => stdout ++ [Byte.x0a] ++ stderr
        end in
      if success then Ok combined
      else Err (if (length combined =? 0)%nat
                then program_name +:+ " exited with status " +:+ status else bytes_str combined)
  end.

Definition is_ascii_alphanumeric (b : Byte.byte) : bool :=
  let n := Byte.to_N b in
  ((0x30 <=? n) && (n <=? 0x39)) || ((0x41 <=? n) && (n <=? 0x5A)) || ((0x61 <=? n) && (n <=? 0x7A)).

(** Spaces and the marks that separate tokens of [octez-client]'s output. *)
Definition SEPARATORS : list bytes :=
  WHITE_SPACE ++ ((fun c => [c]) <$> str_bytes (String (Ascii.ascii_of_nat 34) "',;()")).

(** [split]: the pieces between separators; [fuel] bounds the length of the text. *)
Fixpoint split_tokens (fuel : nat) (s token : bytes) : list bytes :=
  match fuel with
  | O => [rev token]
  | S fuel =>
      match strip_any SEPARATORS s with
      | Some r => rev token :: split_tokens fuel r []
      | None => match s with [] => [rev token] | c :: r => split_tokens fuel r (c :: token) end
      end
  end.

Definition is_hash_token (prefix : Byte.byte) (token : bytes) : bool :=
  bool_decide (head token = Some prefix) && (20 <=? length token)%nat &&
  forallb is_ascii_alphanumeric token.

Definition extract_token_with_prefix (output : bytes) (prefix : Byte.byte) : option string :=
  bytes_str <$> head (filter (fun t => is_hash_token prefix t = true)
    (split_tokens (S (length output)) output [])).

Definition extract_operation_hash (output : bytes) : option string :=
  extract_token_with_prefix output Byte.x6f.
Definition extract_block_hash (output : bytes) : option string :=
  extract_token_with_prefix output Byte.x42.
