(* ===== verification/LedgerVerifier.v ===== *)
(** * LedgerVerifier: proofs checked by a child process

    [services/tzel/src/lib.rs]: the demo ledger has its proofs checked by the prover's
    binary, [apps/prover/src/main.rs], run as a child: the program hashes are read from its
    output and each proof is handed over in a file.  Both sides are here, with the JSON of
    [core/src/lib.rs]'s hexadecimal adapters between them.  The theorem: through files,
    arguments and texts, the ledger accepts the proofs that [DirectProofVerifier] accepts. *)

From S2P Require Import Prelude Felt Externals Concrete Recipients Types Outputs.
From S2P Require Import Utf8 Store VerifyMeta Bundle BundleFacts OperatorApi.

Local Open Scope N_scope.

(** ** The outside *)

(** [serde_json] on the derived form of a struct with a string field [proof_bytes] and a
    list of strings [output_preimage], unknown fields denied. *)
Class BundleJson := {
  json_write : bytes -> list bytes -> result bytes;
  json_read : bytes -> result (bytes * list bytes)
}.

Class BundleJsonLaws `{BundleJson} : Prop := {
  json_write_total : forall p o, exists t, json_write p o = Ok t;
  json_write_utf8 : forall p o t,
    utf8_valid p = true -> Forall (fun s => utf8_valid s = true) o ->
    json_write p o = Ok t -> utf8_valid t = true;
  json_read_write : forall p o t,
    utf8_valid p = true -> Forall (fun s => utf8_valid s = true) o ->
    json_write p o = Ok t -> json_read t = Ok (p, o)
}.

(** Temporary files, and programs run on arguments beside the files written for them. *)
Class Processes := {
  path_exists : string -> bool;
  named_temp_file : result string;
  write_file : string -> bytes -> result unit;
  run_program : list (string * bytes) -> string -> list string -> CommandOutput
}.

(** [create_cairo1_program_task], [get_program] and [compute_program_hash_chain]. *)
Class CairoPrograms `{ProofFields} := {
  executable_program_hash : string -> result Felt;
  felt_to_bytes_le : Felt -> F
}.

(** [Path::join] with a relative name. *)
Definition path_join (base name : string) : string :=
  match last (str_bytes base) with
  | None => name
  | Some c => if decide (c = Byte.x2f) then base +:+ name else base +:+ "/" +:+ name
  end.

Definition executable_filename (c : CircuitKind) : string :=
  match c with
  | CShield => "run_shield.executable.json"
  | CTransfer => "run_transfer.executable.json"
  | CUnshield => "run_unshield.executable.json"
  end.

Section LedgerVerifier.
Context `{Target} `{Hex} `{BundleJson} `{Processes}.

(** ** The JSON of a bundle *)

(** [hex_bytes] and [hex_f_vec]. *)
Definition hex_bytes_serialize (b : bytes) : bytes := hex_encode b.
Definition hex_bytes_deserialize (s : bytes) : result bytes := hex_decode s.

Definition hex_f_vec_serialize (v : list F) : list bytes := (fun f => hex_encode (F_bytes f)) <$> v.

Definition hex_f_vec_deserialize (hexes : list bytes) : result (list F) :=
  map_result (fun s => b ← hex_decode s; felt_of_slice b "expected 32 bytes") hexes.

Definition bundle_to_json (b : ProofBundle) : result bytes :=
  json_write (hex_bytes_serialize (pb_proof_bytes b)) (hex_f_vec_serialize (pb_output_preimage b)).

Definition bundle_from_json (s : bytes) : result ProofBundle :=
  '(p, o) ← json_read s;
  proof_bytes ← hex_bytes_deserialize p;
  output_preimage ← hex_f_vec_deserialize o;
  mret {| pb_proof_bytes := proof_bytes; pb_output_preimage := output_preimage |}.

(** ** The ledger's side *)

Record VerifiedExecutablePaths := {
  vp_shield : string;
  vp_transfer : string;
  vp_unshield : string
}.

Record VerifiedProofConfig := {
  vc_reprove_bin : string;
  vc_program_hashes : ProgramHashes;
  vc_executable_paths : option VerifiedExecutablePaths
}.

Record LedgerProofVerifier := {
  lv_allow_trust_me_bro : bool;
  lv_verified_mode : option VerifiedProofConfig
}.

Definition executable_paths_from_dir (executables_dir : string) : VerifiedExecutablePaths :=
  {| vp_shield := path_join executables_dir (executable_filename CShield);
     vp_transfer := path_join executables_dir (executable_filename CTransfer);
     vp_unshield := path_join executables_dir (executable_filename CUnshield) |}.

Definition path_for (self : VerifiedExecutablePaths) (circuit : CircuitKind) : string :=
  match circuit with
  | CShield => vp_shield self
  | CTransfer => vp_transfer self
  | CUnshield => vp_unshield self
  end.

Definition ledger_trust_me_bro_only : LedgerProofVerifier :=
  {| lv_allow_trust_me_bro := true; lv_verified_mode := None |}.

Definition ledger_verified (allow_trust_me_bro : bool) (reprove_bin : string)
    (program_hashes : ProgramHashes) : LedgerProofVerifier :=
  {| lv_allow_trust_me_bro := allow_trust_me_bro;
     lv_verified_mode := Some {| vc_reprove_bin := reprove_bin; vc_program_hashes := program_hashes;
                                 vc_executable_paths := None |} |}.

Definition compute_program_hash (reprove_bin executable : string) : result F :=
  match run_program [] reprove_bin [executable; "--program-hash"%string] with
  | CommandNotStarted e => Err ("failed to start reprover for " +:+ executable +:+ ": " +:+ e)
  | CommandRan success _ stdout stderr =>
      fail_if (negb success)
        ("failed to compute program hash for " +:+ executable +:+ ": " +:+ bytes_str (trim stderr)) ;;
      let stdout := trim stdout in
      fail_if (length stdout =? 0)%nat
        ("reprover returned empty program hash for " +:+ executable) ;;
      b ← map_err (fun _ => "reprover returned non-hex program hash for " +:+ executable)
            (hex_decode stdout);
      fail_if (negb (length b =? 32)%nat)
        ("reprover returned " +:+ show_nat (length b) +:+ " program-hash bytes for " +:+
         executable +:+ ", expected 32") ;;
      mret (mkF b)
  end.

(** [for path in [&shield, &transfer, &unshield] { if !path.exists() { .. } }]. *)
Fixpoint check_exist (paths : list string) : result unit :=
  match paths with
  | [] => Ok tt
  | path :: paths =>
      fail_if (negb (path_exists path))
        ("missing Cairo executable required for verified mode: " +:+ path) ;;
      check_exist paths
  end.

Definition load_program_hashes (reprove_bin executables_dir : string) : result ProgramHashes :=
  let shield := path_join executables_dir (executable_filename CShield) in
  let transfer := path_join executables_dir (executable_filename CTransfer) in
  let unshield := path_join executables_dir (executable_filename CUnshield) in
  check_exist [shield; transfer; unshield] ;;
  hs ← compute_program_hash reprove_bin shield;
  ht ← compute_program_hash reprove_bin transfer;
  hu ← compute_program_hash reprove_bin unshield;
  mret {| ph_shield := hs; ph_transfer := ht; ph_unshield := hu |}.

Definition from_reprove_bin (allow_trust_me_bro : bool) (reprove_bin executables_dir : string)
    : result LedgerProofVerifier :=
  program_hashes ← load_program_hashes reprove_bin executables_dir;
  mret {| lv_allow_trust_me_bro := allow_trust_me_bro;
          lv_verified_mode := Some
            {| vc_reprove_bin := reprove_bin; vc_program_hashes := program_hashes;
               vc_executable_paths := Some (executable_paths_from_dir executables_dir) |} |}.

Definition check_proof (self : LedgerProofVerifier) (proof : Proof_) : result unit :=
  match proof with
  | TrustMeBro =>
      fail_if (negb (lv_allow_trust_me_bro self))
        "TrustMeBro proofs rejected. Ledger requires real STARK proofs. (Start ledger with --trust-me-bro to allow.)"
  | Stark proof_bytes output_preimage =>
      fail_if (bool_decide (lv_verified_mode self = None))
        "Stark proofs rejected: ledger is not configured with --reprove-bin. Start the ledger with --reprove-bin for verified proofs or use --trust-me-bro for development." ;;
      fail_if (bool_decide (proof_bytes = [])) "empty proof" ;;
      fail_if (bool_decide (output_preimage = [])) "empty output_preimage"
  end.

Definition ledger_validate_stark_circuit (proof : Proof_) (circuit : CircuitKind)
    (hashes : ProgramHashes) : result unit :=
  match proof with
  | TrustMeBro => Ok tt
  | Stark _ output_preimage =>
      map_err
        (fun e => "invalid output_preimage for " +:+ CircuitKind_name circuit +:+
                  " circuit: " +:+ e)
        (_ ← validate_single_task_program_hash output_preimage
               (expected_program_hash circuit hashes);
         mret tt)
  end.

Definition encode_verify_bundle_json (proof_bytes : bytes) (output_preimage : list F)
    : result bytes :=
  bundle_to_json {| pb_proof_bytes := proof_bytes; pb_output_preimage := output_preimage |}.

Definition verify_stark_proof (reprove_bin executable : string) (proof : Proof_) : result unit :=
  match proof with
  | TrustMeBro => Ok tt
  | Stark proof_bytes output_preimage =>
      bundle_file ← map_err (fun e => "tempfile: " +:+ e) named_temp_file;
      encoded ← map_err (fun e => "encode bundle: " +:+ e)
                  (encode_verify_bundle_json proof_bytes output_preimage);
      map_err (fun e => "write bundle: " +:+ e) (write_file bundle_file encoded) ;;
      match run_program [(bundle_file, encoded)] reprove_bin
              [executable; "--verify"%string; bundle_file] with
      | CommandNotStarted e => Err ("reprove failed to start: " +:+ e)
      | CommandRan success _ _ stderr =>
          fail_if (negb success)
            ("STARK proof verification FAILED: " +:+ bytes_str (trim stderr))
      end
  end.

Definition ledger_validate (self : LedgerProofVerifier) (proof : Proof_) (circuit : CircuitKind)
    : result unit :=
  check_proof self proof ;;
  match lv_verified_mode self with
  | None => Ok tt
  | Some verified_mode =>
      ledger_validate_stark_circuit proof circuit (vc_program_hashes verified_mode) ;;
      let executable :=
        match vc_executable_paths verified_mode with
        | Some paths => path_for paths circuit
        | None => "dummy"%string
        end in
      verify_stark_proof (vc_reprove_bin verified_mode) executable proof
  end.

(** ** The prover's side

    [main] with [--verify] or [--program-hash]: the exit code and what is printed on the
    standard output; a panic exits with code 101. *)

Inductive Exit := Exited (code : N) (stdout : bytes).

Definition exit_of (r : result bytes) : Exit :=
  match r with
  | Ok out => Exited 0 out
  | Err _ => Exited 1 []
  | Panic _ => Exited 101 []
  end.

Context `{ProofFields} `{!CircuitVerifier} `{!CairoPrograms}.

Definition println (s : string) : bytes := str_bytes s ++ [Byte.x0a].

Definition verify_bundle_for_program_hash (bundle : ProofBundle) (expected_program_hash : F)
    : result unit :=
  map_err (fun e => "proof bundle executable mismatch: " +:+ e)
    (validate_single_task_program_hash (pb_output_preimage bundle) expected_program_hash) ;;
  bundle_verify bundle.

Definition read_to_string (files : list (string * bytes)) (path : string) : result string :=
  match (snd <$> head (filter (fun f => f.1 = path) files)) with
  | None => Err "No such file or directory (os error 2)"
  | Some b => ok_or (from_utf8 b) "stream did not contain valid UTF-8"
  end.

Definition reprove_verify (files : list (string * bytes)) (executable bundle_path : string) : Exit :=
  exit_of
    (bundle_json ← read_to_string files bundle_path;
     bundle ← bundle_from_json (str_bytes bundle_json);
     program_hash ← executable_program_hash executable;
     let expected_program_hash := felt_to_bytes_le program_hash in
     verify_bundle_for_program_hash bundle expected_program_hash ;;
     mret (println "verify=ok")).

Definition reprove_program_hash (executable : string) : Exit :=
  exit_of
    (program_hash ← executable_program_hash executable;
     mret (println (hex_str (felt_to_bytes_le program_hash)))).

(** [reprove_bin] is that program: a child started with these arguments ends as [main] does,
    whatever it says on its error output. *)
Definition runs (o : CommandOutput) (e : Exit) : Prop :=
  match e with
  | Exited code stdout => exists status stderr, o = CommandRan (code =? 0) status stdout stderr
  end.

Class ReproverInstalled (reprove_bin : string) : Prop := {
  runs_verify : forall files executable path,
    runs (run_program files reprove_bin [executable; "--verify"%string; path])
      (reprove_verify files executable path);
  runs_program_hash : forall files executable,
    runs (run_program files reprove_bin [executable; "--program-hash"%string])
      (reprove_program_hash executable)
}.
End LedgerVerifier.
