(* ===== verification/LedgerVerifierFacts.v ===== *)
(** * LedgerVerifierFacts: the child process is the verifier

    The program hash read from the child's output is the executable's, the bundle it reads
    from the file is the proof it was given, and its exit status is the verdict. *)

From S2P Require Import Prelude Felt Externals Concrete Recipients Types Outputs.
From S2P Require Import Utf8 Store VerifyMeta Bundle BundleFacts OperatorApi.
From S2P Require Import LedgerVerifier.

Local Open Scope N_scope.

(** ** Hexadecimal text *)

Lemma small_digit n : n < 16 -> exists k : nat, n = N.of_nat k /\ (k < 16)%nat.
Proof. intros Hn. exists (N.to_nat n). lia. Qed.

(** A digit is no white space, from either end. *)
Lemma digit_not_space n s :
  n < 16 ->
  strip_any WHITE_SPACE (hex_digit n :: s) = None /\
  strip_any (rev (A:=Byte.byte) <$> WHITE_SPACE) (hex_digit n :: s) = None.
Proof.
  intros (k & -> & Hk)%small_digit.
  do 16 (destruct k as [|k]; [split; reflexivity|]). lia.
Qed.

Lemma digit_ascii n : n < 16 -> in_range 0 0x7F (hex_digit n) = true.
Proof.
  intros (k & -> & Hk)%small_digit. do 16 (destruct k as [|k]; [reflexivity|]). lia.
Qed.

Lemma byte_halves (x : Byte.byte) : Byte.to_N x / 16 < 16 /\ Byte.to_N x mod 16 < 16.
Proof.
  pose proof (byte_to_N_bound x). split; [|by apply N.mod_lt].
  apply N.Div0.div_lt_upper_bound. lia.
Qed.

Lemma strip_while_none fuel pats s :
  strip_any pats s = None -> strip_while fuel pats s = s.
Proof. intros E. destruct fuel; cbn; [done|]. by rewrite E. Qed.

Section Hexadecimal.
Context `{HexLaws, !HexLower}.

Lemma hex_ascii b : is_ascii (hex_encode b) = true.
Proof.
  rewrite hex_encode_pairs. unfold is_ascii. induction b as [|x b IH]; [done|].
  cbn [mbind list_bind hex_pair app forallb]. destruct (byte_halves x) as [Hh Hl].
  by rewrite !digit_ascii, IH.
Qed.

Lemma hex_utf8 b : utf8_valid (hex_encode b) = true.
Proof. apply ascii_valid, hex_ascii. Qed.

(** What is printed on a line of its own is read back. *)
Lemma trim_hex_line b : b <> [] -> trim (hex_encode b ++ [Byte.x0a]) = hex_encode b.
Proof.
  intros Hb. rewrite hex_encode_pairs. destruct b as [|x b]; [done|].
  assert (Hs : trim_start (((x :: b) ≫= hex_pair) ++ [Byte.x0a]) = ((x :: b) ≫= hex_pair) ++ [Byte.x0a]).
  { unfold trim_start. apply strip_while_none. cbn [mbind list_bind hex_pair app].
    exact (proj1 (digit_not_space _ _ (proj1 (byte_halves x)))). }
  unfold trim. rewrite Hs. unfold trim_end. rewrite rev_app_distr, length_app, Nat.add_comm.
  cbn [length rev app Nat.add strip_while].
  assert (strip_any (rev (A:=Byte.byte) <$> WHITE_SPACE) (Byte.x0a :: rev ((x :: b) ≫= hex_pair)) =
          Some (rev ((x :: b) ≫= hex_pair))) as -> by reflexivity.
  rewrite strip_while_none; [apply rev_involutive|].
  destruct (exists_last (l := x :: b)) as (c & y & E); [done|]. rewrite E.
  rewrite bind_app, rev_app_distr. cbn [mbind list_bind hex_pair app rev].
  exact (proj2 (digit_not_space _ _ (proj2 (byte_halves y)))).
Qed.
End Hexadecimal.

Section Facts.
Context `{Target} `{HexLaws, !HexLower} `{BundleJsonLaws} `{Processes}.
Context `{ProofFields} `{!CircuitVerifier} `{!CairoPrograms}.

(** ** The bundle in the file *)

Lemma bundle_json_roundtrip b t :
  bundle_to_json b = Ok t ->
  utf8_valid t = true /\ bundle_from_json t = Ok b.
Proof.
  unfold bundle_to_json, bundle_from_json, hex_bytes_serialize, hex_f_vec_serialize. intros Ht.
  assert (Hu : Forall (fun s => utf8_valid s = true)
                 ((fun f => hex_encode (F_bytes f)) <$> pb_output_preimage b))
    by (apply Forall_fmap, Forall_true; intros f; apply hex_utf8).
  split; [by eapply json_write_utf8; [apply hex_utf8|exact Hu|exact Ht]|].
  erewrite json_read_write by (done || apply hex_utf8). cbn [mbind result_bind].
  unfold hex_bytes_deserialize, hex_f_vec_deserialize. rewrite hex_decode_encode.
  cbn [mbind result_bind].
  assert (map_result (fun s => b ← hex_decode s; felt_of_slice b "expected 32 bytes")
            ((fun f => hex_encode (F_bytes f)) <$> pb_output_preimage b) = Ok (pb_output_preimage b)) as ->.
  { apply map_result_Ok, Forall2_fmap_l, Forall_Forall2_diag, Forall_true. intros f.
    cbn beta delta [compose]. rewrite hex_decode_encode. cbn [mbind result_bind]. by apply felt_of_slice_Ok. }
  by destruct b.
Qed.

Lemma reprove_reads path b t executable :
  bundle_to_json b = Ok t ->
  reprove_verify [(path, t)] executable path =
  exit_of (program_hash ← executable_program_hash executable;
           verify_bundle_for_program_hash b (felt_to_bytes_le program_hash) ;;
           mret (println "verify=ok")).
Proof.
  intros Ht. destruct (bundle_json_roundtrip _ _ Ht) as [Hu Hr].
  unfold reprove_verify, read_to_string. cbn [filter list_filter fst]. rewrite decide_True by done.
  cbn [head fmap option_fmap option_map snd]. unfold from_utf8. rewrite Hu.
  cbn [ok_or mbind result_bind]. by rewrite str_bytes_of_bytes, Hr.
Qed.

(** ** The two uses of the child *)

Context (reprove_bin : string) (Hinst : ReproverInstalled reprove_bin).

Lemma compute_program_hash_Ok executable h :
  compute_program_hash reprove_bin executable = Ok h ->
  exists f, executable_program_hash executable = Ok f /\ h = felt_to_bytes_le f.
Proof.
  unfold compute_program_hash.
  pose proof (runs_program_hash [] executable) as Hr. unfold reprove_program_hash in Hr.
  destruct (executable_program_hash executable) as [f|e|e]; cbn in Hr;
    destruct Hr as (status & stderr & ->); cbn [N.eqb negb fail_if mbind result_bind]; try done.
  intros Hc. exists f. split; [done|]. unfold println in Hc.
  rewrite str_bytes_hex_str, trim_hex_line in Hc by (intros Hn; pose proof (length_F_bytes (felt_to_bytes_le f)) as Hl; by rewrite Hn in Hl).
  rewrite hex_decode_encode in Hc. result_inv. apply mkF_F_bytes.
Qed.

Definition files_ok : Prop :=
  (exists path, named_temp_file = Ok path) /\ forall path b, write_file path b = Ok tt.

Lemma verify_stark_proof_ok executable proof_bytes op :
  files_ok ->
  is_ok (verify_stark_proof reprove_bin executable (Stark proof_bytes op)) = true <->
  exists f, executable_program_hash executable = Ok f /\
    is_ok (validate_single_task_program_hash op (felt_to_bytes_le f)) = true /\
    is_ok (bundle_verify {| pb_proof_bytes := proof_bytes; pb_output_preimage := op |}) = true.
Proof.
  intros [[path Hp] Hw]. set (b := {| pb_proof_bytes := proof_bytes; pb_output_preimage := op |}).
  destruct (json_write_total (hex_bytes_serialize proof_bytes) (hex_f_vec_serialize op)) as [t Ht].
  unfold verify_stark_proof, encode_verify_bundle_json. rewrite Hp.
  change (bundle_to_json b = Ok t) in Ht. fold b. rewrite Ht. cbn [map_err mbind result_bind].
  rewrite Hw. cbn [map_err mbind result_bind].
  pose proof (runs_verify [(path, t)] executable path) as Hr.
  rewrite (reprove_reads _ _ _ _ Ht) in Hr. unfold verify_bundle_for_program_hash in Hr.
  cbn [pb_output_preimage b] in Hr.
  destruct (executable_program_hash executable) as [f|e|e]; cbn [mbind result_bind] in Hr.
  2,3: destruct Hr as (? & ? & ->); split; [done|by intros (? & ? & _)].
  destruct (validate_single_task_program_hash op _) as [r|e|e] eqn:Ev;
    cbn [map_err mbind result_bind] in Hr.
  2,3: destruct Hr as (? & ? & ->); split; [done|intros (? & [= <-] & Hv & _); by rewrite Ev in Hv].
  destruct (bundle_verify b) as [u|e|e]; cbn [mbind result_bind] in Hr;
    destruct Hr as (? & ? & ->); split; try done; try (by intros (? & _ & _ & ?)).
  intros _. exists f. by rewrite Ev.
Qed.

Lemma verdict_is_bundle wasm32 proof_bytes op :
  is_ok (stark_bundle_verdict wasm32 proof_bytes op) =
  is_ok (bundle_verify {| pb_proof_bytes := proof_bytes; pb_output_preimage := op |}).
Proof. unfold stark_bundle_verdict. by destruct (bundle_verify _). Qed.

Lemma load_program_hashes_Ok dir hashes circuit :
  load_program_hashes reprove_bin dir = Ok hashes ->
  exists f, executable_program_hash (path_join dir (executable_filename circuit)) = Ok f /\
    expected_program_hash circuit hashes = felt_to_bytes_le f.
Proof.
  unfold load_program_hashes. intros Hl. result_inv.
  repeat match goal with
         | E : compute_program_hash _ _ = Ok _ |- _ => apply compute_program_hash_Ok in E as (? & ? & ->)
         end.
  destruct circuit; eauto.
Qed.

Lemma bool_iff (a b : bool) : (a = true <-> b = true) -> a = b.
Proof. destruct a, b; naive_solver. Qed.

Lemma is_ok_map_err {A} f (r : result A) : is_ok (map_err f r) = is_ok r.
Proof. by destruct r. Qed.

Lemma is_ok_fail_if b msg : is_ok (fail_if b msg) = negb b.
Proof. by destruct b. Qed.

Lemma is_ok_seq {B} (r : result unit) (k : result B) :
  is_ok (r ;; k) = true <-> is_ok r = true /\ is_ok k = true.
Proof. destruct r as [[]|e|e]; cbn; naive_solver. Qed.

Lemma ledger_validate_stark allow hashes dir proof_bytes op circuit :
  is_ok (ledger_validate
           {| lv_allow_trust_me_bro := allow;
              lv_verified_mode := Some
                {| vc_reprove_bin := reprove_bin; vc_program_hashes := hashes;
                   vc_executable_paths := Some (executable_paths_from_dir dir) |} |}
           (Stark proof_bytes op) circuit) = true <->
  proof_bytes <> [] /\ op <> [] /\
  is_ok (validate_single_task_program_hash op (expected_program_hash circuit hashes)) = true /\
  is_ok (verify_stark_proof reprove_bin (path_for (executable_paths_from_dir dir) circuit)
           (Stark proof_bytes op)) = true.
Proof.
  unfold ledger_validate, check_proof, ledger_validate_stark_circuit.
  cbn [lv_verified_mode lv_allow_trust_me_bro vc_program_hashes vc_executable_paths vc_reprove_bin].
  rewrite !is_ok_seq, is_ok_map_err, !is_ok_fail_if, !negb_true_iff, !bool_decide_eq_false.
  assert (forall r : result (list F), is_ok (_ ← r; mret tt : result unit) = is_ok r) as ->
    by by intros [].
  naive_solver.
Qed.

(** C33: a ledger that started with the prover's binary accepts, through its child
    processes and files, exactly the proofs that the verifier linked into the kernel accepts
    for the program hashes of the ledger's own executables. *)
Theorem ledger_verifier_is_direct (wasm32 allow : bool) (dir : string) (v : LedgerProofVerifier) :
  from_reprove_bin allow reprove_bin dir = Ok v -> files_ok ->
  exists hashes,
    (forall circuit, exists f,
       executable_program_hash (path_join dir (executable_filename circuit)) = Ok f /\
       expected_program_hash circuit hashes = felt_to_bytes_le f) /\
    forall proof circuit,
      is_ok (ledger_validate v proof circuit) =
      is_ok (validate (stark_bundle_verdict wasm32) (verified allow hashes) proof circuit).
Proof.
  intros Hv Hf. unfold from_reprove_bin in Hv. result_inv. rename a into hashes, Ha into Hl.
  exists hashes. split; [intros circuit; by apply load_program_hashes_Ok|].
  intros [|proof_bytes op] circuit.
  { unfold ledger_validate, validate. cbn. by destruct allow. }
  apply bool_iff. rewrite validate_stark, verdict_is_bundle.
  destruct (load_program_hashes_Ok _ _ circuit Hl) as (f & Ef & Eh).
  rewrite ledger_validate_stark, verify_stark_proof_ok by done.
  assert (path_for (executable_paths_from_dir dir) circuit = path_join dir (executable_filename circuit))
    as -> by by destruct circuit.
  rewrite Ef, Eh. split.
  - intros (? & ? & ? & f' & [= <-] & _ & ?). done.
  - intros (? & ? & ? & ?). split_and!; [done..|]. by exists f.
Qed.
End Facts.

(** ** At a concrete child

    Bundles are lists of texts in hexadecimal, each ended by a comma; the child is the
    prover's program, and the three executables have the sample hashes. *)

Definition toy_fields_text (l : list bytes) : bytes :=
  l ≫= fun s => toy_hex_encode s ++ [Byte.x2c].

Fixpoint toy_read_fields (fuel : nat) (s : bytes) : result (list bytes) :=
  match fuel, s with
  | _, [] => Ok []
  | O, _ => Err "expected value"
  | S fuel, _ =>
      '(l, r) ← ok_or (split_once Byte.x2c s) "EOF while parsing";
      d ← toy_hex_decode l;
      ds ← toy_read_fields fuel r;
      mret (d :: ds)
  end.

Definition toy_bundle_json : BundleJson := {|
  json_write := fun p o => Ok (toy_fields_text (p :: o));
  json_read := fun s =>
    l ← toy_read_fields (length s) s;
    match l with p :: o => mret (p, o) | [] => Err "missing field `proof_bytes`" end
|}.

Lemma toy_hex_no_comma b : Byte.x2c ∉ toy_hex_encode b.
Proof.
  pose proof (@hex_ascii toy_hex _ b) as _. induction b as [|x b IH]; [set_solver|].
  change (toy_hex_encode (x :: b)) with
    (toy_hex_digit (Byte.to_N x / 16) :: toy_hex_digit (Byte.to_N x mod 16) :: toy_hex_encode b).
  assert (Hd : forall n, n < 16 -> Byte.x2c <> toy_hex_digit n).
  { intros n (k & -> & Hk)%small_digit. do 16 (destruct k as [|k]; [discriminate|]). lia. }
  destruct (byte_halves x) as [Hh Hl]. apply Hd in Hh, Hl.
  rewrite !not_elem_of_cons. done.
Qed.

Lemma toy_read_text l fuel :
  (length (toy_fields_text l) <= fuel)%nat -> toy_read_fields fuel (toy_fields_text l) = Ok l.
Proof.
  revert fuel. induction l as [|s l IH]; intros fuel Hf; [by destruct fuel|].
  assert (E : toy_fields_text (s :: l) = toy_hex_encode s ++ Byte.x2c :: toy_fields_text l)
    by (unfold toy_fields_text; cbn; by rewrite <-app_assoc).
  rewrite E in *. destruct fuel as [|fuel]; [rewrite length_app in Hf; cbn in Hf; lia|].
  assert (Hs : split_once Byte.x2c (toy_hex_encode s ++ Byte.x2c :: toy_fields_text l) =
               Some (toy_hex_encode s, toy_fields_text l))
    by (apply split_once_Some; split; [done|apply toy_hex_no_comma]).
  cbn [toy_read_fields]. rewrite Hs.
  destruct (toy_hex_encode s ++ Byte.x2c :: toy_fields_text l) eqn:En; [by destruct (toy_hex_encode s)|].
  cbn [ok_or mbind result_bind]. 
  change (toy_hex_decode (toy_hex_encode s)) with (@hex_decode toy_hex (@hex_encode toy_hex s)).
  rewrite hex_decode_encode.
  cbn [mbind result_bind]. rewrite IH; [done|]. rewrite <-En, length_app in Hf. cbn in Hf. lia.
Qed.

Lemma toy_text_ascii l : is_ascii (toy_fields_text l) = true.
Proof.
  unfold toy_fields_text, is_ascii. induction l as [|s l IH]; [done|]. cbn [mbind list_bind].
  rewrite !forallb_app, IH.
  change (forallb (in_range 0 0x7F) (toy_hex_encode s)) with (is_ascii (@hex_encode toy_hex s)).
  by rewrite hex_ascii.
Qed.

#[export] Instance toy_bundle_json_laws : @BundleJsonLaws toy_bundle_json.
Proof.
  split; cbn [json_write json_read toy_bundle_json].
  - intros p o. by eexists.
  - intros p o t _ _ [= <-]. apply ascii_valid, (toy_text_ascii (p :: o)).
  - intros p o t _ _ E. assert (t = toy_fields_text (p :: o)) as -> by congruence.
    by rewrite (toy_read_text (p :: o) _ (le_n _)).
Qed.

Definition toy_program_hash (path : string) : result N :=
  if decide (path = path_join "dev" (executable_filename CShield)) then Ok 11
  else if decide (path = path_join "dev" (executable_filename CTransfer)) then Ok 22
  else if decide (path = path_join "dev" (executable_filename CUnshield)) then Ok 33
  else Err "No such file or directory (os error 2)".

Definition toy_cairo : @CairoPrograms toy_fields :=
  @Build_CairoPrograms toy_fields toy_program_hash u64_to_felt.

Definition toy_outcome (e : Exit) : CommandOutput :=
  match e with Exited code out => CommandRan (code =? 0) "" out [] end.

Definition toy_processes : Processes := {|
  path_exists := fun _ => true;
  named_temp_file := Ok "/tmp/.tmpA1b2C3"%string;
  write_file := fun _ _ => Ok tt;
  run_program := fun files bin args =>
    match args with
    | [exe; flag; path] =>
        if decide (flag = "--verify"%string) then
          toy_outcome (@reprove_verify host_target toy_hex toy_bundle_json toy_fields
                         toy_circuit_verifier toy_cairo files exe path)
        else CommandNotStarted "unexpected argument"
    | [exe; flag] =>
        if decide (flag = "--program-hash"%string) then
          toy_outcome (@reprove_program_hash toy_hex toy_fields toy_cairo exe)
        else CommandNotStarted "unexpected argument"
    | _ => CommandNotStarted "unexpected argument"
    end
|}.

#[export] Instance toy_installed :
  @ReproverInstalled host_target toy_hex toy_bundle_json toy_processes toy_fields
    toy_circuit_verifier toy_cairo "reprove".
Proof.
  split; intros; cbn [run_program toy_processes];
    [destruct (reprove_verify _ _ _) as [c o]|destruct (reprove_program_hash _) as [c o]];
    cbn; by eexists _, _.
Qed.

(** The verifier the sample ledger starts with. *)
Definition sample_verifier : LedgerProofVerifier :=
  {| lv_allow_trust_me_bro := false;
     lv_verified_mode := Some
       {| vc_reprove_bin := "reprove"; vc_program_hashes := sample_hashes;
          vc_executable_paths := Some (executable_paths_from_dir "dev") |} |}.

Lemma sample_verifier_starts :
  @from_reprove_bin toy_hex toy_processes false "reprove" "dev" = Ok sample_verifier.
Proof.
  assert (Hh : forall c, @compute_program_hash toy_hex toy_processes "reprove"
                 (path_join "dev" (executable_filename c)) = Ok (expected_program_hash c sample_hashes)).
  { intros []; vm_compute; f_equal; apply F_eq; reflexivity. }
  unfold from_reprove_bin, load_program_hashes. cbn [check_exist path_exists toy_processes negb fail_if].
  cbn [mbind result_bind]. rewrite !Hh. reflexivity.
Qed.

Lemma sample_files_ok : @files_ok toy_processes.
Proof. split; [by eexists|done]. Qed.

(** The sample proof of a transfer passes through the child, for whatever hashes it was
    started with. *)
Lemma ledger_verifier_is_direct_witness :
  exists hashes,
    (forall circuit, exists f,
       @executable_program_hash toy_fields toy_cairo (path_join "dev" (executable_filename circuit)) = Ok f /\
       expected_program_hash circuit hashes = @felt_to_bytes_le toy_fields toy_cairo f) /\
    forall proof circuit,
      is_ok (@ledger_validate host_target toy_hex toy_bundle_json toy_processes
               sample_verifier proof circuit) =
      is_ok (@validate host_target
               (@stark_bundle_verdict host_target toy_hex toy_fields toy_circuit_verifier false)
               toy_hex (verified false hashes) proof circuit).
Proof.
  exact (@ledger_verifier_is_direct host_target toy_hex _ _ toy_bundle_json _ toy_processes
           toy_fields toy_circuit_verifier toy_cairo "reprove" _ false false "dev"
           sample_verifier sample_verifier_starts sample_files_ok).
Defined.

Example sample_proof_passes :
  is_ok (@ledger_validate host_target toy_hex toy_bundle_json toy_processes
           sample_verifier sample_stark CTransfer) = true /\
  is_ok (@ledger_validate host_target toy_hex toy_bundle_json toy_processes
           sample_verifier sample_stark CShield) = false.
Proof. vm_compute. split; reflexivity. Qed.
