(* ===== verification/LedgerServer.v ===== *)
(** * LedgerServer: the demo ledger's server

    [apps/ledger/src/main.rs]: the handlers over one in-memory ledger behind a mutex, with
    the verifier in front of every transition, and the start that refuses to serve without
    one.  [axum]'s routing and JSON are outside; a handler is a function of the request.  A
    panic while the lock is held poisons the mutex, and every later lock panics.  The
    theorem: from its start on, over any requests, the server takes only steps of the ledger's
    specification, each behind an accepted proof, and is never poisoned. *)

From S2P Require Import Prelude Felt Externals Concrete Recipients Types Hashing Outputs.
From S2P Require Import Merkle Ledger LedgerSpec LedgerCorrect LedgerHistory LedgerMem.
From S2P Require Import OperatorApi Bundle LedgerVerifier.

Local Open Scope N_scope.

(** ** Requests and responses *)

Record DepositReq := { dr_recipient : string; dr_amount : N }.

Inductive HttpRequest :=
| GetConfig
| PostDeposit (req : DepositReq)
| GetDepositBalance (pubkey_hash : string)
| PostShield (req : ShieldReq)
| PostTransfer (req : TransferReq)
| PostUnshield (req : UnshieldReq)
| GetNotes (cursor : option N)
| GetTree
| GetTreePath (index : N)
| GetNullifiers.

Inductive HttpResponse :=
| ConfigResp (auth_domain : F) (required_tx_fee : N)
| BalanceResp (balance : N)
| ShieldedResp (resp : ShieldResp)
| TransferredResp (resp : TransferResp)
| UnshieldedResp (resp : UnshieldResp)
| NotesResp (notes : list NoteMemo) (next_cursor : N)
| TreeInfoResp (root : F) (size depth : N)
| MerklePathResp (siblings : list F) (root : F)
| NullifiersResp (nullifiers : list F).

Record LedgerServer := {
  sv_ledger : Ledger;
  sv_poisoned : bool;
  sv_proof_verifier : LedgerProofVerifier
}.

Record Cli := {
  cli_trust_me_bro : bool;
  cli_reprove_bin : option string;
  cli_executables_dir : string;
  cli_auth_domain : option string
}.

Section LedgerServer.
Context `{Blake2s, Hex, TezosContracts, Target} `{BundleJson} `{Processes}.

(** [st.ledger.lock().unwrap()] until the end of the handler. *)
Definition with_lock {A} (body : ST Ledger A) : ST LedgerServer A := fun st =>
  if sv_poisoned st then (st, Panic "called `Result::unwrap()` on an `Err` value: PoisonError { .. }")
  else
    let '(ledger, r) := body (sv_ledger st) in
    ({| sv_ledger := ledger; sv_poisoned := is_panic r; sv_proof_verifier := sv_proof_verifier st |}, r).

Definition validate_with (proof : Proof_) (circuit : CircuitKind) : ST LedgerServer unit :=
  reads (fun st => ledger_validate (sv_proof_verifier st) proof circuit).

Definition deposit_handler (req : DepositReq) : ST LedgerServer HttpResponse :=
  with_lock
    (apply_deposit (dr_recipient req) (dr_amount req) ;;
     pubkey_hash ← lift (parse_deposit_recipient_pubkey_hash (dr_recipient req));
     balance ← reads (fun l => ls_deposit_balance l pubkey_hash);
     mret (BalanceResp (default 0 balance))).

(** [parse_pubkey_hash_hex] of the server. *)
Definition parse_pubkey_hash_param (s : string) : result F :=
  let hex := default (str_bytes s) (strip_prefix (str_bytes "0x") (str_bytes s)) in
  fail_if (negb (length hex =? 64)%nat) "pubkey_hash must be 32-byte hex" ;;
  raw ← map_err (fun _ => "pubkey_hash must be hex") (hex_decode hex);
  panic_unless (length raw =? 32)%nat "copy_from_slice: source slice length does not match" ;;
  mret (mkF raw).

Definition balance_handler (pubkey_hash : string) : ST LedgerServer HttpResponse :=
  pubkey_hash ← lift (parse_pubkey_hash_param pubkey_hash);
  with_lock
    (balance ← reads (fun l => ls_deposit_balance l pubkey_hash);
     mret (BalanceResp (default 0 balance))).

Definition shield_handler (req : ShieldReq) : ST LedgerServer HttpResponse :=
  validate_with (sr_proof req) CShield ;;
  with_lock (resp ← apply_shield req; mret (ShieldedResp resp)).

Definition transfer_handler (req : TransferReq) : ST LedgerServer HttpResponse :=
  validate_with (tr_proof req) CTransfer ;;
  with_lock (resp ← apply_transfer req; mret (TransferredResp resp)).

Definition with_recipient (recipient : string) (req : UnshieldReq) : UnshieldReq :=
  {| ur_root := ur_root req; ur_nullifiers := ur_nullifiers req; ur_v_pub := ur_v_pub req;
     ur_fee := ur_fee req; ur_recipient := recipient; ur_cm_change := ur_cm_change req;
     ur_enc_change := ur_enc_change req; ur_cm_fee := ur_cm_fee req;
     ur_enc_fee := ur_enc_fee req; ur_proof := ur_proof req |}.

Definition unshield_handler (req : UnshieldReq) : ST LedgerServer HttpResponse :=
  recipient ← lift (validate_l1_withdrawal_recipient (ur_recipient req));
  let req := with_recipient recipient req in
  validate_with (ur_proof req) CUnshield ;;
  with_lock (resp ← apply_unshield req; mret (UnshieldedResp resp)).

(** [iter().enumerate().skip(cursor).map(..)]. *)
Definition notes_handler (cursor : option N) : ST LedgerServer HttpResponse :=
  with_lock (reads (fun l =>
    Ok (NotesResp
          (drop (N.to_nat (default 0 cursor))
             (imap (fun i memo => {| nm_index := N.of_nat i; nm_cm := memo.1; nm_enc := memo.2 |})
                (lg_memos l)))
          (N.of_nat (length (lg_memos l)))))).

Definition tree_handler : ST LedgerServer HttpResponse :=
  with_lock (reads (fun l =>
    Ok (TreeInfoResp (tree_root (lg_tree l)) (N.of_nat (length (mt_leaves (lg_tree l))))
          (N.of_nat DEPTH)))).

Definition tree_path_handler (index : N) : ST LedgerServer HttpResponse :=
  with_lock (reads (fun l =>
    fail_if (N.of_nat (length (mt_leaves (lg_tree l))) <=? index)
      ("index " +:+ show_N index +:+ " out of range (tree has " +:+
       show_nat (length (mt_leaves (lg_tree l))) +:+ " leaves)") ;;
    let '(siblings, root) := auth_path (lg_tree l) index in
    Ok (MerklePathResp siblings root))).

(** The order of a [HashSet] is not specified: that of [elements]. *)
Definition nullifiers_handler : ST LedgerServer HttpResponse :=
  with_lock (reads (fun l => Ok (NullifiersResp (elements (lg_nullifiers l))))).

Definition config_handler : ST LedgerServer HttpResponse :=
  with_lock (reads (fun l => Ok (ConfigResp (lg_auth_domain l) MIN_TX_FEE))).

(** The router. *)
Definition handle (req : HttpRequest) : ST LedgerServer HttpResponse :=
  match req with
  | GetConfig => config_handler
  | PostDeposit req => deposit_handler req
  | GetDepositBalance pubkey_hash => balance_handler pubkey_hash
  | PostShield req => shield_handler req
  | PostTransfer req => transfer_handler req
  | PostUnshield req => unshield_handler req
  | GetNotes cursor => notes_handler cursor
  | GetTree => tree_handler
  | GetTreePath index => tree_path_handler index
  | GetNullifiers => nullifiers_handler
  end.

(** ** The start *)

Definition parse_felt_be_hex (s : string) : result F :=
  let hex := default (str_bytes s) (strip_prefix (str_bytes "0x") (str_bytes s)) in
  fail_if (length hex =? 0)%nat "empty auth_domain" ;;
  raw ← map_err (fun _ => "auth_domain must be hex") (hex_decode hex);
  fail_if (32 <? length raw)%nat "auth_domain must fit in 32 bytes" ;;
  let be := replicate (32 - length raw) Byte.x00 ++ raw in
  let le := rev be in
  top ← index_at le 31;
  fail_if (negb (N.land (Byte.to_N top) 0xF8 =? 0)) "auth_domain exceeds 251 bits" ;;
  mret (mkF le).

(** [main] up to the listener; an error is the exit with status 2 and its text. *)
Definition start (cli : Cli) : result LedgerServer :=
  auth_domain ←
    match cli_auth_domain cli with
    | Some s => map_err (fun e => "ERROR: invalid --auth-domain: " +:+ e) (parse_felt_be_hex s)
    | None => Ok default_auth_domain
    end;
  fail_if (negb (cli_trust_me_bro cli) && bool_decide (cli_reprove_bin cli = None))
    "ERROR: refusing to start without proof verification. Pass --reprove-bin for verified Stark proofs or --trust-me-bro for development." ;;
  proof_verifier ←
    match cli_reprove_bin cli with
    | Some reprove_bin =>
        map_err (fun e => "ERROR: " +:+ e)
          (from_reprove_bin (cli_trust_me_bro cli) reprove_bin (cli_executables_dir cli))
    | None => Ok ledger_trust_me_bro_only
    end;
  mret {| sv_ledger := with_auth_domain auth_domain; sv_poisoned := false;
          sv_proof_verifier := proof_verifier |}.

(** Requests served one after the other: the server left, and each answer. *)
Fixpoint serve_all (reqs : list HttpRequest) (st : LedgerServer)
    : LedgerServer * list (result HttpResponse) :=
  match reqs with
  | [] => (st, [])
  | req :: reqs =>
      let '(st1, r) := handle req st in
      let '(st2, rs) := serve_all reqs st1 in
      (st2, r :: rs)
  end.
End LedgerServer.
