(* ===== verification/LedgerServerFacts.v ===== *)
(** * LedgerServerFacts: the server is the ledger's specification behind a verifier

    [answers] says what a request gets from a view and leaves of it; every handler does that
    on a ledger that keeps the invariants, and keeps them, so a whole history from the start
    is a chain of such answers. *)

From S2P Require Import Prelude Felt Externals Concrete Recipients Types Hashing Outputs.
From S2P Require Import Merkle Ledger LedgerSpec LedgerCorrect LedgerHistory LedgerMem.
From S2P Require Import LedgerWitness OperatorApi Outputs Bundle BundleFacts.
From S2P Require Import LedgerVerifier LedgerVerifierFacts LedgerServer.

Local Open Scope N_scope.

Section Facts.
Context `{Blake2s, Hex, TezosContracts, Target} {Hhost : HostTarget} `{BundleJson} `{Processes}.
Context (hex_total : forall b, is_panic (hex_decode b) = false).

(** ** The specification *)

Definition refused {A} (r : result A) : Prop := is_ok r = false.

(** A request done, under conditions, with its response and its effect; or refused, when
    they do not hold, with no effect. *)
Definition guarded {A R} (cond : A -> Prop) (resp : A -> R) (effect : A -> View -> Prop)
    (v : View) (r : result R) (v' : View) : Prop :=
  (exists a, cond a /\ r = Ok (resp a) /\ effect a v') \/
  ((forall a, ~ cond a) /\ refused r /\ v' = v).

Definition reading {R} (read : result R -> Prop) (v : View) (r : result R) (v' : View) : Prop :=
  read r /\ v' = v.

Definition accepts (pv : LedgerProofVerifier) (proof : Proof_) (circuit : CircuitKind) : Prop :=
  is_ok (ledger_validate pv proof circuit) = true.

(** The notes from a cursor on, numbered. *)
Definition notes_from (cursor : N) (v : View) : list NoteMemo :=
  drop (N.to_nat cursor)
    (imap (fun i memo => {| nm_index := N.of_nat i; nm_cm := memo.1; nm_enc := memo.2 |}) (v_notes v)).

Definition note_count (v : View) : N := N.of_nat (length (v_notes v)).

Definition answers (pv : LedgerProofVerifier) (req : HttpRequest) (v : View)
    : result HttpResponse -> View -> Prop :=
  match req with
  | GetConfig => reading (fun r => r = Ok (ConfigResp (v_auth_domain v) MIN_TX_FEE)) v
  | PostDeposit d =>
      guarded (fun '(k, next) =>
                 parse_deposit_recipient_pubkey_hash (dr_recipient d) = Ok k /\
                 checked_add_u64 (default 0 (v_balances v !! k)) (dr_amount d) = Some next)
        (fun '(_, next) => BalanceResp next)
        (fun '(k, next) v' => v' = with_balances (<[k := next]> (v_balances v)) v) v
  | GetDepositBalance s =>
      guarded (fun k => parse_pubkey_hash_param s = Ok k)
        (fun k => BalanceResp (default 0 (v_balances v !! k))) (fun _ v' => v' = v) v
  | PostShield q =>
      guarded (fun _ : unit => accepts pv (sr_proof q) CShield /\
                               shield_accepts MIN_TX_FEE mem_capacity v q)
        (fun _ => ShieldedResp (shield_resp q v))
        (fun _ => root_snapshot (shield_effect q v)) v
  | PostTransfer q =>
      guarded (fun _ : unit => accepts pv (tr_proof q) CTransfer /\
                               transfer_accepts MIN_TX_FEE mem_capacity v q)
        (fun _ => TransferredResp (transfer_resp v))
        (fun _ => root_snapshot (transfer_effect q v)) v
  | PostUnshield q =>
      guarded (fun '(r, r') => validate_l1_withdrawal_recipient (ur_recipient q) = Ok r /\
                               accepts pv (ur_proof q) CUnshield /\
                               unshield_accepts MIN_TX_FEE mem_capacity v (with_recipient r q) r')
        (fun '(r, _) => UnshieldedResp (unshield_resp (with_recipient r q) v))
        (fun '(r, r') => root_snapshot (unshield_effect (with_recipient r q) r' v)) v
  | GetNotes cursor =>
      reading (fun r => r = Ok (NotesResp (notes_from (default 0 cursor) v) (note_count v))) v
  | GetTree =>
      reading (fun r => r = Ok (TreeInfoResp (v_root v) (note_count v) (N.of_nat DEPTH))) v
  | GetTreePath index =>
      guarded (fun siblings => index < note_count v /\ length siblings = DEPTH /\
                               path_root (leaf_of (fst <$> v_notes v) index) index siblings = v_root v)
        (fun siblings => MerklePathResp siblings (v_root v)) (fun _ v' => v' = v) v
  | GetNullifiers =>
      reading (fun r => exists l, r = Ok (NullifiersResp l) /\ NoDup l /\
                        forall nf, nf ∈ l <-> nf ∈ v_nullifiers v) v
  end.

(** Amounts are [u64]s. *)
Definition typed (req : HttpRequest) : Prop :=
  match req with
  | PostDeposit d => is_u64 (dr_amount d)
  | PostUnshield q => is_u64 (ur_v_pub q)
  | _ => True
  end.

Record server_inv (st : LedgerServer) : Prop := {
  si_open : sv_poisoned st = false;
  si_ledger : mem_inv (sv_ledger st);
  si_room : note_count (mem_view (sv_ledger st)) <= mem_capacity
}.

(** What a handler does: the specified answer, and the invariants kept. *)
Definition meets (pv : LedgerProofVerifier) (spec : View -> result HttpResponse -> View -> Prop)
    (h : ST LedgerServer HttpResponse) : Prop :=
  forall st st' r, server_inv st -> sv_proof_verifier st = pv -> h st = (st', r) ->
    server_inv st' /\ sv_proof_verifier st' = pv /\
    spec (mem_view (sv_ledger st)) r (mem_view (sv_ledger st')).

(** ** Handlers *)

Lemma meets_refused pv spec A (m : result A) (k : A -> ST LedgerServer HttpResponse) :
  (forall v r, refused m -> refused r -> spec v r v) ->
  (forall a, m = Ok a -> meets pv spec (k a)) ->
  meets pv spec (lift m ≫= k).
Proof.
  intros Hr Hk st st' r Hi Hp E. unfold mbind, ST_bind, lift in E.
  destruct m as [a|e|e]; [by eapply Hk| |]; injection E as <- <-; by split_and!; [|apply Hp|apply Hr].
Qed.

(** A handler that holds the lock. *)
Lemma meets_lock pv spec (body : ST Ledger HttpResponse) :
  (forall l l' r, mem_inv l -> note_count (mem_view l) <= mem_capacity -> body l = (l', r) ->
     is_panic r = false /\ mem_inv l' /\ note_count (mem_view l') <= mem_capacity /\
     spec (mem_view l) r (mem_view l')) ->
  meets pv spec (with_lock body).
Proof.
  intros Hb st st' r [Ho Hl Hc] Hp E. unfold with_lock in E. rewrite Ho in E.
  destruct (body (sv_ledger st)) as [l' r'] eqn:Eb. injection E as <- <-.
  destruct (Hb _ _ _ Hl Hc Eb) as (Hn & Hl' & Hc' & Hs). cbn. by split_and!; [split|..].
Qed.

Lemma meets_read pv spec (f : Ledger -> result HttpResponse) :
  (forall l, mem_inv l -> note_count (mem_view l) <= mem_capacity ->
     is_panic (f l) = false /\ spec (mem_view l) (f l) (mem_view l)) ->
  meets pv spec (with_lock (reads f)).
Proof.
  intros Hf. apply meets_lock. intros l l' r Hl Hc [= <- <-].
  by destruct (Hf l Hl Hc) as [? ?].
Qed.

(** A transition behind the verifier. *)
Lemma meets_validated pv spec proof circuit (body : ST Ledger HttpResponse) :
  (forall v r, ~ accepts pv proof circuit -> refused r -> spec v r v) ->
  (accepts pv proof circuit -> meets pv spec (with_lock body)) ->
  meets pv spec (validate_with proof circuit ;; with_lock body).
Proof.
  intros Hr Hb st st' r Hi Hp E. unfold validate_with, mbind, ST_bind, reads in E.
  rewrite Hp in E. unfold accepts in *.
  destruct (ledger_validate pv proof circuit) as [u|e|e] eqn:Ev.
  - by eapply Hb.
  - injection E as <- <-. by split_and!; [|done|apply Hr].
  - injection E as <- <-. by split_and!; [|done|apply Hr].
Qed.

(** The outcome of a transition on a ledger, with a condition that its preparation decides. *)
Definition transition {R} (cond : Prop) (resp : R) (effect : View -> Prop) (l : Ledger)
    (out : Ledger * result R) : Prop :=
  (cond /\ exists l', out = (l', Ok resp) /\ mem_inv l' /\ effect (mem_view l')) \/
  (~ cond /\ exists e, out = (l, Err e)).

Lemma shield_transition l q :
  mem_inv l ->
  transition (shield_accepts MIN_TX_FEE mem_capacity (mem_view l) q) (shield_resp q (mem_view l))
    (root_snapshot (shield_effect q (mem_view l))) l (apply_shield q l).
Proof.
  intros Hl. change (ll_inv l) in Hl. destruct (apply_shield_outcome l q Hl) as [Hyes Hno].
  destruct (prepare_shield q l) as [p|e|e] eqn:Ep.
  - apply prepare_shield_Ok in Ep as [Ha _]; [|done]. left. split; [exact Ha|]. by apply Hyes.
  - right. enough (Hn : ~ shield_accepts MIN_TX_FEE mem_capacity (mem_view l) q) by (split; [done|by apply Hno]).
    intros Ha. assert (prepare_shield q l = Ok (prepared_shield q)) by by apply prepare_shield_Ok. congruence.
  - pose proof (prepare_shield_no_panic l q Hl) as Hn. by rewrite Ep in Hn.
Qed.

Lemma transfer_transition l q :
  mem_inv l ->
  transition (transfer_accepts MIN_TX_FEE mem_capacity (mem_view l) q) (transfer_resp (mem_view l))
    (root_snapshot (transfer_effect q (mem_view l))) l (apply_transfer q l).
Proof.
  intros Hl. change (ll_inv l) in Hl. destruct (apply_transfer_outcome l q Hl) as [Hyes Hno].
  destruct (prepare_transfer q l) as [[]|e|e] eqn:Ep.
  - apply prepare_transfer_Ok in Ep as Ha; [|done]. left. split; [exact Ha|]. by apply Hyes.
  - right. enough (Hn : ~ transfer_accepts MIN_TX_FEE mem_capacity (mem_view l) q) by (split; [done|by apply Hno]).
    intros Ha. assert (prepare_transfer q l = Ok tt) by by apply prepare_transfer_Ok. congruence.
  - pose proof (prepare_transfer_no_panic l q Hl) as Hn. by rewrite Ep in Hn.
Qed.

Lemma unshield_transition l q :
  mem_inv l -> is_u64 (ur_v_pub q) ->
  (exists r, transition (unshield_accepts MIN_TX_FEE mem_capacity (mem_view l) q r)
    (unshield_resp q (mem_view l)) (root_snapshot (unshield_effect q r (mem_view l))) l
    (apply_unshield q l) /\ unshield_accepts MIN_TX_FEE mem_capacity (mem_view l) q r) \/
  (forall r, ~ unshield_accepts MIN_TX_FEE mem_capacity (mem_view l) q r) /\
  exists e, apply_unshield q l = (l, Err e).
Proof.
  intros Hl Hu. change (ll_inv l) in Hl. destruct (apply_unshield_outcome l q Hl Hu) as [Hyes Hno].
  destruct (prepare_unshield q l) as [p|e|e] eqn:Ep.
  - apply prepare_unshield_Ok in Ep as (r & Ha & _); [|done]. left. exists r. split; [|exact Ha].
    left. split; [exact Ha|]. by apply Hyes.
  - right. enough (Hn : forall r, ~ unshield_accepts MIN_TX_FEE mem_capacity (mem_view l) q r)
      by (split; [done|by apply Hno]).
    intros r Ha. assert (prepare_unshield q l = Ok (prepared_unshield q r))
      by (apply prepare_unshield_Ok; eauto). congruence.
  - pose proof (prepare_unshield_no_panic l q Hl) as Hn. by rewrite Ep in Hn.
Qed.

(** A view whose roots alone changed has as many notes. *)
Lemma snapshot_count v v' : root_snapshot v v' -> note_count v' = note_count v.
Proof. by intros (roots & -> & _). Qed.

Lemma shield_room v q v' :
  shield_accepts MIN_TX_FEE mem_capacity v q -> root_snapshot (shield_effect q v) v' ->
  note_count v' <= mem_capacity.
Proof.
  intros Ha ->%snapshot_count. pose proof (sa_room _ _ _ _ Ha) as Hr.
  unfold note_count. cbn [v_notes shield_effect with_notes]. rewrite length_app. cbn [length]. lia.
Qed.

Lemma transfer_room v q v' :
  transfer_accepts MIN_TX_FEE mem_capacity v q -> root_snapshot (transfer_effect q v) v' ->
  note_count v' <= mem_capacity.
Proof.
  intros Ha ->%snapshot_count. pose proof (ta_room _ _ _ _ Ha) as Hr.
  unfold note_count. cbn [v_notes transfer_effect with_notes with_nullifiers].
  rewrite length_app. cbn [length]. lia.
Qed.

Lemma unshield_room v q r v' :
  unshield_accepts MIN_TX_FEE mem_capacity v q r -> root_snapshot (unshield_effect q r v) v' ->
  note_count v' <= mem_capacity.
Proof.
  intros Ha ->%snapshot_count. pose proof (ua_room _ _ _ _ _ Ha) as Hr.
  unfold note_count. cbn [v_notes unshield_effect with_notes with_nullifiers].
  rewrite length_app. lia.
Qed.

(** Under the lock: a transition and the response made of its result. *)
Lemma meets_transition {R} pv spec (m : ST Ledger R) (wrap : R -> HttpResponse)
    (cond : View -> Prop) (resp : View -> R) (effect : View -> View -> Prop) :
  (forall l, mem_inv l ->
     transition (cond (mem_view l)) (resp (mem_view l)) (effect (mem_view l)) l (m l)) ->
  (forall v v', cond v -> effect v v' -> note_count v' <= mem_capacity) ->
  (forall v v', cond v -> effect v v' -> spec v (Ok (wrap (resp v))) v') ->
  (forall v r, ~ cond v -> refused r -> spec v r v) ->
  meets pv spec (with_lock (r ← m; mret (wrap r))).
Proof.
  intros Ht Hroom Hyes Hno. apply meets_lock. intros l l' r Hl Hc E.
  destruct (Ht l Hl) as [(Ha & l1 & Em & Hi & He)|(Ha & e & Em)];
    unfold mbind, ST_bind in E; rewrite Em in E; injection E as <- <-.
  - split_and!; [done|done|by eapply Hroom|by apply Hyes].
  - split_and!; [done..|by apply Hno].
Qed.

Lemma shield_meets pv q : meets pv (answers pv (PostShield q)) (shield_handler q).
Proof.
  apply meets_validated.
  - intros v r Hv Hr. right. split; [|done]. by intros _ [? _].
  - intros Hv. apply (meets_transition pv _ (apply_shield q) ShieldedResp
      (fun v => shield_accepts MIN_TX_FEE mem_capacity v q) (fun v => shield_resp q v)
      (fun v => root_snapshot (shield_effect q v))).
    + intros l Hl. by apply shield_transition.
    + intros v v'. apply shield_room.
    + intros v v' Ha He. left. by exists tt.
    + intros v r Ha Hr. right. split; [|done]. by intros _ [_ ?].
Qed.

Lemma transfer_meets pv q : meets pv (answers pv (PostTransfer q)) (transfer_handler q).
Proof.
  apply meets_validated.
  - intros v r Hv Hr. right. split; [|done]. by intros _ [? _].
  - intros Hv. apply (meets_transition pv _ (apply_transfer q) TransferredResp
      (fun v => transfer_accepts MIN_TX_FEE mem_capacity v q) transfer_resp
      (fun v => root_snapshot (transfer_effect q v))).
    + intros l Hl. by apply transfer_transition.
    + intros v v'. apply transfer_room.
    + intros v v' Ha He. left. by exists tt.
    + intros v r Ha Hr. right. split; [|done]. by intros _ [_ ?].
Qed.

Lemma unshield_meets pv q :
  is_u64 (ur_v_pub q) -> meets pv (answers pv (PostUnshield q)) (unshield_handler q).
Proof.
  intros Hu. apply meets_refused.
  { intros v r Hv Hr. right. split; [|done]. intros [r1 r2] [Er _]. by rewrite Er in Hv. }
  intros r Er. cbv zeta. apply meets_validated.
  - intros v a Hv Ha. right. split; [|done]. by intros [r1 r2] (_ & ? & _).
  - intros Hv. apply meets_lock. intros l l' a Hl Hc E. unfold mbind, ST_bind in E.
    destruct (unshield_transition l (with_recipient r q) Hl Hu)
      as [(r' & [(Ha & l1 & Em & Hi & He)|(Hn & _)] & Hacc)|(Hn & e & Em)]; [| done|];
      rewrite Em in E; injection E as <- <-.
    + split_and!; [done|done|by eapply unshield_room|]. left. by exists (r, r').
    + split_and!; [done..|]. right. split; [|done]. intros [r1 r2] (E1 & _ & Ha).
      rewrite Er in E1. injection E1 as <-. by apply (Hn r2).
Qed.

Lemma deposit_meets pv d :
  is_u64 (dr_amount d) -> meets pv (answers pv (PostDeposit d)) (deposit_handler d).
Proof.
  intros Hu. apply meets_lock. intros l l' r Hl Hc E. unfold apply_deposit, mbind, ST_bind, lift in E.
  destruct (parse_deposit_recipient_pubkey_hash (dr_recipient d)) as [k|e|e] eqn:Ek.
  - pose proof (ll_credit l k (dr_amount d) Hl Hu) as Hcr. cbn [ll_view Ledger_laws] in Hcr.
    destruct (checked_add_u64 _ _) as [next|] eqn:Ea.
    + destruct Hcr as (l1 & Em & Hi & Hv). rewrite Em in E. unfold reads in E.
      assert (ls_deposit_balance l1 k = Ok (Some next)) as Eb.
      { rewrite ll_balance by done. cbn [ll_view Ledger_laws]. rewrite Hv. cbn [v_balances with_balances].
        by rewrite lookup_insert_eq. }
      rewrite Eb in E. injection E as <- <-. rewrite Hv. split_and!; [done|done|exact Hc|].
      left. by exists (k, next).
    + destruct Hcr as [e Em]. rewrite Em in E. injection E as <- <-. split_and!; [done..|].
      right. split; [|done]. intros [k' next] [Ek' En]. rewrite Ek in Ek'. injection Ek' as <-.
      cbn [ll_view Ledger_laws] in *. congruence.
  - injection E as <- <-. split_and!; [done..|]. right. split; [|done]. intros [k' n] [Ek' _]. congruence.
  - pose proof (parse_deposit_no_panic (dr_recipient d) hex_total) as Hn. by rewrite Ek in Hn.
Qed.

Lemma balance_meets pv s : meets pv (answers pv (GetDepositBalance s)) (balance_handler s).
Proof.
  apply meets_refused.
  { intros v r Hs Hr. right. split; [|done]. intros k Ek. by rewrite Ek in Hs. }
  intros k Ek. apply meets_lock. intros l l' r Hl Hc E. unfold mbind, ST_bind, reads in E.
  rewrite ll_balance in E by done. injection E as <- <-. split_and!; [done..|].
  left. by exists k.
Qed.

Lemma leaves_count l :
  mem_inv l -> N.of_nat (length (mt_leaves (lg_tree l))) = note_count (mem_view l).
Proof. intros Hl. rewrite (mi_tree _ Hl). unfold note_count. cbn. by rewrite length_fmap. Qed.

Lemma tree_path_meets pv index : meets pv (answers pv (GetTreePath index)) (tree_path_handler index).
Proof.
  apply meets_read. intros l Hl Hc. rewrite leaves_count by done.
  destruct (N.leb_spec (note_count (mem_view l)) index) as [Hi|Hi]; cbn [fail_if mbind result_bind].
  - split; [done|]. right. split; [|done]. intros sibs (Hlt & _). lia.
  - rewrite (mi_tree _ Hl).
    destruct (auth_path_correct (fst <$> lg_memos l) index) as (sibs & E & Hlen & Hp).
    { unfold mem_capacity in Hc. lia. }
    rewrite E. split; [done|]. left. by exists sibs.
Qed.

Lemma handle_meets pv req : typed req -> meets pv (answers pv req) (handle req).
Proof.
  destruct req; intros Ht; cbn [handle].
  - apply meets_read. by intros l Hl _.
  - by apply deposit_meets.
  - apply balance_meets.
  - apply shield_meets.
  - apply transfer_meets.
  - by apply unshield_meets.
  - apply meets_read. by intros l Hl _.
  - apply meets_read. intros l Hl _. split; [done|]. split; [|done].
    rewrite leaves_count, (mi_tree _ Hl) by done. reflexivity.
  - apply tree_path_meets.
  - apply meets_read. intros l Hl _. split; [done|]. split; [|done]. eexists. split; [done|].
    split; [apply NoDup_elements|]. intros nf. apply elem_of_elements.
Qed.

(** ** Histories *)

(** A chain of answers. *)
Fixpoint answered (pv : LedgerProofVerifier) (v : View) (reqs : list HttpRequest)
    (rs : list (result HttpResponse)) (v' : View) : Prop :=
  match reqs, rs with
  | [], [] => v' = v
  | req :: reqs, r :: rs => exists v1, answers pv req v r v1 /\ answered pv v1 reqs rs v'
  | _, _ => False
  end.

Lemma serve_all_answered reqs st st' rs :
  server_inv st -> Forall typed reqs -> serve_all reqs st = (st', rs) ->
  server_inv st' /\ sv_proof_verifier st' = sv_proof_verifier st /\
  answered (sv_proof_verifier st) (mem_view (sv_ledger st)) reqs rs (mem_view (sv_ledger st')).
Proof.
  intros Hi Ht. revert st st' rs Hi. induction Ht as [|req reqs Hr Ht IH]; intros st st' rs Hi E.
  - injection E as <- <-. done.
  - cbn [serve_all] in E. destruct (handle req st) as [st1 r] eqn:Eh.
    destruct (serve_all reqs st1) as [st2 rs'] eqn:Es. injection E as <- <-.
    destruct (handle_meets _ req Hr _ _ _ Hi eq_refl Eh) as (Hi1 & Hp1 & Ha).
    destruct (IH _ _ _ Hi1 Es) as (Hi2 & Hp2 & Has). split; [done|]. rewrite Hp2, Hp1 in *.
    split; [done|]. by exists (mem_view (sv_ledger st1)).
Qed.

Lemma start_inv cli st :
  start cli = Ok st ->
  server_inv st /\
  (cli_trust_me_bro cli = false -> exists bin,
     cli_reprove_bin cli = Some bin /\
     from_reprove_bin false bin (cli_executables_dir cli) = Ok (sv_proof_verifier st)).
Proof.
  unfold start. intros Hs. apply bind_Ok in Hs as (d & _ & Hs). apply seq_Ok in Hs as [Hf Hs].
  apply bind_Ok in Hs as (pv & Hpv & [= <-]). cbn [sv_proof_verifier sv_ledger]. split.
  - split; [done|apply with_auth_domain_inv|]. unfold note_count. cbn. lia.
  - intros Htmb. rewrite Htmb in *. destruct (cli_reprove_bin cli) as [bin|]; [|done].
    exists bin. by apply map_err_Ok in Hpv.
Qed.

(** C34: a server that starts answers every request, in whatever order they come, as
    the ledger's specification behind its verifier does, from the empty ledger on: each is
    done exactly when its proof and its request are acceptable, with exactly its effect, and
    reads tell the state; no panic poisons the lock, and without [--trust-me-bro] there is a
    verifier. *)
Theorem server_refines (cli : Cli) (st st' : LedgerServer) (reqs : list HttpRequest)
    (rs : list (result HttpResponse)) :
  start cli = Ok st -> Forall typed reqs -> serve_all reqs st = (st', rs) ->
  sv_poisoned st' = false /\
  answered (sv_proof_verifier st) (mem_view (sv_ledger st)) reqs rs (mem_view (sv_ledger st')) /\
  (cli_trust_me_bro cli = false -> exists bin,
     from_reprove_bin false bin (cli_executables_dir cli) = Ok (sv_proof_verifier st)).
Proof.
  intros Hs Ht E. destruct (start_inv _ _ Hs) as [Hi Hv].
  destruct (serve_all_answered _ _ _ _ Hi Ht E) as (Hi' & _ & Ha).
  split; [apply si_open, Hi'|]. split; [done|]. intros Htmb.
  destruct (Hv Htmb) as (bin & _ & Hb). by exists bin.
Qed.
End Facts.

(** ** At a concrete server *)

Section Witness.
#[local] Existing Instances toy_blake2s toy_hex toy_contracts host_target toy_bundle_json toy_processes.

#[local] Instance server_host : HostTarget.
Proof. reflexivity. Qed.

Definition sample_cli : Cli :=
  {| cli_trust_me_bro := false; cli_reprove_bin := Some "reprove"%string;
     cli_executables_dir := "dev"; cli_auth_domain := None |}.

Definition sample_server : LedgerServer :=
  {| sv_ledger := with_auth_domain default_auth_domain; sv_poisoned := false;
     sv_proof_verifier := sample_verifier |}.

Lemma sample_server_starts : start sample_cli = Ok sample_server.
Proof.
  unfold start, sample_cli.
  cbn [cli_auth_domain cli_trust_me_bro cli_reprove_bin cli_executables_dir].
  rewrite sample_verifier_starts. reflexivity.
Qed.

(** A deposit in the pool of the sample shield, the shield, which carries no proof and is
    refused, and reads. *)
Definition sample_requests : list HttpRequest :=
  [GetConfig; PostDeposit {| dr_recipient := deposit_recipient_string pool_key; dr_amount := 1000000 |};
   PostShield sample_shield; GetTree; GetTreePath 0].

Lemma sample_requests_typed : Forall typed sample_requests.
Proof. repeat constructor. Qed.

Lemma server_refines_witness :
  let st := fst (serve_all sample_requests sample_server) in
  let rs := snd (serve_all sample_requests sample_server) in
  sv_poisoned st = false /\
  answered sample_verifier (mem_view (sv_ledger sample_server)) sample_requests rs
    (mem_view (sv_ledger st)) /\
  (cli_trust_me_bro sample_cli = false -> exists bin,
     from_reprove_bin false bin (cli_executables_dir sample_cli) = Ok sample_verifier).
Proof.
  exact (server_refines toy_hex_total sample_cli sample_server _ sample_requests _
           sample_server_starts sample_requests_typed (surjective_pairing _)).
Defined.
End Witness.
