(* ===== verification/WalletRpc.v ===== *)
(** * WalletRpc: the wallet's reads of a rollup node

    [RollupRpc] of [apps/wallet/src/lib.rs]: durable values, notes, nullifiers, balances,
    fees and the snapshot a transfer is prepared on, read from a rollup node.  The two HTTP
    clients and the JSON parser are the classes [HttpClients] and [Json]; decimal integers
    are parsed as Rust's [parse] does. *)

From S2P Require Import Prelude Felt Externals Types Recipients Hashing Merkle Notes CanonicalWire.
From S2P Require Import Store Outputs Ledger Wallet WalletScan OperatorApi.

Local Open Scope N_scope.

(** ** The crates *)

(** [reqwest]: a response of any status, or an error as [fmt_reqwest_err] shows it. *)
Inductive ReqwestReply :=
| ReqwestResponse (status : N) (body : result bytes)
| ReqwestError (shown : string).

Class HttpClients := {
  ureq_get : bytes -> UreqReply;
  reqwest_get : bytes -> ReqwestReply
}.

(** A JSON value as the wallet inspects it. *)
Inductive JsonValue :=
| JNull
| JString (s : bytes)
| JNumber (as_u64 : option N)
| JOther (shown : string).

(** [serde_json::from_str] at the types the wallet asks for. *)
Class Json := {
  json_value : bytes -> result JsonValue;
  json_string : bytes -> option bytes;
  json_i32 : bytes -> option Z
}.

(** ** Decimal integers *)

Definition digit_value (b : Byte.byte) : option N :=
  let n := Byte.to_N b in
  if (0x30 <=? n) && (n <=? 0x39) then Some (n - 0x30) else None.

Definition INVALID_DIGIT : string := "invalid digit found in string".
Definition POS_OVERFLOW : string := "number too large to fit in target type".
Definition NEG_OVERFLOW : string := "number too small to fit in target type".

Fixpoint parse_digits (limit acc : N) (s : bytes) : result N :=
  match s with
  | [] => Ok acc
  | b :: s =>
      d ← ok_or (digit_value b) INVALID_DIGIT;
      let acc := 10 * acc + d in
      fail_if (limit <=? acc) POS_OVERFLOW ;;
      parse_digits limit acc s
  end.

(** The sign a decimal number may start with. *)
Definition split_sign (s : bytes) : bool * bytes :=
  match s with
  | b :: r =>
      if decide (b = Byte.x2b) then (false, r)
      else if decide (b = Byte.x2d) then (true, r) else (false, s)
  | [] => (false, [])
  end.

(** [str::parse] at an unsigned type with values below [limit]. *)
Definition parse_unsigned (limit : N) (s : bytes) : result N :=
  match s with
  | [] => Err "cannot parse integer from empty string"
  | [Byte.x2b] | [Byte.x2d] => Err INVALID_DIGIT
  | _ =>
      let '(negative, digits) := split_sign s in
      if negative then Err INVALID_DIGIT else parse_digits limit 0 digits
  end.

(** [str::parse::<i32>]. *)
Definition parse_i32_text (s : bytes) : result Z :=
  match s with
  | [] => Err "cannot parse integer from empty string"
  | [Byte.x2b] | [Byte.x2d] => Err INVALID_DIGIT
  | _ =>
      let '(negative, digits) := split_sign s in
      if negative
      then n ← map_err (fun e => if bool_decide (e = POS_OVERFLOW) then NEG_OVERFLOW else e)
                 (parse_digits (2 ^ 31 + 1) 0 digits);
           mret (- Z.of_N n)%Z
      else n ← parse_digits (2 ^ 31) 0 digits; mret (Z.of_N n)
  end.

Definition parse_u64_text : bytes -> result N := parse_unsigned U64_LIMIT.

(** ** Paths and text *)

Definition is_ascii_hexdigit (b : Byte.byte) : bool :=
  let n := Byte.to_N b in
  ((0x30 <=? n) && (n <=? 0x39)) || ((0x41 <=? n) && (n <=? 0x46)) || ((0x61 <=? n) && (n <=? 0x66)).

Definition DURABLE_NOTE_CHUNK_BYTES : nat := 1024.
Definition MAX_PUBLISHED_NOTE_BYTES : N := 4 * 1024 * 1024.

Definition indexed_durable_key (prefix : bytes) (index : N) : bytes := prefix ++ lower_hex 16 index.
Definition indexed_durable_note_len_key (index : N) : bytes :=
  indexed_durable_key PATH_NOTE_PREFIX index ++ PATH_NOTE_LEN_SUFFIX.
Definition indexed_durable_note_chunk_key (index chunk_index : N) : bytes :=
  indexed_durable_key PATH_NOTE_PREFIX index ++ PATH_NOTE_CHUNK_PREFIX ++ lower_hex 8 chunk_index.

(** [format!("{}", s)] of a text kept as bytes. *)
Definition shown : bytes -> string := bytes_str.

Record MerklePathResp := { mp_siblings : list F; mp_root : F }.

Record RollupStateSnapshot := {
  ss_auth_domain : F;
  ss_required_tx_fee : N;
  ss_tree : MerkleTree;
  ss_notes : list NoteMemo
}.

Section Rpc.
Context `{Blake2s, Hex, Target, HttpClients, Json, Tze WirePublishedNote}.

(** [profile.rollup_node_url] and [profile.rollup_address]. *)
Variable rollup_node_url : bytes.

(** [parse_rollup_rpc_bytes]. *)
Definition parse_rollup_rpc_bytes (raw : bytes) : result bytes :=
  let trimmed := trim raw in
  let unwrapped := default trimmed (json_string trimmed) in
  let payload := trim unwrapped in
  let payload :=
    match strip_prefix (str_bytes "0x") payload with
    | Some p => p
    | None => default payload (strip_prefix (str_bytes "0X") payload)
    end in
  if negb (length payload =? 0)%nat && (Nat.modulo (length payload) 2 =? 0)%nat &&
     forallb is_ascii_hexdigit payload
  then hex_decode payload
  else Ok payload.

(** ** HTTP *)

Definition get_text (url : bytes) : result bytes :=
  match ureq_get url with
  | UreqResponse body => map_err (fun e => "read response: " +:+ e) body
  | UreqStatus _ e | UreqError e => Err ("HTTP error: " +:+ e)
  end.

Definition get_text_allow_404 (url : bytes) : result (option bytes) :=
  match ureq_get url with
  | UreqResponse body => Some <$> map_err (fun e => "read response: " +:+ e) body
  | UreqStatus code e => if code =? 404 then Ok None else Err ("HTTP error: " +:+ e)
  | UreqError e => Err ("HTTP error: " +:+ e)
  end.

Definition fetch_text_async (url : bytes) : result bytes :=
  match reqwest_get url with
  | ReqwestResponse status body =>
      fail_if (negb ((200 <=? status) && (status <? 300)))
        ("HTTP error: status code " +:+ show_N status) ;;
      map_err (fun e => "read response: " +:+ e) body
  | ReqwestError e => Err e
  end.

Definition fetch_text_allow_404_async (url : bytes) : result (option bytes) :=
  match reqwest_get url with
  | ReqwestResponse status body =>
      if status =? 404 then Ok None
      else
        fail_if (negb ((200 <=? status) && (status <? 300)))
          ("HTTP error: status code " +:+ show_N status) ;;
        Some <$> map_err (fun e => "read response: " +:+ e) body
  | ReqwestError e => Err e
  end.

(** ** Durable values *)

Definition durable_url (endpoint : string) (base block_ref key : bytes) : bytes :=
  base ++ str_bytes "/global/block/" ++ block_ref ++ str_bytes "/durable/wasm_2_0_0/" ++
  str_bytes endpoint ++ str_bytes "?key=" ++ key.

Definition base_url : bytes := trim_slashes rollup_node_url.
Definition block_durable_value_url (block_ref key : bytes) : bytes :=
  durable_url "value" base_url block_ref key.
Definition block_durable_length_url (block_ref key : bytes) : bytes :=
  durable_url "length" base_url block_ref key.
Definition head_hash_url : bytes := base_url ++ str_bytes "/global/block/head/hash".
Definition block_level_url (block_ref : bytes) : bytes :=
  base_url ++ str_bytes "/global/block/" ++ block_ref ++ str_bytes "/level".

Definition rpc_failed (url : bytes) (e : string) : string :=
  "rollup RPC " +:+ shown url +:+ " failed: " +:+ e.

Definition read_durable_text_at_block (block_ref key : bytes) : result bytes :=
  let url := block_durable_value_url block_ref key in
  map_err (rpc_failed url) (get_text url).

Definition too_long (key : bytes) : string :=
  "durable length at " +:+ shown key +:+ " does not fit in usize".

Definition parse_durable_length (key raw : bytes) : result (option N) :=
  value ← map_err (fun e => "parse durable length: " +:+ e) (json_value raw);
  match value with
  | JNull => Ok None
  | JString text =>
      parsed ← map_err (fun e => "parse durable length integer: " +:+ e) (parse_u64_text text);
      Some <$> ok_or (to_usize parsed) (too_long key)
  | JNumber n =>
      parsed ← ok_or n ("durable length at " +:+ shown key +:+ " must be non-negative");
      Some <$> ok_or (to_usize parsed) (too_long key)
  | JOther form =>
      Err ("durable length at " +:+ shown key +:+ " has unexpected JSON form " +:+ form)
  end.

Definition read_durable_length_at_block (block_ref key : bytes) : result (option N) :=
  let url := block_durable_length_url block_ref key in
  raw ← map_err (rpc_failed url) (get_text_allow_404 url);
  match raw with
  | None => Ok None
  | Some raw => parse_durable_length key raw
  end.

Definition decode_failed (key : bytes) (e : string) : string :=
  "decode durable value at " +:+ shown key +:+ ": " +:+ e.

Definition read_durable_bytes_at_block (block_ref key : bytes) : result bytes :=
  raw ← read_durable_text_at_block block_ref key;
  map_err (decode_failed key) (parse_rollup_rpc_bytes raw).

Definition wrong_size (what : string) (key b : bytes) (size : nat) : result unit :=
  fail_if (negb (length b =? size)%nat)
    ("durable " +:+ what +:+ " at " +:+ shown key +:+ " has " +:+ show_N (N.of_nat (length b)) +:+
     " bytes, expected " +:+ show_N (N.of_nat size)).

Definition parse_u64 (key b : bytes) : result N := wrong_size "u64" key b 8 ;; mret (le_val b).
Definition parse_i32 (key b : bytes) : result Z := wrong_size "i32" key b 4 ;; mret (i32_of_le b).
Definition parse_felt (key b : bytes) : result F := wrong_size "felt" key b 32 ;; mret (mkF b).

Definition read_u64_at_block (block_ref key : bytes) : result N :=
  b ← read_durable_bytes_at_block block_ref key; parse_u64 key b.
Definition read_felt_at_block (block_ref key : bytes) : result F :=
  b ← read_durable_bytes_at_block block_ref key; parse_felt key b.

Definition read_optional_at_block {A} (parse : bytes -> bytes -> result A) (block_ref key : bytes)
    : result (option A) :=
  present ← read_durable_length_at_block block_ref key;
  match present with
  | None => Ok None
  | Some _ => b ← read_durable_bytes_at_block block_ref key; Some <$> parse key b
  end.
Definition read_optional_u64_at_block : bytes -> bytes -> result (option N) :=
  read_optional_at_block parse_u64.
Definition read_optional_i32_at_block : bytes -> bytes -> result (option Z) :=
  read_optional_at_block parse_i32.

(** ** Levels and fees *)

Definition head_hash : result bytes :=
  raw ← get_text head_hash_url;
  mret (default (trim raw) (json_string raw)).

Definition block_level (block_ref : bytes) : result Z :=
  raw ← get_text (block_level_url block_ref);
  match json_i32 raw with
  | Some level => Ok level
  | None =>
      map_err (fun e => "parse head level integer: " +:+ e)
        (parse_i32_text (default (trim raw) (json_string raw)))
  end.

(** [i32::saturating_add]. *)
Definition saturating_add_i32 (a b : Z) : Z := Z.max (- 2 ^ 31) (Z.min (a + b) (2 ^ 31 - 1)).

Definition current_required_tx_fee_at_block (block_ref : bytes) : result N :=
  head_level ← block_level block_ref;
  let next_inbox_level := saturating_add_i32 head_level 1 in
  last_input_level ← read_optional_i32_at_block block_ref PATH_LAST_INPUT_LEVEL;
  fee_level ← read_optional_i32_at_block block_ref PATH_PRIVATE_TX_FEE_LEVEL;
  private_tx_count_in_level ←
    (if bool_decide (last_input_level = Some next_inbox_level) &&
        bool_decide (fee_level = Some next_inbox_level)
     then default 0 <$> read_optional_u64_at_block block_ref PATH_PRIVATE_TX_COUNT_IN_LEVEL
     else mret 0);
  mret (required_tx_fee_for_private_tx_count private_tx_count_in_level).

(** ** Notes *)

Definition present_async (block_ref key : bytes) : result bool :=
  let url := block_durable_length_url block_ref key in
  raw ← map_err (rpc_failed url) (fetch_text_allow_404_async url);
  match raw with
  | None => Ok false
  | Some raw => (fun len => bool_decide (is_Some len)) <$> parse_durable_length key raw
  end.

Definition value_async (block_ref key : bytes) : result bytes :=
  let url := block_durable_value_url block_ref key in
  raw ← map_err (rpc_failed url) (fetch_text_async url);
  map_err (decode_failed key) (parse_rollup_rpc_bytes raw).

Definition fetch_one_published_note (block_ref : bytes) (index : N) : result (option bytes) :=
  let direct_key := indexed_durable_key PATH_NOTE_PREFIX index in
  direct_present ← present_async block_ref direct_key;
  if (direct_present : bool) then
    b ← value_async block_ref direct_key;
    fail_if (MAX_PUBLISHED_NOTE_BYTES <? N.of_nat (length b))
      ("durable note " +:+ show_N index +:+ " at " +:+ shown direct_key +:+
       " exceeds max supported size " +:+ show_N MAX_PUBLISHED_NOTE_BYTES) ;;
    mret (Some b)
  else
    let len_key := indexed_durable_note_len_key index in
    chunked_present ← present_async block_ref len_key;
    if negb chunked_present then mret None
    else
      len_bytes ← value_async block_ref len_key;
      total_len_u64 ← parse_u64 len_key len_bytes;
      total_len ← ok_or (to_usize total_len_u64)
        ("chunked durable note " +:+ show_N index +:+ " length does not fit in usize");
      fail_if (MAX_PUBLISHED_NOTE_BYTES <? total_len)
        ("chunked durable note " +:+ show_N index +:+ " length " +:+ show_N total_len +:+
         " exceeds max supported size " +:+ show_N MAX_PUBLISHED_NOTE_BYTES) ;;
      parts ← map_result
        (fun chunk_index => value_async block_ref (indexed_durable_note_chunk_key index chunk_index))
        (range 0 (N.of_nat (div_ceil (N.to_nat total_len) DURABLE_NOTE_CHUNK_BYTES)));
      let b := concat parts in
      fail_if (negb (N.of_nat (length b) =? total_len))
        ("chunked durable note " +:+ show_N index +:+ " length mismatch: expected " +:+
         show_N total_len +:+ ", got " +:+ show_N (N.of_nat (length b))) ;;
      mret (Some b).

(** *** The concurrent driver

    [fetch_published_notes_concurrent] keeps at most [concurrency] requests in flight.
    A schedule says which of them completes next: the executor is free to choose. *)
Record FetchState := {
  fs_results : list (option (option bytes));
  fs_next_to_dispatch : nat;
  fs_in_flight : list nat
}.

Definition dispatch (indices : list N) (s : FetchState) : FetchState :=
  if (fs_next_to_dispatch s <? length indices)%nat
  then {| fs_results := fs_results s; fs_next_to_dispatch := S (fs_next_to_dispatch s);
          fs_in_flight := fs_in_flight s ++ [fs_next_to_dispatch s] |}
  else s.

(** The first loop: at most [concurrency] requests. *)
Fixpoint dispatch_first (indices : list N) (concurrency : nat) (s : FetchState) : FetchState :=
  match concurrency with
  | O => s
  | S c => dispatch_first indices c (dispatch indices s)
  end.

(** [in_flight.next()]: the schedule picks a request in flight. *)
Definition take_in_flight (choice : nat) (s : FetchState) : option (nat * FetchState) :=
  let k := Nat.modulo choice (length (fs_in_flight s)) in
  off ← fs_in_flight s !! k;
  Some (off, {| fs_results := fs_results s; fs_next_to_dispatch := fs_next_to_dispatch s;
                fs_in_flight := delete k (fs_in_flight s) |}).

Definition set_result (off : nat) (payload : option bytes) (s : FetchState) : FetchState :=
  {| fs_results := <[off := Some payload]> (fs_results s);
     fs_next_to_dispatch := fs_next_to_dispatch s; fs_in_flight := fs_in_flight s |}.

(** The second loop, until nothing is in flight; each round completes one request. *)
Fixpoint drain (fetch_one : N -> result (option bytes)) (indices : list N) (fuel : nat)
    (schedule : nat -> nat) (s : FetchState) : result FetchState :=
  match fuel with
  | O => Ok s
  | S fuel =>
      match take_in_flight (schedule fuel) s with
      | None => Ok s
      | Some (off, s) =>
          i ← index_at indices off;
          payload ← fetch_one i;
          drain fetch_one indices fuel schedule (dispatch indices (set_result off payload s))
      end
  end.

Definition fetch_published_notes_concurrent (fetch_one : N -> result (option bytes))
    (indices : list N) (concurrency : nat) (schedule : nat -> nat) : result (list (option bytes)) :=
  let s := {| fs_results := replicate (length indices) None; fs_next_to_dispatch := 0;
              fs_in_flight := [] |} in
  s ← drain fetch_one indices (S (length indices)) schedule (dispatch_first indices concurrency s);
  map_result (fun slot => match slot with
                          | Some payload => Ok payload
                          | None => Panic "every index slot must have been filled"
                          end) (fs_results s).

Definition missing_note (i tree_size : N) : string :=
  "rollup durable state is missing note " +:+ show_N i +:+ " at " +:+
  shown (indexed_durable_key PATH_NOTE_PREFIX i) +:+ " while tree size is " +:+ show_N tree_size +:+
  ". This usually means the deployed rollup kernel does not persist published note payloads, or the rollup node is not serving the expected durable state.".

(** The notes of a batch of payloads, from position [start] on. *)
Fixpoint decode_payloads (start tree_size : N) (payloads : list (option bytes)) : result (list NoteMemo) :=
  match payloads with
  | [] => Ok []
  | None :: _ => Err (missing_note start tree_size)
  | Some b :: payloads =>
      '(cm, enc) ← decode_published_note b;
      notes ← decode_payloads (start + 1) tree_size payloads;
      mret ({| nm_index := start; nm_cm := cm; nm_enc := enc |} :: notes)
  end.

Definition ahead_of_tree (cursor count : N) : string :=
  "wallet cursor " +:+ show_N cursor +:+ " is ahead of rollup tree size " +:+ show_N count.

Definition read_count_at_block (block_ref key : bytes) (what : string) : result N :=
  count ← read_u64_at_block block_ref key;
  ok_or (to_usize count) (what +:+ " does not fit in usize").

(** [concurrency] and [schedule]: the setting read from the environment, and the
    executor's. *)
Definition load_notes_since_at_block (concurrency : result nat) (schedule : nat -> nat)
    (block_ref : bytes) (cursor : N) : result NotesFeedResp :=
  count ← read_count_at_block block_ref PATH_TREE_SIZE "tree size";
  fail_if (count <? cursor) (ahead_of_tree cursor count) ;;
  if cursor =? count then mret {| nf_notes := []; nf_next_cursor := count |}
  else
    concurrency ← concurrency;
    payloads ← fetch_published_notes_concurrent (fetch_one_published_note block_ref)
      (range cursor count) concurrency schedule;
    notes ← decode_payloads cursor count payloads;
    mret {| nf_notes := notes; nf_next_cursor := count |}.

(** ** Nullifiers and balances *)

Definition load_nullifiers_at_block (block_ref : bytes) : result (list F) :=
  count ← read_count_at_block block_ref PATH_NULLIFIER_COUNT "nullifier count";
  map_result (fun i => read_felt_at_block block_ref (indexed_durable_key PATH_NULLIFIER_INDEX_PREFIX i))
    (range 0 count).

Definition try_read_deposit_balance (block_ref : bytes) (pubkey_hash : F) : result (option N) :=
  let key := PATH_DEPOSIT_BALANCE_PREFIX ++ hex_encode (F_bytes pubkey_hash) in
  len ← read_durable_length_at_block block_ref key;
  match len with
  | None | Some 0 => Ok None
  | Some _ =>
      b ← read_durable_bytes_at_block block_ref key;
      if (length b =? 0)%nat then Ok None
      else
        fail_if (negb (length b =? 8)%nat)
          ("deposit balance for pool " +:+ hex_str pubkey_hash +:+ " has unexpected length " +:+
           show_N (N.of_nat (length b))) ;;
        mret (Some (le_val b))
  end.

Fixpoint load_pool_balances_at_block (block_ref : bytes) (seen : gset F) (pending : list PendingDeposit)
    : result (gmap F N) :=
  match pending with
  | [] => Ok ∅
  | p :: pending =>
      if bool_decide (pd_pubkey_hash p ∈ seen) then load_pool_balances_at_block block_ref seen pending
      else
        balance ← try_read_deposit_balance block_ref (pd_pubkey_hash p);
        rest ← load_pool_balances_at_block block_ref ({[pd_pubkey_hash p]} ∪ seen) pending;
        mret (match balance with Some b => <[pd_pubkey_hash p := b]> rest | None => rest end)
  end.

(** ** The snapshot *)

Definition load_state_snapshot_at_block (concurrency : result nat) (schedule : nat -> nat)
    (block_ref : bytes) : result RollupStateSnapshot :=
  auth_domain ← read_felt_at_block block_ref PATH_AUTH_DOMAIN;
  feed ← load_notes_since_at_block concurrency schedule block_ref 0;
  let notes := nf_notes feed in
  persisted_root ← read_felt_at_block block_ref PATH_TREE_ROOT;
  let tree := from_leaves (nm_cm <$> notes) in
  let recomputed_root := tree_root tree in
  fail_if (negb (bool_decide (recomputed_root = persisted_root)))
    ("rollup tree root mismatch: durable " +:+ short persisted_root +:+ " != recomputed " +:+
     short recomputed_root) ;;
  required_tx_fee ← current_required_tx_fee_at_block block_ref;
  mret {| ss_auth_domain := auth_domain; ss_required_tx_fee := required_tx_fee; ss_tree := tree;
          ss_notes := notes |}.

Definition load_state_snapshot_at_head (concurrency : result nat) (schedule : nat -> nat)
    : result RollupStateSnapshot :=
  head ← head_hash;
  load_state_snapshot_at_block concurrency schedule head.

Definition current_root (s : RollupStateSnapshot) : F := tree_root (ss_tree s).

Definition merkle_path (s : RollupStateSnapshot) (index : N) : result MerklePathResp :=
  fail_if (N.of_nat (length (ss_notes s)) <=? index)
    ("note index " +:+ show_N index +:+ " is outside current tree") ;;
  let '(siblings, root) := auth_path (ss_tree s) index in
  mret {| mp_siblings := siblings; mp_root := root |}.
End Rpc.
