(* ===== verification/WalletRpcFacts.v ===== *)
(** * WalletRpcFacts: what the wallet reads is what the kernel stored

    The concurrent fetch returns what a sequential one would, whatever the order in which
    its requests complete.  From a node that serves the kernel's durable store at a block,
    the wallet reads the ledger that store represents: its notes, tree and root, its
    nullifiers and the balances of its pools. *)

From S2P Require Import Prelude Felt Externals Types Recipients Hashing Merkle Notes CanonicalWire.
From S2P Require Import Store StoreKeys Durable DurableRepr Outputs Ledger LedgerSpec.
From S2P Require Import Wallet WalletScan OperatorApi WalletRpc.

Local Open Scope N_scope.

(** ** Ranges *)

Lemma length_range a b : length (range a b) = N.to_nat (b - a).
Proof. unfold range. by rewrite length_fmap, length_seq. Qed.

Lemma lookup_range a b k i : range a b !! k = Some i -> i = a + N.of_nat k /\ i < b.
Proof.
  unfold range. rewrite list_lookup_fmap. intros (j & Hj & ->)%fmap_Some.
  apply lookup_seq in Hj as [-> Hj]. split; lia.
Qed.

Lemma elem_of_range a b i : i ∈ range a b <-> a <= i /\ i < b.
Proof.
  split.
  - intros [k Hk]%list_elem_of_lookup. apply lookup_range in Hk. lia.
  - intros [Ha Hb]. unfold range. apply list_elem_of_fmap. exists (N.to_nat (i - a)). split; [lia|].
    apply elem_of_seq. lia.
Qed.

Lemma map_result_range {A} (f : N -> result A) (l : list A) :
  (forall c x, l !! c = Some x -> f (N.of_nat c) = Ok x) ->
  map_result f (range 0 (N.of_nat (length l))) = Ok l.
Proof.
  intros Hf. apply map_result_Ok. apply Forall2_same_length_lookup. rewrite length_range. split; [lia|].
  intros k i x [-> _]%lookup_range Hx. by apply Hf.
Qed.

(** ** The concurrent driver *)
Section Driver.
Variable fetch_one : N -> result (option bytes).
Variable indices : list N.
Let n := length indices.

(** Every request below the next one is in flight or has its answer. *)
Record driver_ok (s : FetchState) : Prop := {
  do_next : (fs_next_to_dispatch s <= n)%nat;
  do_length : length (fs_results s) = n;
  do_flight : NoDup (fs_in_flight s);
  do_below : forall off, off ∈ fs_in_flight s -> (off < fs_next_to_dispatch s)%nat;
  do_done : forall off i, (off < fs_next_to_dispatch s)%nat -> off ∉ fs_in_flight s ->
    indices !! off = Some i -> exists p, fs_results s !! off = Some (Some p) /\ fetch_one i = Ok p;
  do_busy : (fs_next_to_dispatch s < n)%nat -> fs_in_flight s <> []
}.

(** Rounds left. *)
Definition rounds (s : FetchState) : nat := (n - fs_next_to_dispatch s) + length (fs_in_flight s).

(** All but [do_busy], before the first loop. *)
Lemma dispatch_cases s :
  (fs_next_to_dispatch s = n /\ dispatch indices s = s) \/
  (n < fs_next_to_dispatch s)%nat \/
  ((fs_next_to_dispatch s < n)%nat /\
   dispatch indices s = {| fs_results := fs_results s; fs_next_to_dispatch := S (fs_next_to_dispatch s);
                           fs_in_flight := fs_in_flight s ++ [fs_next_to_dispatch s] |}).
Proof.
  unfold dispatch. fold n. destruct (Nat.ltb_spec (fs_next_to_dispatch s) n) as [Hlt|Hge].
  - right. right. done.
  - destruct (decide (fs_next_to_dispatch s = n)) as [->|Hne]; [by left|right; left; lia].
Qed.

Lemma dispatch_ok s :
  (fs_next_to_dispatch s <= n)%nat -> length (fs_results s) = n -> NoDup (fs_in_flight s) ->
  (forall off, off ∈ fs_in_flight s -> (off < fs_next_to_dispatch s)%nat) ->
  (forall off i, (off < fs_next_to_dispatch s)%nat -> off ∉ fs_in_flight s ->
    indices !! off = Some i -> exists p, fs_results s !! off = Some (Some p) /\ fetch_one i = Ok p) ->
  driver_ok (dispatch indices s) /\ rounds (dispatch indices s) = rounds s.
Proof.
  intros Hn Hl Hd Hb Hf. unfold rounds.
  destruct (dispatch_cases s) as [[E ->]|[Hlt|[Hlt ->]]]; [|lia|]; (split; [|cbn; try rewrite length_app; cbn; lia]).
  - constructor; try done. lia.
  - constructor; cbn [fs_results fs_next_to_dispatch fs_in_flight]; [lia|done| | | |by destruct (fs_in_flight s)].
    + apply NoDup_app. split; [done|]. split; [|apply NoDup_singleton].
      intros off Ho ->%list_elem_of_singleton. apply Hb in Ho. lia.
    + intros off [Ho| ->%list_elem_of_singleton]%elem_of_app; [apply Hb in Ho|]; lia.
    + intros off i Ho Hni. apply not_elem_of_app in Hni as [Hni Hne].
      apply Hf; [|done]. assert (off <> fs_next_to_dispatch s) by (by intros ->; apply Hne; left). lia.
Qed.

Lemma dispatch_first_ok c s :
  driver_ok s -> driver_ok (dispatch_first indices c s) /\ rounds (dispatch_first indices c s) = rounds s.
Proof.
  revert s. induction c as [|c IH]; intros s [Hn Hl Hd Hb Hf Hbusy]; cbn [dispatch_first]; [done|].
  destruct (dispatch_ok s Hn Hl Hd Hb Hf) as [Hs Hr]. destruct (IH _ Hs) as [Hs' Hr'].
  by rewrite Hr', Hr.
Qed.

Lemma delete_flight l k (off : nat) :
  NoDup l -> l !! k = Some off ->
  NoDup (delete k l) /\ (forall x, x ∈ delete k l <-> x ∈ l /\ x <> off) /\
  S (length (delete k l)) = length l.
Proof.
  intros Hd Hk. pose proof (delete_Permutation _ _ _ Hk) as Hp.
  pose proof (Permutation_length Hp) as Hl. rewrite Hp in Hd.
  apply NoDup_cons in Hd as [Hni Hd]. split; [done|]. split.
  - intros x. split.
    + intros Hx. split; [rewrite Hp; by right|]. by intros ->.
    + intros [Hx Hne]. rewrite Hp in Hx. by apply elem_of_cons in Hx as [->|Hx].
  - by rewrite Hl.
Qed.

(** One answer, and the request that takes its place. *)
Lemma complete_ok s k off i p :
  driver_ok s -> fs_in_flight s !! k = Some off -> indices !! off = Some i -> fetch_one i = Ok p ->
  let s' := dispatch indices (set_result off p
    {| fs_results := fs_results s; fs_next_to_dispatch := fs_next_to_dispatch s;
       fs_in_flight := delete k (fs_in_flight s) |}) in
  driver_ok s' /\ S (rounds s') = rounds s.
Proof.
  intros [Hn Hl Hd Hb Hf Hbusy] Hk Hi Hp s'.
  destruct (delete_flight _ _ _ Hd Hk) as (Hd' & Hin & Hlen).
  edestruct (dispatch_ok (set_result off p
    {| fs_results := fs_results s; fs_next_to_dispatch := fs_next_to_dispatch s;
       fs_in_flight := delete k (fs_in_flight s) |})) as [Hs Hr];
    cbn [set_result fs_results fs_next_to_dispatch fs_in_flight]; [done|by rewrite length_insert|done|..].
  - intros x [Hx _]%Hin. by apply Hb.
  - intros x j Hx Hni Hj. destruct (decide (x = off)) as [->|Hne].
    + rewrite Hi in Hj. injection Hj as <-. exists p. split; [|done].
      apply list_lookup_insert_eq. apply lookup_lt_Some in Hi. fold n in Hi. lia.
    + rewrite list_lookup_insert_ne by done. apply Hf; [done| |done].
      intros Hx'. apply Hni. by apply Hin.
  - split; [exact Hs|]. unfold s'. rewrite Hr. unfold rounds. cbn. lia.
Qed.

(** The answers, or the error of one of the requests. *)
Definition driver_outcome {A} (r : result A) (ok : A -> Prop) : Prop :=
  match r with
  | Ok a => ok a
  | Err e => exists i, i ∈ indices /\ fetch_one i = Err e
  | Panic e => exists i, i ∈ indices /\ fetch_one i = Panic e
  end.

Lemma drain_ok fuel schedule s :
  driver_ok s -> (rounds s <= fuel)%nat ->
  driver_outcome (drain fetch_one indices fuel schedule s) (fun s' => driver_ok s' /\ fs_in_flight s' = []).
Proof.
  revert s. induction fuel as [|fuel IH]; intros s Hs Hr; cbn [drain].
  - split; [done|]. apply nil_length_inv. unfold rounds in Hr. lia.
  - unfold take_in_flight. destruct (fs_in_flight s) as [|x l] eqn:El.
    { rewrite lookup_nil. cbn. done. }
    set (k := Nat.modulo (schedule fuel) (length (x :: l))).
    destruct (lookup_lt_is_Some_2 (x :: l) k) as [off Hoff]; [by apply Nat.mod_upper_bound|].
    rewrite Hoff. cbn [mbind option_bind]. rewrite <-El in Hoff |- *.
    assert (off < n)%nat as Hlt.
    { pose proof (do_next _ Hs). pose proof (do_below _ Hs off (list_elem_of_lookup_2 _ _ _ Hoff)). lia. }
    destruct (lookup_lt_is_Some_2 indices off Hlt) as [i Hi]. unfold index_at. rewrite Hi.
    cbn [mbind result_bind]. destruct (fetch_one i) as [p|e|e] eqn:Ep; cbn [mbind result_bind].
    + destruct (complete_ok s k off i p Hs Hoff Hi Ep) as [Hs' Hr']. apply IH; [done|lia].
    + exists i. split; [by eapply list_elem_of_lookup_2|done].
    + exists i. split; [by eapply list_elem_of_lookup_2|done].
Qed.

Lemma collect_ok (l : list N) slots :
  Forall2 (fun i slot => exists p, slot = Some p /\ fetch_one i = Ok p) l slots -> exists ps,
  map_result (fun slot : option (option bytes) => match slot with
    | Some payload => Ok payload
    | None => Panic "every index slot must have been filled" end) slots = Ok ps /\
  Forall2 (fun i p => fetch_one i = Ok p) l ps.
Proof.
  induction 1 as [|i slot l slots (p & -> & Hp) Hf (ps & E & Hps)]; [by exists []|].
  exists (p :: ps). cbn [map_result mbind result_bind]. rewrite E. split; [done|by constructor].
Qed.

Lemma concurrent_fetch_spec (concurrency : nat) (schedule : nat -> nat) :
  (0 < concurrency)%nat ->
  driver_outcome (fetch_published_notes_concurrent fetch_one indices concurrency schedule)
    (fun payloads => Forall2 (fun i p => fetch_one i = Ok p) indices payloads).
Proof.
  intros Hc. unfold fetch_published_notes_concurrent. cbv zeta. destruct concurrency as [|c]; [lia|].
  cbn [dispatch_first]. set (s0 := {| fs_results := _ |}).
  destruct (dispatch_ok s0) as [Hs Hr]; cbn [s0 fs_results fs_next_to_dispatch fs_in_flight];
    [lia|by rewrite length_replicate|constructor|by intros off ?%not_elem_of_nil|lia|].
  destruct (dispatch_first_ok c _ Hs) as [Hs' Hr'].
  pose proof (drain_ok (S (length indices)) schedule _ Hs' ltac:(rewrite Hr', Hr; unfold rounds; cbn; lia)) as Hd.
  destruct (drain _ _ _ _ _) as [s'|e|e]; cbn [mbind result_bind]; [|exact Hd..].
  destruct Hd as [Hs'' He]. 
  assert (fs_next_to_dispatch s' = n) as Hn.
  { pose proof (do_next _ Hs''). destruct (decide (fs_next_to_dispatch s' = n)); [done|].
    by destruct (do_busy _ Hs'' ltac:(lia)). }
  assert (Forall2 (fun i slot => exists p, slot = Some p /\ fetch_one i = Ok p) indices (fs_results s')) as Hf.
  { apply Forall2_same_length_lookup. split; [by rewrite (do_length _ Hs'')|].
    intros off i slot Hi Hslot. destruct (do_done _ Hs'' off i) as (p & Hp & Ho); [|rewrite He; apply not_elem_of_nil|done|].
    - apply lookup_lt_Some in Hi. fold n in Hi. lia.
    - exists p. rewrite Hslot in Hp. by injection Hp as ->. }
  destruct (collect_ok _ _ Hf) as (ps & -> & Hps). exact Hps.
Qed.

(** C24: Whatever the order in which the requests in flight complete, the concurrent
    fetch of a list of notes returns the answer of each at its place, or fails as one of
    them fails; no slot is ever left empty. *)
Theorem concurrent_fetch_correct (concurrency : nat) (schedule : nat -> nat) :
  (0 < concurrency)%nat ->
  driver_outcome (fetch_published_notes_concurrent fetch_one indices concurrency schedule)
    (fun payloads => Forall2 (fun i p => fetch_one i = Ok p) indices payloads).
Proof. apply concurrent_fetch_spec. Qed.
End Driver.

(** ** A node that serves a durable store *)

(** A pattern that no hexadecimal text starts with. *)
Definition not_hex (p : bytes) : bool :=
  match p with c :: _ => negb (is_ascii_hexdigit c) | [] => false end.

Lemma white_space_hex :
  forallb not_hex WHITE_SPACE = true /\ forallb not_hex (rev (A:=Byte.byte) <$> WHITE_SPACE) = true.
Proof. split; vm_compute; reflexivity. Qed.

(** Hexadecimal text has only hexadecimal digits. *)
Class HexDigits `{Hex} : Prop := { hex_encode_digits : forall b, forallb is_ascii_hexdigit (hex_encode b) = true }.

Section Texts.
Context `{HexLaws, !HexDigits}.

Lemma hexdigit_first pats b s :
  forallb not_hex pats = true -> is_ascii_hexdigit b = true -> strip_any pats (b :: s) = None.
Proof.
  intros Hp Hb. induction pats as [|p pats IH]; cbn [strip_any]; [done|].
  cbn [forallb] in Hp. apply andb_prop in Hp as [Hc Hp]. destruct p as [|c p]; [done|].
  cbn [strip_prefix]. destruct (decide (c = b)) as [->|Hne]; [cbn [not_hex] in Hc; by rewrite Hb in Hc|by apply IH].
Qed.

Lemma trim_hex s : forallb is_ascii_hexdigit s = true -> trim s = s.
Proof.
  intros Hs. assert (forall pats, forallb not_hex pats = true -> forall r, forallb is_ascii_hexdigit r = true -> strip_while (length r) pats r = r) as Hid.
  { intros pats Hp [|b r] Hr; [done|]. apply strip_while_id. cbn [forallb] in Hr.
    apply andb_prop in Hr as [Hb _]. by apply hexdigit_first. }
  unfold trim, trim_start, trim_end. rewrite (Hid WHITE_SPACE (proj1 white_space_hex) s Hs).
  assert (forallb is_ascii_hexdigit (rev s) = true) as Hrev.
  { apply forallb_forall. intros x Hx%in_rev. by eapply forallb_forall in Hs. }
  rewrite <-(length_rev s), (Hid (rev (A:=Byte.byte) <$> WHITE_SPACE) (proj2 white_space_hex) (rev s) Hrev). apply rev_involutive.
Qed.

(** A value served as a JSON string of its hexadecimal digits. *)
Lemma parse_hex_bytes `{Json} raw b :
  json_string (trim raw) = Some (hex_encode b) -> parse_rollup_rpc_bytes raw = Ok b.
Proof.
  intros E. pose proof (hex_encode_digits b) as Hd. pose proof (length_hex_encode b) as Hl.
  unfold parse_rollup_rpc_bytes. rewrite E. cbn [from_option id]. rewrite (trim_hex _ Hd).
  assert (forall c : Byte.byte, is_ascii_hexdigit c = false ->
    strip_prefix [Byte.x30; c] (hex_encode b) = None) as Hx.
  { intros c Hc. destruct (hex_encode b) as [|x [|y s]]; cbn [strip_prefix]; [done|by case_decide|].
    case_decide; [|done]. case_decide as Hy; [|done]. subst y. cbn [forallb] in Hd.
    rewrite Hc in Hd. by destruct (is_ascii_hexdigit x). }
  change (str_bytes "0x") with [Byte.x30; Byte.x78]. change (str_bytes "0X") with [Byte.x30; Byte.x58].
  rewrite !Hx by reflexivity. cbn [from_option id]. rewrite Hd, Hl.
  replace (Nat.modulo (2 * length b) 2 =? 0)%nat with true
    by (symmetry; apply Nat.eqb_eq; rewrite Nat.mul_comm; apply Nat.Div0.mod_mul).
  rewrite andb_true_r. destruct b as [|x b].
  - destruct (hex_encode []) as [|? ?] eqn:Eh; [done|cbn in Hl; lia].
  - replace (2 * length (x :: b) =? 0)%nat with false by (symmetry; apply Nat.eqb_neq; cbn; lia).
    apply hex_decode_encode.
Qed.
End Texts.

Section Served.
Context `{Blake2s, HexLaws, !HexDigits, HttpClients, Json, Target, Tze WirePublishedNote}.
Context {HW : WordTarget} {HP : PublishedCodec}.
Variables (url block_ref : bytes) (g : bytes -> option bytes) (level : Z).

(** The JSON form of a length: a number, a decimal string, or [null]. *)
Definition length_text (raw : bytes) (len : option N) : Prop :=
  match len with
  | None => json_value raw = Ok JNull
  | Some n => json_value raw = Ok (JNumber (Some n)) \/
      exists s, json_value raw = Ok (JString s) /\ parse_u64_text s = Ok n
  end.

(** The node answers both clients with the values of [g] at the block, as JSON. *)
Record serves : Prop := {
  sv_length : forall key,
    (exists raw, ureq_get (block_durable_length_url url block_ref key) = UreqResponse (Ok raw) /\
       reqwest_get (block_durable_length_url url block_ref key) = ReqwestResponse 200 (Ok raw) /\
       length_text raw ((fun b => N.of_nat (length b)) <$> g key)) \/
    (g key = None /\ exists e body,
       ureq_get (block_durable_length_url url block_ref key) = UreqStatus 404 e /\
       reqwest_get (block_durable_length_url url block_ref key) = ReqwestResponse 404 body);
  sv_value : forall key b, g key = Some b -> exists raw,
    ureq_get (block_durable_value_url url block_ref key) = UreqResponse (Ok raw) /\
    reqwest_get (block_durable_value_url url block_ref key) = ReqwestResponse 200 (Ok raw) /\
    json_string (trim raw) = Some (hex_encode b);
  sv_small : forall key b, g key = Some b -> is_u32 (N.of_nat (length b));
  sv_level : exists raw,
    ureq_get (block_level_url url block_ref) = UreqResponse (Ok raw) /\ json_i32 raw = Some level
}.

Hypothesis Hs : serves.

Lemma length_parsed key raw :
  length_text raw ((fun b => N.of_nat (length b)) <$> g key) ->
  parse_durable_length key raw = Ok ((fun b => N.of_nat (length b)) <$> g key).
Proof.
  unfold parse_durable_length. pose proof (sv_small Hs key) as Hsm. destruct (g key) as [b|]; cbn.
  - pose proof (u32_usize _ (Hsm b eq_refl)) as Hu. unfold to_usize.
    intros [->|(s & -> & Es)]; cbn [map_err mbind result_bind ok_or].
    + by rewrite (proj2 (N.ltb_lt _ _) Hu).
    + rewrite Es. cbn. by rewrite (proj2 (N.ltb_lt _ _) Hu).
  - by intros ->.
Qed.

Lemma served_length key :
  read_durable_length_at_block url block_ref key = Ok ((fun b => N.of_nat (length b)) <$> g key).
Proof.
  unfold read_durable_length_at_block, get_text_allow_404.
  destruct (sv_length Hs key) as [(raw & -> & _ & Ht)|(-> & e & body & -> & _)]; [|done].
  cbn. by apply length_parsed.
Qed.

Lemma served_present key : present_async url block_ref key = Ok (bool_decide (is_Some (g key))).
Proof.
  unfold present_async, fetch_text_allow_404_async.
  destruct (sv_length Hs key) as [(raw & _ & -> & Ht)|(-> & e & body & _ & ->)]; [|done].
  cbn [N.eqb negb andb N.leb N.ltb N.compare fail_if mbind result_bind map_err fmap result_fmap].
  change (200 =? 404) with false. cbn. rewrite (length_parsed key raw Ht). cbn.
  f_equal. apply bool_decide_ext. by destruct (g key); split; intros [? ?].
Qed.

Lemma served_bytes key b : g key = Some b -> read_durable_bytes_at_block url block_ref key = Ok b.
Proof.
  intros Hg. destruct (sv_value Hs key b Hg) as (raw & Eu & _ & Ej).
  unfold read_durable_bytes_at_block, read_durable_text_at_block, get_text. rewrite Eu. cbn.
  by rewrite (parse_hex_bytes raw b Ej).
Qed.

Lemma served_value key b : g key = Some b -> value_async url block_ref key = Ok b.
Proof.
  intros Hg. destruct (sv_value Hs key b Hg) as (raw & _ & Er & Ej).
  unfold value_async, fetch_text_async. rewrite Er. cbn. by rewrite (parse_hex_bytes raw b Ej).
Qed.

Lemma served_u64 key n : is_u64 n -> g key = Some (u64_le n) -> read_u64_at_block url block_ref key = Ok n.
Proof.
  intros Hn Hg. unfold read_u64_at_block, parse_u64, wrong_size. rewrite (served_bytes _ _ Hg).
  cbn [mbind result_bind]. rewrite length_u64_le. cbn -[u64_le le_val]. by rewrite u64_le_roundtrip.
Qed.

Lemma served_felt key f : g key = Some (F_bytes f) -> read_felt_at_block url block_ref key = Ok f.
Proof.
  intros Hg. unfold read_felt_at_block, parse_felt, wrong_size. rewrite (served_bytes _ _ Hg).
  cbn [mbind result_bind]. rewrite length_F_bytes. cbn. by rewrite mkF_F_bytes.
Qed.

Lemma served_optional {A} (parse : bytes -> bytes -> result A) key :
  read_optional_at_block url parse block_ref key =
  match g key with None => Ok None | Some b => Some <$> parse key b end.
Proof.
  unfold read_optional_at_block. rewrite served_length. destruct (g key) as [b|] eqn:E; [|done].
  cbn [fmap option_fmap option_map mbind result_bind]. by rewrite (served_bytes _ _ E).
Qed.

(** *** Notes *)

(** The store by key. *)
Definition cells (k : key) : option bytes := g (key_path k).

Lemma served_note i note b :
  encode_published_note (fst note) (snd note) = Ok b -> N.of_nat (length b) <= MAX_LEDGER_STATE_BYTES ->
  payload_at cells i b -> fetch_one_published_note url block_ref i = Ok (Some b).
Proof.
  intros _ Hb Hp. unfold fetch_one_published_note, payload_at in *.
  change (indexed_durable_key PATH_NOTE_PREFIX i) with (key_path (KNote i)).
  change (indexed_durable_note_len_key i) with (key_path (KNoteLen i)).
  rewrite !served_present. fold (cells (KNote i)) (cells (KNoteLen i)).
  assert (MAX_PUBLISHED_NOTE_BYTES = MAX_LEDGER_STATE_BYTES) as Em by reflexivity.
  destruct (_ <=? _)%nat.
  - rewrite Hp. cbn [mbind result_bind]. rewrite (served_value _ b Hp). cbn [mbind result_bind].
    rewrite Em, (proj2 (N.ltb_ge _ _) Hb). done.
  - destruct Hp as (Hk & Hl & Hch). rewrite Hk, Hl. cbn [mbind result_bind].
    change (bool_decide (is_Some (Some ?x))) with true. cbn [negb mbind result_bind].
    rewrite (served_value _ _ Hl). cbn [mbind result_bind]. unfold parse_u64, wrong_size. rewrite length_u64_le.
    assert (is_u32 (N.of_nat (length b))) as H32
      by (unfold is_u32; eapply N.le_lt_trans; [exact Hb|reflexivity]).
    cbn [Nat.eqb negb fail_if mbind result_bind mret result_ret].
    rewrite u64_le_roundtrip by (unfold is_u64; eapply N.lt_trans; [exact H32|reflexivity]).
    unfold to_usize. rewrite (proj2 (N.ltb_lt _ _) (u32_usize _ H32)).
    cbn [ok_or mbind result_bind].
    rewrite Em, (proj2 (N.ltb_ge _ _) Hb), Nat2N.id.
    change (N.of_nat (div_ceil (length b) DURABLE_NOTE_CHUNK_BYTES)) with
      (N.of_nat (div_ceil (length b) MAX_NOTE_CHUNK_BYTES)).
    rewrite <-length_chunks.
    rewrite (map_result_range _ (chunks MAX_NOTE_CHUNK_BYTES b)).
    + cbn [mbind result_bind]. rewrite concat_chunks by done. by rewrite N.eqb_refl.
    + intros c x Hc.
      change (indexed_durable_note_chunk_key i (N.of_nat c)) with (key_path (KNoteChunk i (N.of_nat c))).
      apply served_value. exact (Hch c x Hc).
Qed.

(** The notes of a list as the wallet numbers them. *)
Definition memos (start : N) (notes : list (F * EncryptedNote)) : list NoteMemo :=
  imap (fun k note => {| nm_index := start + N.of_nat k; nm_cm := fst note; nm_enc := snd note |}) notes.

Lemma memos_cons start note notes :
  memos start (note :: notes) =
  {| nm_index := start; nm_cm := fst note; nm_enc := snd note |} :: memos (start + 1) notes.
Proof.
  unfold memos. cbn [imap]. f_equal; [f_equal; lia|]. apply imap_ext. intros k x _. cbn. f_equal. lia.
Qed.

Lemma decode_payloads_ok start size notes payloads :
  Forall2 (fun (note : F * EncryptedNote) p => exists b, p = Some b /\
    encode_published_note (fst note) (snd note) = Ok b) notes payloads ->
  decode_payloads start size payloads = Ok (memos start notes).
Proof.
  intros Hf. revert start. induction Hf as [|[cm enc] p notes payloads (b & -> & He) Hf IH]; intros start; [done|].
  cbn [decode_payloads]. rewrite (published_decodes _ _ _ He). cbn [mbind result_bind].
  rewrite IH. by rewrite memos_cons.
Qed.

(** The notes from one position to another. *)
Definition window {A} (start stop : N) (l : list A) : list A :=
  take (N.to_nat (stop - start)) (drop (N.to_nat start) l).

(** The payloads the driver returns for a window of the notes. *)
Lemma fetched_notes c schedule notes start stop :
  (0 < c)%nat -> tree_repr cells notes -> stop <= N.of_nat (length notes) -> exists payloads,
  fetch_published_notes_concurrent (fetch_one_published_note url block_ref)
    (range start stop) c schedule = Ok payloads /\
  Forall2 (fun (note : F * EncryptedNote) p => exists b, p = Some b /\
    encode_published_note (fst note) (snd note) = Ok b) (window start stop notes) payloads.
Proof.
  intros Hc Ht Hle.
  assert (forall i, i ∈ range start stop -> exists note b,
    notes !! N.to_nat i = Some note /\ encode_published_note (fst note) (snd note) = Ok b /\
    fetch_one_published_note url block_ref i = Ok (Some b)) as Hone.
  { intros i Hi. apply elem_of_range in Hi.
    destruct (lookup_lt_is_Some_2 notes (N.to_nat i) ltac:(lia)) as [note Hn].
    destruct (t_notes _ _ Ht _ _ Hn) as (b & He & Hb & Hp). rewrite N2Nat.id in Hp.
    exists note, b. split; [done|]. split; [done|]. by eapply served_note. }
  pose proof (concurrent_fetch_spec (fetch_one_published_note url block_ref)
    (range start stop) c schedule Hc) as Hf.
  destruct (fetch_published_notes_concurrent _ _ _ _) as [ps|e|e]; cbn [driver_outcome] in Hf.
  2,3: destruct Hf as (i & Hi & Ei); destruct (Hone i Hi) as (? & ? & _ & _ & E); by rewrite E in Ei.
  exists ps. split; [done|]. apply Forall2_same_length_lookup. unfold window. split.
  - apply Forall2_length in Hf. rewrite length_take, length_drop, <-Hf, length_range. lia.
  - intros k note p Hk Hp. destruct (Forall2_lookup_r _ _ _ _ _ Hf Hp) as (i & Hi & Ei).
    apply lookup_range in Hi as [-> Hk']. rewrite lookup_take, lookup_drop in Hk. case_decide; [|done].
    destruct (Hone (start + N.of_nat k)) as (note' & b & Hn' & He & Ef); [apply elem_of_range; lia|].
    replace (N.to_nat (start + N.of_nat k)) with (N.to_nat start + k)%nat in Hn' by lia.
    rewrite Hk in Hn'. injection Hn' as <-. rewrite Ef in Ei. injection Ei as <-. by exists b.
Qed.

Lemma served_notes c schedule notes cursor :
  (0 < c)%nat -> tree_repr cells notes -> N.of_nat (length notes) < usize_limit ->
  cursor <= N.of_nat (length notes) ->
  load_notes_since_at_block url (Ok c) schedule block_ref cursor =
  Ok {| nf_notes := memos cursor (drop (N.to_nat cursor) notes); nf_next_cursor := N.of_nat (length notes) |}.
Proof.
  intros Hc Ht Hu Hle. unfold load_notes_since_at_block, read_count_at_block.
  change PATH_TREE_SIZE with (key_path (KCell CTreeSize)).
  rewrite (served_u64 _ _ (tree_capacity_u64 _ (t_capacity _ _ Ht)) (t_size _ _ Ht)).
  cbn [mbind result_bind]. unfold to_usize. rewrite (proj2 (N.ltb_lt _ _) Hu). cbn [ok_or mbind result_bind].
  rewrite (proj2 (N.ltb_ge _ _) Hle). cbn [fail_if mbind result_bind].
  destruct (N.eqb_spec cursor (N.of_nat (length notes))) as [->|Hne].
  - by rewrite Nat2N.id, drop_all.
  - destruct (fetched_notes c schedule notes cursor _ Hc Ht (N.le_refl _)) as (ps & -> & Hf).
    cbn [mbind result_bind]. rewrite (decode_payloads_ok _ _ _ _ Hf).
    unfold window. rewrite take_ge; [done|]. rewrite length_drop. lia.
Qed.

(** *** Nullifiers and balances *)

Lemma served_nullifiers X : nullifiers_repr cells X -> N.of_nat (size X) < usize_limit -> exists l,
  load_nullifiers_at_block url block_ref = Ok l /\ list_to_set l = X /\ NoDup l.
Proof.
  intros (l & -> & Hd & Hl & Hc & Hat & _) Hu. exists l.
  rewrite size_list_to_set in Hu by done. split; [|by split].
  unfold load_nullifiers_at_block, read_count_at_block.
  change PATH_NULLIFIER_COUNT with (key_path (KCell CNullifierCount)).
  rewrite (served_u64 _ _ Hl Hc). cbn [mbind result_bind]. unfold to_usize.
  rewrite (proj2 (N.ltb_lt _ _) Hu). cbn [ok_or mbind result_bind]. apply map_result_range.
  intros c f Hf. change (indexed_durable_key PATH_NULLIFIER_INDEX_PREFIX (N.of_nat c)) with
    (key_path (KNullifierAt (N.of_nat c))).
  apply served_felt. exact (Hat c f Hf).
Qed.

Lemma served_balance m k : balances_repr cells m -> try_read_deposit_balance url block_ref k = Ok (m !! k).
Proof.
  intros Hm. specialize (Hm k). unfold try_read_deposit_balance. cbv zeta. rewrite served_length.
  change (PATH_DEPOSIT_BALANCE_PREFIX ++ hex_encode (F_bytes k)) with (key_path (KBalance k)).
  fold (cells (KBalance k)). destruct (m !! k) as [b|].
  - destruct Hm as [Hb E]. rewrite E. cbn [fmap option_fmap option_map mbind result_bind].
    rewrite length_u64_le. change (N.of_nat 8) with 8. cbn match. rewrite (served_bytes _ _ E).
    cbn [mbind result_bind]. rewrite length_u64_le. cbn -[u64_le le_val]. by rewrite u64_le_roundtrip.
  - by destruct Hm as [-> | ->].
Qed.

Lemma served_balances m seen pending :
  balances_repr cells m -> exists pools,
  load_pool_balances_at_block url block_ref seen pending = Ok pools /\
  forall k, pools !! k =
    if decide (k ∈ pd_pubkey_hash <$> pending /\ k ∉ seen) then m !! k else None.
Proof.
  intros Hm. revert seen. induction pending as [|p pending IH]; intros seen.
  - exists ∅. split; [done|]. intros k. rewrite lookup_empty, decide_False; [done|].
    by intros [?%not_elem_of_nil _].
  - cbn [load_pool_balances_at_block fmap list_fmap]. case_bool_decide as Hin.
    + destruct (IH seen) as (pools & E & Hk). exists pools. split; [done|]. intros k. rewrite Hk.
      apply decide_ext. set_solver.
    + destruct (IH ({[pd_pubkey_hash p]} ∪ seen)) as (pools & E & Hk). rewrite (served_balance m _ Hm), E.
      cbn [mbind result_bind]. eexists. split; [reflexivity|]. intros k. 
      destruct (decide (k = pd_pubkey_hash p)) as [->|Hne].
      * rewrite decide_True by set_solver. destruct (m !! pd_pubkey_hash p) as [b|]; [by rewrite lookup_insert_eq|].
        rewrite Hk. by rewrite decide_False by set_solver.
      * transitivity (pools !! k); [destruct (m !! pd_pubkey_hash p); [by rewrite lookup_insert_ne|done]|].
        rewrite Hk. apply decide_ext. set_solver.
Qed.

(** *** Fees *)

(** A stored level; the kernel writes four bytes. *)
Definition stored_level (k : key) : option Z := i32_of_le <$> cells k.

Definition levels_stored : Prop :=
  forall k b, k = KCell CLastInputLevel \/ k = KCell CFeeLevel -> cells k = Some b -> length b = 4%nat.

Lemma served_optional_level k :
  levels_stored -> k = KCell CLastInputLevel \/ k = KCell CFeeLevel ->
  read_optional_i32_at_block url block_ref (key_path k) = Ok (stored_level k).
Proof.
  intros Hl Hk. unfold read_optional_i32_at_block. rewrite served_optional. fold (cells k).
  unfold stored_level. destruct (cells k) as [b|] eqn:E; [|done].
  unfold parse_i32, wrong_size. by rewrite (Hl k b Hk E).
Qed.

(** The private transactions already counted at the level the next inbox will have. *)
Definition counted_next : N :=
  if decide (stored_level (KCell CLastInputLevel) = Some (saturating_add_i32 level 1) /\
             stored_level (KCell CFeeLevel) = Some (saturating_add_i32 level 1))
  then default 0 (le_val <$> cells (KCell CFeeCount)) else 0.

Lemma served_fee :
  levels_stored -> fees_repr cells ->
  current_required_tx_fee_at_block url block_ref = Ok (required_tx_fee_for_private_tx_count counted_next).
Proof.
  intros Hl Hf. unfold current_required_tx_fee_at_block, block_level, get_text.
  destruct (sv_level Hs) as (raw & -> & Ej). cbn [map_err mbind result_bind]. rewrite Ej.
  cbn [mbind result_bind].
  change PATH_LAST_INPUT_LEVEL with (key_path (KCell CLastInputLevel)).
  change PATH_PRIVATE_TX_FEE_LEVEL with (key_path (KCell CFeeLevel)).
  change PATH_PRIVATE_TX_COUNT_IN_LEVEL with (key_path (KCell CFeeCount)).
  rewrite !served_optional_level by auto. cbn [mbind result_bind]. unfold counted_next.
  case_bool_decide as Ha; case_bool_decide as Hb; cbn [andb].
  - rewrite decide_True by done. unfold read_optional_u64_at_block. rewrite served_optional.
    fold (cells (KCell CFeeCount)). destruct (cells (KCell CFeeCount)) as [b|] eqn:E; [|done].
    unfold parse_u64, wrong_size. by rewrite (Hf b E).
  - by rewrite decide_False by tauto.
  - by rewrite decide_False by tauto.
  - by rewrite decide_False by tauto.
Qed.

Lemma served_view (v : View) (c : nat) (schedule : nat -> nat) (pending : list PendingDeposit) :
  repr cells v -> levels_stored -> (0 < c)%nat -> view_size v < usize_limit ->
  exists snapshot nullifiers pools,
    load_state_snapshot_at_block url (Ok c) schedule block_ref = Ok snapshot /\
    load_nullifiers_at_block url block_ref = Ok nullifiers /\
    load_pool_balances_at_block url block_ref ∅ pending = Ok pools /\
    ss_auth_domain snapshot = v_auth_domain v /\ ss_notes snapshot = memos 0 (v_notes v) /\
    current_root snapshot = v_root v /\
    ss_required_tx_fee snapshot = required_tx_fee_for_private_tx_count counted_next /\
    (forall i note, v_notes v !! i = Some note -> exists siblings,
       merkle_path snapshot (N.of_nat i) = Ok {| mp_siblings := siblings; mp_root := v_root v |} /\
       length siblings = DEPTH /\ path_root (fst note) (N.of_nat i) siblings = v_root v) /\
    list_to_set nullifiers = v_nullifiers v /\ NoDup nullifiers /\
    forall p, p ∈ pending -> pools !! pd_pubkey_hash p = v_balances v !! pd_pubkey_hash p.
Proof.
  intros Hr Hl Hc Hsize. unfold view_size in Hsize.
  destruct (served_nullifiers _ (r_nullifiers _ _ Hr)) as (nfs & En & Hn & Hd); [lia|].
  destruct (served_balances (v_balances v) ∅ pending (r_balances _ _ Hr)) as (pools & Ep & Hp).
  pose proof (r_tree _ _ Hr) as Ht.
  assert (nm_cm <$> memos 0 (v_notes v) = fst <$> v_notes v) as Hcm.
  { unfold memos. rewrite fmap_imap. cbn. apply list_eq. intros i.
    rewrite list_lookup_imap, list_lookup_fmap. by destruct (v_notes v !! i). }
  exists {| ss_auth_domain := v_auth_domain v;
            ss_required_tx_fee := required_tx_fee_for_private_tx_count counted_next;
            ss_tree := from_leaves (fst <$> v_notes v); ss_notes := memos 0 (v_notes v) |}, nfs, pools.
  cbn [ss_auth_domain ss_required_tx_fee ss_notes]. split; [|split; [done|split; [done|]]].
  - unfold load_state_snapshot_at_block.
    change PATH_AUTH_DOMAIN with (key_path (KCell CAuthDomain)).
    rewrite (served_felt _ _ (r_auth _ _ Hr)). cbn [mbind result_bind].
    rewrite (served_notes c schedule _ 0 Hc Ht); [|lia|lia]. cbn [mbind result_bind nf_notes].
    change (N.to_nat 0) with 0%nat. rewrite drop_0, Hcm.
    change PATH_TREE_ROOT with (key_path (KCell CTreeRoot)).
    rewrite (served_felt _ _ (t_root _ _ Ht)). cbn [mbind result_bind].
    rewrite bool_decide_eq_true_2 by done. cbn [negb fail_if mbind result_bind].
    rewrite (served_fee Hl (r_fees _ _ Hr)). done.
  - do 4 (split; [done|]). split; [|split; [done|split; [done|]]].
    + intros i note Hi. pose proof (lookup_lt_Some _ _ _ Hi) as Hlt.
      destruct (auth_path_correct (fst <$> v_notes v) (N.of_nat i)) as (sibs & Ea & Hlen & Hroot).
      { eapply N.lt_le_trans; [|apply (t_capacity _ _ Ht)]. lia. }
      exists sibs. unfold merkle_path. cbn [ss_notes ss_tree]. rewrite Ea.
      rewrite (proj2 (N.leb_gt _ _)) by (unfold memos; rewrite length_imap; lia).
      split; [done|]. split; [done|]. unfold leaf_of in Hroot.
      rewrite Nat2N.id, list_lookup_fmap, Hi in Hroot. exact Hroot.
    + intros p Hpin. rewrite Hp, decide_True; [done|]. split; [|set_solver].
      by apply list_elem_of_fmap_2.
Qed.
(** C22: From a node that serves the durable store of a view, whatever order its
    answers come in, the wallet builds a snapshot of exactly that view: its domain, its
    notes, its root, the fee of the next private transaction, and for every note a path
    of 48 siblings to the view's root; and it reads back the view's nullifiers and the
    balances of its own pools. *)
Theorem snapshot_is_view (v : View) (c : nat) (schedule : nat -> nat) (pending : list PendingDeposit) :
  repr cells v -> levels_stored -> (0 < c)%nat -> view_size v < usize_limit ->
  exists snapshot nullifiers pools,
    load_state_snapshot_at_block url (Ok c) schedule block_ref = Ok snapshot /\
    load_nullifiers_at_block url block_ref = Ok nullifiers /\
    load_pool_balances_at_block url block_ref ∅ pending = Ok pools /\
    ss_auth_domain snapshot = v_auth_domain v /\ ss_notes snapshot = memos 0 (v_notes v) /\
    current_root snapshot = v_root v /\
    ss_required_tx_fee snapshot = required_tx_fee_for_private_tx_count counted_next /\
    (forall i note, v_notes v !! i = Some note -> exists siblings,
       merkle_path snapshot (N.of_nat i) = Ok {| mp_siblings := siblings; mp_root := v_root v |} /\
       length siblings = DEPTH /\ path_root (fst note) (N.of_nat i) siblings = v_root v) /\
    list_to_set nullifiers = v_nullifiers v /\ NoDup nullifiers /\
    forall p, p ∈ pending -> pools !! pd_pubkey_hash p = v_balances v !! pd_pubkey_hash p.
Proof. apply served_view. Qed.
End Served.
