(* ===== verification/WalletSync.v ===== *)
(** * WalletSync: the wallet's files, and its synchronisation with the rollup

    [save_wallet] and [load_wallet] on the wallet file and the floor beside it, and
    [cmd_rollup_sync]: notes are read from the pinned head in batches, each saved, until the
    tree is scanned or another process asks for the lock, then everything spent or drained
    is pruned.  A save can fail before or after either file is in place, a load to read
    either; what the loop finds at the path of its yield sentinel is an argument.  Printing
    is not modelled. *)

From S2P Require Import Prelude Felt Externals Types Hashing Notes CanonicalWire Store.
From S2P Require Import Bds Wallet WalletScan WalletRpc.

Local Open Scope N_scope.

(** ** The files *)

Record Disk := { dk_wallet : WalletFile; dk_floor : option WalletXmssFloor }.

(** How far a save comes: to the end, or to an error before the wallet is renamed, before
    the floor is, or after both. *)
Inductive SaveOutcome :=
| SaveDone
| SaveFailsEarly (e : string)
| SaveFailsBetween (e : string)
| SaveFailsLate (e : string).

Section Sync.
Context `{Blake2s, MlKem, !MlKemImport, Aead, Hex, Target, HttpClients, Json, Tze WirePublishedNote}.

Definition save_wallet (o : SaveOutcome) (w : WalletFile) (d : Disk) : Disk * result unit :=
  match o with
  | SaveDone => ({| dk_wallet := w; dk_floor := Some (wallet_xmss_floor w) |}, Ok tt)
  | SaveFailsEarly e => (d, Err e)
  | SaveFailsBetween e => ({| dk_wallet := w; dk_floor := dk_floor d |}, Err e)
  | SaveFailsLate e => ({| dk_wallet := w; dk_floor := Some (wallet_xmss_floor w) |}, Err e)
  end.

(** What the file system answers when a wallet is loaded: whether the wallet's file is
    read, whether the floor's is, and the order in which the floor's map is iterated. *)
Record LoadEnv := {
  ld_wallet_error : option string;
  ld_floor_read : bool;
  ld_entries : list (N * N)
}.

(** A floor that cannot be read counts as none: [let Ok(data) = ... else { return Ok(()) }]. *)
Definition floor_read (ld : LoadEnv) (d : Disk) : option WalletXmssFloor :=
  if ld_floor_read ld then dk_floor d else None.

(** [load_wallet] on the two files. *)
Definition load_wallet_files (rebuild_trapped : bool) (ld : LoadEnv) (d : Disk) : result WalletFile :=
  match ld_wallet_error ld with
  | Some e => Err ("read wallet: " +:+ e)
  | None => load_wallet rebuild_trapped (dk_wallet d) (floor_read ld d) (ld_entries ld)
  end.

(** What is found at the path of the yield sentinel: nothing, a live process, or a dead
    one and whether its sentinel can be removed. *)
Inductive Sentinel := SentinelAbsent | SentinelLive | SentinelStale (removed : option string).

(** The settings and the environment of one run. *)
Record SyncEnv := {
  se_url : bytes;
  se_concurrency : result nat;
  se_fetcher : result unit;
  se_schedule : nat -> nat -> nat;
  se_save : nat -> SaveOutcome;
  se_sentinel : nat -> Sentinel
}.

Record SyncState := {
  sy_wallet : WalletFile;
  sy_disk : Disk;
  sy_total_found : N;
  sy_seen_cms : list F;
  sy_saves : nat
}.

Variable env : SyncEnv.

Definition on_wallet {A} (m : ST WalletFile A) : ST SyncState A := fun s =>
  let '(w, r) := m (sy_wallet s) in
  ({| sy_wallet := w; sy_disk := sy_disk s; sy_total_found := sy_total_found s;
      sy_seen_cms := sy_seen_cms s; sy_saves := sy_saves s |}, r).

Definition save : ST SyncState unit := fun s =>
  let '(d, r) := save_wallet (se_save env (sy_saves s)) (sy_wallet s) (sy_disk s) in
  ({| sy_wallet := sy_wallet s; sy_disk := d; sy_total_found := sy_total_found s;
      sy_seen_cms := sy_seen_cms s; sy_saves := S (sy_saves s) |}, r).

Definition tally (found : N) (seen_cms : list F) (s : SyncState) : SyncState :=
  {| sy_wallet := sy_wallet s; sy_disk := sy_disk s; sy_total_found := sy_total_found s + found;
     sy_seen_cms := seen_cms; sy_saves := sy_saves s |}.

Definition sync_failed (e : string) : string :=
  "sync failed: " +:+ e +:+ ". Run `tzel-wallet check` for a fuller diagnosis.".

(** One batch: [[w.scanned, batch_end)] is fetched, decoded, scanned and saved. *)
Definition sync_batch (head_hash : bytes) (concurrency : nat) (checkpoint_every tree_size : N)
    : ST SyncState unit :=
  s ← reads (fun s => mret s);
  let scanned := wf_scanned (sy_wallet s) in
  let batch_end := N.min (N.min (scanned + checkpoint_every) (usize_limit - 1)) tree_size in
  payloads ← lift (map_err sync_failed
    (fetch_published_notes_concurrent (fetch_one_published_note (se_url env) head_hash)
       (range scanned batch_end) concurrency (se_schedule env (sy_saves s))));
  notes ← lift (decode_payloads scanned tree_size payloads);
  '(found, seen_cms) ← on_wallet (apply_scan_feed_recover_batch
    {| nf_notes := notes; nf_next_cursor := batch_end |} (sy_seen_cms s));
  writes (tally found seen_cms) ;;
  save.

(** Whether to yield after the batch just saved. *)
Definition check_sentinel : ST SyncState bool := fun s =>
  (s, match se_sentinel env (sy_saves s) with
      | SentinelAbsent | SentinelStale None => Ok false
      | SentinelLive => Ok true
      | SentinelStale (Some e) => Err e
      end).

(** The loop: [true] when it yielded.  Every batch scans at least one note, so the notes
    left are enough fuel. *)
Fixpoint sync_loop (fuel : nat) (head_hash : bytes) (concurrency : nat) (checkpoint_every tree_size : N)
    : ST SyncState bool :=
  match fuel with
  | O => mret false
  | S fuel =>
      w ← reads (fun s => mret (sy_wallet s));
      if tree_size <=? wf_scanned w then mret false
      else
        sync_batch head_hash concurrency checkpoint_every tree_size ;;
        yielded ← check_sentinel;
        if (yielded : bool) then mret true
        else sync_loop fuel head_hash concurrency checkpoint_every tree_size
  end.

Definition with_found (found : N) (m : ScanSummary) : ScanSummary :=
  {| sm_found := found; sm_spent := sm_spent m; sm_confirmed_pending := sm_confirmed_pending m;
     sm_pool_balances := sm_pool_balances m; sm_pruned_drained_pools := sm_pruned_drained_pools m |}.

(** After the loop: everything spent or drained is pruned, and the wallet saved. *)
Definition sync_finish (head_hash : bytes) : ST SyncState ScanSummary :=
  let url := se_url env in
  nullifiers ← lift (load_nullifiers_at_block url head_hash);
  pool_balances ← reads (fun s =>
    load_pool_balances_at_block url head_hash ∅ (wf_pending_deposits (sy_wallet s)));
  s ← reads (fun s => mret s);
  summary ← on_wallet (fun w =>
    let '(w, summary) := apply_scan_feed_finalize (sy_seen_cms s) nullifiers pool_balances w in
    (w, Ok summary));
  save ;;
  mret (with_found (sy_total_found s) summary).

(** From the loaded wallet on; the summary, and whether the run yielded. *)
Definition sync_loaded (checkpoint_every : N) : ST SyncState (ScanSummary * bool) :=
  let url := se_url env in
  concurrency ← lift (se_concurrency env);
  head_hash ← lift (map_err sync_failed (head_hash url));
  tree_size ← lift (
    size ← map_err sync_failed (read_u64_at_block url head_hash PATH_TREE_SIZE);
    ok_or (to_usize size) "tree size does not fit in usize");
  w ← reads (fun s => mret (sy_wallet s));
  lift (fail_if (tree_size <? wf_scanned w) (ahead_of_tree (wf_scanned w) tree_size)) ;;
  lift (map_err sync_failed (se_fetcher env)) ;;
  yielded ← sync_loop (N.to_nat tree_size - N.to_nat (wf_scanned w)) head_hash concurrency
    checkpoint_every tree_size;
  summary ← sync_finish head_hash;
  mret (summary, yielded).

(** [cmd_rollup_sync] on a disk. *)
Definition cmd_rollup_sync (rebuild_trapped : bool) (ld : LoadEnv) (checkpoint_every : N)
    (d : Disk) : Disk * result (ScanSummary * bool) :=
  match fail_if (checkpoint_every =? 0)
      "--checkpoint-every must be > 0 (0 would loop forever without progress)" ;;
    load_wallet_files rebuild_trapped ld d with
  | Ok w =>
      let '(s, r) := sync_loaded checkpoint_every
        {| sy_wallet := w; sy_disk := d; sy_total_found := 0; sy_seen_cms := []; sy_saves := 0 |} in
      (sy_disk s, r)
  | Err e => (d, Err e)
  | Panic e => (d, Panic e)
  end.
End Sync.
