(* ===== verification/WalletSyncFacts.v ===== *)
(** * WalletSyncFacts: a synchronisation is one scan

    Whatever the size of its batches, the order of the answers and the moments at which it
    is asked to yield, a synchronisation against a node that serves a view ends, and leaves
    in memory and on disk the wallet that one scan of the notes it covered would leave; it
    covers them all unless it yields, and then at least one batch. *)

From S2P Require Import Prelude Felt Externals Types Recipients Hashing Merkle Notes CanonicalWire.
From S2P Require Import Store StoreKeys Durable DurableRepr Outputs Ledger LedgerSpec.
From S2P Require Import Bds Wallet WalletKeys WalletScan WalletScanFacts WalletRpc WalletRpcFacts WalletSync.

Local Open Scope N_scope.

(** ** Windows *)

Lemma window_full {A} stop (l : list A) start :
  N.of_nat (length l) <= stop -> window start stop l = drop (N.to_nat start) l.
Proof. intros Hl. unfold window. apply take_ge. rewrite length_drop. lia. Qed.

Lemma length_window {A} start stop (l : list A) :
  stop <= N.of_nat (length l) -> start <= stop -> length (window start stop l) = N.to_nat (stop - start).
Proof. intros Hl Hs. unfold window. rewrite length_take, length_drop. lia. Qed.

Lemma window_app {A} a b c (l : list A) :
  a <= b -> b <= c -> window a b l ++ window b c l = window a c l.
Proof.
  intros Hab Hbc. unfold window.
  replace (N.to_nat (c - a)) with (N.to_nat (b - a) + N.to_nat (c - b))%nat by lia.
  rewrite <-(take_take_drop _ (N.to_nat (b - a))). f_equal. rewrite drop_drop. do 2 f_equal. lia.
Qed.

Lemma memos_app start (l l' : list (F * EncryptedNote)) :
  memos start (l ++ l') = memos start l ++ memos (start + N.of_nat (length l)) l'.
Proof.
  unfold memos. rewrite imap_app. f_equal. apply imap_ext. intros i x _. cbn. f_equal. lia.
Qed.

Section Facts.
Context `{Blake2s, MlKem, !MlKemImport, !MlKemImportLaws, Aead, HexLaws, !HexDigits, HttpClients, Json}.
Context `{Target, Tze WirePublishedNote} {HW : WordTarget} {HP : PublishedCodec}.
Variables (env : SyncEnv) (head : bytes) (g : bytes -> option bytes) (level : Z) (v : View).
Hypothesis Hserves : serves (se_url env) head g level.
Hypothesis Hrepr : repr (cells g) v.
Hypothesis Hsize : view_size v < usize_limit.
(** Every save succeeds, and no stale sentinel is stuck. *)
Hypothesis Hsaves : forall k, se_save env k = SaveDone.
Hypothesis Hsentinels : forall k e, se_sentinel env k <> SentinelStale (Some e).

Let size : N := N.of_nat (length (v_notes v)).

Lemma size_usize : size < usize_limit.
Proof. unfold size, view_size in *. lia. Qed.

(** The feed of the notes from one position to another. *)
Definition feed (start stop : N) : NotesFeedResp :=
  {| nf_notes := memos start (window start stop (v_notes v)); nf_next_cursor := stop |}.

Lemma window_shape start stop : Forall (fun nm => note_shape (nm_enc nm)) (nf_notes (feed start stop)).
Proof.
  apply Forall_forall. intros nm Hnm. unfold feed, memos in Hnm. cbn [nf_notes] in Hnm.
  apply elem_of_lookup_imap_1 in Hnm as (k & note & -> & Hk). cbn [nm_enc].
  unfold window in Hk. rewrite lookup_take in Hk. case_decide; [|done]. rewrite lookup_drop in Hk.
  destruct (t_notes _ _ (r_tree _ _ Hrepr) _ _ Hk) as (b & He & _).
  unfold encode_published_note in He. by apply seq_Ok in He as [Hs%validate_Ok _].
Qed.

(** What trial decryption gives on it. *)
Lemma feed_recovers w start stop : exists r, recover_feed w (feed start stop) = Ok r.
Proof. destruct (recover_feed_ok w _ (window_shape start stop)) as (r & E & _). by exists r. Qed.

Lemma feed_app w a b c r1 r2 :
  a <= b -> b <= c -> c <= size ->
  recover_feed w (feed a b) = Ok r1 -> recover_feed w (feed b c) = Ok r2 ->
  recover_feed w (feed a c) = Ok (r1 ++ r2).
Proof.
  intros Hab Hbc Hc E1 E2. unfold recover_feed, feed in *. cbn [nf_notes] in *.
  rewrite <-(window_app a b c) by done. rewrite memos_app, map_result_app, E1.
  rewrite length_window by (unfold size in *; lia).
  replace (a + N.of_nat (N.to_nat (b - a))) with b by lia. by rewrite E2.
Qed.

(** ** The state after scanning part of the tree *)

(** From wallet [w0] at its cursor to [reached], and what has been counted. *)
Record synced (w0 : WalletFile) (reached : N) (s : SyncState) : Prop := {
  sy_reached : wf_scanned w0 <= reached <= size;
  sy_now : exists r, recover_feed w0 (feed (wf_scanned w0) reached) = Ok r /\
    sy_wallet s = scanned_on w0 r reached /\
    sy_total_found s = N.of_nat (length (fresh_records note_key (wf_notes w0) r));
  sy_cms : sy_seen_cms s = nm_cm <$> nf_notes (feed (wf_scanned w0) reached);
  sy_scanned : wf_scanned (sy_wallet s) = reached
}.

Lemma feed_empty a : a <= size -> nf_notes (feed a a) = [].
Proof. intros Ha. unfold feed, window. cbn [nf_notes]. by rewrite N.sub_diag, take_0. Qed.

Lemma synced_start w0 d n :
  wf_scanned w0 <= size ->
  synced w0 (wf_scanned w0)
    {| sy_wallet := w0; sy_disk := d; sy_total_found := 0; sy_seen_cms := []; sy_saves := n |}.
Proof.
  intros Hle. constructor; cbn [sy_wallet sy_total_found sy_seen_cms]; [lia| |by rewrite feed_empty|done].
  exists []. unfold recover_feed. rewrite feed_empty by done. split; [done|]. split; [|done].
  unfold scanned_on. cbn. rewrite app_nil_r. by destruct w0.
Qed.

(** One more batch. *)
Lemma sync_batch_ok c every w0 reached s :
  (0 < c)%nat -> 0 < every -> synced w0 reached s -> reached < size -> exists s' reached',
  sync_batch env head c every size s = (s', Ok tt) /\ synced w0 reached' s' /\ reached < reached' /\
  sy_disk s' = {| dk_wallet := sy_wallet s'; dk_floor := Some (wallet_xmss_floor (sy_wallet s')) |}.
Proof.
  intros Hc Hev [Hr (r & Er & Hw & Hf) Hcm Hsc] Hlt. pose proof size_usize as Hu.
  set (stop := N.min (N.min (reached + every) (usize_limit - 1)) size).
  assert (reached < stop <= size) as Hstop by lia.
  destruct (fetched_notes (se_url env) head g level Hserves c (se_schedule env (sy_saves s)) (v_notes v)
    reached stop Hc (r_tree _ _ Hrepr)) as (ps & Ep & Hps); [unfold size in *; lia|].
  pose proof (decode_payloads_ok reached size _ _ Hps) as Ed.
  destruct (feed_recovers w0 reached stop) as [r2 E2].
  assert (recover_feed (sy_wallet s) (feed reached stop) = Ok r2) as E2'
    by (rewrite Hw, recover_feed_scanned; exact E2).
  pose proof (recover_batch_ok (feed reached stop) (sy_seen_cms s) (sy_wallet s) r2 E2') as Eb.
  unfold sync_batch. rewrite (ST_run_reads _ _ _ s eq_refl), Hsc. cbv zeta. fold stop.
  rewrite (ST_run_lift _ _ _ ps) by by rewrite Ep.
  rewrite (ST_run_lift _ _ _ _ Ed). fold (feed reached stop).
  unfold on_wallet. erewrite ST_run by (rewrite Eb; reflexivity). cbv beta iota.
  rewrite ST_run_writes. unfold save. cbn [sy_wallet sy_disk sy_total_found sy_seen_cms sy_saves tally].
  rewrite Hsaves. cbn [save_wallet]. eexists _, stop. split; [reflexivity|].
  split; [|split; [lia|reflexivity]].
  constructor; cbn [sy_wallet sy_total_found sy_seen_cms].
  - lia.
  - exists (r ++ r2). split; [by eapply feed_app; [..|exact Er|exact E2]; lia|]. split.
    + by rewrite Hw, scanned_on_app.
    + rewrite Hf, Hw. unfold scanned_on. cbn [wf_notes wf_with_scanned wf_with_notes].
      rewrite fresh_records_app, length_app. lia.
  - rewrite Hcm. unfold feed. cbn [nf_notes]. rewrite <-fmap_app.
    rewrite <-(window_app (wf_scanned w0) reached stop) by lia. rewrite memos_app, length_window by (unfold size in *; lia).
    by replace (wf_scanned w0 + N.of_nat (N.to_nat (reached - wf_scanned w0))) with reached by lia.
  - done.
Qed.

Lemma sentinel_cases s : exists y, check_sentinel env s = (s, Ok y).
Proof.
  unfold check_sentinel. destruct (se_sentinel env (sy_saves s)) as [| |[e|]] eqn:E; [by eexists..| |by eexists].
  by destruct (Hsentinels _ _ E).
Qed.

(** The loop ends, having scanned all the notes or some and then yielded. *)
Lemma sync_loop_ok fuel c every w0 reached s :
  (0 < c)%nat -> 0 < every -> synced w0 reached s -> (N.to_nat size - N.to_nat reached <= fuel)%nat ->
  exists s' reached' yielded,
    sync_loop env fuel head c every size s = (s', Ok yielded) /\ synced w0 reached' s' /\
    reached <= reached' /\
    if (yielded : bool) then reached < reached' else reached' = size.
Proof.
  intros Hc Hev. revert reached s. induction fuel as [|fuel IH]; intros reached s Hs Hfuel; cbn [sync_loop].
  - exists s, reached, false. pose proof (sy_reached _ _ _ Hs).
    split; [done|]. split; [done|]. split; lia.
  - rewrite (ST_run_reads (fun s => mret (sy_wallet s)) _ s _ eq_refl), (sy_scanned _ _ _ Hs).
    destruct (N.leb_spec size reached) as [Hge|Hlt].
    + exists s, reached, false. pose proof (sy_reached _ _ _ Hs).
      split; [done|]. split; [done|]. split; lia.
    + destruct (sync_batch_ok c every w0 reached s Hc Hev Hs Hlt) as (s1 & r1 & E1 & Hs1 & Hlt1 & _).
      rewrite (ST_run _ _ _ _ _ E1). destruct (sentinel_cases s1) as [y Ey].
      rewrite (ST_run _ _ _ _ _ Ey). destruct y.
      * exists s1, r1, true. split; [done|]. split; [done|]. split; lia.
      * destruct (IH r1 s1 Hs1 ltac:(lia)) as (s2 & r2 & y & E2 & Hs2 & Hle & Hy).
        exists s2, r2, y. split; [exact E2|]. split; [done|]. split; [lia|]. destruct y; lia.
Qed.

Lemma prune_found extra nfs pools n w :
  prune extra nfs pools n w =
  let '(w', summary) := prune extra nfs pools 0 w in (w', with_found n summary).
Proof. reflexivity. Qed.

(** What is left after the loop. *)
Lemma sync_finish_ok w0 reached s :
  synced w0 reached s -> exists s' summary nullifiers pools w',
  sync_finish env head s = (s', Ok summary) /\
  apply_scan_feed (feed (wf_scanned w0) reached) nullifiers pools w0 = (w', Ok summary) /\
  sy_wallet s' = w' /\ sy_disk s' = {| dk_wallet := w'; dk_floor := Some (wallet_xmss_floor w') |} /\
  list_to_set nullifiers = v_nullifiers v /\
  forall p, p ∈ wf_pending_deposits w0 -> pools !! pd_pubkey_hash p = v_balances v !! pd_pubkey_hash p.
Proof.
  intros [Hr (r & Er & Hw & Hfound) Hcm Hsc].
  destruct (served_nullifiers (se_url env) head g level Hserves _ (r_nullifiers _ _ Hrepr))
    as (nfs & En & Hn & _); [unfold view_size in Hsize; lia|].
  destruct (served_balances (se_url env) head g level Hserves (v_balances v) ∅
    (wf_pending_deposits (sy_wallet s)) (r_balances _ _ Hrepr)) as (pools & Ep & Hp).
  pose proof (scan_feed_ok (feed (wf_scanned w0) reached) nfs pools w0 r Er) as Escan. cbv zeta in Escan.
  change (nf_next_cursor (feed (wf_scanned w0) reached)) with reached in Escan.
  assert (list_to_set (sy_seen_cms s) = list_cms (nf_notes (feed (wf_scanned w0) reached))) as Ecms
    by by rewrite Hcm.
  unfold sync_finish. cbv zeta. rewrite (ST_run_lift _ _ _ _ En).
  rewrite (ST_run_reads (fun s => load_pool_balances_at_block (se_url env) head ∅
    (wf_pending_deposits (sy_wallet s))) _ s _ Ep).
  rewrite (ST_run_reads (fun s => mret s) _ s s eq_refl).
  rewrite prune_found in Escan.
  destruct (prune (list_cms (nf_notes (feed (wf_scanned w0) reached))) nfs pools 0
    (scanned_on w0 r reached)) as [w' summary] eqn:Epr.
  unfold on_wallet, apply_scan_feed_finalize.
  erewrite ST_run by (rewrite Ecms, Hw, Epr; reflexivity). unfold save.
  erewrite ST_run by (cbn [sy_wallet sy_disk sy_saves]; rewrite Hsaves; reflexivity).
  eexists _, _, nfs, pools, w'. split; [reflexivity|]. split; [by rewrite Escan, <-Hfound|].
  split; [done|]. split; [done|]. split; [exact Hn|].
  intros p Hp'. rewrite Hp, decide_True; [done|]. split; [|set_solver].
  rewrite Hw. by apply list_elem_of_fmap_2.
Qed.

(** C23: With answers, saves and sentinels that do not fail, a synchronisation from a
    wallet that is not ahead of the tree ends without error, and leaves in memory and on
    disk, with its floor, exactly the wallet and the summary of one scan of the notes from
    the wallet's cursor to some [reached], against the nullifiers and balances of the
    view: the whole tree, or beyond the cursor if it yielded. *)
Theorem sync_is_one_scan (c : nat) (every : N) (w0 : WalletFile) (d : Disk) (saves : nat) :
  se_concurrency env = Ok c -> (0 < c)%nat -> se_fetcher env = Ok tt -> 0 < every ->
  WalletRpc.head_hash (se_url env) = Ok head -> wf_scanned w0 <= size ->
  exists s reached summary yielded nullifiers pools w',
    sync_loaded env every
      {| sy_wallet := w0; sy_disk := d; sy_total_found := 0; sy_seen_cms := []; sy_saves := saves |} =
      (s, Ok (summary, yielded)) /\
    apply_scan_feed (feed (wf_scanned w0) reached) nullifiers pools w0 = (w', Ok summary) /\
    sy_wallet s = w' /\ sy_disk s = {| dk_wallet := w'; dk_floor := Some (wallet_xmss_floor w') |} /\
    list_to_set nullifiers = v_nullifiers v /\
    (forall p, p ∈ wf_pending_deposits w0 ->
       pools !! pd_pubkey_hash p = v_balances v !! pd_pubkey_hash p) /\
    if (yielded : bool) then wf_scanned w0 < reached <= size else reached = size.
Proof.
  intros Ec Hc Ef Hev Eh Hle. pose proof (synced_start w0 d saves Hle) as Hs0.
  set (s0 := {| sy_wallet := w0; sy_disk := d |}) in *.
  destruct (sync_loop_ok (N.to_nat size - N.to_nat (wf_scanned w0)) c every w0 _ s0 Hc Hev Hs0 (le_n _))
    as (s1 & reached & yielded & El & Hs1 & Hge & Hy). pose proof (sy_reached _ _ _ Hs1) as Hr.
  destruct (sync_finish_ok w0 reached s1 Hs1)
    as (s & summary & nfs & pools & w' & Efin & Escan & Hw & Hd & Hn & Hp).
  unfold sync_loaded. cbv zeta. rewrite (ST_run_lift _ _ _ _ Ec).
  rewrite (ST_run_lift _ _ _ head) by by rewrite Eh.
  assert (read_u64_at_block (se_url env) head PATH_TREE_SIZE = Ok size) as Esz.
  { change PATH_TREE_SIZE with (key_path (KCell CTreeSize)).
    apply (served_u64 _ _ g level); [done| |apply (t_size _ _ (r_tree _ _ Hrepr))].
    apply tree_capacity_u64, (t_capacity _ _ (r_tree _ _ Hrepr)). }
  rewrite (ST_run_lift _ _ _ size).
  2:{ rewrite Esz. cbn [map_err mbind result_bind]. unfold to_usize.
      by rewrite (proj2 (N.ltb_lt _ _) size_usize). }
  rewrite (ST_run_reads (fun s => mret (sy_wallet s)) _ s0 _ eq_refl). change (sy_wallet s0) with w0.
  rewrite (proj2 (N.ltb_ge _ _) Hle).
  rewrite (ST_run_lift _ _ _ tt eq_refl), (ST_run_lift _ _ _ tt) by by rewrite Ef.
  rewrite (ST_run _ _ _ _ _ El), (ST_run _ _ _ _ _ Efin).
  exists s, reached, summary, yielded, nfs, pools, w'. split; [done|]. do 5 (split; [done|]).
  destruct yielded; lia.
Qed.
End Facts.
