(* ===== verification/WalletCommands.v ===== *)
(** * WalletCommands: the wallet's commands that use keys

    [cmd_bridge_deposit], [cmd_shield_rollup], [cmd_transfer_rollup] and
    [cmd_unshield_rollup] of [apps/wallet/src/lib.rs], whole: the snapshot they are prepared
    on, the notes they build, the keys they reserve, the arguments given to the prover, the
    saves, the message submitted and what is recorded after it.  The prover, the operator
    and [octez-client] are arguments, as are randomness and how far each save comes.  What
    leaves the wallet is kept as a trace.  Printing and events are not modelled. *)

From S2P Require Import Prelude Felt Externals Types Recipients Hashing Merkle Wots Notes CanonicalWire.
From S2P Require Import KernelWire Utf8 Store Outputs Ledger Bds Wallet WalletScan OperatorApi WalletRpc WalletSync.

Local Open Scope N_scope.

(** ** What leaves the wallet *)

(** A call of the prover with its arguments (and, to state theorems, the address and
    index of each one-time key that signed in them), a message handed to the operator or
    to [octez-client], an L1 deposit. *)
Inductive Effect :=
| Proved (circuit : string) (args : list string) (keys : list (N * N))
| Sent (message : KernelInboxMessage)
| Minted (pubkey_hash : F) (amount : N).

Record World := { wo_disk : Disk; wo_trace : list Effect }.

Record ProveConfig := {
  pc_skip_proof : bool;
  pc_prove : string -> list string -> result Proof_
}.

Definition make_proof (pc : ProveConfig) (circuit : string) (args : list string) : result Proof_ :=
  if pc_skip_proof pc then Ok TrustMeBro else pc_prove pc circuit args.

(** The profile, the settings and the environment of one command. *)
Record CmdEnv := {
  ce_url : bytes;
  ce_rollup_address : string;
  ce_bridge_ticketer : string;
  ce_source_alias : string;
  ce_burn_cap : string;
  ce_dal_fee : N;
  ce_dal_fee_address : PaymentAddress;
  ce_concurrency : result nat;
  ce_schedule : nat -> nat;
  ce_random : nat -> NoteRandomness;
  ce_prover : ProveConfig;
  (** [submit_kernel_message] on the encoded message: the operation's hash *)
  ce_submit : bytes -> result (option string);
  (** [run_octez_client_output]: what the program prints *)
  ce_octez : list string -> result bytes;
  ce_save : nat -> SaveOutcome;
  (** whether a full rebuild of a key tree is trapped, and how the load goes *)
  ce_rebuild_trapped : bool;
  ce_load : LoadEnv
}.

(** A command in progress on a loaded wallet. *)
Record CmdState := {
  cs_wallet : WalletFile;
  cs_disk : Disk;
  cs_saves : nat;
  cs_trace : list Effect
}.

(** ** Hexadecimal arguments *)

(** [{:x}]. *)
Definition felt_u64_to_hex (v : N) : string := "0x" +:+ bytes_str (lower_hex 1 v).

Definition trim_start_zeros (s : bytes) : bytes := strip_while (length s) [[Byte.x30]] s.

Definition felt_to_hex `{Hex} (f : F) : string :=
  let trimmed := trim_start_zeros (hex_encode (rev (F_bytes f))) in
  if (length trimmed =? 0)%nat then "0x0" else "0x" +:+ bytes_str trimmed.

Definition is_lower_hex (c : Byte.byte) : bool :=
  let n := Byte.to_N c in ((0x30 <=? n) && (n <=? 0x39)) || ((0x61 <=? n) && (n <=? 0x66)).

(** The argument is text: its [chars] are all in the range exactly when its bytes are. *)
Definition parse_pubkey_hash_hex `{Hex} (value : bytes) : result F :=
  fail_if (bool_decide (is_Some (strip_prefix (str_bytes "0x") value)) ||
           bool_decide (is_Some (strip_prefix (str_bytes "0X") value)))
    "pubkey_hash must be 64 lowercase hex chars (no `0x` prefix)" ;;
  fail_if (bool_decide (is_Some (strip_prefix (str_bytes DEPOSIT_RECIPIENT_PREFIX) value)))
    ("pubkey_hash must be 64 lowercase hex chars (no `" +:+ DEPOSIT_RECIPIENT_PREFIX +:+ "` prefix)") ;;
  fail_if (negb (length value =? 64)%nat)
    ("pubkey_hash must be 64 lowercase hex chars; got " +:+ show_N (N.of_nat (length value)) +:+ " chars") ;;
  fail_if (negb (forallb is_lower_hex value)) "pubkey_hash must be lowercase hex (0-9, a-f) only" ;;
  b ← map_err (fun e => "invalid pubkey_hash hex: " +:+ e) (hex_decode value);
  panic_unless (length b =? 32)%nat "copy_from_slice: source slice length does not match" ;;
  mret (mkF b).

(** ** Requests for the kernel *)

Definition host_stark_proof_to_kernel (proof : Proof_) : result KernelStarkProof :=
  match proof with
  | TrustMeBro => Err "rollup submission requires a real STARK proof"
  | Stark proof_bytes output_preimage =>
      Ok {| ksp_proof_bytes := proof_bytes; ksp_output_preimage := output_preimage |}
  end.

Definition shield_req_to_kernel (req : ShieldReq) : result KernelShieldReq :=
  proof ← host_stark_proof_to_kernel (sr_proof req);
  mret {| ksr_pubkey_hash := sr_pubkey_hash req; ksr_fee := sr_fee req; ksr_v := sr_v req;
          ksr_producer_fee := sr_producer_fee req; ksr_proof := proof;
          ksr_client_cm := sr_client_cm req; ksr_client_enc := sr_client_enc req;
          ksr_producer_cm := sr_producer_cm req; ksr_producer_enc := sr_producer_enc req |}.

Definition transfer_req_to_kernel (req : TransferReq) : result KernelTransferReq :=
  proof ← host_stark_proof_to_kernel (tr_proof req);
  mret {| ktr_root := tr_root req; ktr_nullifiers := tr_nullifiers req; ktr_fee := tr_fee req;
          ktr_cm_1 := tr_cm_1 req; ktr_cm_2 := tr_cm_2 req; ktr_cm_3 := tr_cm_3 req;
          ktr_enc_1 := tr_enc_1 req; ktr_enc_2 := tr_enc_2 req; ktr_enc_3 := tr_enc_3 req;
          ktr_proof := proof |}.

Definition unshield_req_to_kernel (req : UnshieldReq) : result KernelUnshieldReq :=
  proof ← host_stark_proof_to_kernel (ur_proof req);
  mret {| kur_root := ur_root req; kur_nullifiers := ur_nullifiers req; kur_v_pub := ur_v_pub req;
          kur_fee := ur_fee req; kur_recipient := ur_recipient req;
          kur_cm_change := ur_cm_change req; kur_enc_change := ur_enc_change req;
          kur_cm_fee := ur_cm_fee req; kur_enc_fee := ur_enc_fee req; kur_proof := proof |}.

(** ** Texts *)

Definition trim_quotes (s : bytes) : bytes :=
  let s := strip_while (length s) [[Byte.x22]] s in
  rev (strip_while (length s) [[Byte.x22]] (rev s)).

(** [lines]; what the search below does with a line does not see a trailing [\r]. *)
Fixpoint split_lines (s line : bytes) : list bytes :=
  match s with
  | [] => [rev line]
  | c :: s => if decide (c = Byte.x0a) then rev line :: split_lines s [] else split_lines s (c :: line)
  end.

Definition extract_octez_prefixed_value (output prefix : bytes) : option string :=
  head (omap (fun line =>
    value ← trim <$> strip_prefix prefix (trim line);
    if (length value =? 0)%nat then None else Some (bytes_str value)) (split_lines output [])).

Definition parse_octez_address_info (output : bytes) : result string :=
  ok_or (extract_octez_prefixed_value output (str_bytes "Hash:"))
    ("could not parse octez-client address hash from output: " +:+ bytes_str output).

Definition QUOTE : string := bytes_str [Byte.x22].

(** ** Witnesses of the circuits *)

(** A note being spent, its path in the tree, the key that signs and its path. *)
Record SignedInput := {
  si_note : Note;
  si_siblings : list F;
  si_key_idx : N;
  si_auth_pub_seed : F;
  si_auth_path : list F;
  si_sig : list F
}.

Definition ensure_path_matches_root `{Hex} (path_root expected_root : F) (tree_idx : N) : result unit :=
  fail_if (negb (bool_decide (path_root = expected_root)))
    ("stale Merkle path for note at tree index " +:+ show_N tree_idx +:+ ": expected root " +:+
     short expected_root +:+ ", got " +:+ short path_root).

Section Arguments.
Context `{Blake2s, Hex}.

Definition input_args (i : SignedInput) : list string :=
  let note := si_note i in
  [felt_to_hex (note_nullifier note); felt_to_hex (note_nk_spend note);
   felt_to_hex (note_auth_root note); felt_to_hex (si_auth_pub_seed i);
   felt_u64_to_hex (si_key_idx i); felt_to_hex (note_d_j note); felt_u64_to_hex (note_v note);
   felt_to_hex (note_rseed note); felt_u64_to_hex (note_index note mod U64_LIMIT)].

(** The inputs, then their tree paths, key paths and signatures. *)
Definition inputs_args (inputs : list SignedInput) : list string :=
  (inputs ≫= input_args) ++ (felt_to_hex <$> (inputs ≫= si_siblings)) ++
  (felt_to_hex <$> (inputs ≫= si_auth_path)) ++ (felt_to_hex <$> (inputs ≫= si_sig)).

(** What opens an output note, the commitment aside. *)
Definition opening_args (d_j : F) (v : N) (rseed auth_root auth_pub_seed nk_tag : F) : list string :=
  [felt_to_hex d_j; felt_u64_to_hex v; felt_to_hex rseed; felt_to_hex auth_root;
   felt_to_hex auth_pub_seed; felt_to_hex nk_tag].

Definition address_args (a : PaymentAddress) (v : N) (on : PreparedOutputNote) : list string :=
  opening_args (pa_d_j a) v (on_rseed on) (pa_auth_root a) (pa_auth_pub_seed a) (pa_nk_tag a) ++
  [felt_to_hex (on_mh on)].
Definition state_args (st : WalletAddressState) (v : N) (on : PreparedOutputNote) : list string :=
  opening_args (wa_d_j st) v (on_rseed on) (wa_auth_root st) (wa_auth_pub_seed st) (wa_nk_tag st) ++
  [felt_to_hex (on_mh on)].

Definition transfer_fields (n : nat) : nat :=
  4 + 9 * n + n * DEPTH + n * AUTH_DEPTH + n * WOTS_CHAINS + 24.

Definition transfer_args (auth_domain root : F) (fee : N) (inputs : list SignedInput)
    (recipient : PaymentAddress) (amount : N) (note_1 : PreparedOutputNote)
    (change_state : WalletAddressState) (change : N) (note_2 : PreparedOutputNote)
    (producer : PaymentAddress) (dal_fee : N) (note_3 : PreparedOutputNote) : list string :=
  [felt_u64_to_hex (N.of_nat (transfer_fields (length inputs)));
   felt_u64_to_hex (N.of_nat (length inputs)); felt_to_hex auth_domain; felt_to_hex root;
   felt_u64_to_hex fee] ++ inputs_args inputs ++
  (felt_to_hex (on_cm note_1) :: address_args recipient amount note_1) ++
  (felt_to_hex (on_cm note_2) :: state_args change_state change note_2) ++
  (felt_to_hex (on_cm note_3) :: address_args producer dal_fee note_3).

Definition unshield_fields (n : nat) : nat :=
  6 + 9 * n + n * DEPTH + n * AUTH_DEPTH + n * WOTS_CHAINS + 15.

Definition unshield_args (auth_domain root : F) (amount fee : N) (recipient_f : F)
    (inputs : list SignedInput) (change : N)
    (change_data : option (WalletAddressState * PreparedOutputNote))
    (producer : PaymentAddress) (dal_fee : N) (producer_note : PreparedOutputNote) : list string :=
  [felt_u64_to_hex (N.of_nat (unshield_fields (length inputs)));
   felt_u64_to_hex (N.of_nat (length inputs)); felt_to_hex auth_domain; felt_to_hex root;
   felt_u64_to_hex amount; felt_u64_to_hex fee; felt_to_hex recipient_f] ++ inputs_args inputs ++
  [felt_u64_to_hex (if 0 <? change then 1 else 0)] ++
  match change_data with
  | Some (change_state, note) => state_args change_state change note
  | None => replicate 7 "0x0"%string
  end ++
  address_args producer dal_fee producer_note.

Definition shield_fields : nat := 16 + WOTS_CHAINS + AUTH_DEPTH + 5.

Definition shield_args (auth_domain pubkey_hash : F) (amount fee producer_fee : N)
    (note_recipient note_producer : PreparedOutputNote) (auth_root auth_pub_seed : F)
    (recipient : PaymentAddress) (blind : F) (key_idx : N) (sig auth_path : list F) (producer : PaymentAddress) : list string :=
  [felt_u64_to_hex (N.of_nat shield_fields); felt_to_hex auth_domain; felt_to_hex pubkey_hash;
   felt_u64_to_hex amount; felt_u64_to_hex fee; felt_u64_to_hex producer_fee;
   felt_to_hex (on_cm note_recipient); felt_to_hex (on_cm note_producer);
   felt_to_hex (on_mh note_recipient); felt_to_hex (on_mh note_producer);
   felt_to_hex auth_root; felt_to_hex auth_pub_seed; felt_to_hex (pa_nk_tag recipient);
   felt_to_hex (pa_d_j recipient); felt_to_hex (on_rseed note_recipient); felt_to_hex blind; felt_u64_to_hex key_idx] ++
  (felt_to_hex <$> sig) ++ (felt_to_hex <$> auth_path) ++
  [felt_to_hex (pa_auth_root producer); felt_to_hex (pa_auth_pub_seed producer);
   felt_to_hex (pa_nk_tag producer); felt_to_hex (pa_d_j producer); felt_to_hex (on_rseed note_producer)].
End Arguments.

Section Commands.
Context `{Blake2s, MlKem, !MlKemImport, Aead, Hex, TezosContracts, Target, HttpClients, Json, WireCodecs}.
Variable env : CmdEnv.

(** ** Running on a loaded wallet *)

Definition on_wallet {A} (m : ST WalletFile A) : ST CmdState A := fun s =>
  let '(w, r) := m (cs_wallet s) in
  ({| cs_wallet := w; cs_disk := cs_disk s; cs_saves := cs_saves s; cs_trace := cs_trace s |}, r).

Definition save : ST CmdState unit := fun s =>
  let '(d, r) := save_wallet (ce_save env (cs_saves s)) (cs_wallet s) (cs_disk s) in
  ({| cs_wallet := cs_wallet s; cs_disk := d; cs_saves := S (cs_saves s); cs_trace := cs_trace s |}, r).

Definition emit (e : Effect) : ST CmdState unit :=
  writes (fun s => {| cs_wallet := cs_wallet s; cs_disk := cs_disk s; cs_saves := cs_saves s;
                      cs_trace := cs_trace s ++ [e] |}).

(** [load_wallet(path)?], then the rest of the command. *)
Definition with_wallet {A} (m : ST CmdState A) : ST World A := fun o =>
  match load_wallet_files (ce_rebuild_trapped env) (ce_load env) (wo_disk o) with
  | Ok w =>
      let '(s, r) := m {| cs_wallet := w; cs_disk := wo_disk o; cs_saves := 0; cs_trace := wo_trace o |} in
      ({| wo_disk := cs_disk s; wo_trace := cs_trace s |}, r)
  | Err e => (o, Err e)
  | Panic e => (o, Panic e)
  end.

(** Nothing is given to the prover before the keys it signs with are burned on disk. *)
Definition persist_wallet_and_make_proof (circuit : string) (args : list string) (keys : list (N * N))
    : ST CmdState Proof_ :=
  save ;;
  emit (Proved circuit args keys) ;;
  lift (make_proof (ce_prover env) circuit args).

Definition submit_kernel_message (message : KernelInboxMessage) : ST CmdState (option string) :=
  payload ← lift (encode_kernel_inbox_message message);
  emit (Sent message) ;;
  lift (ce_submit env payload).

Definition run_octez_client (args : list string) : result (option string) :=
  combined ← ce_octez env args;
  mret (extract_operation_hash combined).

(** ** Signing *)

(** One selected note: its path in the snapshot's tree, and the next key of its address. *)
Definition sign_input (snapshot : RollupStateSnapshot) (root sighash : F) (note : Note)
    : ST WalletFile SignedInput :=
  let tree_idx := note_index note in
  path_resp ← lift (merkle_path snapshot tree_idx);
  lift (ensure_path_matches_root (mp_root path_resp) root tree_idx) ;;
  ask_j ← reads (fun w => mret (derive_ask (acc_ask_base (account w)) (note_addr_index note)));
  '(key_idx, auth_root, auth_pub_seed, path) ← reserve_next_auth (note_addr_index note);
  lift (fail_if (negb (bool_decide (auth_root = note_auth_root note)))
    ("auth_root mismatch for note at tree index " +:+ show_N tree_idx)) ;;
  let '(sig, _, _) := wots_sign ask_j key_idx sighash in
  mret {| si_note := note; si_siblings := mp_siblings path_resp; si_key_idx := key_idx;
          si_auth_pub_seed := auth_pub_seed; si_auth_path := path; si_sig := sig |}.

Fixpoint sign_inputs (snapshot : RollupStateSnapshot) (root sighash : F) (notes : list Note)
    : ST WalletFile (list SignedInput) :=
  match notes with
  | [] => mret []
  | note :: notes =>
      input ← sign_input snapshot root sighash note;
      inputs ← sign_inputs snapshot root sighash notes;
      mret (input :: inputs)
  end.

(** The keys that signed. *)
Definition signed_keys (inputs : list SignedInput) : list (N * N) :=
  (fun i => (note_addr_index (si_note i), si_key_idx i)) <$> inputs.

Definition register (nullifiers : list F) (description : string) (operation_hash : option string)
    : ST CmdState unit :=
  on_wallet (writes (register_pending_spend nullifiers description operation_hash)).

(** ** Transfers *)

(** From the loaded wallet on; [recipient] is what [load_address] reads. *)
Definition transfer_loaded (snapshot : RollupStateSnapshot) (recipient : result PaymentAddress)
    (amount fee : N) (memo : option string) : ST CmdState unit :=
  let root := current_root snapshot in
  let auth_domain := ss_auth_domain snapshot in
  let dal_fee := ce_dal_fee env in
  let producer_address := ce_dal_fee_address env in
  outgoing_seed ← on_wallet (reads (fun w => mret (acc_outgoing_seed (account w))));
  recipient ← lift recipient;
  total ← lift (total_spend amount fee dal_fee "transfer total spend overflow");
  selected ← on_wallet (reads (fun w => select_notes w total));
  notes ← on_wallet (reads (fun w => selected_notes w selected));
  let change := change_of notes amount fee dal_fee in
  let nullifiers := note_nullifier <$> notes in
  note_1 ← lift (build_output_note_with_outgoing (ce_random env 0) recipient amount
    (str_bytes <$> memo) outgoing_seed TransferRecipient);
  '(change_state, note_2) ← on_wallet
    (change_output (ce_rebuild_trapped env) (ce_random env 1) change outgoing_seed TransferChange);
  note_3 ← lift (build_output_note_with_outgoing (ce_random env 2) producer_address dal_fee
    dal_memo outgoing_seed ProducerFee);
  let sighash := transfer_sighash auth_domain root nullifiers fee (on_cm note_1) (on_cm note_2)
    (on_cm note_3) (on_mh note_1) (on_mh note_2) (on_mh note_3) in
  inputs ← on_wallet (sign_inputs snapshot root sighash notes);
  let args := transfer_args auth_domain root fee inputs recipient amount note_1 change_state change
    note_2 producer_address dal_fee note_3 in
  proof ← persist_wallet_and_make_proof "run_transfer" args (signed_keys inputs);
  save ;;
  let req := {| tr_root := root; tr_nullifiers := nullifiers; tr_fee := fee; tr_cm_1 := on_cm note_1;
                tr_cm_2 := on_cm note_2; tr_cm_3 := on_cm note_3; tr_enc_1 := on_enc note_1;
                tr_enc_2 := on_enc note_2; tr_enc_3 := on_enc note_3; tr_proof := proof |} in
  kernel_req ← lift (transfer_req_to_kernel req);
  operation_hash ← submit_kernel_message (KITransfer kernel_req);
  register nullifiers ("transfer " +:+ show_N amount) operation_hash ;;
  save.

Definition cmd_transfer_rollup (recipient : result PaymentAddress) (amount : N) (fee : option N)
    (memo : option string) : ST World unit :=
  snapshot ← lift (load_state_snapshot_at_head (ce_url env) (ce_concurrency env) (ce_schedule env));
  fee ← lift (resolve_requested_tx_fee fee (ss_required_tx_fee snapshot));
  lift (ensure_positive_dal_fee (ce_dal_fee env)) ;;
  with_wallet (transfer_loaded snapshot recipient amount fee memo).

(** ** Unshields *)

Definition unshield_loaded (snapshot : RollupStateSnapshot) (recipient : string) (amount fee : N)
    : ST CmdState unit :=
  let root := current_root snapshot in
  let auth_domain := ss_auth_domain snapshot in
  let dal_fee := ce_dal_fee env in
  let producer_address := ce_dal_fee_address env in
  outgoing_seed ← on_wallet (reads (fun w => mret (acc_outgoing_seed (account w))));
  total ← lift (total_spend amount fee dal_fee "unshield total spend overflow");
  selected ← on_wallet (reads (fun w => select_notes w total));
  notes ← on_wallet (reads (fun w => selected_notes w selected));
  let change := change_of notes amount fee dal_fee in
  let nullifiers := note_nullifier <$> notes in
  change_data ←
    (if 0 <? change then
       d ← on_wallet (change_output (ce_rebuild_trapped env) (ce_random env 0) change
         outgoing_seed UnshieldChange);
       mret (Some d)
     else mret None);
  let cm_change := from_option (fun d => on_cm (snd d)) ZERO change_data in
  let mh_change := from_option (fun d => on_mh (snd d)) ZERO change_data in
  producer_note ← lift (build_output_note_with_outgoing (ce_random env 1) producer_address dal_fee
    dal_memo outgoing_seed ProducerFee);
  let recipient_f := hash (str_bytes recipient) in
  let sighash := unshield_sighash auth_domain root nullifiers amount fee recipient_f cm_change
    mh_change (on_cm producer_note) (on_mh producer_note) in
  inputs ← on_wallet (sign_inputs snapshot root sighash notes);
  let args := unshield_args auth_domain root amount fee recipient_f inputs change change_data
    producer_address dal_fee producer_note in
  proof ← persist_wallet_and_make_proof "run_unshield" args (signed_keys inputs);
  save ;;
  let req := {| ur_root := root; ur_nullifiers := nullifiers; ur_v_pub := amount; ur_fee := fee;
                ur_recipient := recipient; ur_cm_change := cm_change;
                ur_enc_change := (fun d => on_enc (snd d)) <$> change_data;
                ur_cm_fee := on_cm producer_note; ur_enc_fee := on_enc producer_note;
                ur_proof := proof |} in
  kernel_req ← lift (unshield_req_to_kernel req);
  operation_hash ← submit_kernel_message (KIUnshield kernel_req);
  register nullifiers ("unshield " +:+ show_N amount) operation_hash ;;
  save.

Definition source_address_info : result string :=
  output ← ce_octez env ["show"; "address"; ce_source_alias env]%string;
  parse_octez_address_info output.

Definition resolve_rollup_unshield_recipient (recipient : option string) : result string :=
  match recipient with
  | Some value => validate_l1_withdrawal_recipient value
  | None => source_address_info
  end.

Definition cmd_unshield_rollup (amount : N) (fee : option N) (recipient : option string) : ST World unit :=
  recipient ← lift (resolve_rollup_unshield_recipient recipient);
  snapshot ← lift (load_state_snapshot_at_head (ce_url env) (ce_concurrency env) (ce_schedule env));
  fee ← lift (resolve_requested_tx_fee fee (ss_required_tx_fee snapshot));
  lift (ensure_positive_dal_fee (ce_dal_fee env)) ;;
  with_wallet (unshield_loaded snapshot recipient amount fee).

(** ** Shields *)

Definition select_pending_deposit_by_pubkey_hash (w : WalletFile) (pubkey_hash : F)
    : result PendingDeposit :=
  ok_or (head (filter (fun p => pd_pubkey_hash p = pubkey_hash) (wf_pending_deposits w)))
    ("deposit pool " +:+ hex_str pubkey_hash +:+ " is not tracked by this wallet").

(** [p.shielded_cm = Some(cm)] on every entry of the pool. *)
Definition mark_shielded (pubkey_hash cm : F) (w : WalletFile) : WalletFile :=
  wf_with_pending_deposits
    ((fun p => if bool_decide (pd_pubkey_hash p = pubkey_hash) then
       {| pd_pubkey_hash := pd_pubkey_hash p; pd_blind := pd_blind p;
          pd_address_index := pd_address_index p; pd_auth_domain := pd_auth_domain p;
          pd_amount := pd_amount p; pd_operation_hash := pd_operation_hash p;
          pd_shielded_cm := Some cm |}
     else p) <$> wf_pending_deposits w) w.

Definition shield_loaded (snapshot : RollupStateSnapshot) (pubkey_hash : F) (amount : N)
    : ST CmdState unit :=
  let auth_domain := ss_auth_domain snapshot in
  let fee := ss_required_tx_fee snapshot in
  let producer_fee := ce_dal_fee env in
  let producer_address := ce_dal_fee_address env in
  pending ← on_wallet (reads (fun w => select_pending_deposit_by_pubkey_hash w pubkey_hash));
  let address_index := pd_address_index pending in
  lift (fail_if (negb (bool_decide (auth_domain = pd_auth_domain pending)))
    ("auth_domain mismatch: kernel " +:+ short auth_domain +:+ " != local PendingDeposit " +:+
     short (pd_auth_domain pending) +:+ " for pool " +:+ hex_str pubkey_hash)) ;;
  keys ← on_wallet (reads (fun w => mret (kem_keys w address_index)));
  let '(ek_v, _, ek_d, _) := keys in
  recipient_state ← on_wallet (reads (fun w =>
    ok_or (wf_addresses w !! N.to_nat address_index)
      ("missing wallet address record " +:+ show_N address_index)));
  let recipient := payment_address recipient_state ek_v ek_d in
  outgoing_seed ← on_wallet (reads (fun w => mret (acc_outgoing_seed (account w))));
  note_recipient ← lift (build_output_note_with_outgoing (ce_random env 0) recipient amount None
    outgoing_seed ShieldOutput);
  note_producer ← lift (build_output_note_with_outgoing (ce_random env 1) producer_address
    producer_fee dal_memo outgoing_seed ProducerFee);
  let sighash := shield_sighash auth_domain pubkey_hash amount fee producer_fee
    (on_cm note_recipient) (on_cm note_producer) (on_mh note_recipient) (on_mh note_producer) in
  ask_j ← on_wallet (reads (fun w => mret (derive_ask (acc_ask_base (account w)) address_index)));
  '(key_idx, auth_root, auth_pub_seed, auth_path) ← on_wallet (reserve_next_auth address_index);
  lift (fail_if (negb (bool_decide (auth_root = pa_auth_root recipient) &&
                       bool_decide (auth_pub_seed = pa_auth_pub_seed recipient)))
    ("auth tree mismatch for address " +:+ show_N address_index +:+ ": reserved (" +:+
     short auth_root +:+ ", " +:+ short auth_pub_seed +:+ ") but recipient state has (" +:+
     short (pa_auth_root recipient) +:+ ", " +:+ short (pa_auth_pub_seed recipient) +:+ ")")) ;;
  let recomputed_pkh := deposit_pubkey_hash auth_domain auth_root auth_pub_seed (pd_blind pending) in
  lift (fail_if (negb (bool_decide (recomputed_pkh = pubkey_hash)))
    ("pubkey_hash mismatch: recomputed " +:+ hex_str recomputed_pkh +:+ " != requested " +:+
     hex_str pubkey_hash)) ;;
  let '(sig, _, _) := wots_sign ask_j key_idx sighash in
  let args := shield_args auth_domain pubkey_hash amount fee producer_fee note_recipient
    note_producer auth_root auth_pub_seed recipient (pd_blind pending) key_idx sig auth_path
    producer_address in
  proof ← persist_wallet_and_make_proof "run_shield" args [(address_index, key_idx)];
  save ;;
  let req := {| sr_pubkey_hash := pubkey_hash; sr_fee := fee; sr_v := amount;
                sr_producer_fee := producer_fee; sr_proof := proof;
                sr_client_cm := on_cm note_recipient; sr_client_enc := on_enc note_recipient;
                sr_producer_cm := on_cm note_producer; sr_producer_enc := on_enc note_producer |} in
  kernel_req ← lift (shield_req_to_kernel req);
  submit_kernel_message (KIShield kernel_req) ;;
  on_wallet (writes (mark_shielded pubkey_hash (on_cm note_recipient))) ;;
  save.

(** The amount to shield: what is asked, or all the pool holds beyond the fees. *)
Definition shield_amount (pubkey_hash : F) (pool_balance fee producer_fee : N) (amount_arg : option N)
    : result N :=
  min_fees ← ok_or (checked_add_u64 fee producer_fee) "fee + producer_fee overflow";
  fail_if (pool_balance <? min_fees)
    ("deposit pool " +:+ hex_str pubkey_hash +:+ " balance " +:+ show_N pool_balance +:+
     " < required fees " +:+ show_N min_fees +:+ " (tx_fee " +:+ show_N fee +:+ " + producer_fee " +:+
     show_N producer_fee +:+ ")") ;;
  let amount := default (pool_balance - min_fees) amount_arg in
  total_drain ← ok_or (checked_add_u64 amount min_fees) "shield total draw overflow";
  fail_if (pool_balance <? total_drain)
    ("deposit pool " +:+ hex_str pubkey_hash +:+ " balance " +:+ show_N pool_balance +:+
     " < requested draw " +:+ show_N total_drain +:+ " (amount " +:+ show_N amount +:+ " + tx_fee " +:+
     show_N fee +:+ " + producer_fee " +:+ show_N producer_fee +:+ ")") ;;
  mret amount.

Definition cmd_shield_rollup (pubkey_hash_arg : bytes) (amount_arg : option N) : ST World unit :=
  pubkey_hash ← lift (parse_pubkey_hash_hex pubkey_hash_arg);
  head_hash ← lift (head_hash (ce_url env));
  snapshot ← lift (load_state_snapshot_at_block (ce_url env) (ce_concurrency env) (ce_schedule env) head_hash);
  lift (ensure_positive_dal_fee (ce_dal_fee env)) ;;
  balance ← lift (try_read_deposit_balance (ce_url env) head_hash pubkey_hash);
  pool_balance ← lift (ok_or balance
    ("deposit pool " +:+ hex_str pubkey_hash +:+ " not found or already drained"));
  amount ← lift (shield_amount pubkey_hash pool_balance (ss_required_tx_fee snapshot)
    (ce_dal_fee env) amount_arg);
  with_wallet (shield_loaded snapshot pubkey_hash amount).

(** ** Deposits *)

Definition derive_deposit_blind (master_sk : F) (address_index deposit_nonce : N) : F :=
  hash (str_bytes "tzel-deposit-blind" ++ F_bytes master_sk ++ le_bytes 4 address_index ++ le_bytes 8 deposit_nonce).

Definition smart_rollup_address_url : bytes :=
  base_url (ce_url env) ++ str_bytes "/global/smart_rollup_address".

Definition ensure_rollup_address_matches : result unit :=
  let url := smart_rollup_address_url in
  raw ← map_err (rpc_failed url) (get_text url);
  let served := default (trim_quotes (trim raw)) (json_string raw) in
  fail_if (negb (bool_decide (served = str_bytes (ce_rollup_address env))))
    ("rollup-node served address (" +:+ bytes_str served +:+
     ") does not match wallet profile.rollup_address (" +:+ ce_rollup_address env +:+
     "); refusing to send a bridge deposit. Update the wallet profile or point rollup_node_url at the right rollup.").

Definition ensure_verifier_configured (block_ref : bytes) : result unit :=
  present ← read_durable_length_at_block (ce_url env) block_ref PATH_VERIFIER_CONFIG;
  fail_if (bool_decide (present = None))
    "rollup verifier is not configured yet — refusing to send a bridge deposit. The kernel rejects deposits before verifier configuration. Wait for the admin to install the verifier config and retry.".

Definition ensure_bridge_ticketer_matches (block_ref : bytes) (expected_ticketer : string) : result unit :=
  present ← read_durable_length_at_block (ce_url env) block_ref PATH_BRIDGE_TICKETER;
  fail_if (bool_decide (present = None))
    "rollup bridge ticketer is not configured yet — refusing to send a bridge deposit. The kernel rejects deposits before bridge configuration." ;;
  b ← read_durable_bytes_at_block (ce_url env) block_ref PATH_BRIDGE_TICKETER;
  configured ← ok_or (from_utf8 b) "stored bridge ticketer is not UTF-8";
  fail_if (negb (bool_decide (configured = expected_ticketer)))
    ("wallet profile's bridge_ticketer " +:+ expected_ticketer +:+
     " does not match the rollup's configured ticketer " +:+ configured +:+
     "; refusing to send a bridge deposit that the kernel would reject.").

Definition deposit_to_bridge (pubkey_hash : F) (amount_mutez : N) : ST CmdState (option string) :=
  let mint_arg := "Pair 0x" +:+ bytes_str (hex_encode (str_bytes (deposit_recipient_string pubkey_hash))) +:+
    " " +:+ QUOTE +:+ ce_rollup_address env +:+ QUOTE in
  emit (Minted pubkey_hash amount_mutez) ;;
  lift (run_octez_client
    ["transfer"; mutez_to_tez_string amount_mutez; "from"; ce_source_alias env; "to";
     ce_bridge_ticketer env; "--entrypoint"; "mint"; "--arg"; mint_arg; "--burn-cap";
     ce_burn_cap env]%string).

(** The first entry of the pool takes the operation's hash. *)
Fixpoint record_operation (pubkey_hash : F) (operation_hash : option string) (l : list PendingDeposit)
    : list PendingDeposit :=
  match l with
  | [] => []
  | p :: l =>
      if bool_decide (pd_pubkey_hash p = pubkey_hash) then
        {| pd_pubkey_hash := pd_pubkey_hash p; pd_blind := pd_blind p;
           pd_address_index := pd_address_index p; pd_auth_domain := pd_auth_domain p;
           pd_amount := pd_amount p; pd_operation_hash := operation_hash;
           pd_shielded_cm := pd_shielded_cm p |} :: l
      else p :: record_operation pubkey_hash operation_hash l
  end.

Definition deposit_loaded (head_hash : bytes) (auth_domain : F) (amount : N) (prepare_only : bool)
    : ST CmdState unit :=
  '(address_state, recipient_address) ← on_wallet (next_address (ce_rebuild_trapped env));
  save ;;
  lift ensure_rollup_address_matches ;;
  lift (ensure_verifier_configured head_hash) ;;
  lift (ensure_bridge_ticketer_matches head_hash (ce_bridge_ticketer env)) ;;
  w ← on_wallet (reads (fun w => mret w));
  let deposit_nonce := wf_deposit_nonce w in
  next_nonce ← lift (ok_or (checked_add_u64 deposit_nonce 1) "deposit nonce overflow");
  on_wallet (writes (wf_with_deposit_nonce next_nonce)) ;;
  let blind := derive_deposit_blind (wf_master_sk w) (wa_index address_state) deposit_nonce in
  let pubkey_hash := deposit_pubkey_hash auth_domain (pa_auth_root recipient_address)
    (pa_auth_pub_seed recipient_address) blind in
  on_wallet (writes (fun w => wf_with_pending_deposits
    (wf_pending_deposits w ++
     [{| pd_pubkey_hash := pubkey_hash; pd_blind := blind; pd_address_index := wa_index address_state;
         pd_auth_domain := auth_domain; pd_amount := amount; pd_operation_hash := None;
         pd_shielded_cm := None |}]) w)) ;;
  save ;;
  if prepare_only then mret tt
  else
    operation_hash ← deposit_to_bridge pubkey_hash amount;
    on_wallet (writes (fun w => wf_with_pending_deposits
      (record_operation pubkey_hash operation_hash (wf_pending_deposits w)) w)) ;;
    save.

Definition cmd_bridge_deposit (amount : N) (prepare_only : bool) : ST World unit :=
  head_hash ← lift (head_hash (ce_url env));
  auth_domain ← lift (read_felt_at_block (ce_url env) head_hash PATH_AUTH_DOMAIN);
  with_wallet (deposit_loaded head_hash auth_domain amount prepare_only).
End Commands.
