(* ===== verification/WalletKeyUse.v ===== *)
(** * WalletKeyUse: no one-time key signs twice

    Over any sequence of commands, synchronisations and restored wallet files, whatever the
    node, the prover and the operator answer and whichever saves fail, no one-time key of
    the wallet signs for the prover twice: every key is burned on disk, with its floor,
    before its signature leaves, and a file behind the floor is not loaded.  A load that
    cannot read the floor checks nothing, so it must not follow a restored file. *)

From S2P Require Import Prelude Felt Externals Types Recipients Hashing Wots Notes CanonicalWire.
From S2P Require Import KernelWire Bds Wallet WalletKeys WalletScan WalletRpc WalletSync WalletCommands.

Local Open Scope N_scope.

(** The keys that signed what was given to the prover. *)
Definition released (l : list Effect) : list (N * N) :=
  l ≫= fun e => match e with Proved _ _ keys => keys | _ => [] end.

Lemma released_snoc l e : released (l ++ [e]) = released l ++ released [e].
Proof. unfold released. by rewrite bind_app. Qed.

Section KeyUse.
Context `{Blake2s, MlKem, !MlKemImport, Aead, Hex, TezosContracts, WordTarget, HttpClients, Json, WireCodecs}.

(** ** Wallets that only move forward *)

(** Every key of the list comes before the next one of its address. *)
Definition below (keys : list (N * N)) (w : WalletFile) : Prop :=
  forall j k, (j, k) ∈ keys -> k < next_unused w j.

Record forward (w w' : WalletFile) : Prop := {
  fw_ok : wallet_ok w';
  fw_master : wf_master_sk w' = wf_master_sk w;
  fw_next : forall j, next_unused w j <= next_unused w' j
}.

Lemma forward_refl w : wallet_ok w -> forward w w.
Proof. intros Hw. by constructor. Qed.

Lemma forward_trans w1 w2 w3 : forward w1 w2 -> forward w2 w3 -> forward w1 w3.
Proof.
  intros [_ E1 N1] [Hw E2 N2]. constructor; [done|congruence|]. intros j. etrans; [apply N1|apply N2].
Qed.

Lemma below_forward keys w w' : forward w w' -> below keys w -> below keys w'.
Proof. intros [_ _ Hn] Hb j k Hin. eapply N.lt_le_trans; [by apply Hb|apply Hn]. Qed.

(** What holds the keys is the same. *)
Definition same_keys (w w' : WalletFile) : Prop :=
  wf_master_sk w' = wf_master_sk w /\ wf_addresses w' = wf_addresses w /\
  wf_addr_counter w' = wf_addr_counter w /\ wf_wots_key_indices w' = wf_wots_key_indices w.

Lemma same_keys_forward w w' : wallet_ok w -> same_keys w w' -> forward w w'.
Proof.
  intros [[Ha Hi [Hl1 Hl2]] Hc] (Em & Ea & Ec & Ek).
  assert (forall j, next_unused w' j = next_unused w j) as Hn
    by (intros j; unfold next_unused; by rewrite Ea, Ek).
  assert (addresses_len w' = addresses_len w) as El by (unfold addresses_len; by rewrite Ea).
  constructor; [|done|intros j; by rewrite Hn]. split; [constructor|by rewrite Ec, El].
  - intros i st. rewrite Ea. intros Hst. eapply address_ok_master; [exact Em|by apply Ha].
  - intros j n. rewrite Ek, Hn, El, Ec. apply Hi.
  - by rewrite Ec, El.
Qed.

Lemma next_address_forward w :
  wallet_ok w -> wf_addr_counter w + 1 < U32_LIMIT -> forward w (fst (next_address false w)).
Proof.
  intros Hw Hc. destruct (next_address_ok w Hw Hc) as (w' & bds & E & Hw' & Hs & Hn & _).
  rewrite E. cbn [fst]. constructor; [done|by rewrite (sb_master _ _ Hs)|]. intros j. by rewrite Hn.
Qed.

Lemma change_output_forward rnd change seed role w :
  wallet_ok w -> wf_addr_counter w + 1 < U32_LIMIT ->
  forward w (fst (change_output false rnd change seed role w)).
Proof.
  intros Hw Hc. destruct (next_address_ok w Hw Hc) as (w' & bds & E & Hw' & Hs & Hn & _).
  assert (forward w w') as Hf.
  { constructor; [done|by rewrite (sb_master _ _ Hs)|]. intros j. by rewrite Hn. }
  unfold change_output. rewrite (ST_run _ _ _ _ _ E). cbv beta iota.
  refine (eq_ind w' (forward w) Hf _ (keeps_run (eq w') _ w' _ eq_refl)).
  apply keeps_bind; [apply keeps_reads|]. intros [[[? ?] ?] ?]. keeps_walk.
Qed.

(** *** Signing *)

Lemma reserve_forward w j :
  wallet_ok w ->
  match reserve_next_auth j w with
  | (w', Ok (k, root, seed, path)) =>
      k = next_unused w j /\ forward w w' /\ next_unused w' j = k + 1
  | (w', _) => w' = w
  end.
Proof.
  intros Hw. pose proof (reserve_next_auth_spec w j Hw) as Hr.
  destruct (wf_addresses w !! N.to_nat j); [|by rewrite Hr].
  destruct (decide _); [|by rewrite Hr].
  destruct Hr as (w' & root & path & -> & _ & Hw' & Hs & _ & Hn).
  split; [done|]. rewrite Hn, decide_True by done. split; [|done].
  constructor; [done|by rewrite (sb_master _ _ Hs)|]. intros i. rewrite Hn.
  destruct (decide (i = j)) as [->|]; lia.
Qed.

(** Keys handed out between two states of the wallet, each once. *)
Definition handed_out (keys : list (N * N)) (w w' : WalletFile) : Prop :=
  NoDup keys /\ forall j k, (j, k) ∈ keys -> next_unused w j <= k < next_unused w' j.

Lemma sign_input_forward snapshot root sighash note w :
  wallet_ok w ->
  match sign_input snapshot root sighash note w with
  | (w', Ok i) => forward w w' /\ si_note i = note /\
      si_key_idx i = next_unused w (note_addr_index note) /\
      next_unused w' (note_addr_index note) = si_key_idx i + 1
  | (w', _) => forward w w'
  end.
Proof.
  intros Hw. pose proof (forward_refl w Hw) as Hr0. unfold sign_input.
  rewrite ST_bind_eq. unfold lift at 1. destruct (merkle_path _ _) as [p|e|e]; [|done..].
  rewrite ST_bind_eq. unfold lift at 1. destruct (ensure_path_matches_root _ _ _) as [[]|e|e]; [|done..].
  erewrite ST_run by reflexivity. cbv beta. pose proof (reserve_forward w (note_addr_index note) Hw) as Hr.
  rewrite ST_bind_eq. destruct (reserve_next_auth _ w) as [w' [[[[k r] seed] path]|e|e]]; [|by subst w'..].
  destruct Hr as (-> & Hf & Hn).
  rewrite ST_bind_eq. unfold lift at 1. destruct (fail_if _ _) as [[]|e|e]; [|done..].
  by destruct (wots_sign _ _ _) as [[sig pk] digits].
Qed.

Lemma sign_inputs_forward snapshot root sighash notes w :
  wallet_ok w ->
  match sign_inputs snapshot root sighash notes w with
  | (w', Ok inputs) => forward w w' /\ si_note <$> inputs = notes /\ handed_out (signed_keys inputs) w w'
  | (w', _) => forward w w'
  end.
Proof.
  revert w. induction notes as [|note notes IH]; intros w Hw; cbn [sign_inputs].
  - split; [by apply forward_refl|]. split; [done|]. split; [constructor|]. by intros j k ?%not_elem_of_nil.
  - pose proof (sign_input_forward snapshot root sighash note w Hw) as Hi.
    rewrite ST_bind_eq. destruct (sign_input _ _ _ _ w) as [w1 [i|e|e]]; [|done..].
    destruct Hi as (Hf1 & Hnote & Hk & Hn). specialize (IH w1 (fw_ok _ _ Hf1)).
    rewrite ST_bind_eq. destruct (sign_inputs _ _ _ _ w1) as [w2 [inputs|e|e]];
      [|by eapply forward_trans..].
    destruct IH as (Hf2 & Hnotes & Hd & Hin). split; [by eapply forward_trans|].
    split; [cbn [fmap list_fmap]; by rewrite Hnote, Hnotes|].
    unfold signed_keys. cbn [fmap list_fmap]. fold (signed_keys inputs). rewrite Hnote.
    pose proof (fw_next _ _ Hf1) as N1. pose proof (fw_next _ _ Hf2) as N2. split.
    + apply NoDup_cons. split; [|exact Hd]. intros Hx%Hin. lia.
    + intros j k [[= -> ->]|Hx]%elem_of_cons.
      * specialize (N2 (note_addr_index note)). lia.
      * specialize (Hin _ _ Hx). specialize (N1 j). lia.
Qed.

(** ** The disk *)

Section Disk.
Variable sk : F.

(** Whether the wallet's file may be an old one: a backup was put back. *)
Variable restored : bool.

(** The floor is one that a wallet past every key of the list left; before there is a
    floor no key was used. *)
Definition floor_past (keys : list (N * N)) (floor : option WalletXmssFloor) : Prop :=
  match floor with
  | None => keys = []
  | Some fl => exists w0, wallet_ok w0 /\ wf_master_sk w0 = sk /\ fl = wallet_xmss_floor w0 /\ below keys w0
  end.

Record disk_ok (keys : list (N * N)) (d : Disk) : Prop := {
  dk_file : file_ok (dk_wallet d);
  dk_master : wf_master_sk (dk_wallet d) = sk;
  dk_past : floor_past keys (dk_floor d);
  dk_current : restored = false -> below keys (dk_wallet d)
}.

(** A wallet in memory, past every key of the list, and its disk. *)
Record held (keys : list (N * N)) (w : WalletFile) (d : Disk) : Prop := {
  hd_wallet : wallet_ok w;
  hd_master : wf_master_sk w = sk;
  hd_below : below keys w;
  hd_disk : disk_ok keys d
}.

Lemma held_forward keys w w' d : forward w w' -> held keys w d -> held keys w' d.
Proof.
  intros Hf [Hw Hm Hb Hd]. constructor; [apply Hf|by rewrite (fw_master _ _ Hf)| |done].
  by eapply below_forward.
Qed.

Lemma held_save o keys w d : held keys w d -> held keys w (fst (save_wallet o w d)).
Proof.
  intros [Hw Hm Hb [Hf Hdm Hp Hc]].
  assert (floor_past keys (Some (wallet_xmss_floor w))) as Hp' by by exists w.
  destruct o; cbn [save_wallet fst]; (split; [done..|]); (constructor; [|done|done|done]); cbn [dk_wallet];
    first [apply Hw|done].
Qed.

(** A complete save puts the floor past the keys the wallet has handed out since. *)
Lemma held_saved keys w0 w o d d' more :
  held keys w d -> handed_out more w0 w -> save_wallet o w d = (d', Ok tt) -> held (keys ++ more) w d'.
Proof.
  intros [Hw Hm Hb Hd] [_ Hin] Hs. destruct o; try done. injection Hs as <-.
  assert (below (keys ++ more) w) as Hb'.
  { intros j k [Hk|Hk]%elem_of_app; [by apply Hb|by apply Hin]. }
  constructor; [done..|]. constructor; [apply Hw|done| |done]. by exists w.
Qed.

(** A load iterates the floor's map in some order; and it reads the floor, unless no
    backup was put back. *)
Record reads_floor (ld : LoadEnv) (d : Disk) : Prop := {
  rf_order : forall fl, dk_floor d = Some fl -> ld_entries ld ≡ₚ map_to_list (fl_wots_key_indices fl);
  rf_read : restored = true -> ld_floor_read ld = true
}.

(** The file itself, loaded. *)
Lemma held_file keys d w :
  disk_ok keys d -> below keys (dk_wallet d) -> materialize_addresses false (dk_wallet d) = (w, Ok tt) ->
  held keys w d.
Proof.
  intros Hd Hb E. destruct (materialize_ok _ (dk_file _ _ Hd)) as (w1 & E1 & Hw & Hs & Hn & _).
  rewrite E in E1. injection E1 as <-.
  constructor; [done|rewrite (sb_master _ _ Hs); apply Hd| |done].
  intros j k Hin. rewrite Hn. by apply Hb.
Qed.

Lemma load_unfloored (w w' : WalletFile) entries :
  file_ok w -> load_wallet false w None entries = Ok w' -> materialize_addresses false w = (w', Ok tt).
Proof.
  intros Hf El. unfold load_wallet in El. cbn [enforce_wallet_xmss_floor mret result_ret mbind result_bind] in El.
  destruct (materialize_ok _ Hf) as (w1 & E & _). rewrite E in El. by injection El as <-.
Qed.

Lemma held_load keys d ld w :
  disk_ok keys d -> reads_floor ld d -> load_wallet_files false ld d = Ok w -> held keys w d.
Proof.
  intros Hd [He Hread] El. unfold load_wallet_files, floor_read in El.
  destruct (ld_wallet_error ld); [done|].
  assert (forall entries, load_wallet false (dk_wallet d) None entries = Ok w ->
    below keys (dk_wallet d) -> held keys w d) as Hnone.
  { intros entries E Hb. apply (load_unfloored _ _ _ (dk_file _ _ Hd)) in E. by eapply held_file. }
  destruct (ld_floor_read ld).
  - destruct (dk_floor d) as [fl|] eqn:Ed.
    + pose proof Hd as [Hf Hm Hp _]. rewrite Ed in Hp. destruct Hp as (w0 & Hw0 & Hm0 & -> & Hb).
      pose proof (load_wallet_spec w0 (dk_wallet d) (ld_entries ld) Hw0 Hf ltac:(congruence) (He _ eq_refl)) as Hl.
      rewrite El in Hl. destruct Hl as (Hw & Hs & _ & _ & Hn).
      constructor; [done|by rewrite (sb_master _ _ Hs)| |done].
      intros j k Hin. eapply N.lt_le_trans; [by apply Hb|apply Hn].
    + apply (Hnone _ El). pose proof (dk_past _ _ Hd) as Hp. rewrite Ed in Hp. cbn in Hp. subst keys.
      by intros j k ?%not_elem_of_nil.
  - apply (Hnone _ El), (dk_current _ _ Hd). destruct restored; [by specialize (Hread eq_refl)|done].
Qed.

Lemma load_counter d w ld :
  file_ok (dk_wallet d) -> load_wallet_files false ld d = Ok w ->
  wf_addr_counter w = wf_addr_counter (dk_wallet d).
Proof.
  intros Hf El. unfold load_wallet_files in El. destruct (ld_wallet_error ld); [done|].
  unfold load_wallet in El. apply bind_Ok in El as (? & _ & El).
  destruct (materialize_ok _ Hf) as (w1 & E & _ & _ & _ & _ & Hc). rewrite E in El. by injection El as <-.
Qed.

(** ** A command *)

Variable env : CmdEnv.
Hypothesis Htrap : ce_rebuild_trapped env = false.

Record cmd_ok (s : CmdState) : Prop := {
  cm_held : held (released (cs_trace s)) (cs_wallet s) (cs_disk s);
  cm_once : NoDup (released (cs_trace s))
}.

(** Before the command makes its new address. *)
Definition cmd_ready (s : CmdState) : Prop := cmd_ok s /\ wf_addr_counter (cs_wallet s) + 1 < U32_LIMIT.

Lemma ready_ok s : cmd_ready s -> cmd_ok s.
Proof. by intros []. Qed.

Lemma keeps_ready {A} (m : ST CmdState A) : keeps cmd_ok m -> triple cmd_ready m (fun _ => cmd_ok) cmd_ok.
Proof. intros Hm. eapply triple_conseq; [exact Hm|exact ready_ok|auto..]. Qed.

Lemma cmd_lift {A} (r : result A) : triple cmd_ready (lift r) (fun _ => cmd_ready) cmd_ok.
Proof. eapply triple_conseq; [apply triple_lift, ready_ok|auto|by intros a s []|auto]. Qed.

Lemma on_wallet_reads {A} (f : WalletFile -> result A) s :
  on_wallet (reads f) s = (s, f (cs_wallet s)).
Proof. by destruct s. Qed.

Lemma cmd_reads {A} (f : WalletFile -> result A) :
  triple cmd_ready (on_wallet (reads f)) (fun _ => cmd_ready) cmd_ok.
Proof.
  intros s Hs. rewrite on_wallet_reads. destruct (f (cs_wallet s)); [done|by apply ready_ok..].
Qed.

Lemma cmd_forward s w : forward (cs_wallet s) w -> cmd_ok s ->
  cmd_ok {| cs_wallet := w; cs_disk := cs_disk s; cs_saves := cs_saves s; cs_trace := cs_trace s |}.
Proof. intros Hf [Hh Ho]. constructor; [|done]. by eapply held_forward. Qed.

Lemma keeps_forward {A} (m : ST WalletFile A) :
  (forall w, wallet_ok w -> forward w (fst (m w))) -> keeps cmd_ok (on_wallet m).
Proof.
  intros Hm s Hs. unfold on_wallet. specialize (Hm _ (hd_wallet _ _ _ (cm_held _ Hs))).
  destruct (m (cs_wallet s)) as [w r]. pose proof (cmd_forward s w Hm Hs). by destruct r.
Qed.

Lemma ready_forward {A} (m : ST WalletFile A) :
  (forall w, wallet_ok w -> wf_addr_counter w + 1 < U32_LIMIT -> forward w (fst (m w))) ->
  triple cmd_ready (on_wallet m) (fun _ => cmd_ok) cmd_ok.
Proof.
  intros Hm s [Hs Hc]. unfold on_wallet. specialize (Hm _ (hd_wallet _ _ _ (cm_held _ Hs)) Hc).
  destruct (m (cs_wallet s)) as [w r]. pose proof (cmd_forward s w Hm Hs). by destruct r.
Qed.

Lemma keeps_on_reads {A} (f : WalletFile -> result A) : keeps cmd_ok (on_wallet (reads f)).
Proof. intros s Hs. rewrite on_wallet_reads. by destruct (f (cs_wallet s)). Qed.

Lemma keeps_on_writes (f : WalletFile -> WalletFile) :
  (forall w, same_keys w (f w)) -> keeps cmd_ok (on_wallet (writes f)).
Proof. intros Hf. apply keeps_forward. intros w Hw. by apply same_keys_forward. Qed.

Lemma keeps_save : keeps cmd_ok (save env).
Proof.
  intros s [Hh Ho]. unfold save. pose proof (held_save (ce_save env (cs_saves s)) _ _ _ Hh) as Hh'.
  destruct (save_wallet _ _ _) as [d r]. cbn [fst] in Hh'.
  assert (cmd_ok {| cs_wallet := cs_wallet s; cs_disk := d; cs_saves := S (cs_saves s);
                    cs_trace := cs_trace s |}) by by constructor.
  by destruct r.
Qed.

Lemma keeps_emit e : released [e] = [] -> keeps cmd_ok (emit e).
Proof.
  intros He. apply keeps_writes. intros s [Hh Ho]. constructor; cbn [cs_trace cs_wallet cs_disk];
    by rewrite released_snoc, He, app_nil_r.
Qed.

Lemma keeps_submit message : keeps cmd_ok (submit_kernel_message env message).
Proof.
  unfold submit_kernel_message. keeps_walk. by apply keeps_emit.
Qed.

(** Keys in hand that no call of the prover has seen. *)
Definition in_hand (keys : list (N * N)) (s : CmdState) : Prop :=
  cmd_ok s /\ exists w0, below (released (cs_trace s)) w0 /\ handed_out keys w0 (cs_wallet s).

Lemma in_hand_ok keys s : in_hand keys s -> cmd_ok s.
Proof. by intros []. Qed.

(** The save before the prover's call. *)
Lemma persist_keeps circuit args keys :
  triple (in_hand keys) (persist_wallet_and_make_proof env circuit args keys) (fun _ => cmd_ok) cmd_ok.
Proof.
  intros s [[Hh Ho] (w0 & Hb & Hout)]. unfold persist_wallet_and_make_proof.
  rewrite ST_bind_eq. pose proof (keeps_save s ltac:(by constructor)) as Hk. unfold save in *.
  destruct (save_wallet (ce_save env (cs_saves s)) (cs_wallet s) (cs_disk s)) as [d [[]|e|e]] eqn:Es;
    [|exact Hk..].
  pose proof (held_saved _ w0 _ _ _ _ keys Hh Hout Es) as Hh'.
  unfold emit. rewrite ST_run_writes. cbn [cs_wallet cs_disk cs_saves cs_trace].
  unfold lift.
  assert (cmd_ok {| cs_wallet := cs_wallet s; cs_disk := d; cs_saves := S (cs_saves s);
                    cs_trace := cs_trace s ++ [Proved circuit args keys] |}) as Hok.
  { constructor; cbn [cs_trace cs_wallet cs_disk]; rewrite released_snoc;
      change (released [Proved circuit args keys]) with (keys ++ []); rewrite app_nil_r; [done|].
    destruct Hout as [Hd Hin]. apply NoDup_app. split; [done|]. split; [|done].
    intros [j k] Hk1 Hk2. specialize (Hb j k Hk1). specialize (Hin j k Hk2). lia. }
  by destruct (make_proof _ _ _).
Qed.

Lemma on_wallet_sign snapshot root sighash notes :
  triple cmd_ok (on_wallet (sign_inputs snapshot root sighash notes))
    (fun inputs => in_hand (signed_keys inputs)) cmd_ok.
Proof.
  intros s Hs. unfold on_wallet. pose proof (hd_wallet _ _ _ (cm_held _ Hs)) as Hw.
  pose proof (sign_inputs_forward snapshot root sighash notes _ Hw) as Hi.
  destruct (sign_inputs _ _ _ _ _) as [w [inputs|e|e]]; [|by apply cmd_forward..].
  destruct Hi as (Hf & _ & Hout). split; [by apply cmd_forward|]. exists (cs_wallet s).
  split; [apply Hs|done].
Qed.

Lemma on_wallet_reserve j :
  triple cmd_ok (on_wallet (reserve_next_auth j))
    (fun '(k, _, _, _) => in_hand [(j, k)]) cmd_ok.
Proof.
  intros s Hs. unfold on_wallet. pose proof (hd_wallet _ _ _ (cm_held _ Hs)) as Hw.
  pose proof (reserve_forward _ j Hw) as Hr.
  destruct (reserve_next_auth j (cs_wallet s)) as [w [[[[k r] seed] path]|e|e]];
    [|subst w; apply cmd_forward; [by apply forward_refl|done]..].
  destruct Hr as (-> & Hf & Hn). split; [by apply cmd_forward|]. exists (cs_wallet s).
  split; [apply Hs|]. split; [apply NoDup_singleton|].
  intros j' k' [= -> ->]%list_elem_of_singleton. cbn [cs_wallet]. lia.
Qed.

Lemma in_hand_lift {A} keys (r : result A) :
  triple (in_hand keys) (lift r) (fun _ => in_hand keys) cmd_ok.
Proof. eapply triple_conseq; [apply (triple_lift (in_hand keys)), in_hand_ok|auto|by intros a s []|auto]. Qed.

#[local] Hint Resolve keeps_on_reads keeps_save keeps_submit : keeps.

Lemma keeps_register nullifiers description operation_hash :
  keeps cmd_ok (register nullifiers description operation_hash).
Proof. by apply keeps_on_writes. Qed.
#[local] Hint Resolve keeps_register : keeps.

(** Steps that only look, before the new address. *)
Ltac ready_step :=
  match goal with
  | |- triple cmd_ready (let '_ := ?x in _) _ _ => destruct x
  | |- triple cmd_ready (lift _ ≫= _) _ _ => eapply triple_bind; [apply cmd_lift|intros ?; cbv beta]
  | |- triple cmd_ready (on_wallet (reads _) ≫= _) _ _ => eapply triple_bind; [apply cmd_reads|intros ?; cbv beta]
  end.

Lemma ready_change rnd change seed role :
  triple cmd_ready (on_wallet (change_output (ce_rebuild_trapped env) rnd change seed role))
    (fun _ => cmd_ok) cmd_ok.
Proof. rewrite Htrap. apply ready_forward. intros w Hw Hc. by apply change_output_forward. Qed.

(** Signing, the prover, and the rest. *)
Lemma sign_and_prove snapshot root sighash notes circuit args (k : list SignedInput -> Proof_ -> ST CmdState unit) :
  (forall inputs proof, keeps cmd_ok (k inputs proof)) ->
  keeps cmd_ok (
    inputs ← on_wallet (sign_inputs snapshot root sighash notes);
    proof ← persist_wallet_and_make_proof env circuit (args inputs) (signed_keys inputs);
    k inputs proof).
Proof.
  intros Hk. eapply triple_bind; [apply on_wallet_sign|]. intros inputs.
  eapply triple_bind; [apply persist_keeps|]. intros proof. apply Hk.
Qed.

Lemma transfer_keeps snapshot recipient amount fee memo :
  triple cmd_ready (transfer_loaded env snapshot recipient amount fee memo) (fun _ => cmd_ok) cmd_ok.
Proof.
  unfold transfer_loaded. cbv zeta. repeat ready_step.
  eapply triple_bind; [apply ready_change|]. intros [change_state note_2].
  apply keeps_bind; [apply keeps_lift|]. intros note_3.
  apply sign_and_prove. intros inputs proof. keeps_walk.
Qed.

Lemma unshield_keeps snapshot recipient amount fee :
  triple cmd_ready (unshield_loaded env snapshot recipient amount fee) (fun _ => cmd_ok) cmd_ok.
Proof.
  unfold unshield_loaded. cbv zeta. repeat ready_step.
  eapply triple_bind.
  { instantiate (1 := fun _ => cmd_ok). destruct (0 <? _).
    - eapply triple_bind; [apply ready_change|]. intros d. by apply triple_ret.
    - apply triple_ret, ready_ok. }
  intros change_data. apply keeps_bind; [apply keeps_lift|]. intros producer_note.
  apply sign_and_prove. intros inputs proof. keeps_walk.
Qed.

Lemma shield_keeps snapshot pubkey_hash amount :
  triple cmd_ready (shield_loaded env snapshot pubkey_hash amount) (fun _ => cmd_ok) cmd_ok.
Proof.
  unfold shield_loaded. cbv zeta. repeat ready_step.
  apply keeps_ready.
  eapply triple_bind; [apply on_wallet_reserve|]. intros [[[key_idx auth_root] auth_pub_seed] auth_path].
  cbv beta iota. do 2 (eapply triple_bind; [apply in_hand_lift|intros ?; cbv beta]).
  destruct (wots_sign _ _ _) as [[sig pk] digits].
  eapply triple_bind; [apply persist_keeps|]. intros proof. keeps_walk.
  by apply keeps_on_writes.
Qed.

Lemma deposit_keeps head_hash auth_domain amount prepare_only :
  triple cmd_ready (deposit_loaded env head_hash auth_domain amount prepare_only) (fun _ => cmd_ok) cmd_ok.
Proof.
  unfold deposit_loaded. rewrite Htrap. eapply triple_bind.
  { apply ready_forward. intros w Hw Hc. by apply next_address_forward. }
  intros [address_state recipient_address]. unfold deposit_to_bridge. keeps_walk;
    first [by apply keeps_on_writes|by apply keeps_emit].
Qed.

(** ** Commands on the disk *)

Definition world_ok (o : World) : Prop :=
  disk_ok (released (wo_trace o)) (wo_disk o) /\ NoDup (released (wo_trace o)).

(** What a command is started on. *)
Definition startable (d : Disk) : Prop :=
  reads_floor (ce_load env) d /\ wf_addr_counter (dk_wallet d) + 1 < U32_LIMIT.

Definition starts (o : World) : Prop := world_ok o /\ startable (wo_disk o).

Lemma with_wallet_ok (m : ST CmdState unit) :
  triple cmd_ready m (fun _ => cmd_ok) cmd_ok ->
  triple starts (with_wallet env m) (fun _ => world_ok) world_ok.
Proof.
  intros Hm o [[Hd Ho] [He Hc]]. unfold with_wallet. rewrite Htrap.
  destruct (load_wallet_files _ _ _) as [w|e|e] eqn:El; [|by split..].
  set (s := {| cs_wallet := w; cs_disk := wo_disk o; cs_saves := 0; cs_trace := wo_trace o |}).
  assert (cmd_ready s) as Hs.
  { split; [constructor; [by eapply held_load|done]|]. cbn [cs_wallet s].
    by rewrite (load_counter _ _ _ (dk_file _ _ Hd) El). }
  specialize (Hm s Hs). destruct (m s) as [s' r].
  assert (cmd_ok s') as [Hh' Ho'] by by destruct r.
  assert (world_ok {| wo_disk := cs_disk s'; wo_trace := cs_trace s' |}) by (split; [apply Hh'|exact Ho']).
  by destruct r.
Qed.

Lemma start_lift {A} (r : result A) : triple starts (lift r) (fun _ => starts) world_ok.
Proof.
  eapply triple_conseq; [apply (triple_lift starts world_ok); by intros s []|auto|by intros a s []|auto].
Qed.

Ltac start_walk := repeat (eapply triple_bind; [apply start_lift|intros ?; cbv beta]); apply with_wallet_ok.

Lemma transfer_world recipient amount fee memo :
  triple starts (cmd_transfer_rollup env recipient amount fee memo) (fun _ => world_ok) world_ok.
Proof. unfold cmd_transfer_rollup. start_walk. apply transfer_keeps. Qed.

Lemma unshield_world amount fee recipient :
  triple starts (cmd_unshield_rollup env amount fee recipient) (fun _ => world_ok) world_ok.
Proof. unfold cmd_unshield_rollup. start_walk. apply unshield_keeps. Qed.

Lemma shield_world arg amount :
  triple starts (cmd_shield_rollup env arg amount) (fun _ => world_ok) world_ok.
Proof. unfold cmd_shield_rollup. start_walk. apply shield_keeps. Qed.

Lemma deposit_world amount prepare_only :
  triple starts (cmd_bridge_deposit env amount prepare_only) (fun _ => world_ok) world_ok.
Proof. unfold cmd_bridge_deposit. start_walk. apply deposit_keeps. Qed.
End Disk.

(** ** Synchronisation *)

Section Synchronise.
Variables (sk : F) (restored : bool) (keys : list (N * N)) (env : SyncEnv).

Definition sync_ok (s : SyncState) : Prop := held sk restored keys (sy_wallet s) (sy_disk s).

Lemma sync_keeps_wallet {A} (m : ST WalletFile A) :
  (forall w, same_keys w (fst (m w))) -> keeps sync_ok (WalletSync.on_wallet m).
Proof.
  intros Hm s Hs. unfold WalletSync.on_wallet. specialize (Hm (sy_wallet s)).
  destruct (m (sy_wallet s)) as [w r]. cbn [fst] in Hm.
  assert (sync_ok {| sy_wallet := w; sy_disk := sy_disk s; sy_total_found := sy_total_found s;
    sy_seen_cms := sy_seen_cms s; sy_saves := sy_saves s |}) as Hs'.
  { eapply held_forward; [|exact Hs]. apply same_keys_forward; [by eapply hd_wallet|exact Hm]. }
  by destruct r.
Qed.

Lemma sync_keeps_save : keeps sync_ok (WalletSync.save env).
Proof.
  intros s Hs. unfold WalletSync.save. pose proof (held_save sk restored (se_save env (sy_saves s)) _ _ _ Hs) as Hs'.
  destruct (save_wallet _ _ _) as [d r]. cbn [fst] in Hs'. by destruct r.
Qed.

Lemma batch_same_keys feed seen w : same_keys w (fst (apply_scan_feed_recover_batch feed seen w)).
Proof.
  apply (keeps_run (same_keys w)); [|done]. unfold apply_scan_feed_recover_batch, push_recovered. keeps_walk.
  - intros w' Hw'. by destruct (push_found _ _ _ _).
  - by apply keeps_writes.
Qed.
#[local] Hint Resolve sync_keeps_save : keeps.

Lemma batch_keeps head c every size : keeps sync_ok (sync_batch env head c every size).
Proof.
  unfold sync_batch. keeps_walk.
  - apply sync_keeps_wallet. intros w. apply batch_same_keys.
  - by apply keeps_writes.
Qed.

Lemma sentinel_keeps : keeps sync_ok (check_sentinel env).
Proof. intros s Hs. unfold check_sentinel. by destruct (se_sentinel env (sy_saves s)) as [| |[e|]]. Qed.
#[local] Hint Resolve batch_keeps sentinel_keeps : keeps.

Lemma loop_keeps fuel head c every size : keeps sync_ok (sync_loop env fuel head c every size).
Proof. induction fuel as [|fuel IH]; cbn [sync_loop]; [apply keeps_ret|]. keeps_walk. Qed.
#[local] Hint Resolve loop_keeps : keeps.

Lemma finish_keeps head : keeps sync_ok (sync_finish env head).
Proof. unfold sync_finish. keeps_walk. by apply sync_keeps_wallet. Qed.
#[local] Hint Resolve finish_keeps : keeps.

Lemma sync_world ld every d :
  disk_ok sk restored keys d -> reads_floor restored ld d ->
  disk_ok sk restored keys (fst (cmd_rollup_sync env false ld every d)).
Proof.
  intros Hd He. unfold cmd_rollup_sync. destruct (fail_if _ _) as [[]|e|e]; [|done..].
  cbn [mbind result_bind]. destruct (load_wallet_files _ _ _) as [w|e|e] eqn:El; [|done..].
  assert (keeps sync_ok (sync_loaded env every)) as Hk by (unfold sync_loaded; keeps_walk).
  set (s := {| sy_wallet := w |}). assert (sync_ok s) as Hs by by eapply held_load.
  pose proof (keeps_run _ _ s Hk Hs) as Hr. destruct (sync_loaded env every s) as [s' r]. apply Hr.
Qed.
End Synchronise.

(** ** Histories *)

(** What happens to a wallet's files: its commands, and a file put back from a backup. *)
Inductive Event :=
| EDeposit (env : CmdEnv) (amount : N) (prepare_only : bool)
| EShield (env : CmdEnv) (pubkey_hash : bytes) (amount : option N)
| ETransfer (env : CmdEnv) (recipient : result PaymentAddress) (amount : N) (fee : option N)
    (memo : option string)
| EUnshield (env : CmdEnv) (amount : N) (fee : option N) (recipient : option string)
| ESync (env : SyncEnv) (ld : LoadEnv) (checkpoint_every : N)
| ERestore (w : WalletFile).

Definition with_disk (d : Disk) (o : World) : World := {| wo_disk := d; wo_trace := wo_trace o |}.

Definition run_event (e : Event) (o : World) : World :=
  match e with
  | EDeposit env amount prepare_only => fst (cmd_bridge_deposit env amount prepare_only o)
  | EShield env pubkey_hash amount => fst (cmd_shield_rollup env pubkey_hash amount o)
  | ETransfer env recipient amount fee memo => fst (cmd_transfer_rollup env recipient amount fee memo o)
  | EUnshield env amount fee recipient => fst (cmd_unshield_rollup env amount fee recipient o)
  | ESync env ld checkpoint_every =>
      with_disk (fst (cmd_rollup_sync env false ld checkpoint_every (wo_disk o))) o
  | ERestore w => with_disk {| dk_wallet := w; dk_floor := dk_floor (wo_disk o) |} o
  end.

(** A production run of a command has an address left to make, and reads the floor if a
    backup was put back; a backup is a wallet file of the same wallet, however old, without
    the floor beside it. *)
Definition admissible (sk : F) (restored : bool) (e : Event) (o : World) : Prop :=
  match e with
  | EDeposit env _ _ | EShield env _ _ | ETransfer env _ _ _ _ | EUnshield env _ _ _ =>
      ce_rebuild_trapped env = false /\ startable restored env (wo_disk o)
  | ESync _ ld _ => reads_floor restored ld (wo_disk o)
  | ERestore w => file_ok w /\ wf_master_sk w = sk
  end.

Definition is_restore (e : Event) : bool := match e with ERestore _ => true | _ => false end.

Fixpoint history (sk : F) (restored : bool) (events : list Event) (o : World) : Prop :=
  match events with
  | [] => True
  | e :: events =>
      admissible sk restored e o /\ history sk (restored || is_restore e) events (run_event e o)
  end.

Definition run_events (events : list Event) (o : World) : World :=
  foldl (fun o e => run_event e o) o events.

Lemma event_ok sk restored e o :
  world_ok sk restored o -> admissible sk restored e o ->
  world_ok sk (restored || is_restore e) (run_event e o).
Proof.
  intros Ho Ha.
  assert (forall env (m : ST World unit), startable restored env (wo_disk o) ->
    triple (starts sk restored env) m (fun _ => world_ok sk restored) (world_ok sk restored) ->
    world_ok sk restored (fst (m o))) as Hrun.
  { intros env m Hs Hm. specialize (Hm o (conj Ho Hs)). by destruct (m o) as [o' [a|x|x]]. }
  destruct e; cbn [run_event admissible is_restore] in *; rewrite ?orb_false_r, ?orb_true_r.
  - destruct Ha as [Ht Hs]. by apply (Hrun env), deposit_world.
  - destruct Ha as [Ht Hs]. by apply (Hrun env), shield_world.
  - destruct Ha as [Ht Hs]. by apply (Hrun env), transfer_world.
  - destruct Ha as [Ht Hs]. by apply (Hrun env), unshield_world.
  - destruct Ho as [Hd Ho]. split; [by apply sync_world|done].
  - destruct Ho as [[_ _ Hp _] Ho], Ha as [Hf Hm]. split; [by constructor|done].
Qed.

Lemma history_ok sk restored events o :
  world_ok sk restored o -> history sk restored events o -> exists restored',
  world_ok sk restored' (run_events events o).
Proof.
  revert restored o. induction events as [|e events IH]; intros restored o Ho Hh; [by exists restored|].
  destruct Hh as [Ha Hh]. eapply IH; [|exact Hh]. by apply event_ok.
Qed.

(** C12: From a wallet file without a floor, over any sequence of deposits, shields,
    transfers, unshields, synchronisations and wallet files put back from a backup, with
    any answers of the node, the prover, the operator and [octez-client], saves that fail
    at any point and loads that fail, no one-time key signs twice for the prover, and the
    floor on disk is past every key that did.  It takes that the floor's file is read once
    a backup was put back: the code takes a floor it cannot read for none. *)
Theorem no_key_signs_twice (w : WalletFile) (events : list Event) :
  file_ok w ->
  let start := {| wo_disk := {| dk_wallet := w; dk_floor := None |}; wo_trace := [] |} in
  history (wf_master_sk w) false events start ->
  let finish := run_events events start in
  NoDup (released (wo_trace finish)) /\
  forall j k, (j, k) ∈ released (wo_trace finish) -> exists fl next,
    dk_floor (wo_disk finish) = Some fl /\ fl_wots_key_indices fl !! j = Some next /\ k < next.
Proof.
  intros Hw start Hh finish.
  assert (world_ok (wf_master_sk w) false start) as Hs.
  { split; [|constructor]. constructor; [done..|]. by intros _ j k ?%not_elem_of_nil. }
  destruct (history_ok _ _ _ _ Hs Hh) as (restored & [_ _ Hp _] & Ho). split; [done|].
  intros j k Hin. fold finish in Hp. destruct (dk_floor (wo_disk finish)) as [fl|] eqn:Ef.
  - destruct Hp as (w0 & Hw0 & _ & -> & Hb). specialize (Hb j k Hin).
    exists (wallet_xmss_floor w0), (next_unused w0 j). split; [done|]. split; [|done].
    apply floor_covers; [done|lia].
  - fold finish in Hin. cbn [floor_past] in Hp. rewrite Hp in Hin. by apply not_elem_of_nil in Hin.
Qed.
End KeyUse.
