(* ===== verification/Watch.v ===== *)
(** * Watch: watch-only wallets

    [WatchKeyMaterial] and [WatchWalletFile] of [apps/wallet/src/lib.rs]: what a wallet
    exports to a holder of its detection root, of its incoming seed or of its outgoing seed,
    and what each holder records of the notes published.  A watch wallet is read from its
    file, brought up to the head of the rollup and saved; printing is not modelled. *)

From S2P Require Import Prelude Felt Externals Types Hashing Notes CanonicalWire Store.
From S2P Require Import Bds Wallet WalletScan WalletRpc.

Local Open Scope N_scope.

Definition WATCH_WALLET_VERSION : N := 1.

Record WatchAddressRecord := {
  wr_index : N;
  wr_d_j : F;
  wr_auth_root : F;
  wr_auth_pub_seed : F;
  wr_nk_tag : F
}.

(** [From<&WalletAddressState>]. *)
Definition watch_address (value : WalletAddressState) : WatchAddressRecord := {|
  wr_index := wa_index value;
  wr_d_j := wa_d_j value;
  wr_auth_root := wa_auth_root value;
  wr_auth_pub_seed := wa_auth_pub_seed value;
  wr_nk_tag := wa_nk_tag value
|}.

Inductive WatchKeyMaterial :=
| MaterialDetect (version : N) (detect_root : F) (addr_count : N)
| MaterialView (version : N) (incoming_seed : F) (addresses : list WatchAddressRecord)
| MaterialOutgoing (version : N) (outgoing_seed : F).

Record DetectedNoteRecord := { dr_index : N; dr_addr_index : N; dr_cm : F }.

Record ViewedNoteRecord := {
  vr_index : N;
  vr_addr_index : N;
  vr_cm : F;
  vr_value : N;
  vr_memo : bytes
}.

Record OutgoingNoteRecord := {
  ogr_index : N;
  ogr_role : string;
  ogr_value : N;
  ogr_cm : F;
  ogr_rseed : F;
  ogr_d_j : F;
  ogr_auth_root : F;
  ogr_auth_pub_seed : F;
  ogr_nk_tag : F
}.

Inductive WatchWalletFile :=
| WatchDetect (version : N) (detect_root : F) (addr_count scanned : N) (matches : list DetectedNoteRecord)
| WatchView (version : N) (incoming_seed : F) (addresses : list WatchAddressRecord) (scanned : N)
    (notes : list ViewedNoteRecord)
| WatchOutgoing (version : N) (outgoing_seed : F) (scanned : N) (notes : list OutgoingNoteRecord).

Record WatchWalletStatus := {
  ws_mode : string;
  ws_scanned : N;
  ws_tracked : N;
  ws_incoming_total : N;
  ws_outgoing_total : N;
  ws_spend_status : string;
  ws_matches : list DetectedNoteRecord;
  ws_notes : list ViewedNoteRecord;
  ws_outgoing_notes : list OutgoingNoteRecord
}.

Record WatchSyncSummary := { wy_found : N; wy_next_cursor : N }.

(** The fields of every variant of the file. *)
Definition watch_scanned (watch : WatchWalletFile) : N :=
  match watch with
  | WatchDetect _ _ _ scanned _ | WatchView _ _ _ scanned _ | WatchOutgoing _ _ scanned _ => scanned
  end.

Definition from_material (material : WatchKeyMaterial) : WatchWalletFile :=
  match material with
  | MaterialDetect version detect_root addr_count => WatchDetect version detect_root addr_count 0 []
  | MaterialView version incoming_seed addresses => WatchView version incoming_seed addresses 0 []
  | MaterialOutgoing version outgoing_seed => WatchOutgoing version outgoing_seed 0 []
  end.

Definition watch_status (watch : WatchWalletFile) : WatchWalletStatus :=
  match watch with
  | WatchDetect _ _ _ scanned matches =>
      {| ws_mode := "detect"; ws_scanned := scanned; ws_tracked := N.of_nat (length matches);
         ws_incoming_total := 0; ws_outgoing_total := 0; ws_spend_status := "candidate_matches_only";
         ws_matches := matches; ws_notes := []; ws_outgoing_notes := [] |}
  | WatchView _ _ _ scanned notes =>
      {| ws_mode := "view"; ws_scanned := scanned; ws_tracked := N.of_nat (length notes);
         ws_incoming_total := sum_amounts (vr_value <$> notes); ws_outgoing_total := 0;
         ws_spend_status := "unavailable_without_spend_key"; ws_matches := []; ws_notes := notes;
         ws_outgoing_notes := [] |}
  | WatchOutgoing _ _ scanned notes =>
      {| ws_mode := "outgoing"; ws_scanned := scanned; ws_tracked := N.of_nat (length notes);
         ws_incoming_total := 0; ws_outgoing_total := sum_amounts (ogr_value <$> notes);
         ws_spend_status := "unavailable_without_spend_key"; ws_matches := []; ws_notes := [];
         ws_outgoing_notes := notes |}
  end.

Fixpoint drop_zeros (l : bytes) : bytes :=
  match l with b :: r => if bool_decide (b = Byte.x00) then drop_zeros r else l | [] => [] end.

Definition trim_decrypted_memo (memo : bytes) : bytes := rev (drop_zeros (rev memo)).

Section Watch.
Context `{Blake2s, MlKem, Aead, Hex, Target}.

(** ** What is exported *)

Definition from_detect_wallet (wallet : WalletFile) : WatchKeyMaterial :=
  MaterialDetect WATCH_WALLET_VERSION (derive_detect_root (acc_incoming_seed (account wallet)))
    (wf_addr_counter wallet).

Definition from_view_wallet (wallet : WalletFile) : WatchKeyMaterial :=
  MaterialView WATCH_WALLET_VERSION (acc_incoming_seed (account wallet))
    (watch_address <$> wf_addresses wallet).

Definition from_outgoing_wallet (wallet : WalletFile) : WatchKeyMaterial :=
  MaterialOutgoing WATCH_WALLET_VERSION (acc_outgoing_seed (account wallet)).

(** ** What is recorded of one note *)

Fixpoint detect_among (detect_root : F) (indices : list N) (nm : NoteMemo)
    : result (option DetectedNoteRecord) :=
  match indices with
  | [] => mret None
  | addr_index :: indices =>
      let '(_, dk_d) := derive_kem_detect_keys_from_root detect_root addr_index in
      detected ← detect (nm_enc nm) dk_d;
      if (detected : bool) then
        mret (Some {| dr_index := nm_index nm; dr_addr_index := addr_index; dr_cm := nm_cm nm |})
      else detect_among detect_root indices nm
  end.

Definition detect_record_for_note (detect_root : F) (addr_count : N) (nm : NoteMemo)
    : result (option DetectedNoteRecord) :=
  detect_among detect_root (range 0 addr_count) nm.

Fixpoint view_record_for_note (incoming_seed : F) (addresses : list WatchAddressRecord) (nm : NoteMemo)
    : result (option ViewedNoteRecord) :=
  match addresses with
  | [] => mret None
  | addr :: addresses =>
      let '(_, dk_v, _, dk_d) := derive_kem_keys incoming_seed (wr_index addr) in
      detected ← detect (nm_enc nm) dk_d;
      if negb detected then view_record_for_note incoming_seed addresses nm
      else
        opened ← decrypt_memo (nm_enc nm) dk_v;
        match opened with
        | None => view_record_for_note incoming_seed addresses nm
        | Some (value, rseed, memo) =>
            let rcm := derive_rcm rseed in
            let owner := owner_tag (wr_auth_root addr) (wr_auth_pub_seed addr) (wr_nk_tag addr) in
            if bool_decide (commit (wr_d_j addr) value rcm owner = nm_cm nm) then
              mret (Some {| vr_index := nm_index nm; vr_addr_index := wr_index addr; vr_cm := nm_cm nm;
                            vr_value := value; vr_memo := trim_decrypted_memo memo |})
            else view_record_for_note incoming_seed addresses nm
        end
  end.

Definition outgoing_record_for_note (outgoing_seed : F) (nm : NoteMemo) : option OutgoingNoteRecord :=
  recovery ← decrypt_outgoing_recovery outgoing_seed (nm_cm nm) (en_outgoing_ct (nm_enc nm));
  if negb (bool_decide (outgoing_commitment recovery = nm_cm nm)) then None
  else
    Some {| ogr_index := nm_index nm; ogr_role := role_as_str (or_role recovery);
            ogr_value := or_value recovery; ogr_cm := nm_cm nm; ogr_rseed := or_rseed recovery;
            ogr_d_j := or_d_j recovery; ogr_auth_root := or_auth_root recovery;
            ogr_auth_pub_seed := or_auth_pub_seed recovery; ogr_nk_tag := or_nk_tag recovery |}.

(** ** A feed *)

Definition detected_key (r : DetectedNoteRecord) : N * F := (dr_index r, dr_cm r).
Definition viewed_key (r : ViewedNoteRecord) : N * F := (vr_index r, vr_cm r).
Definition outgoing_key (r : OutgoingNoteRecord) : N * F := (ogr_index r, ogr_cm r).

(** The loop over the notes of a feed, the same for the three kinds of records. *)
Fixpoint push_records {R} (record : NoteMemo -> result (option R)) (key : R -> N * F)
    (feed : list NoteMemo) (known : gset (N * F)) (records : list R) (found : N)
    : result (list R * N) :=
  match feed with
  | [] => mret (records, found)
  | nm :: feed =>
      r ← record nm;
      match r with
      | None => push_records record key feed known records found
      | Some r =>
          if bool_decide (key r ∈ known) then push_records record key feed known records found
          else push_records record key feed ({[key r]} ∪ known) (records ++ [r]) (found + 1)
      end
  end.

Definition push_feed {R} (record : NoteMemo -> result (option R)) (key : R -> N * F)
    (feed : NotesFeedResp) (records : list R) : result (list R * WatchSyncSummary) :=
  '(records, found) ← push_records record key (nf_notes feed) (list_to_set (key <$> records)) records 0;
  mret (records, {| wy_found := found; wy_next_cursor := nf_next_cursor feed |}).

Definition apply_watch_feed (watch : WatchWalletFile) (feed : NotesFeedResp)
    : result (WatchWalletFile * WatchSyncSummary) :=
  match watch with
  | WatchDetect version detect_root addr_count scanned matches =>
      '(matches, summary) ← push_feed (detect_record_for_note detect_root addr_count) detected_key
        feed matches;
      mret (WatchDetect version detect_root addr_count (nf_next_cursor feed) matches, summary)
  | WatchView version incoming_seed addresses scanned notes =>
      '(notes, summary) ← push_feed (view_record_for_note incoming_seed addresses) viewed_key feed notes;
      mret (WatchView version incoming_seed addresses (nf_next_cursor feed) notes, summary)
  | WatchOutgoing version outgoing_seed scanned notes =>
      '(notes, summary) ← push_feed (fun nm => mret (outgoing_record_for_note outgoing_seed nm))
        outgoing_key feed notes;
      mret (WatchOutgoing version outgoing_seed (nf_next_cursor feed) notes, summary)
  end.
End Watch.

(** ** The file *)

(** How far a save comes: to the end, or to an error before the file is renamed or after. *)
Inductive PrivateSave :=
| PrivateDone
| PrivateFailsEarly (e : string)
| PrivateFailsLate (e : string).

(** The settings and the environment of one run; [we_load] is why the file, if there is one,
    cannot be read or parsed. *)
Record WatchEnv := {
  we_path : string;
  we_url : bytes;
  we_concurrency : result nat;
  we_schedule : nat -> nat;
  we_not_found : string;
  we_load : option string;
  we_material : result WatchKeyMaterial;
  we_save : PrivateSave
}.

Section Sync.
Context `{Blake2s, MlKem, !MlKemImport, Aead, Hex, Target, HttpClients, Json, Tze WirePublishedNote}.
Variable env : WatchEnv.

Definition load_watch_wallet : ST (option WatchWalletFile) WatchWalletFile := fun file =>
  (file, match we_load env, file with
         | Some e, _ => Err e
         | None, None => Err ("read watch wallet: " +:+ we_not_found env)
         | None, Some watch => Ok watch
         end).

Definition save_watch_wallet (watch : WatchWalletFile) : ST (option WatchWalletFile) unit := fun file =>
  match we_save env with
  | PrivateDone => (Some watch, Ok tt)
  | PrivateFailsEarly e => (file, Err e)
  | PrivateFailsLate e => (Some watch, Err e)
  end.

Definition cmd_watch_init (force : bool) : ST (option WatchWalletFile) unit :=
  file ← reads (fun file => mret file);
  lift (fail_if (bool_decide (is_Some file) && negb force)
    ("watch wallet " +:+ we_path env +:+ " already exists; pass --force to overwrite")) ;;
  material ← lift (we_material env);
  save_watch_wallet (from_material material).

(** Each value is read at the head there is when it is read. *)
Definition load_notes_since (cursor : N) : result NotesFeedResp :=
  load_notes_since_at_block (we_url env) (we_concurrency env) (we_schedule env) (str_bytes "head") cursor.

Definition sync_watch_wallet_once : ST (option WatchWalletFile) WatchSyncSummary :=
  watch ← load_watch_wallet;
  let cursor := watch_scanned watch in
  feed ← lift (map_err (fun e => "watch sync failed: " +:+ e +:+ ". Run `tzel-wallet --wallet " +:+
    we_path env +:+ " profile show` to confirm the saved rollup profile.") (load_notes_since cursor));
  '(watch, summary) ← lift (apply_watch_feed watch feed);
  save_watch_wallet watch ;;
  mret summary.

Definition detect_service_status : ST (option WatchWalletFile) WatchWalletStatus :=
  watch ← load_watch_wallet;
  mret (watch_status watch).
End Sync.
