(* ===== verification/WatchFacts.v ===== *)
(** * WatchFacts: what the watch-only wallets see

    A view wallet records exactly the notes that a scan of the same feeds finds, with their
    values; none of them escapes the detection wallet; an outgoing wallet records every note
    the wallet sends, with its opening.  However the feeds are cut the records are the same. *)

From S2P Require Import Prelude Felt Externals Types Hashing Binding Notes CanonicalWire Store.
From S2P Require Import LedgerSpec DurableCells DurableRepr DurableTree Bds Wallet WalletKeys WalletScan WalletScanFacts.
From S2P Require Import WalletRpc WalletRpcFacts WalletSync WalletSyncFacts Watch.

Local Open Scope N_scope.

(** ** One loop *)

Section Push.
Context {R : Type} (key : R -> N * F).

Lemma push_records_fresh record feed l records found :
  map_result record feed = Ok l ->
  push_records record key feed (keys_in key records) records found =
  Ok (records ++ fresh_records key records l, found + N.of_nat (length (fresh_records key records l))).
Proof.
  intros Hl%map_result_Ok. revert records found.
  induction Hl as [|nm o feed l Ho Hl IH]; intros records found; cbn [push_records fresh_records].
  - by rewrite app_nil_r, N.add_0_r.
  - rewrite Ho. cbn [mbind result_bind]. destruct o as [r|]; [|apply IH].
    fold (keys_in key records). case_bool_decide; [apply IH|]. rewrite keys_in_snoc, IH, <-app_assoc.
    cbn [length app]. do 2 f_equal. lia.
Qed.
End Push.

Section WatchFacts.
Context `{Blake2s, MlKem, !MlKemImport, Aead, Hex, Target}.

(** ** What a view wallet sees of a note *)

(** The position, address, commitment and value of a note. *)
Definition viewed (r : ViewedNoteRecord) : N * N * F * N :=
  (vr_index r, vr_addr_index r, vr_cm r, vr_value r).
Definition held (n : Note) : N * N * F * N :=
  (note_index n, note_addr_index n, note_cm n, note_v n).

(** The wallet's tags are those its addresses publish. *)
Definition tags_ok (w : WalletFile) (l : list WalletAddressState) : Prop :=
  Forall (fun st => wa_nk_tag st = derive_nk_tag (derive_nk_spend (acc_nk (account w)) (wa_d_j st))) l.

Lemma wallet_tags w : wallet_ok w -> tags_ok w (wf_addresses w).
Proof.
  intros Hw. apply Forall_forall. intros st [i Hi]%list_elem_of_lookup.
  by destruct (fo_addresses _ (wo_file _ Hw) _ _ Hi) as [-> _].
Qed.

Lemma view_record_held w l nm o :
  tags_ok w l -> recover_from w (account w) l nm = Ok o -> exists r,
  view_record_for_note (acc_incoming_seed (account w)) (watch_address <$> l) nm = Ok r /\
  option_Forall2 (fun r n => viewed r = held n) r o.
Proof.
  intros Ht. revert o. induction Ht as [|st l Hst Ht IH]; intros o;
    cbn [recover_from fmap list_fmap view_record_for_note].
  { intros [= <-]. exists None. split; [done|constructor]. }
  unfold kem_keys. cbn [watch_address wr_index wr_d_j wr_auth_root wr_auth_pub_seed wr_nk_tag].
  destruct (derive_kem_keys _ _) as [[[? dk_v] ?] dk_d].
  destruct (detect _ dk_d) as [d| |]; cbn [mbind result_bind]; [|done..].
  destruct d; cbn [negb]; [|apply IH].
  destruct (decrypt_memo _ dk_v) as [[[[v rseed] memo]|]| |]; cbn [mbind result_bind]; [|apply IH|done..].
  unfold recover_note_for_address. rewrite Hst. case_bool_decide; [|apply IH].
  intros [= <-]. eexists. split; [reflexivity|]. by constructor.
Qed.

Lemma view_records_held w feed l :
  wallet_ok w -> map_result (try_recover_note w) feed = Ok l -> exists rs,
  map_result (view_record_for_note (acc_incoming_seed (account w)) (watch_address <$> wf_addresses w))
    feed = Ok rs /\
  Forall2 (option_Forall2 (fun r n => viewed r = held n)) rs l.
Proof.
  intros Hw Hl%map_result_Ok. pose proof (wallet_tags w Hw) as Ht.
  induction Hl as [|nm o feed l Ho Hl (rs & Hrs & IH)]; [by exists []|].
  destruct (view_record_held w _ nm o Ht Ho) as (r & Hr & Hro). exists (r :: rs). cbn [map_result].
  rewrite Hr, Hrs. split; [done|by constructor].
Qed.

Lemma viewed_keys r n : viewed r = held n -> viewed_key r = note_key n.
Proof. unfold viewed, held, viewed_key, note_key. congruence. Qed.

Lemma keys_in_held records notes :
  viewed <$> records = held <$> notes -> keys_in viewed_key records = keys_in note_key notes.
Proof.
  unfold keys_in. intros E. f_equal. revert notes E.
  induction records as [|r records IH]; intros [|n notes] E; try done.
  injection E. intros E' Ha Hb Hc Hd. cbn. f_equal; [|by apply IH]. apply viewed_keys.
  unfold viewed, held. congruence.
Qed.

Lemma fresh_viewed rs l records notes :
  Forall2 (option_Forall2 (fun r n => viewed r = held n)) rs l ->
  viewed <$> records = held <$> notes ->
  viewed <$> fresh_records viewed_key records rs = held <$> fresh_records note_key notes l.
Proof.
  intros Hl. revert records notes.
  induction Hl as [|o o' rs l Ho Hl IH]; intros records notes E; [done|].
  destruct Ho as [r n Hrn|]; cbn [fresh_records]; [|by apply IH].
  rewrite (viewed_keys _ _ Hrn), (keys_in_held _ _ E). case_bool_decide; [by apply IH|].
  cbn [fmap list_fmap]. f_equal; [done|]. apply IH. rewrite !fmap_app, E. cbn. by rewrite Hrn.
Qed.

(** ** Several feeds *)

Fixpoint watch_feeds (watch : WatchWalletFile) (feeds : list NotesFeedResp) : result WatchWalletFile :=
  match feeds with
  | [] => Ok watch
  | feed :: feeds => '(watch, _) ← apply_watch_feed watch feed; watch_feeds watch feeds
  end.

(** The feeds in one; nothing moves the cursor when there is none. *)
Definition one_feed (cursor : N) (feeds : list NotesFeedResp) : NotesFeedResp :=
  {| nf_notes := feeds ≫= nf_notes; nf_next_cursor := default cursor (nf_next_cursor <$> last feeds) |}.

Lemma one_feed_cons cursor feed feeds :
  one_feed cursor (feed :: feeds) =
  {| nf_notes := nf_notes feed ++ nf_notes (one_feed (nf_next_cursor feed) feeds);
     nf_next_cursor := nf_next_cursor (one_feed (nf_next_cursor feed) feeds) |}.
Proof.
  unfold one_feed. cbn [nf_notes nf_next_cursor mbind list_bind]. f_equal.
  destruct feeds as [|feed' feeds]; [done|].
  change (last (feed :: feed' :: feeds)) with (last (feed' :: feeds)).
  destruct (last (feed' :: feeds)) eqn:E; [done|]. by apply last_None in E.
Qed.

Lemma watch_feeds_push {R} (record : NoteMemo -> result (option R)) (key : R -> N * F)
    (make : N -> list R -> WatchWalletFile) feeds cursor records l :
  (forall cursor records feed, apply_watch_feed (make cursor records) feed =
    ('(records, summary) ← push_feed record key feed records;
     mret (make (nf_next_cursor feed) records, summary))) ->
  map_result record (feeds ≫= nf_notes) = Ok l ->
  watch_feeds (make cursor records) feeds =
  Ok (make (nf_next_cursor (one_feed cursor feeds)) (records ++ fresh_records key records l)).
Proof.
  intros Hmake. revert cursor records l. induction feeds as [|feed feeds IH]; intros cursor records l.
  - intros [= <-]. cbn. by rewrite app_nil_r.
  - cbn [mbind list_bind watch_feeds]. rewrite map_result_app.
    intros (l1 & E1 & (l2 & E2 & [= <-])%bind_Ok)%bind_Ok. rewrite Hmake. unfold push_feed.
    fold (keys_in key records). rewrite (push_records_fresh key record (nf_notes feed) l1) by done.
    cbn [mbind result_bind mret result_ret]. rewrite (IH _ _ l2 E2), one_feed_cons, fresh_records_app, app_assoc.
    done.
Qed.

(** ** A view wallet *)

(** What the wallet exported to a viewer records of the feeds, notes that the wallet finds
    in them in [l]. *)
Lemma view_feeds w feeds l :
  wallet_ok w -> map_result (try_recover_note w) (feeds ≫= nf_notes) = Ok l -> exists notes,
  watch_feeds (from_material (from_view_wallet w)) feeds =
    Ok (WatchView WATCH_WALLET_VERSION (acc_incoming_seed (account w)) (watch_address <$> wf_addresses w)
          (nf_next_cursor (one_feed 0 feeds)) notes) /\
  viewed <$> notes = held <$> fresh_records note_key [] l.
Proof.
  intros Hw Hl. destruct (view_records_held w _ l Hw Hl) as (rs & Hrs & Hf).
  exists (fresh_records viewed_key [] rs). split; [|by apply fresh_viewed].
  change (fresh_records viewed_key [] rs) with ([] ++ fresh_records viewed_key [] rs).
  eapply (watch_feeds_push _ viewed_key (WatchView _ _ _)); [|exact Hrs]. done.
Qed.

(** ** A detection wallet *)

Lemma detect_among_ok `{!MlKemImportLaws} root indices nm :
  note_shape (nm_enc nm) -> exists r, detect_among root indices nm = Ok r /\
  (forall rec, r = Some rec -> detected_key rec = (nm_index nm, nm_cm nm)) /\
  forall j, j ∈ indices -> detect (nm_enc nm) (derive_kem_detect_keys_from_root root j).2 = Ok true ->
  is_Some r.
Proof.
  intros Hs. induction indices as [|i indices (r & Er & Hk & Hr)]; cbn [detect_among].
  { exists None. split; [done|]. split; [done|]. by intros j ?%not_elem_of_nil. }
  destruct (derive_kem_detect_keys_from_root root i) as [ek dk] eqn:Ed.
  destruct (detect_total (nm_enc nm) dk Hs) as [[] Eb]; rewrite Eb; cbn [mbind result_bind].
  - eexists. split; [reflexivity|]. split; [by intros rec [= <-]|]. by intros.
  - exists r. split; [done|]. split; [done|]. intros j [->|Hj]%elem_of_cons; [|by apply Hr].
    rewrite Ed. cbn. congruence.
Qed.

Lemma recovered_detected w l nm n :
  recover_from w (account w) l nm = Ok (Some n) -> exists st, st ∈ l /\ note_addr_index n = wa_index st /\
  note_key n = (nm_index nm, nm_cm nm) /\
  detect (nm_enc nm) (derive_kem_detect_keys_from_root
    (derive_detect_root (acc_incoming_seed (account w))) (wa_index st)).2 = Ok true.
Proof.
  induction l as [|st l IH]; cbn [recover_from]; [done|].
  assert (recover_from w (account w) l nm = Ok (Some n) -> exists st', st' ∈ st :: l /\
    note_addr_index n = wa_index st' /\ note_key n = (nm_index nm, nm_cm nm) /\
    detect (nm_enc nm) (derive_kem_detect_keys_from_root
      (derive_detect_root (acc_incoming_seed (account w))) (wa_index st')).2 = Ok true) as Hnext.
  { intros (st' & Hin & Hst')%IH. exists st'. split; [by right|done]. }
  pose proof (detect_keys_from_root (acc_incoming_seed (account w)) (wa_index st)) as Hd.
  unfold kem_keys. destruct (derive_kem_keys _ _) as [[[ek_v dk_v] ek_d] dk_d].
  destruct (detect _ dk_d) as [[]| |] eqn:Eb; cbn [mbind result_bind negb]; [|exact Hnext|done..].
  destruct (decrypt_memo _ dk_v) as [[[[v rseed] memo]|]| |]; cbn [mbind result_bind]; [|exact Hnext|done..].
  unfold recover_note_for_address. case_bool_decide; [|exact Hnext].
  intros [= <-]. exists st. split; [left|]. split; [done|]. split; [done|]. by rewrite Hd.
Qed.

Lemma detect_feeds `{!MlKemImportLaws} w feeds l :
  Forall (fun nm => note_shape (nm_enc nm)) (feeds ≫= nf_notes) ->
  map_result (try_recover_note w) (feeds ≫= nf_notes) = Ok l -> exists matches,
  watch_feeds (from_material (from_detect_wallet w)) feeds =
    Ok (WatchDetect WATCH_WALLET_VERSION (derive_detect_root (acc_incoming_seed (account w)))
          (wf_addr_counter w) (nf_next_cursor (one_feed 0 feeds)) matches) /\
  NoDup (detected_key <$> matches) /\
  forall n, Some n ∈ l -> note_addr_index n < wf_addr_counter w -> note_key n ∈ detected_key <$> matches.
Proof.
  intros Hs Hl%map_result_Ok. set (root := derive_detect_root (acc_incoming_seed (account w))).
  assert (exists rs, map_result (detect_record_for_note root (wf_addr_counter w)) (feeds ≫= nf_notes) = Ok rs /\
    forall n, Some n ∈ l -> note_addr_index n < wf_addr_counter w ->
      exists r, Some r ∈ rs /\ detected_key r = note_key n) as (rs & Hrs & Hall).
  { induction Hl as [|nm o feed l Ho Hl IH].
    - exists []. split; [done|]. by intros n ?%not_elem_of_nil.
    - apply Forall_cons in Hs as [Hnm Hs]. destruct (IH Hs) as (rs & Hrs & Hall).
      destruct (detect_among_ok root (range 0 (wf_addr_counter w)) nm Hnm) as (r & Er & Hk & Hr).
      exists (r :: rs). cbn [map_result].
      rewrite (Er : detect_record_for_note root (wf_addr_counter w) nm = Ok r), Hrs.
      split; [done|]. intros n [<-|Hin]%elem_of_cons Hlt.
      + destruct (recovered_detected _ _ _ _ Ho) as (st & _ & Hi & Hkey & Hd).
        destruct (Hr (wa_index st)) as [rec ->]; [apply elem_of_range; lia|exact Hd|].
        exists rec. split; [left|]. by rewrite Hk.
      + destruct (Hall n Hin Hlt) as (rec & Hrec & Hkey). exists rec. split; [by right|done]. }
  exists (fresh_records detected_key [] rs). split; [|split].
  - change (fresh_records detected_key [] rs) with ([] ++ fresh_records detected_key [] rs).
    eapply (watch_feeds_push _ detected_key (WatchDetect _ _ _)); [|exact Hrs]. done.
  - apply (fresh_records_nodup detected_key []). constructor.
  - intros n Hn Hlt. destruct (Hall n Hn Hlt) as (r & Hr & <-).
    by apply (fresh_records_covers detected_key []).
Qed.

(** C20: What a wallet exports to a viewer records, over any feeds of well-formed notes,
    exactly the notes that the wallet itself finds when it scans them from the start, in the
    same order, at the same addresses, with the same values, its total being all that the
    wallet received; the wallet keeps those not spent; and each of them is a match of the
    detection wallet, if its address was exported. *)
Theorem view_watch_is_scan `{!MlKemImportLaws} (w : WalletFile) (feeds : list NotesFeedResp)
    (nullifiers : list F) (pools : gmap F N) :
  wallet_ok w -> wf_notes w = [] -> Forall (fun nm => note_shape (nm_enc nm)) (feeds ≫= nf_notes) ->
  exists view detection matches notes w' summary,
    watch_feeds (from_material (from_view_wallet w)) feeds = Ok view /\
    watch_feeds (from_material (from_detect_wallet w)) feeds = Ok detection /\
    apply_scan_feed (one_feed 0 feeds) nullifiers pools w = (w', Ok summary) /\
    wf_notes w' = filter (fun n => note_nullifier n ∉ nullifiers) notes /\
    viewed <$> ws_notes (watch_status view) = held <$> notes /\
    ws_incoming_total (watch_status view) = sum_amounts (note_v <$> notes) /\
    watch_scanned view = wf_scanned w' /\ ws_matches (watch_status detection) = matches /\
    NoDup (detected_key <$> matches) /\
    forall n, n ∈ notes -> note_addr_index n < wf_addr_counter w ->
      note_key n ∈ detected_key <$> matches.
Proof.
  intros Hw Hno Hs. destruct (recover_feed_ok w (one_feed 0 feeds) Hs) as (l & El & _ & _).
  destruct (view_feeds w feeds l Hw El) as (viewed_notes & Ev & Hv).
  destruct (detect_feeds w feeds l Hs El) as (matches & Ed & Hnd & Hm).
  set (notes := fresh_records note_key [] l) in *.
  pose proof (scan_feed_ok (one_feed 0 feeds) nullifiers pools w l El) as Esc. cbv zeta in Esc.
  destruct (prune _ _ _ _ _) as [w' summary] eqn:Ep. unfold prune in Ep. injection Ep as Ew _.
  eexists _, _, matches, notes, w', summary. split; [exact Ev|]. split; [exact Ed|]. split; [exact Esc|].
  split.
  { rewrite <-Ew. cbn. rewrite Hno. cbn [app]. fold notes. unfold prune_notes.
    apply list_filter_iff. intros n. by rewrite elem_of_list_to_set. }
  split; [exact Hv|]. split.
  { cbn. f_equal. transitivity (snd <$> (held <$> notes)); [|by rewrite <-list_fmap_compose].
    rewrite <-Hv, <-list_fmap_compose. done. }
  split; [by rewrite <-Ew|]. split; [done|]. split; [done|].
  intros n Hn. apply Hm. by apply elem_of_fresh_records in Hn.
Qed.

(** ** An outgoing wallet *)

Lemma sent_recovered `{!AeadLaws} rnd address value memo seed role on index :
  is_u64 value -> build_output_note_with_outgoing rnd address value memo seed role = Ok on ->
  exists r, outgoing_record_for_note seed {| nm_index := index; nm_cm := on_cm on; nm_enc := on_enc on |} = Some r /\
  outgoing_key r = (index, on_cm on).
Proof.
  intros Hv. unfold build_output_note_with_outgoing, build_output_note_inner.
  intros (ek_v & _ & (ek_d & _ & E)%bind_Ok)%bind_Ok. cbv zeta in E.
  apply bind_Ok in E as (enc0 & _ & (enc & (ct & Ec & [= <-])%bind_Ok & [= <-])%bind_Ok).
  unfold outgoing_record_for_note. cbn [nm_cm nm_enc nm_index on_cm on_enc with_outgoing_ct en_outgoing_ct].
  set (p := outgoing_recovery_plaintext address role value (nr_rseed rnd)) in *.
  change (commit _ _ _ _) with (outgoing_commitment p) in *.
  destruct (outgoing_recovery_roundtrip seed (outgoing_commitment p) p Hv) as (ct' & Ec' & _ & Ed).
  rewrite Ec in Ec'. injection Ec' as <-. rewrite Ed. cbn [mbind option_bind].
  rewrite bool_decide_eq_true_2 by done. cbn [negb]. by eexists.
Qed.

Lemma built_commitment rnd address value memo seed role on :
  build_output_note_with_outgoing rnd address value memo seed role = Ok on ->
  on_cm on = commit (pa_d_j address) value (derive_rcm (nr_rseed rnd))
    (owner_tag (pa_auth_root address) (pa_auth_pub_seed address) (pa_nk_tag address)).
Proof.
  unfold build_output_note_with_outgoing, build_output_note_inner.
  intros (ek_v & _ & (ek_d & _ & (enc0 & _ & (enc & _ & [= <-])%bind_Ok)%bind_Ok)%bind_Ok)%bind_Ok. done.
Qed.

Lemma outgoing_decode_u64 b p : outgoing_decode b = Some p -> is_u64 (or_value p).
Proof.
  unfold outgoing_decode. destruct (negb _) eqn:El; [done|].
  intros (tag & _ & (role & _ & [= <-])%bind_Some)%bind_Some. cbn [or_value].
  apply negb_false_iff, Nat.eqb_eq in El. pose proof (le_val_bound (slice b 1 9)) as Hb.
  rewrite length_slice in Hb by (rewrite El; unfold OUTGOING_RECOVERY_PLAINTEXT_BYTES; lia). exact Hb.
Qed.

(** Every record opens its commitment. *)
Lemma outgoing_record_opens seed nm r :
  outgoing_record_for_note seed nm = Some r ->
  outgoing_key r = (nm_index nm, nm_cm nm) /\ is_u64 (ogr_value r) /\
    commit (ogr_d_j r) (ogr_value r) (derive_rcm (ogr_rseed r))
    (owner_tag (ogr_auth_root r) (ogr_auth_pub_seed r) (ogr_nk_tag r)) = ogr_cm r.
Proof.
  unfold outgoing_record_for_note. intros (p & Ep & E)%bind_Some.
  destruct (bool_decide _) eqn:Ec; [|done]. apply bool_decide_eq_true in Ec. injection E as <-.
  split; [done|]. split; [|exact Ec]. cbn [ogr_value]. unfold decrypt_outgoing_recovery in Ep.
  destruct (negb _); [done|]. apply bind_Some in Ep as (plain & _ & Ep).
  by apply outgoing_decode_u64 in Ep.
Qed.

(** C21: What a wallet exports of its outgoing seed records, over any feeds, notes
    whose commitments it opens, each once; a note built by the wallet for any address, once
    published in the feeds, is among them, opened to the address and the value paid, or a
    collision of the commitment hash is exhibited. *)
Theorem outgoing_watch_recovers `{!AeadLaws} (w : WalletFile) (feeds : list NotesFeedResp)
    (rnd : NoteRandomness) (address : PaymentAddress) (value : N) (memo : option bytes)
    (role : OutgoingNoteRole) (on : PreparedOutputNote) (index : N) :
  is_u64 value ->
  build_output_note_with_outgoing rnd address value memo (acc_outgoing_seed (account w)) role = Ok on ->
  {| nm_index := index; nm_cm := on_cm on; nm_enc := on_enc on |} ∈ feeds ≫= nf_notes ->
  exists watch records,
    watch_feeds (from_material (from_outgoing_wallet w)) feeds = Ok watch /\
    ws_outgoing_notes (watch_status watch) = records /\ NoDup (outgoing_key <$> records) /\
    Forall (fun r => commit (ogr_d_j r) (ogr_value r) (derive_rcm (ogr_rseed r))
      (owner_tag (ogr_auth_root r) (ogr_auth_pub_seed r) (ogr_nk_tag r)) = ogr_cm r) records /\
    exists r, r ∈ records /\ outgoing_key r = (index, on_cm on) /\
      (ogr_value r = value /\ ogr_d_j r = pa_d_j address \/
       is_collision "cmmtSP__"
         (commit_input (ogr_d_j r) (ogr_value r) (derive_rcm (ogr_rseed r))
           (owner_tag (ogr_auth_root r) (ogr_auth_pub_seed r) (ogr_nk_tag r)))
         (commit_input (pa_d_j address) value (derive_rcm (nr_rseed rnd))
           (owner_tag (pa_auth_root address) (pa_auth_pub_seed address) (pa_nk_tag address)))).
Proof.
  intros Hv Eb Hin. set (seed := acc_outgoing_seed (account w)) in *.
  set (l := outgoing_record_for_note seed <$> (feeds ≫= nf_notes)).
  assert (map_result (fun nm => mret (outgoing_record_for_note seed nm)) (feeds ≫= nf_notes) = Ok l) as El
    by by apply map_result_all.
  assert (forall r, r ∈ fresh_records outgoing_key [] l -> exists nm,
    outgoing_record_for_note seed nm = Some r) as Hfrom.
  { intros r (nm & E & _)%elem_of_fresh_records%list_elem_of_fmap. by exists nm. }
  eexists _, (fresh_records outgoing_key [] l). split.
  { eapply (watch_feeds_push _ outgoing_key (WatchOutgoing _ _) feeds 0 []); [|exact El]. done. }
  split; [done|]. split; [apply (fresh_records_nodup outgoing_key []); constructor|]. split.
  { apply Forall_forall. intros r (nm & E)%Hfrom. by apply outgoing_record_opens in E as (_ & _ & ?). }
  destruct (sent_recovered rnd address value memo seed role on index Hv Eb) as (r0 & E0 & Hk0).
  assert (Some r0 ∈ l) as Hl by (apply list_elem_of_fmap; by eexists).
  apply (fresh_records_covers outgoing_key []) in Hl. cbn [app] in Hl.
  apply list_elem_of_fmap in Hl as (r & Hk & Hr). exists r. split; [done|]. split; [congruence|].
  destruct (Hfrom r Hr) as [nm E]. destruct (outgoing_record_opens _ _ _ E) as (Hkr & Hu & Hc).
  assert (ogr_cm r = on_cm on) as Ecm by (unfold outgoing_key in *; congruence).
  rewrite Ecm, (built_commitment _ _ _ _ _ _ _ Eb) in Hc.
  apply commit_binding in Hc as [(-> & -> & _)|C]; [by left|by right|done..].
Qed.

(** ** The file *)

Lemma apply_watch_feed_total `{!MlKemImportLaws} watch feed :
  Forall (fun nm => note_shape (nm_enc nm)) (nf_notes feed) -> exists watch' summary,
  apply_watch_feed watch feed = Ok (watch', summary).
Proof.
  intros Hs.
  assert (forall R (record : NoteMemo -> result (option R)) key records,
    (forall nm, note_shape (nm_enc nm) -> exists r, record nm = Ok r) -> exists out,
    push_feed record key feed records = Ok out) as Hpush.
  { intros R record key records Hr.
    assert (exists l, map_result record (nf_notes feed) = Ok l) as [l El].
    { induction Hs as [|nm l Hnm Hs [l' IH]]; [by exists []|]. destruct (Hr nm Hnm) as [r Er].
      exists (r :: l'). cbn [map_result]. by rewrite Er, IH. }
    unfold push_feed. fold (keys_in key records).
    rewrite (push_records_fresh key record _ l records 0 El). cbn [mbind result_bind]. by eexists. }
  destruct watch as [ver root count sc matches|ver seed addrs sc notes|ver seed sc notes]; cbn [apply_watch_feed].
  - destruct (Hpush _ (detect_record_for_note root count) detected_key matches) as [[l sum] ->];
      [|cbn; by eexists _, _].
    intros nm Hnm. destruct (detect_among_ok root (range 0 count) nm Hnm) as (r & E & _). by exists r.
  - destruct (Hpush _ (view_record_for_note seed addrs) viewed_key notes) as [[l sum] ->];
      [|cbn; by eexists _, _].
    intros nm Hnm. induction addrs as [|a addrs [r IH]]; [by exists None|]. cbn [view_record_for_note].
    destruct (derive_kem_keys _ _) as [[[? dk_v] ?] dk_d].
    destruct (detect_total (nm_enc nm) dk_d Hnm) as [[] ->]; cbn [mbind result_bind negb]; [|by exists r].
    pose proof (decrypt_memo_shape (nm_enc nm) dk_v Hnm) as Hp.
    destruct (decrypt_memo _ dk_v) as [[[[??]?]|]| |]; cbn [mbind result_bind]; [|by exists r|done..].
    case_bool_decide; [by eexists|by exists r].
  - destruct (Hpush _ (fun nm => mret (outgoing_record_for_note seed nm)) outgoing_key notes) as [[l sum] ->];
      [|cbn; by eexists _, _].
    intros nm _. by eexists.
Qed.
End WatchFacts.

Section WatchSync.
Context `{Blake2s, MlKem, !MlKemImport, !MlKemImportLaws, Aead, HexLaws, !HexDigits, HttpClients, Json}.
Context `{Target, Tze WirePublishedNote} {HW : WordTarget} {HP : PublishedCodec}.

(** From a node that serves the store of a view, a synchronisation applies to the file the
    view's notes from its cursor on. *)
Lemma watch_sync_is_feed (env : WatchEnv) (g : bytes -> option bytes) (level : Z) (v : View)
    (c : nat) (watch : WatchWalletFile) :
  serves (we_url env) (str_bytes "head") g level -> repr (cells g) v -> view_size v < usize_limit ->
  we_concurrency env = Ok c -> (0 < c)%nat -> we_load env = None -> we_save env = PrivateDone ->
  watch_scanned watch <= N.of_nat (length (v_notes v)) ->
  exists watch' summary,
    sync_watch_wallet_once env (Some watch) = (Some watch', Ok summary) /\
    apply_watch_feed watch (feed v (watch_scanned watch) (N.of_nat (length (v_notes v)))) = Ok (watch', summary).
Proof.
  intros Hs Hr Hsize Ec Hc El Esave Hle. set (size := N.of_nat (length (v_notes v))) in *.
  destruct (apply_watch_feed_total watch (feed v (watch_scanned watch) size)) as (watch' & summary & E).
  { by eapply window_shape. }
  exists watch', summary. split; [|done]. unfold sync_watch_wallet_once, load_watch_wallet.
  erewrite ST_run by (rewrite El; reflexivity). cbv zeta.
  assert (load_notes_since env (watch_scanned watch) = Ok (feed v (watch_scanned watch) size)) as Ef.
  { unfold load_notes_since. rewrite Ec.
    rewrite (served_notes (we_url env) (str_bytes "head") g level Hs c _ (v_notes v) _ Hc
      (r_tree _ _ Hr)) by (unfold view_size in *; lia).
    unfold feed, window. fold size. rewrite take_ge; [done|]. rewrite length_drop. lia. }
  rewrite Ef. cbn [map_err]. erewrite ST_run by reflexivity. erewrite ST_run by (unfold lift; rewrite E; reflexivity).
  unfold save_watch_wallet. erewrite ST_run by (rewrite Esave; reflexivity). done.
Qed.
End WatchSync.
