(* ===== verification/KernelSpec.v ===== *)
(** * KernelSpec: the rollup kernel as a state machine

    What the kernel promises, without its store: [KView] is its abstract state, the
    ledger's view with the configuration and the outbox, and [rollup_step] says which
    messages move it and how.  The theorems follow by induction on the steps; that the
    kernel of [Kernel] takes exactly these steps is proved in [KernelCorrect]. *)

From S2P Require Import Prelude Felt Externals Concrete Recipients Types Hashing Outputs.
From S2P Require Import Merkle Ledger LedgerSpec Wots CanonicalWire KernelWire.
From S2P Require Import Utf8 Store Durable DurableRepr Dal Kernel.

Local Open Scope N_scope.

(** ** The abstract state *)

Record KView := {
  kv_ledger : View;
  kv_verifier : option KernelVerifierConfig;
  kv_ticketer : option string;
  kv_outbox : list bytes
}.

Definition with_domain (d : F) (v : View) : View :=
  {| v_auth_domain := d; v_nullifiers := v_nullifiers v; v_roots := v_roots v;
     v_notes := v_notes v; v_withdrawals := v_withdrawals v; v_balances := v_balances v;
     v_shields := v_shields v |}.

Definition with_ledger (v : View) (kv : KView) : KView :=
  {| kv_ledger := v; kv_verifier := kv_verifier kv; kv_ticketer := kv_ticketer kv;
     kv_outbox := kv_outbox kv |}.

Definition with_verifier (c : KernelVerifierConfig) (kv : KView) : KView :=
  {| kv_ledger := with_domain (kvc_auth_domain c) (kv_ledger kv); kv_verifier := Some c;
     kv_ticketer := kv_ticketer kv; kv_outbox := kv_outbox kv |}.

Definition with_ticketer (t : string) (kv : KView) : KView :=
  {| kv_ledger := kv_ledger kv; kv_verifier := kv_verifier kv; kv_ticketer := Some t;
     kv_outbox := kv_outbox kv |}.

Definition with_output (b : bytes) (kv : KView) : KView :=
  {| kv_ledger := kv_ledger kv; kv_verifier := kv_verifier kv; kv_ticketer := kv_ticketer kv;
     kv_outbox := kv_outbox kv ++ [b] |}.

Section Spec.
Context `{Blake2s, Hex, TezosContracts, !RollupEncoding, Target, WireCodecs, KernelBuild}.

(** ** Steps *)

(** The configured verifier, in verified mode, accepts the proof for the circuit. *)
Definition proof_accepted (kv : KView) (proof : KernelStarkProof) (circuit : CircuitKind) : Prop :=
  exists c, kv_verifier kv = Some c /\
    validate bundle_verify (verified false (kvc_verified_program_hashes c))
      (kernel_proof_to_host proof) circuit = Ok tt.

Definition originated (t : string) : Prop :=
  exists c, contract_from_b58check t = Some c /\ contract_is_originated c = true.

(** The steps of the messages that carry their own content, under the fee of the
    moment. *)
Inductive kernel_step (fee : N) (kv : KView) : KernelInboxMessage -> KernelResult -> KView -> Prop :=
| step_configure_verifier config :
    authenticate_verifier_config config = Ok tt -> kv_verifier kv = None ->
    kernel_step fee kv (KIConfigureVerifier config) KRConfigured
      (with_verifier (ksvc_config config) kv)
| step_configure_bridge config :
    authenticate_bridge_config config = Ok tt -> kv_ticketer kv = None ->
    originated (kbc_ticketer (ksbc_config config)) ->
    kernel_step fee kv (KIConfigureBridge config) KRConfigured
      (with_ticketer (kbc_ticketer (ksbc_config config)) kv)
| step_shield kreq v' :
    let req := kernel_shield_req_to_host kreq in
    proof_accepted kv (ksr_proof kreq) CShield ->
    shield_accepts fee TREE_CAPACITY (kv_ledger kv) req ->
    root_snapshot (shield_effect req (kv_ledger kv)) v' ->
    kernel_step fee kv (KIShield kreq) (KRShield (shield_resp req (kv_ledger kv)))
      (with_ledger v' kv)
| step_transfer kreq v' :
    let req := kernel_transfer_req_to_host kreq in
    proof_accepted kv (ktr_proof kreq) CTransfer ->
    transfer_accepts fee TREE_CAPACITY (kv_ledger kv) req ->
    root_snapshot (transfer_effect req (kv_ledger kv)) v' ->
    kernel_step fee kv (KITransfer kreq) (KRTransfer (transfer_resp (kv_ledger kv)))
      (with_ledger v' kv)
| step_unshield kreq recipient ticketer out v' :
    let req := kernel_unshield_req_to_host kreq in
    proof_accepted kv (kur_proof kreq) CUnshield ->
    unshield_accepts fee TREE_CAPACITY (kv_ledger kv) req recipient ->
    kv_ticketer kv = Some ticketer ->
    encode_withdrawal_outbox_message ticketer
      {| wr_recipient := recipient; wr_amount := ur_v_pub req |} = Ok out ->
    root_snapshot (unshield_effect req recipient (kv_ledger kv)) v' ->
    kernel_step fee kv (KIUnshield kreq) (KRUnshield (unshield_resp req (kv_ledger kv)))
      (with_ledger v' (with_output out kv)).

(** [fetch] gives the message a data-availability pointer stands for. *)
Definition message_of (fetch : KernelDalPayloadPointer -> result KernelInboxMessage)
    (m : KernelInboxMessage) : result KernelInboxMessage :=
  match m with KIDalPointer p => fetch p | _ => Ok m end.

Inductive rollup_step fetch (fee : N) (kv : KView)
    : ParsedRollupMessage -> KernelResult -> KView -> Prop :=
| step_kernel m m' res kv' :
    message_of fetch m = Ok m' -> kernel_step fee kv m' res kv' ->
    rollup_step fetch fee kv (PKernel m) res kv'
| step_deposit d c k next :
    kv_ticketer kv = Some (pbd_ticketer d) -> kv_verifier kv = Some c ->
    is_deposit_recipient_string (pbd_recipient d) = true ->
    parse_deposit_recipient_pubkey_hash (pbd_recipient d) = Ok k ->
    checked_add_u64 (default 0 (v_balances (kv_ledger kv) !! k)) (pbd_amount d) = Some next ->
    rollup_step fetch fee kv (PDeposit d) KRDeposit
      (with_ledger (with_balances (<[k := next]> (v_balances (kv_ledger kv))) (kv_ledger kv)) kv).

(** One move, whatever the message. *)
Definition moves (kv kv' : KView) : Prop :=
  exists fetch fee m res, rollup_step fetch fee kv m res kv'.

(** ** Invariants of the steps *)

(** A message of the outbox that pays a queued withdrawal, for a ticketer. *)
Definition pays (ticketer : string) (w : WithdrawalRecord) (out : bytes) : Prop :=
  encode_withdrawal_outbox_message ticketer w = Ok out.

(** The state of a kernel on a new store. *)
Definition initial (v : View) : KView :=
  {| kv_ledger := v; kv_verifier := None; kv_ticketer := None; kv_outbox := [] |}.

(** What was queued since [kv0] was sent, for the configured bridge. *)
Definition paid (kv0 kv : KView) : Prop := exists ws outs,
  v_withdrawals (kv_ledger kv) = v_withdrawals (kv_ledger kv0) ++ ws /\
  kv_outbox kv = kv_outbox kv0 ++ outs /\
  Forall2 (fun w out => exists t, kv_ticketer kv = Some t /\ pays t w out) ws outs.

(** A configured verifier fixes the domain; a configured bridge is a contract. *)
Record kv_inv (kv : KView) : Prop := {
  ki_domain : forall c, kv_verifier kv = Some c -> v_auth_domain (kv_ledger kv) = kvc_auth_domain c;
  ki_bridge : forall t, kv_ticketer kv = Some t -> originated t
}.

(** What a step never takes back. *)
Record grows (kv kv' : KView) : Prop := {
  gr_verifier : forall c, kv_verifier kv = Some c -> kv_verifier kv' = Some c;
  gr_ticketer : forall t, kv_ticketer kv = Some t -> kv_ticketer kv' = Some t;
  gr_domain : is_Some (kv_verifier kv) ->
    v_auth_domain (kv_ledger kv') = v_auth_domain (kv_ledger kv);
  gr_nullifiers : v_nullifiers (kv_ledger kv) ⊆ v_nullifiers (kv_ledger kv');
  gr_shields : v_shields (kv_ledger kv) ⊆ v_shields (kv_ledger kv');
  gr_notes : v_notes (kv_ledger kv) `prefix_of` v_notes (kv_ledger kv');
  gr_withdrawals : v_withdrawals (kv_ledger kv) `prefix_of` v_withdrawals (kv_ledger kv');
  gr_outbox : kv_outbox kv `prefix_of` kv_outbox kv'
}.

#[export] Instance grows_refl : Reflexive grows.
Proof. by constructor. Qed.

#[export] Instance grows_trans : Transitive grows.
Proof.
  intros a b c [V1 T1 D1 N1 S1 O1 W1 B1] [V2 T2 D2 N2 S2 O2 W2 B2]. constructor; eauto.
  - intros [x Hx]. rewrite D2, D1; [done|by exists x|]. exists x. by apply V1.
  - by etrans.
  - by etrans.
  - by etrans.
  - by etrans.
  - by etrans.
Qed.

Lemma kernel_step_grows fee kv m res kv' : kernel_step fee kv m res kv' -> grows kv kv'.
Proof.
  intros Hs.
  destruct Hs as [config Ha Hn|config Ha Hn Ho|k v' req Hp Hacc (roots & -> & _)
    |k v' req Hp Hacc (roots & -> & _)|k r t out v' req Hp Hacc Ht He (roots & -> & _)];
    constructor; cbn; try done.
  all: try (intros ? Hc; congruence).
  all: try by apply prefix_app_r.
  all: try set_solver.
  intros [c Hc]. congruence.
Qed.

Lemma rollup_step_grows fetch fee kv m res kv' : rollup_step fetch fee kv m res kv' -> grows kv kv'.
Proof. intros [m1 m' res' kv1 _ Hs|]; [by eapply kernel_step_grows|by constructor]. Qed.

Lemma moves_grow kv kv' : moves kv kv' -> grows kv kv'.
Proof. intros (fetch & fee & m & res & Hs). by eapply rollup_step_grows. Qed.

Lemma run_grows kv kv' : rtc moves kv kv' -> grows kv kv'.
Proof. induction 1 as [kv|kv1 kv2 kv3 Hm _ IH]; [done|]. etrans; [by apply moves_grow|done]. Qed.

(** What a move does to the queue and the outbox. *)
Lemma step_pays fetch fee kv m res kv' :
  rollup_step fetch fee kv m res kv' ->
  (v_withdrawals (kv_ledger kv') = v_withdrawals (kv_ledger kv) /\ kv_outbox kv' = kv_outbox kv) \/
  exists w out t,
    v_withdrawals (kv_ledger kv') = v_withdrawals (kv_ledger kv) ++ [w] /\
    kv_outbox kv' = kv_outbox kv ++ [out] /\ kv_ticketer kv' = Some t /\ pays t w out.
Proof.
  intros [m1 m' res' kv1 _ Hs|]; [|by left].
  destruct Hs as [config Ha Hn|config Ha Hn Ho|k v' req Hp Hacc (roots & -> & _)
    |k v' req Hp Hacc (roots & -> & _)|k r t out v' req Hp Hacc Ht He (roots & -> & _)];
    try by left.
  right. by exists {| wr_recipient := r; wr_amount := ur_v_pub req |}, out, t.
Qed.

Lemma step_configured fetch fee kv m res kv' :
  rollup_step fetch fee kv m res kv' ->
  (forall c, kv_verifier kv' = Some c -> kv_verifier kv = Some c /\
     v_auth_domain (kv_ledger kv') = v_auth_domain (kv_ledger kv) \/
     v_auth_domain (kv_ledger kv') = kvc_auth_domain c) /\
  (forall t, kv_ticketer kv' = Some t -> kv_ticketer kv = Some t \/ originated t).
Proof.
  intros [m1 m' res' kv1 _ Hs|]; [|by split; [left|left]].
  destruct Hs as [config Ha Hn|config Ha Hn Ho|k v' req Hp Hacc (roots & -> & _)
    |k v' req Hp Hacc (roots & -> & _)|k r t out v' req Hp Hacc Ht He (roots & -> & _)]; cbn;
    split; try (by intros; left).
  - intros c [= <-]. by right.
  - intros t [= <-]. by right.
Qed.

Lemma moves_inv kv kv' : kv_inv kv -> moves kv kv' -> kv_inv kv'.
Proof.
  intros [Hd Hb] (fetch & fee & m & res & Hs).
  pose proof (step_configured _ _ _ _ _ _ Hs) as [Hd' Hb']. constructor.
  - intros c Hc. destruct (Hd' c Hc) as [[Hc' ->]|]; [by apply Hd|done].
  - intros t Ht. destruct (Hb' t Ht); [by apply Hb|done].
Qed.

Lemma moves_paid kv0 kv kv' : paid kv0 kv -> moves kv kv' -> paid kv0 kv'.
Proof.
  intros (ws & outs & Hw & Ho & Hp) (fetch & fee & m & res & Hs).
  pose proof (rollup_step_grows _ _ _ _ _ _ Hs) as Hg.
  assert (Forall2 (fun w out => exists t, kv_ticketer kv' = Some t /\ pays t w out) ws outs) as Hp'.
  { eapply Forall2_impl; [exact Hp|]. intros w out (t & Ht & Hpay). exists t.
    split; [by apply Hg|done]. }
  destruct (step_pays _ _ _ _ _ _ Hs) as [[Ew Eo]|(w & out & t & Ew & Eo & Ht & Hpay)].
  - exists ws, outs. by rewrite Ew, Eo.
  - exists (ws ++ [w]), (outs ++ [out]). rewrite Ew, Eo, Hw, Ho, !app_assoc.
    split; [done|]. split; [done|]. apply Forall2_app; [done|]. constructor; [|done]. by exists t.
Qed.

(** An invariant of the moves is one of the runs. *)
Lemma run_invariant (P : KView -> Prop) kv kv' :
  (forall kv kv', P kv -> moves kv kv' -> P kv') -> P kv -> rtc moves kv kv' -> P kv'.
Proof. intros Hstep Hp Hr. revert Hp. induction Hr; eauto. Qed.

Lemma run_paid kv0 kv kv' : paid kv0 kv -> rtc moves kv kv' -> paid kv0 kv'.
Proof. apply run_invariant, moves_paid. Qed.

Lemma run_inv kv kv' : kv_inv kv -> rtc moves kv kv' -> kv_inv kv'.
Proof. apply run_invariant, moves_inv. Qed.

(** Before a verifier is configured nothing but configuration happens. *)
Lemma unconfigured_move kv kv' :
  moves kv kv' -> kv_verifier kv' = None ->
  kv_verifier kv = None /\ kv_ledger kv' = kv_ledger kv /\ kv_outbox kv' = kv_outbox kv.
Proof.
  intros (fetch & fee & m & res & Hs) Hn. pose proof (rollup_step_grows _ _ _ _ _ _ Hs) as Hg.
  assert (kv_verifier kv = None) as Hn0.
  { destruct (kv_verifier kv) as [c|] eqn:E; [|done]. apply Hg in E. congruence. }
  split; [done|]. assert (forall proof c, ~ proof_accepted kv proof c) as Hno
    by (intros proof c (cfg & Hc & _); congruence).
  destruct Hs as [m1 m' res' kv1 _ Hs|]; [|congruence].
  destruct Hs; try done; by destruct (Hno _ _ ltac:(eassumption)).
Qed.

Lemma unconfigured_run kv kv' :
  rtc moves kv kv' -> kv_verifier kv' = None ->
  kv_ledger kv' = kv_ledger kv /\ kv_outbox kv' = kv_outbox kv.
Proof.
  intros Hr Hn. enough (kv_verifier kv = None /\ kv_ledger kv' = kv_ledger kv /\
    kv_outbox kv' = kv_outbox kv) by tauto.
  induction Hr as [kv|kv1 kv2 kv3 Hm _ IH]; [done|]. destruct (IH Hn) as (Hn2 & -> & ->).
  by apply unconfigured_move.
Qed.
End Spec.
