(* ===== verification/KernelTotal.v ===== *)
(** * KernelTotal: parsing and guards never panic

    If the crates' parsers, encoders and verifier return (a value or an error) on every
    input, as their signatures say, then so does everything the kernel computes before
    it touches its ledger. *)

From S2P Require Import Prelude Felt Externals Concrete Recipients Types Hashing Binding.
From S2P Require Import Outputs Merkle Ledger LedgerSpec LedgerCorrect LedgerMem Wots Notes.
From S2P Require Import CanonicalWire KernelWire Utf8 Store StoreKeys Durable Dal Kernel.

Local Open Scope N_scope.

(** ** What is assumed: functions that return [Result] return *)

Class TzeTotal (T : Type) `{Tze T} : Prop := {
  nom_read_total : forall b, is_panic (nom_read b : result (bytes * T)) = false;
  bin_write_total : forall v : T, is_panic (bin_write v) = false
}.

Class WireTotal `{WireCodecs} : Prop := {
  wt_felt :: TzeTotal WireFelt;
  wt_u64 :: TzeTotal WireU64Le;
  wt_note :: TzeTotal WireEncryptedNote;
  wt_felt_list :: TzeTotal WireFeltList;
  wt_encoded_note :: TzeTotal WireEncodedNote;
  wt_encoded_proof :: TzeTotal WireEncodedProof;
  wt_encoded_felt_list :: TzeTotal WireEncodedFeltList;
  wt_verifier_config :: TzeTotal WireKernelVerifierConfig;
  wt_bridge_config :: TzeTotal WireKernelBridgeConfig;
  wt_chunk_list :: TzeTotal WireKernelDalChunkList;
  wt_account :: TzeTotal WireAccountId;
  wt_optional_note :: TzeTotal WireOptionalEncodedNote;
  wt_inbox :: TzeTotal WireKernelInboxEnvelope;
  wt_result :: TzeTotal WireKernelResultEnvelope;
  wt_published :: TzeTotal WirePublishedNote
}.

Class CratesTotal `{Hex, TezosContracts, !RollupEncoding, WireCodecs, KernelBuild} : Prop := {
  ct_wire :: WireTotal;
  ct_hex : forall b, is_panic (hex_decode b) = false;
  ct_bundle : forall b l, is_panic (bundle_verify b l) = false;
  ct_ticket : forall c i n, is_panic (ticket_new c i n) = false;
  ct_outbox : forall a t d e, is_panic (outbox_bin_write a t d e) = false
}.

Class HostTotal (Hst : Type) `{Host Hst} : Prop := {
  ht_address : forall h : Hst, is_Some (host_rollup_address h);
  ht_parameters : forall h : Hst, is_panic (host_reveal_dal_parameters h) = false;
  ht_page : forall (h : Hst) l s p n, is_panic (host_reveal_dal_page h l s p n) = false
}.

(** ** The tactic *)

Lemma no_panic_map_result {A B} (f : A -> result B) l :
  (forall a, is_panic (f a) = false) -> is_panic (map_result f l) = false.
Proof.
  intros Hf. induction l as [|a l IH]; cbn; [done|].
  apply no_panic_bind; [done|]. intros b _. by apply no_panic_bind.
Qed.

Lemma no_panic_panic_unless b msg : b = true -> is_panic (panic_unless b msg) = false.
Proof. by intros ->. Qed.

#[export] Hint Resolve no_panic_map_result : no_panic.
#[export] Hint Extern 1 (is_panic (nom_read _) = false) => apply nom_read_total : no_panic.
#[export] Hint Extern 1 (is_panic (bin_write _) = false) => apply bin_write_total : no_panic.
#[export] Hint Extern 1 (is_panic (hex_decode _) = false) => apply ct_hex : no_panic.
#[export] Hint Extern 1 (is_panic (bundle_verify _ _) = false) => apply ct_bundle : no_panic.
#[export] Hint Extern 1 (is_panic (ticket_new _ _ _) = false) => apply ct_ticket : no_panic.
#[export] Hint Extern 1 (is_panic (outbox_bin_write _ _ _ _) = false) =>
  apply ct_outbox : no_panic.
#[export] Hint Extern 1 (is_panic (host_reveal_dal_parameters _) = false) =>
  apply ht_parameters : no_panic.
#[export] Hint Extern 1 (is_panic (host_reveal_dal_page _ _ _ _ _) = false) =>
  apply ht_page : no_panic.

(** Splits binds and matches until the hints apply. *)
Ltac np :=
  repeat (cbv zeta; first
    [ match goal with |- is_panic (_ ≫= _) = false => apply no_panic_bind; [|intros ? _] end
    | progress auto with no_panic
    | match goal with |- is_panic (match ?x with _ => _ end) = false => destruct x end
    | match goal with |- is_panic (if ?b then _ else _) = false => destruct b end ]).

Section Total.
Context `{Blake2s, Hex, TezosContracts, !RollupEncoding, Target, WireCodecs, KernelBuild}.
Context {CT : CratesTotal}.

(** ** Decoding *)

Lemma encode_tze_total {T} `{TzeTotal T} v : is_panic (encode_tze v) = false.
Proof. unfold encode_tze. np. Qed.

Lemma decode_tze_total {T} `{TzeTotal T} b : is_panic (decode_tze (T := T) b) = false.
Proof. unfold decode_tze. np. Qed.

Lemma decode_prefix_total {T} `{TzeTotal T} b : is_panic (decode_tze_prefix (T := T) b) = false.
Proof. unfold decode_tze_prefix. np. Qed.

Lemma wire_to_felt_total w : is_panic (wire_to_felt w) = false.
Proof. unfold wire_to_felt, felt_of_slice. np. Qed.

Lemma wire_to_u64_total w : is_panic (wire_to_u64 w) = false.
Proof. unfold wire_to_u64. np. Qed.

Lemma wire_to_u16_total w : is_panic (wire_to_u16 w) = false.
Proof. unfold wire_to_u16. np. Qed.

Lemma check_len_total f b n : is_panic (check_len f b n) = false.
Proof. unfold check_len. np. Qed.

#[local] Hint Resolve check_len_total : no_panic.

Lemma validate_note_total e : is_panic (EncryptedNote_validate e) = false.
Proof. unfold EncryptedNote_validate. np. Qed.

#[local] Hint Resolve wire_to_felt_total wire_to_u64_total wire_to_u16_total
  validate_note_total : no_panic.
#[local] Hint Extern 1 (is_panic (encode_tze _) = false) =>
  apply encode_tze_total; apply _ : no_panic.
#[local] Hint Extern 1 (is_panic (decode_tze _) = false) =>
  apply decode_tze_total; apply _ : no_panic.
#[local] Hint Extern 1 (is_panic (decode_tze_prefix _) = false) =>
  apply decode_prefix_total; apply _ : no_panic.

Lemma note_from_wire_total w : is_panic (note_from_wire w) = false.
Proof. unfold note_from_wire. np. Qed.

Lemma take_bytes_total b n l : is_panic (take_bytes b n l) = false.
Proof. unfold take_bytes. np. Qed.

Lemma take_len_total b l : is_panic (take_u32_be_len b l) = false.
Proof. unfold take_u32_be_len. apply no_panic_bind; [apply take_bytes_total|]. by intros [] _. Qed.

#[local] Hint Resolve note_from_wire_total take_bytes_total take_len_total : no_panic.

Lemma take_felts_total n b : is_panic (take_felts n b) = false.
Proof. revert b. induction n as [|n IH]; intros b; cbn [take_felts]; [done|]. np. Qed.

#[local] Hint Resolve take_felts_total : no_panic.

Lemma proof_from_wire_total w : is_panic (encoded_proof_from_wire w) = false.
Proof. unfold encoded_proof_from_wire, kernel_proof_from_wire. np. Qed.

Lemma note_list_total w : is_panic (encoded_note_from_wire w) = false.
Proof. unfold encoded_note_from_wire, encrypted_note_from_wire. np. Qed.

Lemma felt_list_total w : is_panic (encoded_felt_list_from_wire w) = false.
Proof. unfold encoded_felt_list_from_wire. np. Qed.

Lemma config_from_wire_total w : is_panic (config_from_wire w) = false.
Proof. unfold config_from_wire, program_hashes_from_wire. np. Qed.

#[local] Hint Resolve proof_from_wire_total note_list_total felt_list_total config_from_wire_total
  : no_panic.

Lemma decode_config_total b : is_panic (decode_kernel_verifier_config b) = false.
Proof. unfold decode_kernel_verifier_config. np. Qed.

Lemma transpose_map_total {A B} (f : A -> result B) o :
  (forall a, is_panic (f a) = false) -> is_panic (transpose_map f o) = false.
Proof. intros Hf. destruct o as [a|]; cbn; np. Qed.

#[local] Hint Resolve decode_config_total transpose_map_total : no_panic.

Lemma chunk_pointer_total w : is_panic (kernel_dal_chunk_pointer_from_wire w) = false.
Proof. unfold kernel_dal_chunk_pointer_from_wire. np. Qed.

#[local] Hint Resolve chunk_pointer_total : no_panic.

Lemma decode_inbox_total b : is_panic (decode_kernel_inbox_message b) = false.
Proof.
  unfold decode_kernel_inbox_message. np. unfold inbox_message_from_wire.
  destruct (wie_message _); apply no_panic_bind; try (by intros; done).
  - unfold signed_config_from_wire. np.
  - unfold signed_bridge_config_from_wire. np.
  - unfold kernel_shield_req_from_wire, encrypted_note_from_wire. np.
  - unfold kernel_transfer_req_from_wire. np.
  - unfold kernel_unshield_req_from_wire. np.
  - unfold kernel_dal_payload_pointer_from_wire, check_chunk_count. np.
Qed.

#[local] Hint Resolve decode_inbox_total : no_panic.

Lemma parse_deposit_total t : is_panic (parse_bridge_deposit t) = false.
Proof. unfold parse_bridge_deposit. np. Qed.

#[local] Hint Resolve parse_deposit_total : no_panic.

Lemma decode_rollup_total b a : is_panic (decode_rollup_message b a) = false.
Proof. unfold decode_rollup_message. np. Qed.

(** ** Data-availability pointers *)

Lemma sum_lengths_total acc l : is_panic (sum_chunk_lengths acc l) = false.
Proof. revert acc. induction l as [|c l IH]; intros acc; cbn [sum_chunk_lengths]; np. Qed.

Section OnHost.
Context {Hst : Type} `{HostTotal Hst}.

Lemma fetch_pages_total (h : Hst) i lvl slot size pages acc :
  is_panic (fetch_pages h i lvl slot size pages acc) = false.
Proof. revert acc. induction pages as [|p l IH]; intros acc; cbn [fetch_pages]; np. Qed.

#[local] Hint Resolve sum_lengths_total fetch_pages_total : no_panic.

Lemma fetch_chunk_total (h : Hst) n ss ps i c : is_panic (fetch_chunk h n ss ps i c) = false.
Proof. unfold fetch_chunk. np. Qed.

#[local] Hint Resolve fetch_chunk_total : no_panic.

Lemma fetch_chunks_total (h : Hst) n ss ps i l acc :
  is_panic (fetch_chunks h n ss ps i l acc) = false.
Proof. revert i acc. induction l as [|c l IH]; intros i acc; cbn [fetch_chunks]; np. Qed.

#[local] Hint Resolve fetch_chunks_total : no_panic.

Lemma fetch_payload_total (h : Hst) p : is_panic (fetch_payload h p) = false.
Proof. unfold fetch_payload. np. Qed.

#[local] Hint Resolve fetch_payload_total : no_panic.

Lemma check_kind_total dbg k m : is_panic (check_payload_kind dbg k m) = false.
Proof. by destruct k, m. Qed.

#[local] Hint Resolve check_kind_total : no_panic.

Lemma fetch_message_total dbg (h : Hst) p :
  is_panic (fetch_kernel_message_from_dal dbg h p) = false.
Proof. unfold fetch_kernel_message_from_dal. np. Qed.

(** ** Guards *)

Lemma program_hash_total pre x : is_panic (validate_single_task_program_hash pre x) = false.
Proof. unfold validate_single_task_program_hash. np. apply parse_no_panic. Qed.

Lemma shape_total p a b : is_panic (check_proof_shape p a b) = false.
Proof. unfold check_proof_shape. np. Qed.

#[local] Hint Resolve shape_total program_hash_total : no_panic.

Lemma circuit_total p c hs : is_panic (validate_stark_circuit p c hs) = false.
Proof. unfold validate_stark_circuit. np. Qed.

#[local] Hint Resolve circuit_total : no_panic.

Lemma validate_total v p c : is_panic (validate bundle_verify v p c) = false.
Proof. unfold validate, verify_stark_bundle. np. Qed.

Lemma read_config_total (h : Hst) : is_panic (read_verifier_config h) = false.
Proof. unfold read_verifier_config. np. Qed.

#[local] Hint Resolve validate_total read_config_total : no_panic.

Lemma validate_proof_total (h : Hst) p c : is_panic (validate_transition_proof h p c) = false.
Proof. unfold validate_transition_proof, load_verifier. np. Qed.

Lemma compiled_total v l : is_panic (compiled_felt v l) = false.
Proof. unfold compiled_felt, parse_compiled_felt_hex. np. Qed.

Lemma auth_verifier_total c : is_panic (authenticate_verifier_config c) = false.
Proof.
  unfold authenticate_verifier_config, compiled_config_admin_pub_seed,
    compiled_verifier_config_leaf, kernel_verifier_config_sighash, encode_kernel_verifier_config.
  np; [apply compiled_total..|apply verify_wots_no_panic].
Qed.

Lemma auth_bridge_total c : is_panic (authenticate_bridge_config c) = false.
Proof.
  unfold authenticate_bridge_config, compiled_config_admin_pub_seed,
    compiled_bridge_config_leaf, kernel_bridge_config_sighash.
  np; [apply compiled_total..|apply verify_wots_no_panic].
Qed.

Lemma read_string_total (s : DurableLedgerState Hst) p n : is_panic (d_read_string s p n) = false.
Proof. unfold d_read_string. np. Qed.

#[local] Hint Resolve read_string_total : no_panic.

Lemma encode_outbox_total t w : is_panic (encode_withdrawal_outbox_message t w) = false.
Proof. unfold encode_withdrawal_outbox_message. np. Qed.

Lemma validate_deposit_total (s : DurableLedgerState Hst) d :
  is_panic (validate_bridge_deposit s d) = false.
Proof. unfold validate_bridge_deposit. np. Qed.
End OnHost.

(** ** Results *)

Lemma encode_result_total r : is_panic (encode_kernel_result r) = false.
Proof.
  unfold encode_kernel_result. np.
  unfold kernel_result_to_wire, shield_resp_to_wire, transfer_resp_to_wire, unshield_resp_to_wire.
  np.
Qed.
End Total.
