(* ===== verification/KernelCorrect.v ===== *)
(** * KernelCorrect: the kernel takes the steps of its specification

    [kernel_repr] relates the store the kernel runs on to an abstract state; a message
    applied to a represented store either takes a step of [KernelSpec], or is an error
    that leaves the store and the outbox as they were, and then there was no step to
    take or the host refused the output. *)

From S2P Require Import Prelude Felt Externals Concrete Recipients Types Hashing Outputs.
From S2P Require Import Merkle Ledger LedgerSpec LedgerCorrect Wots CanonicalWire KernelWire KernelWireFacts.
From S2P Require Import Utf8 Store StoreKeys Durable DurableCells DurableRepr DurableOps.
From S2P Require Import DurableTree DurableLedger DurableCommit Dal Kernel KernelSpec KernelTotal.

Local Open Scope N_scope.

(** ** What is assumed of the encodings in the store *)

(** A verifier configuration is four felts on the wire, well within a binary cell. *)
Class ConfigCodec `{WireCodecs} : Prop :=
  config_size : forall c b, encode_kernel_verifier_config c = Ok b ->
    N.of_nat (length b) <= MAX_STORE_BINARY_BYTES.

(** A contract address in base58check is short and in ASCII. *)
Class ContractText `{TezosContracts} : Prop :=
  contract_text : forall s c, contract_from_b58check s = Some c ->
    is_ascii (str_bytes s) = true /\ N.of_nat (length (str_bytes s)) <= MAX_STORE_STRING_BYTES.

(** ** How operations end *)

Section Outcome.
Context `{HostLaws Hst}.
#[local] Abbreviation DLS := (DurableLedgerState Hst).

(** Nothing that can be observed changed. *)
Record unchanged (s s' : DLS) : Prop := {
  un_store : host_store (dl_host s') = host_store (dl_host s);
  un_io : host_io (dl_host s') = host_io (dl_host s);
  un_zero : dl_zero_hashes s' = dl_zero_hashes s
}.

Lemma unchanged_refl s : unchanged s s.
Proof. done. Qed.

(** The operation ends well, in a state of [Good], or as an error that changes nothing
    and has the reason [Bad]; it does not panic. *)
Definition outcome {A} (m : ST DLS A) (s : DLS) (Good : A -> DLS -> Prop) (Bad : Prop) : Prop :=
  exists s' r, m s = (s', r) /\
    match r with
    | Ok a => Good a s'
    | Err _ => unchanged s s' /\ Bad
    | Panic _ => False
    end.

Lemma outcome_ret {A} (a : A) s (Good : A -> DLS -> Prop) Bad :
  Good a s -> outcome (mret a) s Good Bad.
Proof. intros Hg. by exists s, (Ok a). Qed.

Lemma outcome_reads {A B} (f : DLS -> result A) (k : A -> ST DLS B) s Good (Bad : Prop) :
  is_panic (f s) = false -> (forall a, f s = Ok a -> outcome (k a) s Good Bad) ->
  ((forall a, f s <> Ok a) -> Bad) -> outcome (a ← reads f; k a) s Good Bad.
Proof.
  intros Hp Hok Hbad. unfold outcome, mbind, ST_bind, reads. destruct (f s) as [a|e|w] eqn:E.
  - by apply Hok.
  - exists s, (Err e). split; [done|]. split; [done|]. by apply Hbad.
  - done.
Qed.

Lemma outcome_lift {A B} (r : result A) (k : A -> ST DLS B) s Good (Bad : Prop) :
  is_panic r = false -> (forall a, r = Ok a -> outcome (k a) s Good Bad) ->
  ((forall a, r <> Ok a) -> Bad) -> outcome (a ← lift r; k a) s Good Bad.
Proof. apply (outcome_reads (fun _ => r)). Qed.

Lemma outcome_run {A B} (m : ST DLS A) (k : A -> ST DLS B) s s1 a (Good : B -> DLS -> Prop) Bad r s' :
  m s = (s1, Ok a) -> k a s1 = (s', Ok r) -> Good r s' -> outcome (a ← m; k a) s Good Bad.
Proof. intros Hm Hk Hg. exists s', (Ok r). by rewrite (ST_run _ _ _ _ _ Hm). Qed.

Lemma outcome_bind {A B} (m : ST DLS A) (k : A -> ST DLS B) s (G : A -> DLS -> Prop) Good Bad :
  outcome m s G Bad -> (forall a s', G a s' -> outcome (k a) s' Good False) ->
  outcome (a ← m; k a) s Good Bad.
Proof.
  intros (s' & r & Hm & Hr) Hk. unfold outcome, mbind, ST_bind. rewrite Hm.
  destruct r as [a|e|w]; [|by exists s', (Err e)|done].
  destruct (Hk a s' Hr) as (s2 & r2 & -> & H2). exists s2, r2. split; [done|].
  destruct r2 as [b|e|w]; [done|by destruct H2|done].
Qed.

Lemma outcome_mono {A} (m : ST DLS A) s (Good Good' : A -> DLS -> Prop) (Bad Bad' : Prop) :
  outcome m s Good Bad -> (forall a s', Good a s' -> Good' a s') -> (Bad -> Bad') ->
  outcome m s Good' Bad'.
Proof.
  intros (s' & r & Hm & Hr) Hg Hb. exists s', r. split; [done|].
  destruct r; [by apply Hg| |done]. destruct Hr. auto.
Qed.
End Outcome.

(** ** Representation *)

Section Repr.
Context `{Blake2s, HexLaws, TezosContracts, !RollupEncoding, Target, WireLaws, KernelBuild}.
Context `{HostLaws Hst} {HW : WordTarget} {HP : PublishedCodec}.
Context {CC : ConfigCodec} {CX : ContractText}.
#[local] Abbreviation DLS := (DurableLedgerState Hst).
Implicit Types s : DLS.

Definition config_cell (o : option bytes) (c : option KernelVerifierConfig) : Prop :=
  match c with
  | None => o = None
  | Some c => exists b, encode_kernel_verifier_config c = Ok b /\ o = Some b
  end.

Record kernel_repr s (kv : KView) : Prop := {
  kr_zero : zero_hashes_ok (dl_zero_hashes s);
  kr_ledger : repr (get s) (kv_ledger kv);
  kr_verifier : config_cell (get s (KCell CVerifierConfig)) (kv_verifier kv);
  kr_ticketer : get s (KCell CBridgeTicketer) = str_bytes <$> kv_ticketer kv;
  kr_originated : forall t, kv_ticketer kv = Some t -> originated t;
  kr_outbox : host_outbox (dl_host s) = kv_outbox kv
}.

Lemma decode_config c b :
  encode_kernel_verifier_config c = Ok b -> decode_kernel_verifier_config b = Ok c.
Proof.
  unfold encode_kernel_verifier_config, decode_kernel_verifier_config. intros E.
  rewrite (decode_encode_tze _ _ E). cbn [mbind result_bind]. apply config_wire_roundtrip.
Qed.

Lemma read_config s c :
  config_cell (get s (KCell CVerifierConfig)) c -> read_verifier_config (dl_host s) = Ok c.
Proof.
  unfold read_verifier_config. change PATH_VERIFIER_CONFIG with (key_path (KCell CVerifierConfig)).
  rewrite read_get. destruct c as [c|]; cbn [config_cell].
  - intros (b & He & ->). cbn [fmap option_fmap option_map].
    rewrite take_ge by (pose proof (config_size _ _ He); lia).
    by rewrite (decode_config _ _ He).
  - by intros ->.
Qed.

Lemma read_ticketer s kv :
  kernel_repr s kv -> d_read_string s PATH_BRIDGE_TICKETER MAX_INPUT_BYTES = Ok (kv_ticketer kv).
Proof.
  intros Hr. unfold d_read_string.
  change PATH_BRIDGE_TICKETER with (key_path (KCell CBridgeTicketer)).
  rewrite read_get, (kr_ticketer _ _ Hr). pose proof (kr_originated _ _ Hr) as Ho.
  destruct (kv_ticketer kv) as [t|]; [|done]. destruct (Ho t eq_refl) as (c & Hc & _).
  destruct (contract_text _ _ Hc) as [Ha Hl]. cbn [fmap option_fmap option_map].
  change (N.min MAX_INPUT_BYTES MAX_STORE_STRING_BYTES) with MAX_STORE_STRING_BYTES.
  rewrite take_ge by lia. by rewrite from_utf8_of by by apply ascii_valid.
Qed.

Lemma repr_durable s v : zero_hashes_ok (dl_zero_hashes s) -> repr (get s) v ->
  view_of s = v /\ durable_inv_from s s.
Proof.
  intros Hz Hr. pose proof (repr_view _ _ Hr) as Hv. split; [done|].
  split; [|apply framed_refl]. split; [done|by rewrite Hv].
Qed.

(** The ledger's laws at a represented state. *)
Lemma kernel_durable s kv : kernel_repr s kv -> view_of s = kv_ledger kv /\ durable_inv_from s s.
Proof. intros [Hz Hr _ _ _ _]. by apply repr_durable. Qed.

Lemma other_not_ledger c : key_group (KCell c) = GOther -> ~ ledger_key (KCell c).
Proof. intros Hc Hk. by apply Hk. Qed.

(** The cells that the abstract state depends on. *)
Definition kernel_cell (c : cell) : Prop :=
  key_group (KCell c) <> GOther \/ c = CAuthDomain \/ c = CVerifierConfig \/ c = CBridgeTicketer.

(** The inbox and every other cell stay. *)
Definition around s s' : Prop :=
  host_inbox (dl_host s') = host_inbox (dl_host s) /\
  forall c, ~ kernel_cell c -> get s' (KCell c) = get s (KCell c).

(** A ledger operation. *)
Lemma repr_moves s s' kv v' :
  kernel_repr s kv -> steps_to s s' v' -> kernel_repr s' (with_ledger v' kv) /\ around s s'.
Proof.
  intros [Hz Hr Hc Ht Ho Hout] [Hr' [Hg Hz' Hio]]. unfold host_io in Hio. injection Hio as Eout Ein.
  split; [|split; [done|]].
  2: { intros c Hother. apply Hg; [done|]. apply other_not_ledger.
       destruct (decide (key_group (KCell c) = GOther)); [done|]. destruct Hother. by left. }
  constructor; cbn [kv_ledger kv_verifier kv_ticketer kv_outbox with_ledger].
  - by rewrite Hz'.
  - done.
  - rewrite Hg; [done|done|by apply other_not_ledger].
  - rewrite Hg; [done|done|by apply other_not_ledger].
  - done.
  - by rewrite Eout.
Qed.

(** A write to a cell outside the ledger's own data. *)
Lemma repr_cell s c b v v' :
  key_group (KCell c) = GOther -> repr (get s) v ->
  (forall G, G <> GOther -> same_part G v v') -> view_size v' = view_size v ->
  get (dset (KCell c) b s) (KCell CAuthDomain) = Some (F_bytes (v_auth_domain v')) ->
  repr (get (dset (KCell c) b s)) v'.
Proof.
  intros Hc Hr Hsame Hsize Ha. eapply (repr_update GOther); [exact Hr| |exact Hsame|exact Ha|].
  - intros k Hk Hn. apply get_dset_ne; [done|done|]. intros <-. by apply Hn.
  - rewrite Hsize. apply (repr_size _ _ Hr).
Qed.

Lemma other_cell_group c : ~ kernel_cell c -> key_group (KCell c) = GOther.
Proof. intros Hc. destruct (decide (key_group (KCell c) = GOther)); [done|]. destruct Hc. by left. Qed.

Lemma get_other_cell s c b c' :
  ~ kernel_cell c -> kernel_cell c' -> get (dset (KCell c) b s) (KCell c') = get s (KCell c').
Proof. intros Hc Hc'. apply get_dset_ne; [done|done|]. by intros [= ->]. Qed.

Lemma dset_outbox k b s : host_outbox (dl_host (dset k b s)) = host_outbox (dl_host s).
Proof. apply host_write_outbox. Qed.

Lemma kernel_other_cell s kv c b :
  ~ kernel_cell c -> kernel_repr s kv -> kernel_repr (dset (KCell c) b s) kv.
Proof.
  intros Hc [Hz Hr Hv Ht Ho Hout].
  constructor; rewrite ?get_other_cell, ?dset_outbox by (done || (unfold kernel_cell; tauto)); try done.
  apply (repr_cell _ _ _ (kv_ledger kv)); [by apply other_cell_group|done|by intros G _ g|done|].
  rewrite get_other_cell by (done || (unfold kernel_cell; tauto)). apply (r_auth _ _ Hr).
Qed.

(** A write to one of them. *)
Lemma around_dset c b s s' : kernel_cell c -> around s s' -> around s (dset (KCell c) b s').
Proof.
  intros Hc [Hin Hcells]. split; [by rewrite <-Hin; apply host_write_inbox|].
  intros c' Hc'. rewrite get_dset_ne; [by apply Hcells|done|done|]. by intros [= <-].
Qed.

(** ** Configuration *)

Lemma configure_verifier_writes s kv c b :
  kernel_repr s kv -> encode_kernel_verifier_config c = Ok b ->
  kernel_repr (dset (KCell CVerifierConfig) b
    (dset (KCell CAuthDomain) (F_bytes (kvc_auth_domain c)) s)) (with_verifier c kv).
Proof.
  intros [Hz Hr Hv Ht Ho Hout] He. constructor; rewrite ?dset_outbox; try done.
  - apply (repr_cell _ _ _ (with_domain (kvc_auth_domain c) (kv_ledger kv)));
      [done| |by intros G _ g|done|by get_simpl].
    apply (repr_cell _ _ _ (kv_ledger kv)); [done|done| |done|by get_simpl].
    by intros [] HG g.
  - exists b. split; [done|apply get_dset_eq].
  - by get_simpl.
Qed.

Lemma configure_bridge_writes s kv t :
  kernel_repr s kv -> originated t ->
  kernel_repr (dset (KCell CBridgeTicketer) (str_bytes t) s) (with_ticketer t kv).
Proof.
  intros [Hz Hr Hv Ht Ho Hout] Hor. constructor; rewrite ?dset_outbox; try done.
  - apply (repr_cell _ _ _ (kv_ledger kv)); [done|done|by intros G _ g|done|].
    get_simpl. apply (r_auth _ _ Hr).
  - cbn [with_ticketer kv_verifier]. by get_simpl.
  - cbn [with_ticketer kv_ticketer]. by get_simpl.
  - intros t' [= <-]. done.
Qed.
End Repr.

(** ** Messages *)

(** Compare the laws' fields with the durable definitions by unfolding the former. *)
#[local] Strategy expand [ll_fee ll_capacity ll_view ll_inv ll_fits Durable_laws].

Section Messages.
Context `{Blake2s, HexLaws, TezosContracts, !RollupEncoding, Target, WireLaws, KernelBuild}.
Context `{HostLaws Hst} {HW : WordTarget} {HP : PublishedCodec}.
Context {CC : ConfigCodec} {CX : ContractText} {CT : CratesTotal} {HT : HostTotal Hst}.
#[local] Abbreviation DLS := (DurableLedgerState Hst).
Implicit Types s : DLS.

Definition fits_kernel (kv : KView) : Prop := view_size (kv_ledger kv) + OP_GROWTH <= INDEX_LIMIT.

(** The host takes no output. *)
Definition refused s : Prop := exists b e, snd (host_write_output b (dl_host s)) = Err e.

(** A step was taken; or there was none to take. *)
Definition stepped s (kv : KView) m (res : KernelResult) s' : Prop :=
  exists kv', kernel_step (durable_fee s) kv m res kv' /\ kernel_repr s' kv' /\ around s s'.

Definition stuck s (kv : KView) m : Prop :=
  refused s \/ forall res kv', ~ kernel_step (durable_fee s) kv m res kv'.

Lemma validate_proof_Ok s kv proof circuit :
  kernel_repr s kv ->
  validate_transition_proof (dl_host s) proof circuit = Ok tt <-> proof_accepted kv proof circuit.
Proof.
  intros Hr. unfold validate_transition_proof, load_verifier, proof_accepted.
  rewrite (read_config _ _ (kr_verifier _ _ Hr)). cbn [mbind result_bind].
  destruct (kv_verifier kv) as [c|]; cbn; naive_solver.
Qed.

(** The ledger's checks and commits, at a represented store. *)
Lemma prepare_shield_at s kv req p :
  kernel_repr s kv ->
  prepare_shield req s = Ok p <->
  shield_accepts (durable_fee s) TREE_CAPACITY (kv_ledger kv) req /\ p = prepared_shield req.
Proof.
  intros [<- Hi]%kernel_durable. exact (prepare_shield_Ok (LedgerLaws0 := Durable_laws s) s req p Hi).
Qed.

Lemma prepare_transfer_at s kv req :
  kernel_repr s kv ->
  prepare_transfer req s = Ok tt <->
  transfer_accepts (durable_fee s) TREE_CAPACITY (kv_ledger kv) req.
Proof.
  intros [<- Hi]%kernel_durable. exact (prepare_transfer_Ok (LedgerLaws0 := Durable_laws s) s req Hi).
Qed.

Lemma prepare_unshield_at s kv req p :
  kernel_repr s kv ->
  prepare_unshield req s = Ok p <->
  exists r, unshield_accepts (durable_fee s) TREE_CAPACITY (kv_ledger kv) req r /\
            p = prepared_unshield req r.
Proof.
  intros [<- Hi]%kernel_durable.
  exact (prepare_unshield_Ok (LedgerLaws0 := Durable_laws s) s req p Hi).
Qed.

Lemma prepare_total s kv : kernel_repr s kv ->
  (forall req, is_panic (prepare_shield req s) = false) /\
  (forall req, is_panic (prepare_transfer req s) = false) /\
  (forall req, is_panic (prepare_unshield req s) = false).
Proof.
  intros [_ Hi]%kernel_durable. split; [|split]; intros req.
  - exact (prepare_shield_no_panic (LedgerLaws0 := Durable_laws s) s req Hi).
  - exact (prepare_transfer_no_panic (LedgerLaws0 := Durable_laws s) s req Hi).
  - exact (prepare_unshield_no_panic (LedgerLaws0 := Durable_laws s) s req Hi).
Qed.

Lemma fits_at s n : n <= INDEX_LIMIT -> ll_fits (LedgerLaws := Durable_laws s) n.
Proof. exact id. Qed.

Lemma commit_transfer_at s kv req :
  kernel_repr s kv -> fits_kernel kv ->
  transfer_accepts (durable_fee s) TREE_CAPACITY (kv_ledger kv) req -> exists s' v',
    commit_transfer req s = (s', Ok (transfer_resp (kv_ledger kv))) /\
    steps_to s s' v' /\ root_snapshot (transfer_effect req (kv_ledger kv)) v'.
Proof.
  unfold fits_kernel. intros [<- Hi]%kernel_durable Hfit Ha.
  assert (exists s', commit_transfer req s = (s', Ok (transfer_resp (view_of s))) /\
    durable_inv_from s s' /\ root_snapshot (transfer_effect req (view_of s)) (view_of s'))
    as (s' & E & [[_ Hr] Hf] & Hs)
    by exact (commit_transfer_Ok (LedgerLaws0 := Durable_laws s) s req Hi (fits_at s _ Hfit) Ha).
  exists s', (view_of s'). split; [exact E|]. split; [|exact Hs]. by split.
Qed.

(** The next statement of a handler reads: it fails only when there is no step. *)
Ltac reads_then Htotal :=
  apply outcome_reads;
  [ apply Htotal
  | intros ?a ?Ha
  | intros ?Hn; right; intros ?res ?kv' ?Hstep; inversion Hstep; subst ].

Lemma shield_outcome s kv req :
  kernel_repr s kv -> fits_kernel kv ->
  outcome (apply_shield_message req) s (stepped s kv (KIShield req)) (stuck s kv (KIShield req)).
Proof.
  intros Hr Hfit. unfold apply_shield_message.
  reads_then validate_proof_total; [|apply (Hn tt); by eapply validate_proof_Ok].
  destruct a. apply (validate_proof_Ok _ _ _ _ Hr) in Ha.
  apply outcome_reads; [by apply (prepare_total s kv)| |].
  - intros p [Hacc ->]%(prepare_shield_at _ _ _ _ Hr). pose proof Hacc as [_ _ _ Hfresh [Hn1 Hn2] (bal & Hbal & Hle) _ _ Hroom].
    destruct (prepare_shield_plan s (kv_ledger kv) (kernel_shield_req_to_host req) bal)
      as (bs & br & br' & Hplan & Hcommit); try done; try apply Hr;
      [unfold fits_kernel, OP_GROWTH in Hfit; lia|].
    destruct (apply_shield_plan s (kv_ledger kv) (kernel_shield_req_to_host req) bal bs br br')
      as (s' & Happly & Hs'); [apply Hr|done..|].
    eapply outcome_run; [unfold reads; by rewrite Hcommit| |].
    { erewrite ST_run by (unfold commit; by rewrite Happly). reflexivity. }
    destruct (repr_moves _ _ _ _ Hr Hs') as [Hr' Hin]. eexists. split; [|by split].
    constructor; [done|done|]. eexists. split; [reflexivity|]. split; set_solver.
  - intros Hn. right. intros res kv' Hstep. inversion Hstep; subst. eapply Hn. by apply (prepare_shield_at _ _ _ _ Hr).
Qed.

Lemma transfer_outcome s kv req :
  kernel_repr s kv -> fits_kernel kv ->
  outcome (apply_transfer_message req) s (stepped s kv (KITransfer req)) (stuck s kv (KITransfer req)).
Proof.
  intros Hr Hfit. unfold apply_transfer_message, apply_transfer.
  reads_then validate_proof_total; [|apply (Hn tt); by eapply validate_proof_Ok].
  destruct a. apply (validate_proof_Ok _ _ _ _ Hr) in Ha.
  apply (outcome_bind _ _ _ (fun resp s' => resp = transfer_resp (kv_ledger kv) /\
    stepped s kv (KITransfer req) (KRTransfer resp) s')).
  - apply outcome_reads; [by apply (prepare_total s kv)| |].
    + intros [] Hacc%(prepare_transfer_at _ _ _ Hr).
      destruct (commit_transfer_at _ _ _ Hr Hfit Hacc) as (s' & v' & E & Hs' & Hsnap).
      destruct (repr_moves _ _ _ _ Hr Hs') as [Hr' Hin].
      exists s', (Ok (transfer_resp (kv_ledger kv))). split; [exact E|]. split; [done|].
      eexists. split; [|by split]. by constructor.
    + intros Hn. right. intros res kv' Hstep. inversion Hstep; subst. apply (Hn tt).
      by apply (prepare_transfer_at _ _ _ Hr).
  - intros resp s' [-> Hs]. by apply outcome_ret.
Qed.

Lemma prepare_outbox s kv req r :
  kernel_repr s kv ->
  prepare_unshield_outbox s (prepared_unshield req r) =
  (t ← ok_or (kv_ticketer kv) "bridge ticketer is not configured";
   encode_withdrawal_outbox_message t {| wr_recipient := r; wr_amount := ur_v_pub req |}).
Proof. intros Hr. unfold prepare_unshield_outbox. by rewrite (read_ticketer _ _ Hr). Qed.

(** The output, when the host takes it, leaves the store as it was. *)
Lemma output_moves s kv b h' :
  kernel_repr s kv -> host_store h' = host_store (dl_host s) ->
  host_outbox h' = host_outbox (dl_host s) ++ [b] ->
  let s1 := {| dl_host := h'; dl_zero_hashes := dl_zero_hashes s |} in
  get s1 = get s /\ kernel_repr s1 (with_output b kv).
Proof.
  intros [Hz Hr Hv Ht Ho Hout] Hsame Hb s1. assert (get s1 = get s) as Hg
    by (unfold get, s1; cbn [dl_host]; by rewrite Hsame).
  split; [done|]. constructor; rewrite ?Hg; try done. cbn. by rewrite Hb, Hout.
Qed.

Lemma unshield_step_inv fee kv req res kv' :
  kernel_step fee kv (KIUnshield req) res kv' -> exists r t out,
    proof_accepted kv (kur_proof req) CUnshield /\
    unshield_accepts fee TREE_CAPACITY (kv_ledger kv) (kernel_unshield_req_to_host req) r /\
    kv_ticketer kv = Some t /\
    encode_withdrawal_outbox_message t
      {| wr_recipient := r; wr_amount := ur_v_pub (kernel_unshield_req_to_host req) |} = Ok out.
Proof. inversion 1; subst. eexists _, _, _. do 3 (split; [eassumption|]). eassumption. Qed.

Lemma accepted_recipient fee cap v req r r' :
  unshield_accepts fee cap v req r -> unshield_accepts fee cap v req r' -> r = r'.
Proof. intros [Ha _ _ _ _ _ _] [Hb _ _ _ _ _ _]. congruence. Qed.

(** What an unshield does once every check has passed. *)
Lemma unshield_commit s kv req r t out bs br br' :
  let hreq := kernel_unshield_req_to_host req in
  kernel_repr s kv -> fits_kernel kv -> is_u64 (kur_v_pub req) ->
  proof_accepted kv (kur_proof req) CUnshield ->
  unshield_accepts (durable_fee s) TREE_CAPACITY (kv_ledger kv) hreq r ->
  kv_ticketer kv = Some t ->
  encode_withdrawal_outbox_message t {| wr_recipient := r; wr_amount := ur_v_pub hreq |} = Ok out ->
  append_plan s (kv_ledger kv) (new_notes hreq) bs br br' ->
  outcome (on_host (host_write_output out) ;;
           resp ← commit (apply_durable_unshield_commit (planned_unshield (kv_ledger kv) hreq r bs br'));
           mret (KRUnshield resp)) s
    (stepped s kv (KIUnshield req)) (stuck s kv (KIUnshield req)).
Proof.
  intros hreq Hr Hfit Hamt Hp Hacc Ht Henc Hplan.
  destruct (host_output_cases out (dl_host s)) as (h' & r' & Ho & Hsame & Hin & Hcase).
  set (s1 := {| dl_host := h'; dl_zero_hashes := dl_zero_hashes s |}).
  assert (on_host (host_write_output out) s = (s1, r')) as Hon by (unfold on_host; by rewrite Ho).
  destruct Hcase as [[-> Hb]|[[e ->] Hb]].
  - destruct (output_moves s kv out h' Hr Hsame Hb) as [Hg Hr1]. fold s1 in Hg, Hr1.
    pose proof Hacc as [_ _ _ _ [[_ Hcount] _ Hfresh Hnd] _ _].
    destruct (apply_unshield_plan s1 (kv_ledger kv) hreq r bs br br') as (s' & Happly & Hs');
      try done.
    { rewrite Hg. apply Hr. }
    { destruct Hplan as [? ? ? Hstored ? ?]. by constructor; rewrite ?Hg. }
    destruct (repr_moves _ _ _ _ Hr1 Hs') as [Hr' Hin'].
    eapply outcome_run; [exact Hon| |].
    { erewrite ST_run by (unfold commit; by rewrite Happly). reflexivity. }
    eexists. split; [|split; [exact Hr'|]].
    2: { destruct Hin' as [Hin' Hcells]. split; [by rewrite Hin'|intros c Hc; by rewrite Hcells, Hg]. }
    eapply step_unshield; [done..|]. eexists. split; [reflexivity|]. split; set_solver.
  - exists s1, (Err e). split; [by rewrite (ST_run_Err _ _ _ _ _ Hon)|]. split.
    + constructor; cbn [s1 dl_host dl_zero_hashes]; [done| |done]. unfold host_io. by rewrite Hb, Hin.
    + left. exists out, e. by rewrite Ho.
Qed.

Lemma unshield_outcome s kv req :
  kernel_repr s kv -> fits_kernel kv -> is_u64 (kur_v_pub req) ->
  outcome (apply_unshield_message req) s (stepped s kv (KIUnshield req)) (stuck s kv (KIUnshield req)).
Proof.
  intros Hr Hfit Hamt. unfold apply_unshield_message. set (hreq := kernel_unshield_req_to_host req).
  reads_then validate_proof_total; [|apply (Hn tt); by eapply validate_proof_Ok].
  destruct a. apply (validate_proof_Ok _ _ _ _ Hr) in Ha.
  apply outcome_reads; [by apply (prepare_total s kv)| |].
  2: { intros Hn. right. intros res kv' (r & t & out & _ & Hacc & _)%unshield_step_inv.
       eapply Hn. apply (prepare_unshield_at _ _ _ _ Hr). by eexists. }
  intros p (r & Hacc & ->)%(prepare_unshield_at _ _ _ _ Hr).
  apply outcome_reads.
  { unfold prepare_unshield_outbox. np; first [apply read_string_total|apply encode_outbox_total]. }
  2: { intros Hn. right. intros res kv' (r' & t & out & _ & Hacc' & Ht & Henc)%unshield_step_inv.
       pose proof (accepted_recipient _ _ _ _ _ _ Hacc Hacc') as <-. apply (Hn out).
       rewrite (prepare_outbox _ _ _ _ Hr), Ht. exact Henc. }
  intros out. rewrite (prepare_outbox _ _ _ _ Hr). intros (t & Ht%ok_or_Ok & Henc)%bind_Ok.
  pose proof Hacc as [_ _ Hcc [Hfn _] _ _ Hroom].
  destruct (prepare_unshield_plan s (kv_ledger kv) hreq r)
    as (bs & br & br' & Hplan & Hcommit); try done; try apply Hr;
    [unfold fits_kernel, OP_GROWTH in Hfit; lia|].
  apply outcome_reads; [by rewrite Hcommit| |by intros Hn; destruct (Hn _ Hcommit)].
  intros ?. rewrite Hcommit. intros [= <-]. by eapply unshield_commit.
Qed.

(** ** Configuration messages *)

Lemma authenticate_encodes c :
  authenticate_verifier_config c = Ok tt -> exists b, encode_kernel_verifier_config (ksvc_config c) = Ok b.
Proof.
  unfold authenticate_verifier_config, kernel_verifier_config_sighash. intros Ha.
  apply bind_Ok in Ha as (ps & _ & (leaf & _ & (sh & (b & Hb & _)%bind_Ok & _)%bind_Ok)%bind_Ok).
  by exists b.
Qed.

Lemma configure_verifier_outcome s kv c :
  kernel_repr s kv ->
  outcome (apply_direct_message (KIConfigureVerifier c)) s
    (stepped s kv (KIConfigureVerifier c)) (stuck s kv (KIConfigureVerifier c)).
Proof.
  intros Hr. cbn [apply_direct_message]. apply outcome_lift; [apply auth_verifier_total| |].
  2: { intros Hn. right. intros res kv' Hstep. inversion Hstep; subst. by apply (Hn tt). }
  intros [] Ha. destruct (authenticate_encodes _ Ha) as [b Hb].
  pose proof (read_config _ _ (kr_verifier _ _ Hr)) as Hread.
  unfold configure_verifier. destruct (kv_verifier kv) as [c0|] eqn:Ev.
  - exists s, (Err "rollup verifier is already configured").
    split; [unfold mbind, ST_bind, reads; by rewrite Hread|]. split; [done|].
    right. intros res kv' Hstep. inversion Hstep; subst. congruence.
  - eexists _, _. split.
    { erewrite ST_run; [reflexivity|]. erewrite ST_run by (unfold reads; by rewrite Hread).
      erewrite ST_run by reflexivity. rewrite ST_run_writes.
      erewrite ST_run by (unfold lift; by rewrite Hb). reflexivity. }
    change PATH_VERIFIER_CONFIG with (key_path (KCell CVerifierConfig)). to_keys.
    eexists. split; [by constructor|]. split; [by apply configure_verifier_writes|].
    do 2 (apply around_dset; [unfold kernel_cell; tauto|]). done.
Qed.

Lemma configure_bridge_outcome s kv c :
  kernel_repr s kv ->
  outcome (apply_direct_message (KIConfigureBridge c)) s
    (stepped s kv (KIConfigureBridge c)) (stuck s kv (KIConfigureBridge c)).
Proof.
  intros Hr. cbn [apply_direct_message]. apply outcome_lift; [apply auth_bridge_total| |].
  2: { intros Hn. right. intros res kv' Hstep. inversion Hstep; subst. by apply (Hn tt). }
  intros [] Ha. apply (outcome_bind _ _ _ (fun _ => stepped s kv (KIConfigureBridge c) KRConfigured)).
  2: { intros [] s' Hs. by apply outcome_ret. }
  unfold configure_bridge. set (t := kbc_ticketer (ksbc_config c)).
  assert ((originated t -> kv_ticketer kv = None -> False) -> stuck s kv (KIConfigureBridge c))
    as Hstuck.
  { intros He. right. intros res kv' Hstep. inversion Hstep; subst. by apply He. }
  apply outcome_lift; [by destruct (contract_from_b58check t)| |].
  2: { intros Hn. apply Hstuck. intros (k & Hk & _) _. apply (Hn k). by rewrite Hk. }
  intros k Hk%ok_or_Ok. apply outcome_lift; [apply no_panic_fail_if| |].
  2: { intros Hn. apply Hstuck. intros (k' & Hk' & Ho) _. apply (Hn tt), fail_if_Ok.
       assert (k' = k) as -> by congruence. by rewrite Ho. }
  intros [] Ho%fail_if_Ok%negb_false_iff.
  assert (originated t) as Hor by (exists k; done).
  apply outcome_reads; [apply read_string_total| |].
  2: { intros Hn. destruct (Hn _ (read_ticketer _ _ Hr)). }
  intros existing. rewrite (read_ticketer _ _ Hr). intros [= <-].
  apply outcome_lift; [apply no_panic_fail_if| |].
  2: { intros Hn. apply Hstuck. intros _ E. apply (Hn tt), fail_if_Ok.
       rewrite E. by apply bool_decide_eq_false_2; intros [? ?]. }
  intros [] Hnone%fail_if_Ok%bool_decide_eq_false.
  assert (kv_ticketer kv = None) as Hnone' by (destruct (kv_ticketer kv); [by destruct Hnone; eexists|done]).
  eexists _, _. split; [reflexivity|].
  change (d_write_string PATH_BRIDGE_TICKETER t s)
    with (dset (KCell CBridgeTicketer) (str_bytes t) s).
  eexists. split; [by constructor|]. split; [by apply configure_bridge_writes|].
  by apply around_dset; [unfold kernel_cell; tauto|].
Qed.

(** ** All messages *)

Lemma direct_outcome s kv m :
  kernel_repr s kv -> fits_kernel kv -> message_typed m ->
  outcome (apply_direct_message m) s (stepped s kv m) (stuck s kv m).
Proof.
  intros Hr Hfit Hm. destruct m as [c|c|req|req|req|p].
  - by apply configure_verifier_outcome.
  - by apply configure_bridge_outcome.
  - by apply shield_outcome.
  - by apply transfer_outcome.
  - apply unshield_outcome; [done|done|apply Hm].
  - exists s, (Err "nested DAL pointer messages are not supported"). split; [done|]. split; [done|].
    right. intros res kv' Hstep. inversion Hstep.
Qed.

(** The amounts of a parsed message are [u64]s. *)
Definition parsed_typed (m : ParsedRollupMessage) : Prop :=
  match m with
  | PKernel m => message_typed m
  | PDeposit d => is_u64 (pbd_amount d)
  | PIgnore => True
  end.

(** The messages a pointer stands for, on the host as it is. *)
Definition fetch_on s := fetch_kernel_message_from_dal debug_message (dl_host s).

Lemma message_of_typed s m m' : message_typed m -> message_of (fetch_on s) m = Ok m' -> message_typed m'.
Proof.
  intros Hm. destruct m as [| | | | |p]; cbn [message_of]; try by intros [= <-].
  unfold fetch_on, fetch_kernel_message_from_dal. intros (b & _ & (m & Hd & Hc)%bind_Ok)%bind_Ok.
  apply check_payload_kind_Ok in Hc as [-> _]. by apply inbox_decoded in Hd as [? _].
Qed.

Lemma apply_kernel_message_eq s m :
  apply_kernel_message m s =
  (m' ← reads (fun s => message_of (fetch_on s) m); apply_direct_message m') s.
Proof. by destruct m. Qed.

Definition rollup_stepped s (kv : KView) m (res : KernelResult) s' : Prop :=
  exists kv', rollup_step (fetch_on s) (durable_fee s) kv m res kv' /\ kernel_repr s' kv' /\
    around s s'.

Definition rollup_stuck s (kv : KView) m : Prop :=
  refused s \/ forall res kv', ~ rollup_step (fetch_on s) (durable_fee s) kv m res kv'.

Lemma kernel_outcome s kv m :
  kernel_repr s kv -> fits_kernel kv -> message_typed m ->
  outcome (apply_kernel_message m) s (rollup_stepped s kv (PKernel m)) (rollup_stuck s kv (PKernel m)).
Proof.
  intros Hr Hfit Hm. unfold outcome. rewrite apply_kernel_message_eq.
  apply outcome_reads.
  - destruct m as [| | | | |p]; [reflexivity..|].
    unfold message_of, fetch_on. apply fetch_message_total.
  - intros m' Hm'. pose proof (message_of_typed _ _ _ Hm Hm') as Ht.
    eapply outcome_mono; [exact (direct_outcome s kv m' Hr Hfit Ht)| |].
    + intros res s' (kv' & Hs & Hr' & Hin). exists kv'. split; [|done]. by econstructor.
    + intros [Href|Hno]; [by left|]. right. intros res kv' Hs. inversion Hs; subst.
      eapply Hno. by replace m' with m'0 by congruence.
  - intros Hn. right. intros res kv' Hs. inversion Hs; subst. by eapply Hn.
Qed.

(** ** Deposits *)

Lemma validate_deposit_Ok s kv d :
  kernel_repr s kv ->
  validate_bridge_deposit s d = Ok tt <->
  kv_ticketer kv = Some (pbd_ticketer d) /\
  is_deposit_recipient_string (pbd_recipient d) = true /\ is_Some (kv_verifier kv).
Proof.
  intros Hr. unfold validate_bridge_deposit.
  rewrite (read_ticketer _ _ Hr), (read_config _ _ (kr_verifier _ _ Hr)). cbn [mbind result_bind].
  destruct (kv_ticketer kv) as [t|]; cbn [ok_or mbind result_bind]; [|naive_solver].
  rewrite !seq_Ok, !fail_if_Ok, !negb_false_iff, bool_decide_eq_true, bool_decide_eq_false.
  rewrite <-not_eq_None_Some. naive_solver.
Qed.

Lemma deposit_outcome s kv d :
  kernel_repr s kv -> is_u64 (pbd_amount d) ->
  outcome (apply_deposit_message d) s (rollup_stepped s kv (PDeposit d)) (rollup_stuck s kv (PDeposit d)).
Proof.
  intros Hr Hamt. unfold apply_deposit_message.
  apply outcome_reads; [apply validate_deposit_total| |].
  2: { intros Hn. right. intros res kv' Hs. inversion Hs; subst. apply (Hn tt).
       apply (validate_deposit_Ok _ _ _ Hr). split; [done|]. split; [done|]. by eexists. }
  intros [] (Ht & Hd & [c Hc])%(validate_deposit_Ok _ _ _ Hr).
  apply (outcome_bind _ _ _ (fun _ => rollup_stepped s kv (PDeposit d) KRDeposit)).
  2: { intros [] s' Hs. by apply outcome_ret. }
  unfold apply_deposit. apply outcome_lift; [apply parse_deposit_no_panic, ct_hex| |].
  2: { intros Hn. right. intros res kv' Hs. inversion Hs; subst. by eapply Hn. }
  intros k Hk. destruct (kernel_durable _ _ Hr) as [Hv Hi].
  pose proof (ll_credit (LedgerLaws := Durable_laws s) s k (pbd_amount d) Hi Hamt) as Hcredit.
  cbn [ll_view ll_inv Durable_laws] in Hcredit. rewrite Hv in Hcredit.
  destruct (checked_add_u64 _ _) as [next|] eqn:Ea.
  - destruct Hcredit as (s' & E & [[_ Hr'] Hf] & Hv'). rewrite Hv' in Hr'.
    exists s', (Ok tt). split; [exact E|].
    destruct (repr_moves s s' kv _ Hr (conj Hr' Hf)) as [Hr2 Hin].
    eexists. split; [|split; [exact Hr2|exact Hin]]. by econstructor.
  - destruct Hcredit as [e E]. exists s, (Err e). split; [exact E|]. split; [done|].
    right. intros res kv' Hs. inversion Hs; subst. congruence.
Qed.

Lemma parsed_outcome s kv m :
  kernel_repr s kv -> fits_kernel kv -> parsed_typed m -> m <> PIgnore ->
  outcome (apply_parsed_message m) s (rollup_stepped s kv m) (rollup_stuck s kv m).
Proof.
  intros Hr Hfit Hm Hi. destruct m as [m|d|]; [|by apply deposit_outcome|done].
  by apply kernel_outcome.
Qed.

(** C1: on a represented store every deposit and every kernel message either takes
    the step the specification gives it, with the result the specification gives, and
    leaves the inbox and every cell that is neither the ledger's nor the configuration's
    as they were; or it is an error that leaves the store, the outbox and the inbox
    untouched; it is an error only if the specification has no step or the host takes no
    output; it never panics. *)
Theorem kernel_message_correct s (kv : KView) (m : ParsedRollupMessage) :
  kernel_repr s kv -> fits_kernel kv -> parsed_typed m -> m <> PIgnore ->
  exists s' r, apply_parsed_message m s = (s', r) /\
    match r with
    | Ok res => exists kv', rollup_step (fetch_on s) (durable_fee s) kv m res kv' /\
        kernel_repr s' kv' /\ around s s'
    | Err _ => unchanged s s' /\
        (refused s \/ forall res kv', ~ rollup_step (fetch_on s) (durable_fee s) kv m res kv')
    | Panic _ => False
    end.
Proof. apply parsed_outcome. Qed.
End Messages.
