(* ===== verification/KernelRun.v ===== *)
(** * KernelRun: one input, and a whole level

    [process_input] records an input, opens the ledger and applies the message;
    [run_with_host] does so until the inbox is empty.  Every input ends in a stored
    result, and a whole run is a sequence of steps of [KernelSpec].  The one way the
    kernel can stop half-way is the truncation of an error text inside a character. *)

From S2P Require Import Prelude Felt Externals Concrete Recipients Types Hashing Outputs.
From S2P Require Import Merkle Ledger LedgerSpec LedgerCorrect Wots CanonicalWire KernelWire KernelWireFacts.
From S2P Require Import Utf8 Store StoreKeys Durable DurableCells DurableRepr DurableOps.
From S2P Require Import DurableTree DurableLedger DurableCommit Dal Kernel KernelSpec KernelTotal KernelCorrect.

Local Open Scope N_scope.

(** What a host reveals does not depend on its store or its log. *)
Definition reveals {H} `{Host H} (h : H) :=
  (host_rollup_address h, host_reveal_dal_parameters h, host_reveal_dal_page h).

Class HostReveals (H : Type) `{Host H} : Prop := {
  write_reveals p v h : reveals (host_write_store p v h) = reveals h;
  debug_reveals m h : reveals (host_write_debug m h) = reveals h
}.

(** [amount_as_u64] returns a [u64]. *)
Class TicketLaws `{RollupEncoding} : Prop :=
  ticket_amount : forall t n, ticket_amount_as_u64 t = Some n -> is_u64 n.

(** ** What a pointer reveals *)

Section Reveals.
Context `{Blake2s, Target, WireCodecs, Host Hst}.

(** Past a statement that both sides share. *)
Ltac same_bind :=
  match goal with
  | |- mbind _ ?m = mbind _ ?m => destruct m; cbn [mbind result_bind]; [|reflexivity..]
  end.

Lemma fetch_pages_reveals (h h' : Hst) i lvl slot size pages acc :
  reveals h' = reveals h ->
  fetch_pages h' i lvl slot size pages acc = fetch_pages h i lvl slot size pages acc.
Proof.
  intros [= _ _ E]. revert acc.
  induction pages as [|p l IH]; intros acc; cbn [fetch_pages]; [done|].
  rewrite E. repeat same_bind. apply IH.
Qed.

Lemma fetch_chunk_reveals (h h' : Hst) n ss ps i c :
  reveals h' = reveals h -> fetch_chunk h' n ss ps i c = fetch_chunk h n ss ps i c.
Proof.
  intros E. unfold fetch_chunk. cbv zeta. repeat same_bind. by rewrite (fetch_pages_reveals h h').
Qed.

Lemma fetch_chunks_reveals (h h' : Hst) n ss ps i l acc :
  reveals h' = reveals h -> fetch_chunks h' n ss ps i l acc = fetch_chunks h n ss ps i l acc.
Proof.
  intros E. revert i acc. induction l as [|c l IH]; intros i acc; cbn [fetch_chunks]; [done|].
  rewrite (fetch_chunk_reveals h h') by done. same_bind. apply IH.
Qed.

Lemma fetch_payload_reveals (h h' : Hst) p :
  reveals h' = reveals h -> fetch_payload h' p = fetch_payload h p.
Proof.
  intros E. unfold fetch_payload.
  assert (host_reveal_dal_parameters h' = host_reveal_dal_parameters h) as ->
    by (unfold reveals in E; congruence).
  repeat same_bind. by rewrite (fetch_chunks_reveals h h').
Qed.

Lemma fetch_reveals (h h' : Hst) dbg p :
  reveals h' = reveals h ->
  fetch_kernel_message_from_dal dbg h' p = fetch_kernel_message_from_dal dbg h p.
Proof. intros E. unfold fetch_kernel_message_from_dal. by rewrite (fetch_payload_reveals h h'). Qed.
End Reveals.

(** ** The host's store, opened *)

#[local] Opaque DEPTH.

Section Opened.
Context `{Blake2s, HexLaws, TezosContracts, !RollupEncoding, Target, WireLaws, KernelBuild}.
Context `{HostLaws Hst} {HW : WordTarget} {HP : PublishedCodec}.
Context {CC : ConfigCodec} {CX : ContractText} {HR : HostReveals Hst}.
Implicit Types h : Hst.

Definition opened h : DurableLedgerState Hst := {| dl_host := h; dl_zero_hashes := compute_zero_hashes |}.

(** What a cell holds. *)
Definition cell_of h (c : cell) : option bytes := get (opened h) (KCell c).

(** The state of a host: the kernel has run on its store, or nothing of the ledger and
    of its configuration is there. *)
Definition host_repr h (kv : KView) : Prop :=
  kernel_repr (opened h) kv \/
  (fresh_store (get (opened h)) /\ cell_of h CVerifierConfig = None /\
   cell_of h CBridgeTicketer = None /\
   kv = {| kv_ledger := empty_view; kv_verifier := None; kv_ticketer := None;
           kv_outbox := host_outbox h |}).

Definition fee_of h : N := durable_fee (opened h).

(** The cells that decide the fee. *)
Definition fee_cell (c : cell) : Prop := c = CLastInputLevel \/ c = CFeeLevel \/ c = CFeeCount.

Lemma fee_ext (s s' : DurableLedgerState Hst) :
  (forall c, fee_cell c -> get s' (KCell c) = get s (KCell c)) -> durable_fee s' = durable_fee s.
Proof.
  intros Hc. unfold durable_fee. do 2 f_equal. unfold current_private_tx_count_in_level.
  assert (forall c, fee_cell c ->
    read_i32 (dl_host s') (cell_path c) = read_i32 (dl_host s) (cell_path c)) as Hi.
  { intros c Hin. unfold read_i32, read_sized. change (cell_path c) with (key_path (KCell c)).
    by rewrite !read_get, Hc. }
  change PATH_LAST_INPUT_LEVEL with (cell_path CLastInputLevel).
  change PATH_PRIVATE_TX_FEE_LEVEL with (cell_path CFeeLevel).
  rewrite !Hi by (unfold fee_cell; tauto).
  destruct (read_i32 _ _); [|done]. destruct (read_i32 _ _); [|done]. destruct (negb _); [done|].
  unfold d_read_u64. change PATH_PRIVATE_TX_COUNT_IN_LEVEL with (key_path (KCell CFeeCount)).
  by rewrite !read_get, (Hc CFeeCount) by (unfold fee_cell; tauto).
Qed.

#[local] Opaque durable_fee.

(** What opening leaves alone. *)
Record opens h h' : Prop := {
  op_io : host_io h' = host_io h;
  op_fee : fee_of h' = fee_of h;
  op_cells : forall c, ~ kernel_cell c -> cell_of h' c = cell_of h c;
  op_reveals : reveals h' = reveals h
}.

Lemma initialized_opened h :
  initialized (opened h) = opened (dl_host (initialized (opened h))).
Proof. reflexivity. Qed.

Lemma initialized_repr h :
  fresh_store (get (opened h)) -> cell_of h CVerifierConfig = None ->
  cell_of h CBridgeTicketer = None ->
  kernel_repr (initialized (opened h))
    {| kv_ledger := empty_view; kv_verifier := None; kv_ticketer := None; kv_outbox := host_outbox h |}.
Proof.
  unfold cell_of. intros Hf Hv Ht. assert (is_u64 0) by done. constructor.
  - apply compute_zero_hashes_ok.
  - by apply initialized_ok.
  - unfold initialized. cbv zeta. cbn [kv_verifier config_cell]. by get_simpl.
  - unfold initialized. cbv zeta. cbn [kv_ticketer fmap option_fmap option_map]. by get_simpl.
  - done.
  - unfold initialized. cbv zeta. by rewrite !dset_outbox.
Qed.

Lemma initialized_opens h : opens h (dl_host (initialized (opened h))).
Proof.
  assert (is_u64 0) by done. constructor.
  - unfold initialized. cbv zeta. by rewrite !dset_io.
  - unfold fee_of. rewrite <-initialized_opened. apply fee_ext. unfold fee_cell, initialized.
    cbv zeta. intros c [->|[->| ->]]; by get_simpl.
  - intros c Hc. unfold cell_of. rewrite <-initialized_opened. unfold initialized. cbv zeta.
    assert (forall c', kernel_cell c' -> KCell c' <> KCell c) as Hne by (by intros c' Hk [= ->]).
    rewrite !get_dset_ne; try done; apply Hne; unfold kernel_cell; (by left) || tauto.
  - unfold initialized, dset. cbn. by rewrite !write_reveals.
Qed.

Lemma open_ok h kv :
  host_repr h kv -> exists h',
    DurableLedgerState_new h = (h', Ok (opened h')) /\ kernel_repr (opened h') kv /\ opens h h'.
Proof.
  unfold DurableLedgerState_new. fold (opened h). intros [Hr|(Hf & Hv & Ht & ->)].
  - exists h. rewrite (ensure_initialized_again _ _ (kr_ledger _ _ Hr)). done.
  - exists (dl_host (initialized (opened h))). rewrite ensure_initialized_fresh by done.
    rewrite <-initialized_opened. split; [done|]. split; [by apply initialized_repr|].
    apply initialized_opens.
Qed.

(** ** Cells written around a message *)

(** A host as good as [h] for the next message. *)
Record next_to h h' : Prop := {
  nt_repr : forall kv, host_repr h kv -> host_repr h' kv;
  nt_io : host_io h' = host_io h;
  nt_reveals : reveals h' = reveals h
}.

Lemma next_to_refl h : next_to h h.
Proof. done. Qed.

Lemma next_to_trans h1 h2 h3 : next_to h1 h2 -> next_to h2 h3 -> next_to h1 h3.
Proof. intros [R1 I1 V1] [R2 I2 V2]. constructor; [auto|congruence..]. Qed.

Lemma opened_write c v h : opened (host_write_store (cell_path c) v h) = dset (KCell c) v (opened h).
Proof. reflexivity. Qed.

Lemma io_outbox h h' : host_io h' = host_io h -> host_outbox h' = host_outbox h.
Proof. unfold host_io. congruence. Qed.

Lemma io_inbox h h' : host_io h' = host_io h -> host_inbox h' = host_inbox h.
Proof. unfold host_io. congruence. Qed.

Lemma next_to_write c v h : ~ kernel_cell c -> next_to h (host_write_store (cell_path c) v h).
Proof.
  intros Hc. constructor; [|apply write_io|apply write_reveals].
  intros kv [Hr|(Hf & Hv & Ht & ->)]; [left|right].
  - rewrite opened_write. by apply kernel_other_cell.
  - unfold cell_of in *. rewrite opened_write, !get_other_cell by (done || (unfold kernel_cell; tauto)).
    split; [|split; [done|split; [done|by rewrite host_write_outbox]]].
    intros k Hk Hother. rewrite get_dset_ne; [by apply Hf|done|done|].
    intros <-. apply Hc. pose proof (Hother (other_cell_group _ Hc)) as [= ->].
    unfold kernel_cell. tauto.
Qed.

Lemma get_same_store (s s' : DurableLedgerState Hst) :
  host_store (dl_host s') = host_store (dl_host s) -> get s' = get s.
Proof. intros E. unfold get. by rewrite E. Qed.

Lemma kernel_repr_same (s s' : DurableLedgerState Hst) kv :
  host_store (dl_host s') = host_store (dl_host s) ->
  host_outbox (dl_host s') = host_outbox (dl_host s) -> dl_zero_hashes s' = dl_zero_hashes s ->
  kernel_repr s kv -> kernel_repr s' kv.
Proof.
  intros Es Eo Ez [Hz Hr Hv Ht Ho Hout]. pose proof (get_same_store _ _ Es) as Hg.
  constructor; by rewrite ?Hg, ?Ez, ?Eo.
Qed.

(** The zero hashes are the same at every opening. *)
Lemma kernel_repr_opened (s : DurableLedgerState Hst) kv :
  kernel_repr s kv -> kernel_repr (opened (dl_host s)) kv.
Proof. intros [Hz Hr Hv Ht Ho Hout]. constructor; try done. apply compute_zero_hashes_ok. Qed.

Lemma next_to_debug m h : next_to h (host_write_debug m h).
Proof.
  constructor; [|apply debug_io|apply debug_reveals].
  pose proof (debug_io m h) as Hio%io_outbox.
  intros kv [Hr|(Hf & Hv & Ht & ->)]; [left|right].
  - apply (kernel_repr_same (opened h)); [apply host_debug_store|exact Hio|done|done].
  - unfold cell_of in *.
    rewrite (get_same_store (opened h) (opened (host_write_debug m h))) by apply host_debug_store.
    by rewrite Hio.
Qed.

Lemma next_to_log m h : next_to h (ledger_debug m h).
Proof. apply next_to_debug. Qed.

Lemma record_input_next i h : next_to h (record_input i h).
Proof.
  unfold record_input, increment_u64. cbv zeta.
  change PATH_RAW_INPUT_COUNT with (cell_path CRawInputCount).
  change PATH_RAW_INPUT_BYTES with (cell_path CRawInputBytes).
  change PATH_LAST_INPUT_LEVEL with (cell_path CLastInputLevel).
  change PATH_LAST_INPUT_ID with (cell_path CLastInputId).
  change PATH_LAST_INPUT_LEN with (cell_path CLastInputLen).
  change PATH_LAST_INPUT_PAYLOAD with (cell_path CLastInputPayload).
  eapply next_to_trans; [|apply next_to_log].
  do 6 (eapply next_to_trans; [|apply next_to_write; unfold kernel_cell; intuition congruence]).
  apply next_to_refl.
Qed.

(** The cells that a message and its result leave alone. *)
Definition kept h h' : Prop :=
  forall c, ~ kernel_cell c -> c <> CLastResult -> cell_of h' c = cell_of h c.

Lemma kept_trans h1 h2 h3 : kept h1 h2 -> kept h2 h3 -> kept h1 h3.
Proof. intros K1 K2 c Hc Hr. by rewrite K2, K1. Qed.

Lemma cells_debug m h c : cell_of (host_write_debug m h) c = cell_of h c.
Proof. unfold cell_of. by rewrite (get_same_store (opened h)) by apply host_debug_store. Qed.

(** The cell of the last result: the encoding of the result, and the old cell if the
    result has none. *)
Definition stored h (res : KernelResult) h' : Prop :=
  cell_of h' CLastResult =
  match encode_kernel_result res with Ok b => Some b | _ => cell_of h CLastResult end.

Context {CT : CratesTotal}.

Lemma store_result_ok r h : exists h',
  store_result r h = (h', Ok tt) /\ next_to h h' /\ kept h h' /\ stored h r h'.
Proof.
  unfold store_result, stored. pose proof (encode_result_total r) as Hp.
  destruct (encode_kernel_result r) as [b|e|w]; [| |done].
  - eexists. split; [reflexivity|]. change PATH_LAST_RESULT with (cell_path CLastResult).
    split; [apply next_to_write; unfold kernel_cell; intuition congruence|].
    unfold kept, cell_of. rewrite !opened_write. split; [|apply get_dset_eq].
    intros c _ Hc. apply get_dset_ne; [done|done|]. by intros [= <-].
  - eexists. split; [reflexivity|]. split; [apply next_to_log|].
    split; [intros c _ _|]; apply cells_debug.
Qed.

(** *** What an input leaves in the statistics *)

Definition counter h (c : cell) : N := default 0 (read_u64 h (cell_path c)).

(** The input is counted, and its level, number, length and first bytes are there. *)
Record recorded h (i : InputMessage) h' : Prop := {
  rc_count : counter h' CRawInputCount = saturating_add_u64 (counter h CRawInputCount) 1;
  rc_bytes : counter h' CRawInputBytes =
    saturating_add_u64 (counter h CRawInputBytes) (N.of_nat (length (im_payload i)));
  rc_level : cell_of h' CLastInputLevel = Some (i32_le (im_level i));
  rc_id : cell_of h' CLastInputId = Some (i32_le (im_id i));
  rc_len : cell_of h' CLastInputLen =
    Some (le_bytes 4 (N.min (N.of_nat (length (im_payload i))) MAX_STORED_INPUT_PAYLOAD_BYTES));
  rc_payload : cell_of h' CLastInputPayload =
    Some (take (N.to_nat MAX_STORED_INPUT_PAYLOAD_BYTES) (im_payload i))
}.

Lemma counter_cell h h' c : cell_of h' c = cell_of h c -> counter h' c = counter h c.
Proof.
  unfold cell_of, counter, read_u64, read_sized. intros E. change (cell_path c) with (key_path (KCell c)).
  pose proof (read_get (opened h) (KCell c)) as R. pose proof (read_get (opened h') (KCell c)) as R'.
  cbn [dl_host opened] in R, R'. by rewrite R, R', E.
Qed.

Lemma counter_stored h c n : is_u64 n -> cell_of h c = Some (u64_le n) -> counter h c = n.
Proof.
  unfold cell_of, counter, read_u64, read_sized. intros Hn E.
  change (cell_path c) with (key_path (KCell c)).
  pose proof (read_get (opened h) (KCell c)) as R. cbn [dl_host opened] in R. rewrite R, E.
  cbn [fmap option_fmap option_map mbind option_bind]. change (N.to_nat (N.of_nat 8)) with 8%nat.
  rewrite take_ge by by rewrite length_u64_le. rewrite length_u64_le. cbn. by apply le_val_u64.
Qed.

Lemma recorded_kept h i h1 h2 : recorded h i h1 -> kept h1 h2 -> recorded h i h2.
Proof.
  intros [C B L I N P] K.
  assert (forall c, key_group (KCell c) = GOther ->
    c <> CAuthDomain -> c <> CVerifierConfig -> c <> CBridgeTicketer -> c <> CLastResult ->
    cell_of h2 c = cell_of h1 c) as Hk by (intros; apply K; [unfold kernel_cell; tauto|done]).
  constructor; try (rewrite (counter_cell h1) by by apply Hk); try rewrite Hk; done.
Qed.

Lemma cell_written h c v : cell_of (host_write_store (cell_path c) v h) c = Some v.
Proof. unfold cell_of. rewrite opened_write. apply get_dset_eq. Qed.

Lemma cell_beside h c v c' : c' <> c -> cell_of (host_write_store (cell_path c) v h) c' = cell_of h c'.
Proof. intros Hc. unfold cell_of. rewrite opened_write. apply get_dset_ne; [done|done|]. by intros [= <-]. Qed.

Lemma saturating_u64 a b : is_u64 (saturating_add_u64 a b).
Proof. unfold saturating_add_u64, is_u64, U64_LIMIT. lia. Qed.

Lemma record_input_recorded i h : recorded h i (record_input i h).
Proof.
  unfold record_input, increment_u64. cbv zeta.
  change PATH_RAW_INPUT_COUNT with (cell_path CRawInputCount).
  change PATH_RAW_INPUT_BYTES with (cell_path CRawInputBytes).
  change PATH_LAST_INPUT_LEVEL with (cell_path CLastInputLevel).
  change PATH_LAST_INPUT_ID with (cell_path CLastInputId).
  change PATH_LAST_INPUT_LEN with (cell_path CLastInputLen).
  change PATH_LAST_INPUT_PAYLOAD with (cell_path CLastInputPayload).
  fold (counter h CRawInputCount). set (n := N.of_nat (length (im_payload i))).
  set (h1 := host_write_store (cell_path CRawInputCount) _ h).
  fold (counter h1 CRawInputBytes).
  assert (counter h1 CRawInputBytes = counter h CRawInputBytes) as ->
    by (apply counter_cell; by apply cell_beside).
  constructor; unfold ledger_debug; try (apply counter_stored; [apply saturating_u64|]);
    rewrite cells_debug; repeat (rewrite cell_beside by done).
  - apply cell_written.
  - apply cell_written.
  - apply cell_written.
  - apply cell_written.
  - rewrite cell_written. do 2 f_equal. unfold MAX_STORED_INPUT_PAYLOAD_BYTES, U32_LIMIT. lia.
  - rewrite cell_written. f_equal. destruct (N.min_spec n MAX_STORED_INPUT_PAYLOAD_BYTES) as [[Hn ->]|[_ ->]]; [|done].
    rewrite !take_ge; [done|lia..].
Qed.

End Opened.

(** ** One input *)

#[local] Opaque durable_fee.

Section Inputs.
Context `{Blake2s, HexLaws, TezosContracts, !RollupEncoding, Target, WireLaws, KernelBuild}.
Context `{HostLaws Hst} {HW : WordTarget} {HP : PublishedCodec}.
Context {CC : ConfigCodec} {CX : ContractText} {HR : HostReveals Hst}.
Context {CT : CratesTotal} {HT : HostTotal Hst} {TL : TicketLaws}.
Implicit Types h : Hst.

(** An error, told: its bounded text is the result, or the truncation panics. *)
Definition told (e : string) (r : result (option KernelResult)) : Prop :=
  match bounded_error_message e with
  | Ok msg => r = Ok (Some (KRError msg))
  | Panic w => r = Panic w
  | Err _ => False
  end.

Lemma bounded_cases e :
  (exists msg, bounded_error_message e = Ok msg) \/ (exists w, bounded_error_message e = Panic w).
Proof.
  unfold bounded_error_message, string_truncate. destruct (_ <? _)%nat; [|left; by eexists].
  cbv zeta. destruct (_ <=? _)%nat; [|left; by eexists].
  destruct (is_char_boundary _ _); cbn; [left|right]; by eexists.
Qed.

Lemma error_result_ok log e h : exists h' r,
  error_result log e h = (h', r) /\ next_to h h' /\ (forall c, cell_of h' c = cell_of h c) /\
  told e r.
Proof.
  unfold error_result, told, mbind, ST_bind, lift.
  destruct (bounded_cases e) as [[msg ->]|[w ->]].
  - eexists _, _. split; [reflexivity|]. split; [apply next_to_log|]. split; [|done].
    intros c. apply cells_debug.
  - eexists _, _. split; [reflexivity|]. split; [apply next_to_refl|done].
Qed.

Definition fetch_from h := fetch_kernel_message_from_dal debug_message h.

Lemma rollup_step_ext fetch fetch' fee kv m res kv' :
  (forall p, fetch' p = fetch p) -> rollup_step fetch fee kv m res kv' ->
  rollup_step fetch' fee kv m res kv'.
Proof.
  intros E [m1 m' res' kv1 Hm Hs|d c k next H1' H2' H3' H4' H5']; [|by econstructor].
  econstructor; [|exact Hs]. destruct m1; cbn in *; congruence.
Qed.

(** Why an input has no effect: there is no step for it, or the host, with the outbox
    it has, refuses an output. *)
Definition no_effect h fee (kv : KView) (m : ParsedRollupMessage) : Prop :=
  (exists h1 b e, host_io h1 = host_io h /\ snd (host_write_output b h1) = Err e) \/
  forall res kv', ~ rollup_step (fetch_from h) fee kv m res kv'.

(** The error of a message, on the ledger opened in the host's store. *)
Definition refusal h m (e : string) : Prop := exists h1 s',
  DurableLedgerState_new h = (h1, Ok (opened h1)) /\
  apply_parsed_message m (opened h1) = (s', Err e).

Lemma apply_on_ledger_ok h kv m :
  host_repr h kv -> fits_kernel kv -> parsed_typed m -> m <> PIgnore -> exists h' r,
    apply_on_ledger m h = (h', r) /\ host_inbox h' = host_inbox h /\
    (forall c, ~ kernel_cell c -> cell_of h' c = cell_of h c) /\
    ((exists res kv', r = Ok (Some res) /\ rollup_step (fetch_from h) (fee_of h) kv m res kv' /\
        host_repr h' kv') \/
     (exists e, refusal h m e /\ told e r /\ host_repr h' kv /\ no_effect h (fee_of h) kv m)).
Proof.
  intros Hr Hfit Hm Hi. destruct (open_ok _ _ Hr) as (h1 & Hopen & Hr1 & Hop).
  unfold apply_on_ledger. rewrite Hopen.
  assert (forall p, fetch_on (opened h1) p = fetch_from h p) as Hfetch
    by (intros p; unfold fetch_on, fetch_from; cbn [dl_host opened];
        apply fetch_reveals, op_reveals, Hop).
  pose proof (op_fee _ _ Hop) as Hfee. unfold fee_of in *.
  destruct (parsed_outcome (opened h1) kv m Hr1 Hfit Hm Hi) as (s' & r & Eapply & Hcase).
  rewrite Eapply.
  pose proof (io_inbox _ _ (op_io _ _ Hop)) as Hin.
  destruct r as [res|e|w]; [| |done].
  - destruct Hcase as (kv' & Hs & Hr' & Hin' & Hcells). eexists _, _. split; [reflexivity|].
    split; [by rewrite Hin'|]. split.
    { intros c Hc. rewrite <-(op_cells _ _ Hop c Hc). by apply Hcells. }
    left. exists res, kv'. split; [done|]. split.
    + rewrite <-Hfee. eapply rollup_step_ext; [|exact Hs]. intros p. symmetry. apply Hfetch.
    + left. by apply kernel_repr_opened.
  - destruct Hcase as [[Hstored Hio Hz] Hno].
    destruct (error_result_ok (fun m => "transition failed: " +:+ m) e (dl_host s'))
      as (h2 & r & -> & Hnext & Hcells & Htold).
    exists h2, r. split; [done|]. split.
    { rewrite (io_inbox _ _ (nt_io _ _ Hnext)), (io_inbox _ _ Hio). done. }
    split.
    { intros c Hc. rewrite Hcells, <-(op_cells _ _ Hop c Hc). unfold cell_of.
      by rewrite (get_same_store (opened h1)). }
    right. exists e. split; [by exists h1, s'|]. split; [done|]. split.
    + apply Hnext. left. apply kernel_repr_opened.
      eapply kernel_repr_same; [exact Hstored|by apply io_outbox|exact Hz|exact Hr1].
    + destruct Hno as [(b & e' & Href)|Hno]; [left|right].
      * exists h1, b, e'. split; [by apply op_io|done].
      * intros res kv' Hs. apply (Hno res kv'). rewrite Hfee. eapply rollup_step_ext; [exact Hfetch|exact Hs].
Qed.

Lemma decode_rollup_typed b a m : decode_rollup_message b a = Ok m -> parsed_typed m.
Proof.
  unfold decode_rollup_message. intros Hm. apply bind_Ok in Hm as ([rest inbox] & _ & Hm).
  apply seq_Ok in Hm as [_ Hm]. destruct inbox as [t| |payload].
  - destruct (negb _); [by injection Hm as <-|]. apply bind_Ok in Hm as (d & Hd & [= <-]).
    unfold parse_bridge_deposit in Hd. result_inv. cbn. by eapply ticket_amount.
  - by injection Hm as <-.
  - destruct (external_frame_parse payload) as [[address contents]|]; [|by injection Hm as <-].
    destruct (negb _); [by injection Hm as <-|]. apply bind_Ok in Hm as (k & Hk & [= <-]).
    by apply inbox_decoded in Hk as [? _].
Qed.

(** How an input that was not ignored ends, from the host [h1] on which it is recorded:
    a step and its stored result, or no effect and the stored error, or the panic of
    the truncation. *)
Definition stepped_to h1 kv m (r : result unit) h' : Prop := exists res kv',
  r = Ok tt /\ rollup_step (fetch_from h1) (fee_of h1) kv m res kv' /\ host_repr h' kv' /\
  stored h1 res h'.

Definition rejected h1 (e : string) (kv : KView) (r : result unit) h' : Prop :=
  host_repr h' kv /\
  ((exists msg, bounded_error_message e = Ok msg /\ r = Ok tt /\ stored h1 (KRError msg) h') \/
   (exists w, bounded_error_message e = Panic w /\ r = Panic w)).

Definition refused_with h1 kv m (r : result unit) h' : Prop := exists e,
  refusal h1 m e /\ no_effect h1 (fee_of h1) kv m /\ rejected h1 e kv r h'.

(** The message of an input, for this rollup. *)
Definition message_in h (i : InputMessage) : result ParsedRollupMessage :=
  match host_rollup_address h with
  | None => Panic "reveal_metadata failed"
  | Some current_rollup => decode_rollup_message (im_payload i) current_rollup
  end.

Definition processed h kv i (r : result unit) h' : Prop :=
  let h1 := record_input i h in
  match message_in h i with
  | Ok PIgnore => r = Ok tt /\ host_repr h' kv /\ cell_of h' CLastResult = cell_of h1 CLastResult
  | Ok m => stepped_to h1 kv m r h' \/ refused_with h1 kv m r h'
  | Err e => rejected h1 ("invalid inbox message: " +:+ e) kv r h'
  | Panic _ => False
  end.

(** The end of an input, once the message has told its result. *)
Definition finished h1 (r : result (option KernelResult)) (r' : result unit) h' : Prop :=
  match r with
  | Ok (Some res) => r' = Ok tt /\ stored h1 res h'
  | Ok None => r' = Ok tt /\ h' = h1
  | Err e => r' = Err e
  | Panic w => r' = Panic w
  end.

Lemma finish_input h1 (r : result (option KernelResult)) :
  exists h' r', match r with
    | Ok (Some res) => store_result res h1
    | Ok None => (h1, Ok tt)
    | Err e => (h1, Err e)
    | Panic w => (h1, Panic w)
    end = (h', r') /\ next_to h1 h' /\ kept h1 h' /\ finished h1 r r' h'.
Proof.
  destruct r as [[res|]|e|w].
  - destruct (store_result_ok res h1) as (h' & -> & Hn & Hk & Hs). by exists h', (Ok tt).
  - exists h1, (Ok tt). by split; [|split; [apply next_to_refl|]].
  - exists h1, (Err e). by split; [|split; [apply next_to_refl|]].
  - exists h1, (Panic w). by split; [|split; [apply next_to_refl|]].
Qed.

Lemma stored_from h1 h2 res h' :
  cell_of h2 CLastResult = cell_of h1 CLastResult -> stored h2 res h' -> stored h1 res h'.
Proof. unfold stored. by intros ->. Qed.

(** The rest of an input, once an error has been told. *)
Lemma told_rejected kv e h1 h2 h' r r' :
  told e r -> host_repr h2 kv -> next_to h2 h' ->
  cell_of h2 CLastResult = cell_of h1 CLastResult -> finished h2 r r' h' ->
  rejected h1 e kv r' h'.
Proof.
  unfold told. intros Ht Hr Hn Hc Hm. split; [by apply Hn|].
  destruct (bounded_error_message e) as [msg|e'|w]; [left|done|right]; subst r.
  - exists msg. destruct Hm as [-> Hs]. split; [done|]. split; [done|]. by eapply stored_from.
  - by exists w.
Qed.

Lemma process_input_eq i h :
  process_input i h =
  (let '(h2, r) := apply_input_message i (record_input i h) in
   match r with
   | Ok (Some res) => store_result res h2
   | Ok None => (h2, Ok tt)
   | Err e => (h2, Err e)
   | Panic w => (h2, Panic w)
   end).
Proof.
  unfold process_input. rewrite ST_run_writes. unfold mbind, ST_bind.
  destruct (apply_input_message i (record_input i h)) as [h2 [[res|]|e|w]]; reflexivity.
Qed.

(** The message of an input, once the input is recorded. *)
Lemma apply_input_ok h1 kv i a m :
  host_repr h1 kv -> fits_kernel kv -> host_rollup_address h1 = Some a ->
  decode_rollup_message (im_payload i) a = Ok m -> m <> PIgnore -> exists h2 r,
    apply_input_message i h1 = (h2, r) /\ host_inbox h2 = host_inbox h1 /\
    (forall c, ~ kernel_cell c -> cell_of h2 c = cell_of h1 c) /\
    forall h' r', next_to h2 h' -> finished h2 r r' h' ->
      stepped_to h1 kv m r' h' \/ refused_with h1 kv m r' h'.
Proof.
  intros Hr Hfit Ea Em Hne. pose proof (decode_rollup_typed _ _ _ Em) as Hty.
  destruct (apply_on_ledger_ok h1 kv m Hr Hfit Hty Hne) as (h2 & r & E & Hin & Hcells & Hcase).
  assert (cell_of h2 CLastResult = cell_of h1 CLastResult) as Hlast
    by (apply Hcells; unfold kernel_cell; intuition congruence).
  exists h2, r. split; [unfold apply_input_message; rewrite Ea, Em; by destruct m|].
  split; [done|]. split; [done|]. intros h' r' Hn Hm.
  destruct Hcase as [(res & kv' & -> & Hs & Hr')|(e & Href & Htold & Hr' & Hno)].
  - left. exists res, kv'. destruct Hm as [-> Hstore]. split; [done|]. split; [done|].
    split; [by apply Hn|]. by eapply stored_from.
  - right. exists e. split; [done|]. split; [done|]. by eapply told_rejected.
Qed.

Lemma process_input_ok h kv i :
  host_repr h kv -> fits_kernel kv -> exists h' r,
    process_input i h = (h', r) /\ host_inbox h' = host_inbox h /\ recorded h i h' /\
    processed h kv i r h'.
Proof.
  intros Hr Hfit. pose proof (record_input_next i h) as [Hrepr Hio Hrev].
  pose proof (record_input_recorded i h) as Hrec.
  set (h1 := record_input i h) in *. apply Hrepr in Hr. rewrite process_input_eq. fold h1.
  unfold processed, message_in. fold h1.
  assert (host_rollup_address h1 = host_rollup_address h) as <- by (unfold reveals in Hrev; congruence).
  destruct (ht_address h1) as [a Ea]. rewrite Ea.
  pose proof (decode_rollup_total (im_payload i) a) as Hp.
  destruct (decode_rollup_message _ _) as [m|e|w] eqn:Em; [| |done].
  - assert (m = PIgnore \/ m <> PIgnore) as [->|Hne] by (destruct m; [by right..|by left]).
    + exists h1, (Ok tt). split; [unfold apply_input_message; by rewrite Ea, Em|].
      split; [by apply io_inbox|done].
    + destruct (apply_input_ok h1 kv i a m Hr Hfit Ea Em Hne) as (h2 & r & -> & Hin & Hcells & Hend).
      destruct (finish_input h2 r) as (h' & r' & -> & Hn & Hk & Hm).
      exists h', r'. split; [done|]. split; [|split].
      * rewrite (io_inbox _ _ (nt_io _ _ Hn)), Hin. by apply io_inbox.
      * eapply recorded_kept; [exact Hrec|]. eapply kept_trans; [|exact Hk]. intros c Hc _. by apply Hcells.
      * pose proof (Hend _ _ Hn Hm). by destruct m.
  - unfold apply_input_message. rewrite Ea, Em.
    destruct (error_result_ok id ("invalid inbox message: " +:+ e) h1)
      as (h2 & r & -> & Hn1 & Hcells & Htold).
    destruct (finish_input h2 r) as (h' & r' & -> & Hn & Hk & Hm).
    exists h', r'. split; [done|]. split; [|split].
    + rewrite (io_inbox _ _ (nt_io _ _ Hn)), (io_inbox _ _ (nt_io _ _ Hn1)). by apply io_inbox.
    + eapply recorded_kept; [exact Hrec|]. eapply kept_trans; [|exact Hk]. intros c _ _. apply Hcells.
    + eapply told_rejected; [exact Htold|by apply Hn1|done|apply Hcells|done].
Qed.
End Inputs.

(** ** A level *)

Section Run.
Context `{Blake2s, HexLaws, TezosContracts, !RollupEncoding, Target, WireLaws, KernelBuild}.
Context `{HostLaws Hst} {HW : WordTarget} {HP : PublishedCodec}.
Context {CC : ConfigCodec} {CX : ContractText} {HR : HostReveals Hst}.
Context {CT : CratesTotal} {HT : HostTotal Hst} {TL : TicketLaws}.
Implicit Types h : Hst.

Lemma rollup_step_size h fetch fee kv m res kv' :
  rollup_step fetch fee kv m res kv' ->
  view_size (kv_ledger kv') <= view_size (kv_ledger kv) + OP_GROWTH.
Proof.
  pose proof (fun o v v' => op_step_size (LedgerLaws0 := Durable_laws (opened h)) fee v o v') as Hop.
  intros [m1 m' res' kv1 _ Hs|d c k next Ht Hc Hd Hk Ha].
  - destruct Hs as [config|config|k v' req Hp Hacc Hsn|k v' req Hp Hacc Hsn
      |k r t out v' req Hp Hacc Ht He Hsn].
    + apply N.le_add_r.
    + apply N.le_add_r.
    + exact (Hop (OShield req) _ _ (conj Hacc Hsn)).
    + exact (Hop (OTransfer req) _ _ (conj Hacc Hsn)).
    + exact (Hop (OUnshield req) _ _ (ex_intro _ r (conj Hacc Hsn))).
  - apply N.le_add_r.
Qed.

(** The only panic: an error text cut inside a character. *)
Definition truncated {A} (r : result A) : Prop :=
  exists e w, bounded_error_message e = Panic w /\ r = Panic w.

Lemma processed_moves h kv i r h' :
  processed h kv i r h' -> exists kv',
    rtc moves kv kv' /\ host_repr h' kv' /\ (r = Ok tt \/ truncated r) /\
    view_size (kv_ledger kv') <= view_size (kv_ledger kv) + OP_GROWTH.
Proof.
  set (goal := exists kv', _).
  assert (forall h1 e, rejected h1 e kv r h' -> goal) as Hrej.
  { intros h1 e (Hr & He). exists kv. split; [done|]. split; [done|]. split; [|apply N.le_add_r].
    destruct He as [(msg & _ & -> & _)|(w & Hw & ->)]; [by left|right]. by exists e, w. }
  assert (forall h1 m, stepped_to h1 kv m r h' \/ refused_with h1 kv m r h' -> goal) as Hcase.
  { intros h1 m [(res & kv' & -> & Hs & Hr' & _)|(e & _ & _ & Hr)]; [|by eapply Hrej].
    exists kv'. split.
    { apply rtc_once. by repeat eexists. }
    split; [done|]. split; [by left|]. by eapply rollup_step_size. }
  unfold processed. cbv zeta. destruct (message_in h i) as [[m|d|]|e|w]; [by eauto..| |by eauto|done].
  intros (-> & Hr & _). exists kv. split; [done|]. split; [done|]. split; [by left|apply N.le_add_r].
Qed.

(** Room for every input of the level. *)
Definition fits_inbox h (kv : KView) : Prop :=
  view_size (kv_ledger kv) + OP_GROWTH * N.of_nat (length (host_inbox h)) <= INDEX_LIMIT.

(** The host after it was asked for an input. *)
Lemma next_input_repr h kv : host_repr h kv -> host_repr (fst (host_next_input h)) kv.
Proof.
  pose proof (host_input_store h) as Es. pose proof (host_input_outbox h) as Eo.
  intros [Hr|(Hf & Hv & Ht & ->)]; [left|right].
  - by apply (kernel_repr_same (opened h)).
  - unfold cell_of in *. rewrite (get_same_store (opened h)) by exact Es. by rewrite Eo.
Qed.

Lemma run_inputs_ok fuel saw h kv :
  host_repr h kv -> fits_inbox h kv -> (length (host_inbox h) < fuel)%nat -> exists h' r kv',
    run_inputs fuel saw h = (h', r) /\ rtc moves kv kv' /\ host_repr h' kv' /\
    ((exists b, r = Ok b /\ host_inbox h' = []) \/ truncated r).
Proof.
  revert saw h kv. induction fuel as [|fuel IH]; intros saw h kv Hr Hfit Hlen; [lia|].
  cbn [run_inputs]. pose proof (next_input_repr _ _ Hr) as Hr0.
  pose proof (host_input_inbox h) as Hin. unfold fits_inbox in Hfit.
  destruct (host_next_input h) as [h0 input]. cbn [fst snd] in *.
  destruct (host_inbox h) as [|i l].
  - destruct Hin as [-> Hin]. exists h0, (Ok saw), kv. split; [done|]. split; [done|]. split; [done|].
    left. by exists saw.
  - destruct Hin as [-> Hin]. cbn [length] in *.
    destruct (process_input_ok h0 kv i Hr0) as (h1 & r & E & Hin1 & _ & Hp).
    { unfold fits_kernel. lia. }
    apply processed_moves in Hp as (kv1 & Hm & Hr1 & Hend & Hsize).
    destruct Hend as [->|(e & w & Hw & ->)].
    + destruct (IH true h1 kv1 Hr1) as (h' & r & kv' & E' & Hm' & Hr' & Hend).
      { unfold fits_inbox. rewrite Hin1, Hin. lia. }
      { rewrite Hin1, Hin. lia. }
      exists h', r, kv'. split; [by rewrite (ST_run _ _ _ _ _ E)|]. split; [by etrans|done].
    + exists h1, (Panic w), kv1. split; [by unfold mbind, ST_bind; rewrite E|]. split; [done|].
      split; [done|]. right. by exists e, w.
Qed.

Lemma run_ok fuel h kv :
  host_repr h kv -> fits_inbox h kv -> (length (host_inbox h) < fuel)%nat -> exists h' r kv',
    run_with_host fuel h = (h', r) /\ rtc moves kv kv' /\ host_repr h' kv' /\
    ((r = Ok tt /\ host_inbox h' = []) \/ truncated r).
Proof.
  intros Hr Hfit Hlen.
  destruct (run_inputs_ok fuel false h kv Hr Hfit Hlen) as (h1 & r & kv' & E & Hm & Hr1 & Hend).
  unfold run_with_host. destruct Hend as [(b & -> & Hin)|(e & w & Hw & ->)].
  - rewrite (ST_run _ _ _ _ _ E). destruct b.
    + by exists h1, (Ok tt), kv'; split; [|split; [|split; [|left]]].
    + exists (ledger_debug "no inbox messages" h1), (Ok tt), kv'. split; [done|]. split; [done|].
      pose proof (next_to_log "no inbox messages" h1) as Hn. split; [by apply Hn|]. left. split; [done|].
      rewrite (io_inbox _ _ (nt_io _ _ Hn)). done.
  - exists h1, (Panic w), kv'. split; [by unfold mbind, ST_bind; rewrite E|]. split; [done|].
    split; [done|]. right. by exists e, w.
Qed.

Lemma host_repr_outbox h kv : host_repr h kv -> host_outbox h = kv_outbox kv.
Proof. intros [Hr|(_ & _ & _ & ->)]; [exact (kr_outbox _ _ Hr)|done]. Qed.

(** A host represents one state. *)
Lemma kernel_repr_unique (s : DurableLedgerState Hst) kv kv' :
  kernel_repr s kv -> kernel_repr s kv' -> kv = kv'.
Proof.
  intros [_ R1 V1 T1 _ O1] [_ R2 V2 T2 _ O2]. apply repr_view in R1, R2.
  destruct kv as [v1 c1 t1 o1], kv' as [v2 c2 t2 o2]. cbn in *. f_equal; [congruence| | |congruence].
  - destruct c1 as [c1|], c2 as [c2|]; cbn in *; try done.
    + destruct V1 as (b1 & E1 & G1), V2 as (b2 & E2 & G2). assert (b1 = b2) as -> by congruence.
      apply decode_config in E1, E2. congruence.
    + destruct V1 as (b1 & _ & G1). congruence.
    + destruct V2 as (b2 & _ & G2). congruence.
  - rewrite T1 in T2. destruct t1 as [t1|], t2 as [t2|]; try done.
    injection T2 as T2. f_equal. by rewrite <-(bytes_str_of_str t1), <-(bytes_str_of_str t2), T2.
Qed.

Lemma fresh_not_repr h kv : fresh_store (get (opened h)) -> kernel_repr (opened h) kv -> False.
Proof.
  intros Hf [_ Hr _ _ _ _]. pose proof (t_size _ _ (r_tree _ _ Hr)) as Hs.
  rewrite (Hf (KCell CTreeSize)) in Hs; [done|done|by intros ?].
Qed.

Lemma host_repr_unique h kv kv' : host_repr h kv -> host_repr h kv' -> kv = kv'.
Proof.
  intros [H1'|(F1 & V1 & T1 & ->)] [H2'|(F2 & V2 & T2 & ->)]; [|exfalso..|done].
  - by eapply kernel_repr_unique.
  - by eapply fresh_not_repr.
  - by eapply fresh_not_repr.
Qed.

(** ** Theorems *)

(** Opening the ledger on a store where nothing of it is written yet writes the
    empty ledger with the default domain, and on any later store changes nothing; the
    configuration, the fee, the last result, the outbox and the inbox stay. *)
Theorem open_correct h (kv : KView) :
  host_repr h kv -> exists h',
    DurableLedgerState_new h = (h', Ok (opened h')) /\ kernel_repr (opened h') kv /\ opens h h' /\
    (kernel_repr (opened h) kv -> h' = h).
Proof.
  intros Hr. destruct (open_ok _ _ Hr) as (h' & E & Hr' & Ho). exists h'.
  split; [done|]. split; [done|]. split; [done|]. intros Hk. unfold DurableLedgerState_new in E.
  fold (opened h) in E. rewrite (ensure_initialized_again _ _ (kr_ledger _ _ Hk)) in E. by injection E.
Qed.

(** C2: an input is recorded: whatever becomes of it, the host it leaves has one more
    input and its bytes counted, and its level, number, length and first bytes in the
    cells of the last input.  If it is not for this rollup nothing else happens.  If it
    is a deposit or a kernel message it takes the step of the specification at the
    current fee and the step's result is stored, or there is no such step (or the host
    takes no output), the ledger, the configuration and the outbox stay as they were,
    and the bounded text of the error with which the message was refused is stored.  If
    it does not parse, they stay too and the bounded text of the decoder's error is
    stored.  The one other outcome is the panic of cutting that error's text inside a
    character. *)
Theorem process_input_correct h (kv : KView) (i : InputMessage) :
  host_repr h kv -> fits_kernel kv -> exists h' r,
    process_input i h = (h', r) /\ host_inbox h' = host_inbox h /\ recorded h i h' /\
    processed h kv i r h'.
Proof. apply process_input_ok. Qed.

(** C3: with more rounds than inputs the kernel's loop ends, by draining the inbox or
    by the truncation's panic, and its whole effect is a sequence of steps of the
    specification. *)
Theorem run_drains_inbox (fuel : nat) h (kv : KView) :
  host_repr h kv -> fits_inbox h kv -> (length (host_inbox h) < fuel)%nat -> exists h' r kv',
    run_with_host fuel h = (h', r) /\ rtc moves kv kv' /\ host_repr h' kv' /\
    ((r = Ok tt /\ host_inbox h' = []) \/ truncated r).
Proof. apply run_ok. Qed.

(** C4: over a whole level the outbox grows by exactly one message per withdrawal
    queued, in order, each the burn order of that withdrawal for the configured bridge. *)
Theorem run_pays_withdrawals (fuel : nat) h h' r (kv : KView) :
  host_repr h kv -> fits_inbox h kv -> (length (host_inbox h) < fuel)%nat ->
  run_with_host fuel h = (h', r) -> exists kv' ws outs,
    host_repr h' kv' /\
    v_withdrawals (kv_ledger kv') = v_withdrawals (kv_ledger kv) ++ ws /\
    host_outbox h' = host_outbox h ++ outs /\
    Forall2 (fun w out => exists t, kv_ticketer kv' = Some t /\ pays t w out) ws outs.
Proof.
  intros Hr Hfit Hlen E. destruct (run_ok fuel h kv Hr Hfit Hlen) as (h1 & r1 & kv' & E1 & Hm & Hr' & _).
  rewrite E in E1. injection E1 as <- <-.
  assert (paid kv kv) as Hp by (exists [], []; by rewrite !app_nil_r).
  destruct (run_paid kv kv kv' Hp Hm) as (ws & outs & Hw & Ho & Hall).
  exists kv', ws, outs. rewrite (host_repr_outbox _ _ Hr), (host_repr_outbox _ _ Hr'). done.
Qed.

(** A whole level never replaces a configured verifier or bridge and never
    moves a configured domain; nullifiers, applied shields, notes, withdrawals and the
    outbox only grow; and until a verifier is configured the ledger does not move and
    nothing is sent. *)
Theorem run_only_grows (fuel : nat) h h' r (kv kv' : KView) :
  host_repr h kv -> fits_inbox h kv -> (length (host_inbox h) < fuel)%nat ->
  run_with_host fuel h = (h', r) -> host_repr h' kv' ->
  grows kv kv' /\ (kv_inv kv -> kv_inv kv') /\
  (kv_verifier kv' = None -> kv_ledger kv' = kv_ledger kv /\ host_outbox h' = host_outbox h).
Proof.
  intros Hr Hfit Hlen E Hr'. destruct (run_ok fuel h kv Hr Hfit Hlen) as (h1 & r1 & kv1 & E1 & Hm & Hr1 & _).
  rewrite E in E1. injection E1 as <- <-. pose proof (host_repr_unique _ _ _ Hr' Hr1) as <-.
  split; [by apply run_grows|]. split; [intros Hi; by eapply run_inv|]. intros Hv.
  rewrite (host_repr_outbox _ _ Hr), (host_repr_outbox _ _ Hr'). by apply unconfigured_run.
Qed.
End Run.
