(* ===== verification/KernelReads.v ===== *)
(** * KernelReads: what the kernel reports

    The readers of [tezos/rollup-kernel/src/lib.rs] that tools and tests use on the
    kernel's store, the fee they announce, and the bounded text of a reported error;
    and the message whose error text stops the kernel. *)

From S2P Require Import Prelude Felt Externals Concrete Recipients Types Hashing Outputs.
From S2P Require Import Merkle Ledger LedgerSpec LedgerMem CanonicalWire KernelWire.
From S2P Require Import Utf8 Store StoreKeys Durable DurableCells DurableRepr DurableOps.
From S2P Require Import DurableTree DurableLedger DurableCommit Dal Kernel.
From S2P Require Import KernelSpec KernelTotal KernelCorrect KernelRun Wots KernelWireFacts.

Local Open Scope N_scope.

(** ** Error texts *)

(** The characters that a long text keeps. *)
Definition KEPT_BYTES : nat := 4081.

Lemma truncate_Ok s n :
  (n <= length (str_bytes s))%nat ->
  string_truncate s n =
  if is_char_boundary (str_bytes s) n then Ok (bytes_str (take n (str_bytes s)))
  else Panic "assertion failed: self.is_char_boundary(new_len)".
Proof.
  intros Hn. unfold string_truncate. rewrite (proj2 (Nat.leb_le _ _) Hn).
  by destruct (is_char_boundary _ _).
Qed.

Lemma bounded_long e :
  (MAX_RESULT_ERROR_MESSAGE_BYTES < length (str_bytes e))%nat ->
  bounded_error_message e =
  if is_char_boundary (str_bytes e) KEPT_BYTES
  then Ok (bytes_str (take KEPT_BYTES (str_bytes e)) +:+ "... [truncated]")
  else Panic "assertion failed: self.is_char_boundary(new_len)".
Proof.
  intros Hl. unfold bounded_error_message.
  rewrite (proj2 (Nat.ltb_lt MAX_RESULT_ERROR_MESSAGE_BYTES _) Hl). cbv zeta.
  change (MAX_RESULT_ERROR_MESSAGE_BYTES - length (str_bytes "... [truncated]"))%nat with KEPT_BYTES.
  rewrite truncate_Ok by (etrans; [|apply Nat.lt_le_incl, Hl]; apply Nat.leb_le; reflexivity). by destruct (is_char_boundary _ _).
Qed.

(** A reported error text has at most 4096 bytes: a text that fits is kept, a
    longer one is cut after 4081 bytes and marked, and the kernel panics exactly when
    that cut falls inside a character. *)
Theorem bounded_error_message_correct (e : string) :
  match bounded_error_message e with
  | Ok msg => (length (str_bytes msg) <= MAX_RESULT_ERROR_MESSAGE_BYTES)%nat /\
      (msg = e \/ is_char_boundary (str_bytes e) KEPT_BYTES = true /\
       msg = bytes_str (take KEPT_BYTES (str_bytes e)) +:+ "... [truncated]")
  | Err _ => False
  | Panic _ => (MAX_RESULT_ERROR_MESSAGE_BYTES < length (str_bytes e))%nat /\ is_char_boundary (str_bytes e) KEPT_BYTES = false
  end.
Proof.
  destruct (Nat.ltb_spec MAX_RESULT_ERROR_MESSAGE_BYTES (length (str_bytes e))) as [Hl|Hl].
  - rewrite bounded_long by done. destruct (is_char_boundary _ _); [|done].
    split; [|by right]. rewrite str_bytes_app, length_app, str_bytes_of_bytes, length_take.
    etrans; [apply Nat.add_le_mono_r, Nat.le_min_l|]. apply Nat.leb_le. reflexivity.
  - unfold bounded_error_message.
    rewrite (proj2 (Nat.ltb_ge MAX_RESULT_ERROR_MESSAGE_BYTES _)) by exact Hl.
    split; [exact Hl|by left].
Qed.

(** *** A text that is cut inside a character *)

(** [k] letters of two bytes each. *)
Fixpoint accent_bytes (k : nat) : bytes :=
  match k with O => [] | S k => Byte.xc3 :: Byte.xa9 :: accent_bytes k end.

Definition accents (k : nat) : string := bytes_str (accent_bytes k).

(** A text with [k] accents after its first [n] bytes, where the cut comes after the
    first byte of one of them. *)
Definition cut_inside (n k : nat) : Prop :=
  (n <= KEPT_BYTES)%nat /\ Nat.odd (KEPT_BYTES - n) = true /\
  (MAX_RESULT_ERROR_MESSAGE_BYTES < n + 2 * k)%nat.

Lemma length_accent_bytes k : length (accent_bytes k) = (2 * k)%nat.
Proof. induction k as [|k IH]; cbn [accent_bytes length]; lia. Qed.

Lemma accent_second k j : (j < k)%nat -> accent_bytes k !! S (2 * j) = Some Byte.xa9.
Proof.
  revert j. induction k as [|k IH]; intros [|j] Hj; [lia..|done|].
  replace (S (2 * S j)) with (S (S (S (2 * j)))) by lia. apply IH. lia.
Qed.

Lemma kept_below : (KEPT_BYTES < MAX_RESULT_ERROR_MESSAGE_BYTES)%nat.
Proof. apply Nat.ltb_lt. reflexivity. Qed.

Lemma accents_cut pre k rest :
  cut_inside (length (str_bytes pre)) k ->
  bounded_error_message (pre +:+ accents k +:+ rest) =
  Panic "assertion failed: self.is_char_boundary(new_len)".
Proof.
  intros (Hpre & Hodd & Hlong). pose proof kept_below as Hkept.
  apply Nat.odd_spec in Hodd as [j Hj].
  assert (length (str_bytes (pre +:+ accents k +:+ rest)) =
    length (str_bytes pre) + (2 * k + length (str_bytes rest)))%nat as Hl.
  { unfold accents. rewrite !str_bytes_app, !length_app, str_bytes_of_bytes, length_accent_bytes. lia. }
  rewrite bounded_long by lia.
  assert (str_bytes (pre +:+ accents k +:+ rest) !! KEPT_BYTES = Some Byte.xa9) as Hb.
  { unfold accents. rewrite !str_bytes_app, str_bytes_of_bytes, lookup_app_r by done.
    rewrite lookup_app_l by (rewrite length_accent_bytes; lia).
    replace (KEPT_BYTES - length (str_bytes pre))%nat with (S (2 * j)) by lia.
    apply accent_second. lia. }
  unfold is_char_boundary. rewrite Hb, Hl.
  destruct (Nat.eqb_spec KEPT_BYTES 0); [done|].
  destruct (Nat.eqb_spec KEPT_BYTES (length (str_bytes pre) + (2 * k + length (str_bytes rest)))); [lia|done].
Qed.

(** ** The ledger read back *)

#[local] Opaque DEPTH.

Lemma map_result_indices {A} (f : N -> result A) (l : list A) :
  (forall i x, l !! i = Some x -> f (N.of_nat i) = Ok x) ->
  map_result f (indices (N.of_nat (length l))) = Ok l.
Proof.
  intros Hf. apply map_result_Ok. unfold indices. rewrite Nat2N.id, Forall2_fmap_l.
  apply Forall2_same_length_lookup. rewrite length_seq. split; [done|].
  intros i j x [Hij _]%lookup_seq Hx. cbn in Hij. subst j. by apply Hf.
Qed.

Section Reads.
Context `{Blake2s, HexLaws, TezosContracts, !RollupEncoding, Target, WireLaws, KernelBuild}.
Context `{HostLaws Hst} {HW : WordTarget} {HP : PublishedCodec}.
#[local] Abbreviation DLS := (DurableLedgerState Hst).
Implicit Types s : DLS.

Lemma read_sized_get s c n :
  read_sized n (dl_host s) (cell_path c) =
  (b ← get s (KCell c); if (length (take n b) =? n)%nat then Some (take n b) else None).
Proof.
  unfold read_sized. change (cell_path c) with (key_path (KCell c)). rewrite read_get, Nat2N.id.
  by destruct (get s (KCell c)).
Qed.

Lemma read_count s c n :
  is_u64 n -> get s (KCell c) = Some (u64_le n) -> read_u64 (dl_host s) (cell_path c) = Some n.
Proof.
  intros Hn E. unfold read_u64. rewrite read_sized_get, E. cbn [mbind option_bind].
  rewrite take_ge by by rewrite length_u64_le. rewrite length_u64_le. cbn [Nat.eqb fmap option_fmap option_map]. by rewrite le_val_u64.
Qed.

(** A queued withdrawal that the reader takes back: a short recipient in UTF-8. *)
Definition withdrawal_readable (w : WithdrawalRecord) : Prop :=
  utf8_valid (str_bytes (wr_recipient w)) = true /\
  N.of_nat (length (encode_withdrawal_record w)) <= MAX_STORE_BINARY_BYTES.

Lemma withdrawal_roundtrip w :
  is_u64 (wr_amount w) -> withdrawal_readable w ->
  decode_withdrawal_record (encode_withdrawal_record w) = Ok w.
Proof.
  intros Ha [Hv Hl]. destruct w as [r a]. unfold encode_withdrawal_record in *.
  cbn [wr_recipient wr_amount] in *. set (rb := str_bytes r) in *.
  rewrite !length_app, length_u64_le, length_le_bytes in Hl.
  assert (N.of_nat (length rb) < U32_LIMIT) as H32.
  { unfold MAX_STORE_BINARY_BYTES in Hl. unfold U32_LIMIT. lia. }
  assert (N.min (N.of_nat (length rb)) (U32_LIMIT - 1) = N.of_nat (length rb)) as -> by lia.
  unfold decode_withdrawal_record. rewrite !length_app, length_u64_le, length_le_bytes.
  replace ((8 + (4 + length rb) <? 12)%nat) with false by (symmetry; apply Nat.ltb_ge; lia).
  cbn [fail_if mbind result_bind]. rewrite take_app_exact by apply length_u64_le.
  rewrite (drop_app_exact _ _ 8) by apply length_u64_le.
  rewrite take_app_exact by apply length_le_bytes. cbv zeta.
  rewrite le_val_le_bytes, (N.mod_small _ (256 ^ N.of_nat 4)) by exact H32.
  rewrite N.mod_small.
  2: { apply u32_usize. unfold is_u32, MAX_STORE_BINARY_BYTES, U32_LIMIT in *. lia. }
  rewrite (proj2 (N.eqb_eq _ _)) by lia. cbn [negb fail_if mbind result_bind].
  rewrite app_assoc, drop_app_exact by (rewrite length_app, length_u64_le, length_le_bytes; done).
  unfold rb. rewrite from_utf8_of by done. cbn [ok_or mbind result_bind]. by rewrite le_val_u64.
Qed.

(** The entries of a set kept by index. *)
Lemma read_indexed_ok s prefix name (at_ : N -> key) (l : list F) :
  (forall i, indexed_path prefix i = key_path (at_ i)) ->
  (forall i f, l !! i = Some f -> get s (at_ (N.of_nat i)) = Some (F_bytes f)) ->
  map_result (read_indexed_felt (dl_host s) prefix name) (indices (N.of_nat (length l))) = Ok l.
Proof.
  intros Hp Hg. apply map_result_indices. intros i f Hi. unfold read_indexed_felt.
  rewrite Hp, read_get, (Hg i f Hi). cbn [fmap option_fmap option_map ok_or mbind result_bind].
  change (N.to_nat 32) with 32%nat. rewrite take_ge by by rewrite length_F_bytes.
  rewrite length_F_bytes. cbn. by rewrite mkF_F_bytes.
Qed.

Lemma read_withdrawals_ok s ws :
  withdrawals_repr (get s) ws -> Forall withdrawal_readable ws ->
  map_result (fun i =>
    b ← ok_or (host_read_store (dl_host s) (indexed_path PATH_WITHDRAWAL_PREFIX i) MAX_STORE_BINARY_BYTES)
      ("missing persisted withdrawal " +:+ show_N i);
    decode_withdrawal_record b) (indices (N.of_nat (length ws))) = Ok ws.
Proof.
  intros (_ & _ & Hw) Hall. apply map_result_indices. intros i w Hi.
  destruct (Hw i w Hi) as [Ha E]. pose proof (Forall_lookup_1 _ _ _ _ Hall Hi) as Hr.
  change (indexed_path PATH_WITHDRAWAL_PREFIX ?i) with (key_path (KWithdrawal i)).
  rewrite read_get, E. cbn [fmap option_fmap option_map ok_or mbind result_bind].
  rewrite take_ge by (destruct Hr; lia). by apply withdrawal_roundtrip.
Qed.

Lemma read_notes_ok s notes :
  tree_repr (get s) notes ->
  map_result (fun i =>
    b ← ok_or (read_persisted_note (dl_host s) i) ("missing persisted note " +:+ show_N i);
    decode_published_note b) (indices (N.of_nat (length notes))) = Ok notes.
Proof.
  intros Ht. apply map_result_indices. intros i [cm enc] Hi.
  destruct (t_notes _ _ Ht i _ Hi) as (b & He & Hl & Hp).
  rewrite (read_persisted_payload _ _ _ Hp Hl). cbn [ok_or mbind result_bind].
  by apply (published_decodes cm enc).
Qed.

(** C31: the ledger read back from a store is the one the store represents: its
    domain, notes, commitment tree and root, nullifiers, accepted roots and queued
    withdrawals; deposit pools are not enumerated. *)
Theorem read_ledger_correct s v :
  repr (get s) v -> Forall withdrawal_readable (v_withdrawals v) -> exists l,
    read_ledger (dl_host s) = Ok l /\
    lg_auth_domain l = v_auth_domain v /\ lg_memos l = v_notes v /\
    lg_tree l = from_leaves (fst <$> v_notes v) /\ tree_root (lg_tree l) = v_root v /\
    lg_nullifiers l = v_nullifiers v /\ lg_valid_roots l = v_roots v /\
    lg_withdrawals l = v_withdrawals v /\ lg_deposit_balances l = ∅.
Proof.
  intros Hr Hread. unfold read_ledger, read_auth_domain.
  change PATH_AUTH_DOMAIN with (key_path (KCell CAuthDomain)).
  rewrite read_get, (r_auth _ _ Hr). cbn [fmap option_fmap option_map].
  change (N.to_nat 32) with 32%nat. rewrite take_ge by by rewrite length_F_bytes.
  rewrite length_F_bytes. cbn [Nat.eqb negb fail_if mbind result_bind mret result_ret].
  rewrite mkF_F_bytes. cbv zeta.
  destruct (r_nullifiers _ _ Hr) as (ln & En & _ & Hln & Hcn & Hn & _).
  destruct (r_roots _ _ Hr) as (lr & Er & _ & Hlr & Hcr & Hrt & _).
  destruct (r_withdrawals _ _ Hr) as (Hlw & Hcw & _).
  pose proof (r_tree _ _ Hr) as Ht. pose proof (tree_capacity_u64 _ (t_capacity _ _ Ht)) as Hlt.
  change PATH_TREE_SIZE with (cell_path CTreeSize).
  change PATH_NULLIFIER_COUNT with (cell_path CNullifierCount).
  change PATH_VALID_ROOT_COUNT with (cell_path CValidRootCount).
  change PATH_WITHDRAWAL_COUNT with (cell_path CWithdrawalCount).
  rewrite (read_count _ _ _ Hlt (t_size _ _ Ht)), (read_count _ _ _ Hln Hcn),
    (read_count _ _ _ Hlr Hcr), (read_count _ _ _ Hlw Hcw).
  change (default 0 (Some ?n)) with n.
  rewrite (read_notes_ok _ _ Ht). cbn [mbind result_bind].
  rewrite (read_indexed_ok s _ _ KNullifierAt ln (fun _ => eq_refl) Hn). cbn [mbind result_bind].
  rewrite (read_indexed_ok s _ _ KRootAt lr (fun _ => eq_refl) Hrt). cbn [mbind result_bind].
  rewrite (read_withdrawals_ok _ _ (r_withdrawals _ _ Hr) Hread). cbn [mbind result_bind].
  eexists. split; [reflexivity|]. cbn. by rewrite En, Er.
Qed.

(** ** Fees *)

Definition is_i32 (v : Z) : Prop := (- 2 ^ 31 <= v < 2 ^ 31)%Z.

Lemma i32_roundtrip v : is_i32 v -> i32_of_le (i32_le v) = v.
Proof.
  unfold is_i32, i32_of_le, i32_le. intros Hv. rewrite le_val_le_bytes.
  change (256 ^ N.of_nat 4) with (2 ^ 32).
  assert (0 <= v mod 2 ^ 32 < 2 ^ 32)%Z as Hm by (apply Z.mod_pos_bound; lia).
  rewrite N.mod_small by lia. rewrite Z2N.id by lia. cbv zeta.
  destruct (Z.ltb_spec (v mod 2 ^ 32) (2 ^ 31)) as [Hlt|Hge].
  - destruct (Z.le_gt_cases 0 v) as [Hp|Hn]; [by apply Z.mod_small; lia|].
    replace v with (v + 2 ^ 32 + (-1) * 2 ^ 32)%Z in Hlt by lia.
    rewrite Z.mod_add, Z.mod_small in Hlt by lia. lia.
  - destruct (Z.le_gt_cases 0 v) as [Hp|Hn].
    + rewrite Z.mod_small in Hge by lia. lia.
    + replace v with (v + 2 ^ 32 + (-1) * 2 ^ 32)%Z at 1 by lia.
      rewrite Z.mod_add, Z.mod_small by lia. lia.
Qed.

Lemma i32_of_le_range b : length b = 4%nat -> is_i32 (i32_of_le b).
Proof.
  intros Hl. unfold is_i32, i32_of_le. pose proof (le_val_bound b) as Hb. rewrite Hl in Hb.
  change (256 ^ N.of_nat 4) with 4294967296 in Hb. cbv zeta.
  destruct (Z.ltb_spec (Z.of_N (le_val b)) (2 ^ 31)); lia.
Qed.

Lemma read_i32_range s c v : read_i32 (dl_host s) (cell_path c) = Some v -> is_i32 v.
Proof.
  unfold read_i32. rewrite read_sized_get. destruct (get s (KCell c)) as [b|]; [|done].
  cbn [mbind option_bind]. destruct (Nat.eqb_spec (length (take 4 b)) 4); [|done].
  intros [= <-]. by apply i32_of_le_range.
Qed.

Lemma read_i32_get s c v :
  is_i32 v -> get s (KCell c) = Some (i32_le v) -> read_i32 (dl_host s) (cell_path c) = Some v.
Proof.
  intros Hv E. unfold read_i32. rewrite read_sized_get, E. cbn [mbind option_bind].
  assert (length (i32_le v) = 4%nat) as Hlen by apply length_le_bytes.
  rewrite take_ge by by rewrite Hlen. rewrite Hlen.
  cbn [Nat.eqb fmap option_fmap option_map]. by rewrite i32_roundtrip.
Qed.

Lemma read_i32_same s s' c :
  get s' (KCell c) = get s (KCell c) ->
  read_i32 (dl_host s') (cell_path c) = read_i32 (dl_host s) (cell_path c).
Proof. intros E. unfold read_i32. by rewrite !read_sized_get, E. Qed.

(** The count that a store with the two fee cells holds. *)
Lemma fee_count_at s level stored n :
  is_u64 n -> is_i32 level -> is_i32 stored ->
  get s (KCell CLastInputLevel) = Some (i32_le level) ->
  get s (KCell CFeeLevel) = Some (i32_le stored) -> get s (KCell CFeeCount) = Some (u64_le n) ->
  let count := if (stored =? level)%Z then n else 0 in
  current_private_tx_count_in_level s = Ok count /\
  read_private_tx_count_in_current_level (dl_host s) = count.
Proof.
  intros Hn Hl Hs El Es En. cbv zeta.
  unfold current_private_tx_count_in_level, read_private_tx_count_in_current_level.
  change PATH_LAST_INPUT_LEVEL with (cell_path CLastInputLevel).
  change PATH_PRIVATE_TX_FEE_LEVEL with (cell_path CFeeLevel).
  rewrite (read_i32_get _ _ _ Hl El), (read_i32_get _ _ _ Hs Es).
  destruct (stored =? level)%Z; cbn [negb]; [|done].
  change PATH_PRIVATE_TX_COUNT_IN_LEVEL with (cell_path CFeeCount).
  rewrite (read_count _ _ _ Hn En). change (cell_path CFeeCount) with (key_path (KCell CFeeCount)).
  by rewrite (read_u64_Some _ _ _ Hn En).
Qed.

(** An accepted private transaction raises the level's count by one, so the next
    one at the same level pays the next fee of the schedule; the fee that the readers
    announce is the fee the ledger asks; and the first input of another level brings it
    back to the minimum. *)
Theorem fee_escalates s v level n :
  repr (get s) v -> get s (KCell CLastInputLevel) = Some (i32_le level) -> is_i32 level ->
  current_private_tx_count_in_level s = Ok n -> is_u64 (n + 1) ->
  let s' := d_note_private_tx_applied s in
  durable_fee s' = required_tx_fee_for_private_tx_count (n + 1) /\
  read_required_tx_fee (dl_host s') = durable_fee s' /\
  forall level', is_i32 level' -> level' <> level ->
    durable_fee (dset (KCell CLastInputLevel) (i32_le level') s') = MIN_TX_FEE.
Proof.
  intros Hr El Hl Hc Hn. unfold d_note_private_tx_applied.
  change PATH_LAST_INPUT_LEVEL with (cell_path CLastInputLevel).
  rewrite (read_i32_get _ _ _ Hl El), Hc. cbv zeta. to_keys. rewrite wrapping_add_small by done.
  set (s' := dset (KCell CFeeCount) _ _). unfold durable_fee, read_required_tx_fee.
  destruct (fee_count_at s' level level (n + 1)) as [E1 E2]; try done.
  1-3: by (unfold s'; get_simpl).
  rewrite Z.eqb_refl in E1, E2. rewrite E1, E2. split; [done|]. split; [done|].
  intros level' Hl' Hne.
  destruct (fee_count_at (dset (KCell CLastInputLevel) (i32_le level') s') level' level (n + 1))
    as [E3 _]; try done.
  1-3: by (unfold s'; get_simpl).
  rewrite (proj2 (Z.eqb_neq _ _)) in E3 by done. by rewrite E3.
Qed.
End Reads.

(** ** The message that stops the kernel

    A pointer that announces another kind than its payload's is refused with a text
    that prints the decoded payload with [{:?}]; no proof was checked.  The recipient in
    it is its sender's text. *)

(** [{:?}] of a list and of a field element. *)
Definition debug_list (l : list string) : string := "[" +:+ String.concat ", " l +:+ "]".
Definition debug_felt (f : F) : string := debug_list ((fun b => show_N (Byte.to_N b)) <$> F_bytes f).

Definition quote : string := bytes_str [Byte.x22].

(** The derived [{:?}] of an unshield message, as far as its recipient's text. *)
Definition debug_unshield_head (req : KernelUnshieldReq) : string :=
  "Unshield(KernelUnshieldReq { root: " +:+ debug_felt (kur_root req) +:+
  ", nullifiers: " +:+ debug_list (debug_felt <$> kur_nullifiers req) +:+
  ", v_pub: " +:+ show_N (kur_v_pub req) +:+ ", fee: " +:+ show_N (kur_fee req) +:+
  ", recipient: " +:+ quote.

(** The derived text goes on with the recipient's, whose accents are printed as they
    are. *)
Class DebugText `{KernelBuild} : Prop :=
  debug_unshield : forall req k, kur_recipient req = accents k -> exists rest,
    debug_message (KIUnshield req) = debug_unshield_head req +:+ accents k +:+ rest.

Definition mismatch_head (kind : KernelDalPayloadKind) (req : KernelUnshieldReq) : string :=
  "DAL payload kind mismatch: pointer declared " +:+ dal_payload_kind_name kind +:+
  ", decoded " +:+ debug_unshield_head req.

Section Stop.
Context `{Blake2s, HexLaws, TezosContracts, !RollupEncoding, Target, WireLaws, KernelBuild}.
Context `{HostLaws Hst} {HW : WordTarget} {HP : PublishedCodec}.
Context {CC : ConfigCodec} {CX : ContractText} {HR : HostReveals Hst}.
Context {CT : CratesTotal} {DT : DebugText}.
Implicit Types h : Hst.

Lemma append_assoc (a b c : string) : (a +:+ b) +:+ c = a +:+ (b +:+ c).
Proof. induction a as [|x a IH]; [done|]. exact (f_equal (String x) IH). Qed.

Lemma mismatched_kind kind req k :
  kind <> KDUnshield -> kur_recipient req = accents k -> exists rest,
    check_payload_kind debug_message kind (KIUnshield req) =
    Err (mismatch_head kind req +:+ accents k +:+ rest).
Proof.
  intros Hk Hr. destruct (debug_unshield req k Hr) as [rest E]. exists rest.
  unfold check_payload_kind, mismatch_head. rewrite !append_assoc, E. by destruct kind.
Qed.

(** The pointer, on a host that is opened and whose inputs reveal the same. *)
Lemma mismatched_pointer_panics h kv p payload req k :
  host_repr h kv -> fetch_payload h p = Ok payload ->
  decode_kernel_inbox_message payload = Ok (KIUnshield req) -> kdp_kind p <> KDUnshield ->
  kur_recipient req = accents k -> cut_inside (length (str_bytes (mismatch_head (kdp_kind p) req))) k ->
  exists h' w, apply_on_ledger (PKernel (KIDalPointer p)) h = (h', Panic w) /\
    host_repr h' kv /\ host_inbox h' = host_inbox h.
Proof.
  intros Hr Hf Hd Hkind Hrec Hcut. destruct (open_ok _ _ Hr) as (h1 & Hopen & Hr1 & Hop).
  destruct (mismatched_kind _ _ _ Hkind Hrec) as [rest E].
  assert (fetch_kernel_message_from_dal debug_message h1 p =
    Err (mismatch_head (kdp_kind p) req +:+ accents k +:+ rest)) as Hfetch.
  { rewrite (fetch_reveals h h1) by apply Hop. unfold fetch_kernel_message_from_dal.
    by rewrite Hf; cbn [mbind result_bind]; rewrite Hd. }
  exists h1. eexists. unfold apply_on_ledger. rewrite Hopen. cbn [apply_parsed_message].
  rewrite apply_kernel_message_eq. cbn [message_of]. unfold fetch_on, mbind, ST_bind, reads.
  cbn [dl_host opened]. rewrite Hfetch. unfold error_result, mbind, ST_bind, lift.
  rewrite (accents_cut _ _ _ Hcut). split; [done|]. split; [by left|]. apply io_inbox, Hop.
Qed.

(** C30: anyone stops the kernel.  Let the next input be a pointer whose payload, which
    the DAL serves, decodes to an unshield of another kind than the pointer announces,
    with an accented recipient so placed that byte 4081 of the refusal's text is the
    second of an accent.  Then, with the verifier configured or not and whatever proof,
    root, nullifiers and notes the unshield has, the kernel panics on that input: the
    run ends there with the ledger, the configuration and the outbox as they were, and
    the rest of the inbox unread. *)
Theorem mismatched_pointer_stops_kernel (fuel : nat) h (kv : KView) (i : InputMessage)
    (p : KernelDalPayloadPointer) (payload : bytes) (req : KernelUnshieldReq) (k : nat) :
  host_repr h kv -> snd (host_next_input h) = Some i ->
  let h0 := fst (host_next_input h) in
  message_in h0 i = Ok (PKernel (KIDalPointer p)) -> fetch_payload h0 p = Ok payload ->
  decode_kernel_inbox_message payload = Ok (KIUnshield req) -> kdp_kind p <> KDUnshield ->
  kur_recipient req = accents k -> cut_inside (length (str_bytes (mismatch_head (kdp_kind p) req))) k ->
  exists h' w, run_with_host (S fuel) h = (h', Panic w) /\ host_repr h' kv /\
    host_inbox h' = host_inbox h0.
Proof.
  intros Hr Hi h0 Hm Hf Hd Hkind Hrec Hcut.
  apply next_input_repr in Hr. fold h0 in Hr.
  pose proof (record_input_next i h0) as [Hrepr Hio Hrev]. set (h1 := record_input i h0) in *.
  destruct (mismatched_pointer_panics h1 kv p payload req k) as (h' & w & E & Hr' & Hin);
    [by apply Hrepr| |done..|].
  { rewrite <-Hf. by apply fetch_payload_reveals. }
  exists h', w. split; [|split; [done|]]; [|rewrite Hin; by apply io_inbox].
  assert (process_input i h0 = (h', Panic w)) as Hp.
  { rewrite process_input_eq. fold h1. unfold apply_input_message, message_in in *.
    assert (host_rollup_address h1 = host_rollup_address h0) as -> by (unfold reveals in Hrev; congruence).
    destruct (host_rollup_address h0) as [a|]; [|done]. by rewrite Hm, E. }
  unfold run_with_host. cbn [run_inputs]. unfold mbind, ST_bind.
  destruct (host_next_input h) as [h2 o] eqn:En. cbn [fst snd] in *. subst o h0. by rewrite Hp.
Qed.
End Stop.
