(* ===== verification/KernelWitness.v ===== *)
(** * KernelWitness: the kernel's theorems at concrete hosts

    A host with a map for a store, lists for its inbox and outbox and a table of
    published pages; small instances of the crates' encodings; and each theorem of the
    durable ledger and of the kernel applied to them. *)

From S2P Require Import Prelude Felt Externals Concrete Recipients Types Hashing Binding Outputs.
From S2P Require Import Merkle Ledger LedgerSpec LedgerCorrect LedgerMem LedgerWitness Wots CanonicalWire.
From S2P Require Import KernelWire KernelWireFacts ConcreteWire Utf8 Store StoreKeys Durable DurableCells.
From S2P Require Import DurableRepr DurableOps DurableTree DurableLedger DurableCommit Dal Kernel.
From S2P Require Import KernelSpec KernelTotal KernelCorrect KernelRun KernelReads.

Local Open Scope N_scope.

#[local] Opaque DEPTH.

(** ** A host *)

Record ToyHost := {
  th_store : gmap bytes bytes;
  th_outbox : list bytes;
  th_inbox : list InputMessage;
  th_params : DalParameters;
  th_page : N -> bytes
}.

#[local] Instance toy_host : Host ToyHost := {|
  host_next_input := fun h =>
    match th_inbox h with
    | [] => (h, None)
    | m :: l =>
        ({| th_store := th_store h; th_outbox := th_outbox h; th_inbox := l;
            th_params := th_params h; th_page := th_page h |}, Some m)
    end;
  host_read_store := fun h p n => take (N.to_nat n) <$> th_store h !! p;
  host_write_store := fun p v h =>
    {| th_store := <[p := v]> (th_store h); th_outbox := th_outbox h; th_inbox := th_inbox h;
       th_params := th_params h; th_page := th_page h |};
  host_write_output := fun b h =>
    ({| th_store := th_store h; th_outbox := th_outbox h ++ [b]; th_inbox := th_inbox h;
        th_params := th_params h; th_page := th_page h |}, Ok tt);
  host_write_debug := fun _ h => h;
  host_rollup_address := fun _ => Some [];
  host_reveal_dal_parameters := fun h => Ok (th_params h);
  host_reveal_dal_page := fun h _ _ page _ => Ok (th_page h page)
|}.

#[local] Instance toy_host_laws : HostLaws ToyHost.
Proof.
  refine {| host_store := th_store; host_outbox := th_outbox; host_inbox := th_inbox |}; try done.
  - intros b h. eexists _, _. split; [reflexivity|]. split; [done|]. split; [done|]. by left.
  - intros h. cbn. by destruct (th_inbox h).
  - intros h. cbn. by destruct (th_inbox h).
  - intros h. cbn. by destruct (th_inbox h) eqn:E.
Defined.

#[local] Instance toy_reveals : HostReveals ToyHost.
Proof. by constructor. Qed.

#[local] Instance toy_host_total : HostTotal ToyHost.
Proof. by constructor. Qed.

(** ** Encodings *)

#[local] Existing Instances toy_blake2s toy_hex toy_hex_laws host_target toy_wire toy_wire_laws.

#[local] Instance host_words : WordTarget.
Proof. by unfold WordTarget. Qed.

(** Contracts in ASCII of at most 256 bytes. *)
#[local] Instance short_contracts : TezosContracts := {|
  contract := bool;
  contract_from_b58check := fun s =>
    if is_ascii (str_bytes s) && (N.of_nat (length (str_bytes s)) <=? MAX_STORE_STRING_BYTES)
    then Some true else None;
  contract_is_originated := id
|}.

#[local] Instance short_contract_text : ContractText.
Proof.
  intros s c. cbn. destruct (is_ascii _); cbn; [|done].
  destruct (N.leb_spec (N.of_nat (length (str_bytes s))) MAX_STORE_STRING_BYTES); [|done].
  intros _. by split.
Qed.

#[local] Instance toy_rollup : RollupEncoding := {|
  Ticket := string * N;
  ticket_creator := fst;
  ticket_token_id := fun _ => 0%Z;
  ticket_metadata_is_some := fun _ => false;
  ticket_amount_as_u64 := fun t => if t.2 <? U64_LIMIT then Some t.2 else None;
  inbox_parse := fun b => Some ([], External b);
  external_frame_parse := fun b => Some ([], b);
  ticket_new := fun _ _ n => Ok ("KT1"%string, n);
  entrypoint := string;
  entrypoint_try_from := Some;
  outbox_bin_write := fun _ t _ e => Ok (str_bytes e ++ u64_le t.2)
|}.

#[local] Instance toy_tickets : TicketLaws.
Proof. intros t n. cbn. destruct (N.ltb_spec t.2 U64_LIMIT); [|done]. by intros [= <-]. Qed.

#[local] Instance toy_build : KernelBuild := {|
  CONFIG_ADMIN_PUB_SEED_HEX := None;
  VERIFIER_CONFIG_ADMIN_LEAF_HEX := None;
  BRIDGE_CONFIG_ADMIN_LEAF_HEX := None;
  bundle_verify := fun _ _ => Ok tt;
  debug_message := fun m =>
    match m with
    | KIUnshield req => debug_unshield_head req +:+ kur_recipient req +:+ "..."
    | _ => "message"
    end
|}.

#[local] Instance toy_debug : DebugText.
Proof. intros req k E. exists "..."%string. by rewrite <-E. Qed.

Lemma tze_of_total {A} (c : codec A) : @TzeTotal A (tze_of c).
Proof. constructor; cbn; [|done]. intros b. apply no_panic_ok_or. Qed.

#[local] Instance toy_crates : CratesTotal.
Proof. constructor; try done; [constructor; apply tze_of_total|apply toy_hex_total]. Qed.

(** ** Sizes of the encodings *)

Lemma of_nat_le a b : (a <= b)%nat -> N.of_nat a <= N.of_nat b.
Proof. lia. Qed.

Lemma length_cw_nat n : (length (cw codec_nat n) <= n + 1)%nat.
Proof.
  cbn. destruct (N.of_nat n) as [|p] eqn:E; [cbn; lia|].
  assert (length (write_pos p) <= Pos.to_nat p)%nat as Hp by (clear E; induction p; cbn [write_pos length]; lia).
  apply (f_equal N.to_nat) in E. rewrite Nat2N.id in E. subst n. cbn [N.to_nat write_N]. lia.
Qed.

Lemma length_cw_bytes b : (length (cw codec_bytes b) <= 2 * length b + 1)%nat.
Proof.
  change (cw codec_bytes b) with (cw codec_nat (length b) ++ b). rewrite length_app.
  pose proof (length_cw_nat (length b)). lia.
Qed.

Lemma length_cw_published cm ct_d tag ct_v nonce data out :
  (length (cw c_published {| wpn_cm := {| wf_bytes := cm |};
    wpn_enc := {| wen_ct_d := ct_d; wen_tag := {| wu16_bytes := tag |}; wen_ct_v := ct_v;
      wen_nonce := nonce; wen_encrypted_data := data; wen_outgoing_ct := out |} |}) <=
  2 * (length cm + length ct_d + length tag + length ct_v + length nonce + length data +
       length out) + 7)%nat.
Proof.
  change (cw c_published _) with (cw codec_bytes cm ++ cw codec_bytes ct_d ++ cw codec_bytes tag ++
    cw codec_bytes ct_v ++ cw codec_bytes nonce ++ cw codec_bytes data ++ cw codec_bytes out).
  rewrite !length_app. pose proof length_cw_bytes as Hl.
  pose proof (Hl cm). pose proof (Hl ct_d). pose proof (Hl tag). pose proof (Hl ct_v).
  pose proof (Hl nonce). pose proof (Hl data). pose proof (Hl out). lia.
Qed.

#[local] Instance toy_published : PublishedCodec.
Proof.
  constructor.
  - intros cm enc Hs. unfold encode_published_note. rewrite (proj2 (validate_Ok enc tt) Hs).
    eexists. split; [reflexivity|].
    destruct Hs as [H1 H2 H3 H4 H5 _]. unfold felt_to_wire, note_to_wire, u16_to_wire.
    eapply N.le_trans; [apply of_nat_le, length_cw_published|].
    rewrite length_F_bytes, H1, H2, H3, H4, H5, length_le_bytes. apply N.leb_le. reflexivity.
  - intros cm enc b He. by apply published_note_Ok in He as [_ ?].
Qed.

Lemma length_cw_config a b c d :
  (length (cw c_verifier_config {| wvc_auth_domain := {| wf_bytes := a |};
    wvc_verified_program_hashes := {| wph_shield := {| wf_bytes := b |};
      wph_transfer := {| wf_bytes := c |}; wph_unshield := {| wf_bytes := d |} |} |}) <=
  2 * (length a + length b + length c + length d) + 4)%nat.
Proof.
  change (cw c_verifier_config _) with
    (cw codec_bytes a ++ cw codec_bytes b ++ cw codec_bytes c ++ cw codec_bytes d).
  rewrite !length_app. pose proof length_cw_bytes as Hl.
  pose proof (Hl a). pose proof (Hl b). pose proof (Hl c). pose proof (Hl d). lia.
Qed.

#[local] Instance toy_config : ConfigCodec.
Proof.
  intros c b Hb. assert (cw c_verifier_config (config_to_wire c) = b) as <- by by injection Hb.
  unfold config_to_wire, program_hashes_to_wire, felt_to_wire.
  eapply N.le_trans; [apply of_nat_le, length_cw_config|].
  rewrite !length_F_bytes. apply N.leb_le. reflexivity.
Qed.

(** ** Sample states *)

Definition new_host (inbox : list InputMessage) : ToyHost := {|
  th_store := ∅; th_outbox := []; th_inbox := inbox;
  th_params := {| dal_number_of_slots := 4; dal_attestation_lag := 8; dal_slot_size := 4096;
                  dal_page_size := 1024 |};
  th_page := fun _ => [] |}.

Lemma new_host_fresh l : fresh_store (get (opened (new_host l))).
Proof. intros k _ _. apply lookup_empty. Qed.

Lemma new_host_repr l : host_repr (new_host l) (initial empty_view).
Proof. right. split; [apply new_host_fresh|]. done. Qed.

Definition new_ledger : DurableLedgerState ToyHost := initialized (opened (new_host [])).

Lemma new_ledger_repr : kernel_repr new_ledger (initial empty_view).
Proof. exact (initialized_repr (new_host []) (new_host_fresh []) eq_refl eq_refl). Qed.

Lemma empty_view_size : view_size empty_view = 1.
Proof. unfold view_size. cbn [v_notes v_nullifiers v_roots v_withdrawals empty_view]. by rewrite size_singleton, size_empty. Qed.

Lemma fits_small n : n <= 1000 -> view_size empty_view + n <= INDEX_LIMIT.
Proof.
  intros Hn. rewrite empty_view_size. etrans; [apply N.add_le_mono_l, Hn|]. apply N.leb_le. reflexivity.
Qed.

(** A pool of a million on the new ledger. *)
Definition funded : DurableLedgerState ToyHost := dset (KBalance pool_key) (u64_le 1000000) new_ledger.

Definition funded_view : View := with_balances (<[pool_key := 1000000]> ∅) empty_view.

Lemma funded_repr : repr (get funded) funded_view.
Proof.
  apply (write_pool_ok new_ledger empty_view pool_key (Some 1000000)); [|done].
  apply (kr_ledger _ _ new_ledger_repr).
Qed.

Lemma durable_funded_inv : durable_inv funded /\ view_of funded = funded_view.
Proof.
  pose proof (repr_view _ _ funded_repr) as Hv. split; [|done].
  split; [apply compute_zero_hashes_ok|]. rewrite Hv. apply funded_repr.
Qed.

(** Without a level the fee is the minimum. *)
Lemma fee_without_level (s : DurableLedgerState ToyHost) :
  get s (KCell CLastInputLevel) = None -> durable_fee s = MIN_TX_FEE.
Proof.
  intros E. unfold durable_fee, current_private_tx_count_in_level, read_i32.
  change PATH_LAST_INPUT_LEVEL with (cell_path CLastInputLevel).
  by rewrite read_sized_get, E.
Qed.

Lemma funded_fee : durable_fee funded = MIN_TX_FEE.
Proof.
  apply fee_without_level. unfold funded, new_ledger, initialized. cbv zeta.
  assert (is_u64 0) by done. by get_simpl.
Qed.

(** ** The durable ledger *)

Lemma key_paths_distinct_witness :
  key_ok (KNote 1) /\ key_path (KNote 1) <> key_path (KNoteLen 1).
Proof. split; [reflexivity|]. apply (key_paths_distinct (KNote 1) (KNoteLen 1)); [reflexivity..|discriminate]. Defined.

Lemma funded_growth : view_size (view_of funded) + OP_GROWTH <= INDEX_LIMIT.
Proof. rewrite (proj2 durable_funded_inv). by apply (fits_small OP_GROWTH). Qed.

Lemma durable_shield_accepted :
  shield_accepts (durable_fee funded) TREE_CAPACITY (view_of funded) sample_shield.
Proof.
  rewrite funded_fee, (proj2 durable_funded_inv). constructor.
  - apply N.leb_le. reflexivity.
  - discriminate.
  - split; by apply felt_n_nonzero.
  - by apply not_elem_of_empty.
  - split; apply sample_enc_shape.
  - exists 1000000. split; [apply lookup_insert_eq|apply N.leb_le; reflexivity].
  - reflexivity.
  - exact I.
  - apply N.leb_le. vm_compute. reflexivity.
Qed.

Lemma durable_unshield_accepted :
  unshield_accepts (durable_fee funded) TREE_CAPACITY (view_of funded) sample_unshield "tz1abc".
Proof.
  rewrite funded_fee, (proj2 durable_funded_inv). constructor.
  - reflexivity.
  - apply N.leb_le. reflexivity.
  - reflexivity.
  - split; [apply sample_enc_shape|by apply felt_n_nonzero].
  - constructor.
    + cbn. lia.
    + apply in_singleton.
    + intros nf _. by apply not_elem_of_empty.
    + apply NoDup_singleton.
  - exact I.
  - apply N.leb_le. vm_compute. reflexivity.
Qed.

Lemma durable_shield_commit_witness : exists commit s',
  prepare_durable_shield_commit funded (prepared_shield sample_shield) = Ok commit /\
  apply_durable_shield_commit commit funded = (s', shield_resp sample_shield (view_of funded)) /\
  durable_inv_from funded s' /\
  view_of s' = snapshot_view (shield_effect sample_shield (view_of funded)).
Proof.
  apply (durable_shield_commit funded sample_shield);
    [apply durable_funded_inv|exact funded_growth|exact durable_shield_accepted].
Defined.

Lemma durable_unshield_commit_witness : exists commit s',
  prepare_durable_unshield_commit funded (prepared_unshield sample_unshield "tz1abc") = Ok commit /\
  apply_durable_unshield_commit commit funded = (s', unshield_resp sample_unshield (view_of funded)) /\
  durable_inv_from funded s' /\
  view_of s' = snapshot_view (unshield_effect sample_unshield "tz1abc" (view_of funded)).
Proof.
  apply (durable_unshield_commit funded sample_unshield "tz1abc");
    [apply durable_funded_inv|exact funded_growth|reflexivity|exact durable_unshield_accepted].
Defined.

Lemma durable_exec_refines_witness :
  (exists s', exec (OShield sample_shield) funded = (s', Ok tt) /\ durable_inv_from funded s' /\
     op_step (LedgerLaws0 := Durable_laws funded) (durable_fee funded) (view_of funded)
       (OShield sample_shield) (view_of s')) \/
  (exists e, exec (OShield sample_shield) funded = (funded, Err e)).
Proof.
  apply (durable_exec_refines funded (OShield sample_shield));
    [exact toy_hex_total|apply durable_funded_inv|exact I|exact funded_growth].
Defined.

Lemma read_ledger_correct_witness : exists l,
  read_ledger (dl_host funded) = Ok l /\
  lg_auth_domain l = v_auth_domain funded_view /\ lg_memos l = v_notes funded_view /\
  lg_tree l = from_leaves (fst <$> v_notes funded_view) /\ tree_root (lg_tree l) = v_root funded_view /\
  lg_nullifiers l = v_nullifiers funded_view /\ lg_valid_roots l = v_roots funded_view /\
  lg_withdrawals l = v_withdrawals funded_view /\ lg_deposit_balances l = ∅.
Proof. apply (read_ledger_correct funded funded_view); [exact funded_repr|constructor]. Defined.

(** The funded ledger in the middle of level 5. *)
Definition at_level : DurableLedgerState ToyHost := dset (KCell CLastInputLevel) (i32_le 5) funded.

Lemma at_level_repr : repr (get at_level) funded_view.
Proof.
  apply (repr_cell _ _ _ funded_view); [done|exact funded_repr|by intros G _ g|done|].
  unfold funded, new_ledger, initialized. cbv zeta. assert (is_u64 0) by done. by get_simpl.
Qed.

Lemma at_level_count : current_private_tx_count_in_level at_level = Ok 0.
Proof.
  unfold current_private_tx_count_in_level.
  change PATH_LAST_INPUT_LEVEL with (cell_path CLastInputLevel).
  change PATH_PRIVATE_TX_FEE_LEVEL with (cell_path CFeeLevel).
  assert (is_i32 5) as H5 by (unfold is_i32; lia).
  rewrite (read_i32_get at_level CLastInputLevel 5 H5 (get_dset_eq _ _ _)).
  unfold read_i32 at 1. rewrite read_sized_get.
  assert (get at_level (KCell CFeeLevel) = None) as ->; [|done].
  unfold at_level, funded, new_ledger, initialized. cbv zeta. assert (is_u64 0) by done. by get_simpl.
Qed.

Lemma fee_escalates_witness :
  let s' := d_note_private_tx_applied at_level in
  durable_fee s' = required_tx_fee_for_private_tx_count (0 + 1) /\
  read_required_tx_fee (dl_host s') = durable_fee s' /\
  forall level', is_i32 level' -> level' <> 5%Z ->
    durable_fee (dset (KCell CLastInputLevel) (i32_le level') s') = MIN_TX_FEE.
Proof.
  apply (fee_escalates at_level funded_view 5 0);
    [exact at_level_repr|apply get_dset_eq|unfold is_i32; lia|exact at_level_count|reflexivity].
Defined.

(** ** Data availability *)

Definition sample_bridge : KernelSignedBridgeConfig := {|
  ksbc_config := {| kbc_ticketer := "KT1" |}; ksbc_signature := [] |}.

Definition sample_payload : bytes :=
  match encode_kernel_inbox_message (KIConfigureBridge sample_bridge) with Ok b => b | _ => [] end.

Definition dal_chunk : KernelDalChunkPointer := {|
  kdc_published_level := 7; kdc_slot_index := 1;
  kdc_payload_len := N.of_nat (length sample_payload) |}.

Definition sample_dal : KernelDalPayloadPointer := {|
  kdp_kind := KDConfigureBridge; kdp_chunks := [dal_chunk];
  kdp_payload_len := N.of_nat (length sample_payload); kdp_payload_hash := hash sample_payload |}.

Definition dal_params : DalParameters := {|
  dal_number_of_slots := 4; dal_attestation_lag := 8; dal_slot_size := 512; dal_page_size := 64 |}.

Definition dal_host : ToyHost := {|
  th_store := ∅; th_outbox := []; th_inbox := []; th_params := dal_params;
  th_page := fun i => default [] (chunks 64 (padded 64 sample_payload) !! N.to_nat i) |}.

Lemma dal_message_bound_witness :
  fetch_kernel_message_from_dal debug_message dal_host sample_dal =
    Ok (KIConfigureBridge sample_bridge) /\
  message_kind (KIConfigureBridge sample_bridge) = Some (kdp_kind sample_dal) /\ exists payload,
    hash payload = kdp_payload_hash sample_dal /\
    decode_kernel_inbox_message payload = Ok (KIConfigureBridge sample_bridge) /\
    N.of_nat (length payload) = kdp_payload_len sample_dal /\
    0 < kdp_payload_len sample_dal <= MAX_DAL_PAYLOAD_BYTES.
Proof.
  assert (fetch_kernel_message_from_dal debug_message dal_host sample_dal =
    Ok (KIConfigureBridge sample_bridge)) as E by (vm_compute; reflexivity).
  split; [exact E|]. exact (dal_message_bound debug_message dal_host sample_dal _ E).
Defined.

Lemma sample_published :
  published dal_host 4 512 64 dal_chunk sample_payload.
Proof.
  constructor.
  - reflexivity.
  - vm_compute. discriminate.
  - apply N.leb_le. vm_compute. reflexivity.
  - reflexivity.
  - reflexivity.
  - apply N.leb_le. vm_compute. reflexivity.
  - intros j page Hj. cbn [host_reveal_dal_page toy_host dal_host th_page].
    change (N.to_nat 64) with 64%nat in Hj. by rewrite Nat2N.id, Hj.
Qed.

Lemma dal_roundtrip_witness :
  let payload := concat [sample_payload] in
  fetch_kernel_message_from_dal debug_message dal_host
    {| kdp_kind := KDConfigureBridge; kdp_chunks := [dal_chunk];
       kdp_payload_len := N.of_nat (length payload); kdp_payload_hash := hash payload |} =
  Ok (KIConfigureBridge sample_bridge).
Proof.
  apply (dal_roundtrip debug_message dal_host dal_params [dal_chunk] [sample_payload]).
  - discriminate.
  - reflexivity.
  - reflexivity.
  - reflexivity.
  - discriminate.
  - constructor; [exact sample_published|constructor].
  - discriminate.
  - apply N.leb_le. vm_compute. reflexivity.
  - vm_compute. reflexivity.
  - reflexivity.
Defined.

(** ** The kernel *)

Definition sample_deposit : ParsedRollupMessage :=
  PDeposit {| pbd_ticketer := "KT1"; pbd_recipient := "deposit"; pbd_amount := 5 |}.

Lemma new_ledger_fits : fits_kernel (initial empty_view).
Proof. by apply (fits_small OP_GROWTH). Qed.

Lemma kernel_message_correct_witness :
  exists s' r, apply_parsed_message sample_deposit new_ledger = (s', r) /\
    match r with
    | Ok res => exists kv',
        rollup_step (fetch_on new_ledger) (durable_fee new_ledger) (initial empty_view) sample_deposit
          res kv' /\
        kernel_repr s' kv' /\ around new_ledger s'
    | Err _ => unchanged new_ledger s' /\
        (refused new_ledger \/ forall res kv',
           ~ rollup_step (fetch_on new_ledger) (durable_fee new_ledger) (initial empty_view)
               sample_deposit res kv')
    | Panic _ => False
    end.
Proof.
  apply (kernel_message_correct new_ledger (initial empty_view) sample_deposit);
    [exact new_ledger_repr|exact new_ledger_fits|reflexivity|discriminate].
Defined.

Definition sample_input : InputMessage := {| im_level := 3; im_id := 0; im_payload := sample_payload |}.

Definition busy_host : ToyHost := new_host [sample_input; {| im_level := 3; im_id := 1; im_payload := [] |}].

Lemma busy_fits : fits_inbox busy_host (initial empty_view).
Proof. by apply (fits_small (OP_GROWTH * 2)). Qed.

Lemma open_correct_witness : exists h',
  DurableLedgerState_new busy_host = (h', Ok (opened h')) /\
  kernel_repr (opened h') (initial empty_view) /\ opens busy_host h' /\
  (kernel_repr (opened busy_host) (initial empty_view) -> h' = busy_host).
Proof. apply (open_correct busy_host (initial empty_view)), new_host_repr. Defined.

Lemma process_input_correct_witness : exists h' r,
  process_input sample_input busy_host = (h', r) /\ host_inbox h' = host_inbox busy_host /\
  recorded busy_host sample_input h' /\ processed busy_host (initial empty_view) sample_input r h'.
Proof.
  apply (process_input_correct busy_host (initial empty_view) sample_input);
    [apply new_host_repr|exact new_ledger_fits].
Defined.

Lemma run_drains_inbox_witness : exists h' r kv',
  run_with_host 3 busy_host = (h', r) /\ rtc moves (initial empty_view) kv' /\ host_repr h' kv' /\
  ((r = Ok tt /\ host_inbox h' = []) \/ truncated r).
Proof.
  apply (run_drains_inbox 3 busy_host (initial empty_view));
    [apply new_host_repr|exact busy_fits|cbn; lia].
Defined.

(** An unshield that nobody could prove, with a recipient of 512 accents. *)
Definition stop_req : KernelUnshieldReq := {|
  kur_root := felt_n 0; kur_nullifiers := replicate 33 (felt_n 0); kur_v_pub := 10; kur_fee := 0;
  kur_recipient := accents 512; kur_cm_change := felt_n 0; kur_enc_change := None;
  kur_cm_fee := felt_n 0; kur_enc_fee := sample_enc;
  kur_proof := {| ksp_proof_bytes := []; ksp_output_preimage := [] |} |}.

Definition stop_payload : bytes :=
  match encode_kernel_inbox_message (KIUnshield stop_req) with Ok b => b | _ => [] end.

Definition stop_pointer : KernelDalPayloadPointer := {|
  kdp_kind := KDShield;
  kdp_chunks := [{| kdc_published_level := 7; kdc_slot_index := 1;
                    kdc_payload_len := N.of_nat (length stop_payload) |}];
  kdp_payload_len := N.of_nat (length stop_payload); kdp_payload_hash := hash stop_payload |}.

Definition stop_input : InputMessage := {|
  im_level := 3; im_id := 0;
  im_payload := match encode_kernel_inbox_message (KIDalPointer stop_pointer) with Ok b => b | _ => [] end |}.

Definition stop_host : ToyHost := {|
  th_store := ∅; th_outbox := []; th_inbox := [stop_input; sample_input];
  th_params := {| dal_number_of_slots := 4; dal_attestation_lag := 8; dal_slot_size := 16384;
                  dal_page_size := 1024 |};
  th_page := fun i => default [] (chunks 1024 (padded 1024 stop_payload) !! N.to_nat i) |}.

Lemma stop_host_repr : host_repr stop_host (initial empty_view).
Proof. right. split; [intros k _ _; apply lookup_empty|done]. Qed.

Lemma stop_cut : cut_inside (length (str_bytes (mismatch_head KDShield stop_req))) 512.
Proof.
  split; [apply Nat.leb_le; vm_compute; reflexivity|].
  split; [vm_compute; reflexivity|apply Nat.ltb_lt; vm_compute; reflexivity].
Qed.

Lemma stop_decoded : decode_kernel_inbox_message stop_payload = Ok (KIUnshield stop_req).
Proof. apply inbox_codec; [by split|reflexivity]. Qed.

Lemma mismatched_pointer_stops_kernel_witness : exists h' w,
  run_with_host 3 stop_host = (h', Panic w) /\ host_repr h' (initial empty_view) /\
  host_inbox h' = [sample_input].
Proof.
  change [sample_input] with (host_inbox (fst (host_next_input stop_host))).
  apply (mismatched_pointer_stops_kernel 2 stop_host (initial empty_view) stop_input stop_pointer
           stop_payload stop_req 512).
  - exact stop_host_repr.
  - reflexivity.
  - vm_compute. reflexivity.
  - vm_compute. reflexivity.
  - exact stop_decoded.
  - discriminate.
  - reflexivity.
  - exact stop_cut.
Defined.

(** How the run ends. *)
Lemma busy_run : exists h' r kv', run_with_host 3 busy_host = (h', r) /\ host_repr h' kv'.
Proof.
  assert (length (host_inbox busy_host) < 3)%nat as Hlen by (cbn; lia).
  destruct (run_ok 3 busy_host (initial empty_view) (new_host_repr _) busy_fits Hlen)
    as (h' & r & kv' & E & _ & Hr & _). by exists h', r, kv'.
Qed.

Lemma busy_short : (length (host_inbox busy_host) < 3)%nat.
Proof. cbn. lia. Qed.

Lemma run_pays_withdrawals_witness : exists h' r kv' ws outs,
  run_with_host 3 busy_host = (h', r) /\ host_repr h' kv' /\
  v_withdrawals (kv_ledger kv') = v_withdrawals (kv_ledger (initial empty_view)) ++ ws /\
  host_outbox h' = host_outbox busy_host ++ outs /\
  Forall2 (fun w out => exists t, kv_ticketer kv' = Some t /\ pays t w out) ws outs.
Proof.
  destruct busy_run as (h' & r & _ & E & _).
  destruct (run_pays_withdrawals 3 busy_host h' r (initial empty_view) (new_host_repr _) busy_fits
    busy_short E) as (kv' & ws & outs & Hr & Hw).
  exists h', r, kv', ws, outs. split; [exact E|]. split; [exact Hr|exact Hw].
Defined.

Lemma run_only_grows_witness : exists h' r kv',
  run_with_host 3 busy_host = (h', r) /\ host_repr h' kv' /\
  grows (initial empty_view) kv' /\ (kv_inv (initial empty_view) -> kv_inv kv') /\
  (kv_verifier kv' = None ->
     kv_ledger kv' = kv_ledger (initial empty_view) /\ host_outbox h' = host_outbox busy_host).
Proof.
  destruct busy_run as (h' & r & kv' & E & Hr).
  exists h', r, kv'. split; [exact E|]. split; [exact Hr|].
  exact (run_only_grows 3 busy_host h' r (initial empty_view) kv' (new_host_repr _) busy_fits
    busy_short E Hr).
Defined.
