(* ===== verification/WalletNodeWitness.v ===== *)
(** * WalletNodeWitness: the wallet's reads at a concrete node

    A node that serves the store of a kernel with one funded pool and one published note:
    values as hexadecimal text and lengths as little-endian numbers, in a toy of JSON.
    The theorems on the node client and on synchronisation are applied to it, and a spend
    is run against it, before and after an old wallet file is put back. *)

From S2P Require Import Prelude Felt Externals Concrete Types Recipients Hashing Binding Merkle Notes.
From S2P Require Import CanonicalWire KernelWire ConcreteWire Store StoreKeys Durable DurableCells DurableRepr DurableOps.
From S2P Require Import DurableLedger Outputs Ledger LedgerSpec LedgerWitness Bds Wallet WalletSelect WalletScan.
From S2P Require Import WalletScanFacts.
From S2P Require Import OperatorApi WalletRpc WalletRpcFacts WalletSync WalletSyncFacts WalletKeys WalletCommands WalletKeyUse.
From S2P Require KernelWitness WalletWitness WalletSpend.

Local Open Scope N_scope.

#[local] Opaque DEPTH.

#[local] Existing Instances toy_blake2s toy_contracts toy_hex toy_hex_laws toy_aead host_target toy_wire.
#[local] Existing Instances WalletWitness.sized_kem WalletWitness.sized_kem_laws WalletWitness.sized_import
  WalletWitness.sized_import_laws.
#[local] Existing Instances KernelWitness.host_words KernelWitness.toy_published KernelWitness.toy_host
  KernelWitness.toy_host_laws.

#[local] Instance toy_digits : HexDigits.
Proof.
  constructor. intros b. induction b as [|x b IH]; [done|].
  assert (forall n, n < 16 -> is_ascii_hexdigit (toy_hex_digit n) = true) as Hd.
  { intros n Hn. assert (exists k : nat, n = N.of_nat k /\ (k < 16)%nat) as (k & -> & Hk)
      by (exists (N.to_nat n); lia).
    do 16 (destruct k as [|k]; [reflexivity|]). lia. }
  pose proof (byte_to_N_bound x) as Hx.
  change (hex_encode (x :: b)) with
    (toy_hex_digit (Byte.to_N x / 16) :: toy_hex_digit (Byte.to_N x mod 16) :: hex_encode b).
  cbn [forallb]. rewrite IH, !Hd by (apply N.mod_lt || apply N.Div0.div_lt_upper_bound; lia). done.
Qed.

(** ** The node *)

Definition node_url : bytes := str_bytes "http://node/".
Definition node_block : bytes := str_bytes "BLock".

(** One published note above the funded pool. *)
Definition published : DurableLedgerState KernelWitness.ToyHost :=
  fst (d_append_note (felt_n 20) sample_enc KernelWitness.funded).

Definition published_view : View := with_notes [(felt_n 20, sample_enc)] KernelWitness.funded_view.

Lemma published_repr : repr (get published) published_view.
Proof.
  destruct (append_note_ok KernelWitness.funded KernelWitness.funded_view (felt_n 20) sample_enc
    KernelWitness.funded_repr compute_zero_hashes_ok sample_enc_shape) as (s' & E & Hs').
  - reflexivity.
  - change (view_size KernelWitness.funded_view) with (view_size empty_view).
    by apply (KernelWitness.fits_small 1).
  - unfold published. rewrite E. apply Hs'.
Qed.

Definition node_store (key : bytes) : option bytes :=
  KernelWitness.th_store (dl_host published) !! key.

Lemma small_values (m : gmap bytes bytes) :
  forallb (fun p : bytes * bytes => N.of_nat (length p.2) <? U32_LIMIT) (map_to_list m) = true ->
  forall key b, m !! key = Some b -> is_u32 (N.of_nat (length b)).
Proof.
  intros Hall key b Hk%elem_of_map_to_list%list_elem_of_In.
  by apply (proj1 (forallb_forall _ _) Hall), N.ltb_lt in Hk.
Qed.

Lemma published_small :
  forallb (fun p : bytes * bytes => N.of_nat (length p.2) <? U32_LIMIT)
    (map_to_list (KernelWitness.th_store (dl_host published))) = true.
Proof. vm_compute. reflexivity. Qed.

Lemma node_store_small key b : node_store key = Some b -> is_u32 (N.of_nat (length b)).
Proof. exact (small_values _ published_small key b). Qed.

#[local] Opaque node_store.

(** A value, a length, the level or the head's hash. *)
Definition node_answer (u : bytes) : option bytes :=
  match strip_prefix (block_durable_value_url node_url node_block []) u with
  | Some key => hex_encode <$> node_store key
  | None =>
      match strip_prefix (block_durable_length_url node_url node_block []) u with
      | Some key => (fun b => u64_le (N.of_nat (length b))) <$> node_store key
      | None =>
          if decide (u = block_level_url node_url node_block) then Some (str_bytes "100")
          else if decide (u = head_hash_url node_url) then Some node_block else None
      end
  end.

#[local] Instance toy_http : HttpClients := {|
  ureq_get := fun u =>
    match node_answer u with Some t => UreqResponse (Ok t) | None => UreqStatus 404 "not found" end;
  reqwest_get := fun u =>
    match node_answer u with Some t => ReqwestResponse 200 (Ok t) | None => ReqwestResponse 404 (Ok []) end
|}.

#[local] Instance toy_json : Json := {|
  json_value := fun t => Ok (JNumber (Some (le_val t)));
  json_string := Some;
  json_i32 := fun t => match parse_i32_text t with Ok n => Some n | _ => None end
|}.

Lemma value_url key :
  block_durable_value_url node_url node_block key = block_durable_value_url node_url node_block [] ++ key.
Proof. reflexivity. Qed.

Lemma length_url key :
  block_durable_length_url node_url node_block key = block_durable_length_url node_url node_block [] ++ key.
Proof. reflexivity. Qed.

Lemma answer_value key :
  node_answer (block_durable_value_url node_url node_block key) = hex_encode <$> node_store key.
Proof. unfold node_answer. by rewrite (value_url key), strip_prefix_app. Qed.

Lemma answer_length key :
  node_answer (block_durable_length_url node_url node_block key) =
  (fun b => u64_le (N.of_nat (length b))) <$> node_store key.
Proof.
  unfold node_answer. rewrite (length_url key).
  assert (strip_prefix (block_durable_value_url node_url node_block [])
    (block_durable_length_url node_url node_block [] ++ key) = None) as -> by reflexivity.
  by rewrite strip_prefix_app.
Qed.

Lemma node_length key :
  (exists raw, ureq_get (block_durable_length_url node_url node_block key) = UreqResponse (Ok raw) /\
     reqwest_get (block_durable_length_url node_url node_block key) = ReqwestResponse 200 (Ok raw) /\
     length_text raw ((fun b => N.of_nat (length b)) <$> node_store key)) \/
  (node_store key = None /\ exists e body,
     ureq_get (block_durable_length_url node_url node_block key) = UreqStatus 404 e /\
     reqwest_get (block_durable_length_url node_url node_block key) = ReqwestResponse 404 body).
Proof.
  cbn [ureq_get reqwest_get toy_http]. rewrite answer_length.
  pose proof (node_store_small key) as Hsmall. destruct (node_store key) as [b|]; [left|right].
  - exists (u64_le (N.of_nat (length b))). split; [reflexivity|]. split; [reflexivity|]. left.
    cbn [json_value toy_json]. rewrite le_val_u64; [reflexivity|].
    apply (N.lt_trans _ U32_LIMIT _ (Hsmall b eq_refl)). reflexivity.
  - split; [reflexivity|]. eexists _, _. split; reflexivity.
Qed.

Lemma node_value key b : node_store key = Some b -> exists raw,
  ureq_get (block_durable_value_url node_url node_block key) = UreqResponse (Ok raw) /\
  reqwest_get (block_durable_value_url node_url node_block key) = ReqwestResponse 200 (Ok raw) /\
  json_string (trim raw) = Some (hex_encode b).
Proof.
  intros Hk. cbn [ureq_get reqwest_get toy_http]. rewrite answer_value, Hk.
  exists (hex_encode b). split; [reflexivity|]. split; [reflexivity|]. cbn [json_string toy_json].
  f_equal. apply trim_hex, hex_encode_digits.
Qed.

Lemma node_level : exists raw,
  ureq_get (block_level_url node_url node_block) = UreqResponse (Ok raw) /\ json_i32 raw = Some 100%Z.
Proof. exists (str_bytes "100"). split; vm_compute; reflexivity. Qed.

Lemma node_serves : serves node_url node_block node_store 100.
Proof. exact (Build_serves _ _ _ _ node_length node_value node_store_small node_level). Qed.

Lemma no_level k :
  k = KCell CLastInputLevel \/ k = KCell CFeeLevel -> cells node_store k = None.
Proof. intros [-> | ->]; vm_compute; reflexivity. Qed.

Lemma node_levels : levels_stored node_store.
Proof. intros k b Hk Hb. rewrite (no_level k Hk) in Hb. discriminate. Qed.

(** ** The theorems there *)

Lemma concurrent_fetch_correct_witness :
  driver_outcome (fetch_one_published_note node_url node_block) [0]
    (fetch_published_notes_concurrent (fetch_one_published_note node_url node_block) [0] 2 (fun n => n))
    (fun payloads => Forall2 (fun i p => fetch_one_published_note node_url node_block i = Ok p) [0] payloads).
Proof. apply (concurrent_fetch_correct (fetch_one_published_note node_url node_block) [0] 2 (fun n => n)). lia. Defined.

Lemma published_size : view_size published_view < usize_limit.
Proof.
  unfold view_size. cbn [published_view with_notes v_notes v_nullifiers v_roots v_withdrawals
    KernelWitness.funded_view with_balances empty_view].
  rewrite size_singleton, size_empty. apply N.ltb_lt. reflexivity.
Qed.

Definition own_pending : PendingDeposit :=
  {| pd_pubkey_hash := pool_key; pd_blind := ZERO; pd_address_index := 0; pd_auth_domain := felt_n 9;
     pd_amount := 5; pd_operation_hash := None; pd_shielded_cm := None |}.

Lemma snapshot_is_view_witness : exists snapshot nullifiers pools,
  load_state_snapshot_at_block node_url (Ok 2%nat) (fun n => n) node_block = Ok snapshot /\
  load_nullifiers_at_block node_url node_block = Ok nullifiers /\
  load_pool_balances_at_block node_url node_block ∅ [own_pending] = Ok pools /\
  ss_notes snapshot = memos 0 [(felt_n 20, sample_enc)] /\
  current_root snapshot = v_root published_view /\ pools !! pool_key = Some 1000000.
Proof.
  destruct (snapshot_is_view node_url node_block node_store 100 node_serves published_view 2 (fun n => n)
    [own_pending] published_repr node_levels ltac:(lia) published_size)
    as (snapshot & nfs & pools & Es & En & Ep & _ & Hn & Hr & _ & _ & _ & _ & Hp).
  exists snapshot, nfs, pools. split; [exact Es|]. split; [exact En|]. split; [exact Ep|].
  split; [exact Hn|]. split; [exact Hr|].
  refine (eq_trans (Hp own_pending (list_elem_of_here _ _)) _). apply lookup_insert_eq.
Defined.

Definition sync_env : SyncEnv := {|
  se_url := node_url; se_concurrency := Ok 2%nat; se_fetcher := Ok tt; se_schedule := fun _ n => n;
  se_save := fun _ => SaveDone; se_sentinel := fun _ => SentinelAbsent |}.

Lemma sync_is_one_scan_witness : exists s reached summary yielded,
  sync_loaded sync_env 1
    {| sy_wallet := WalletWitness.empty_wallet;
       sy_disk := {| dk_wallet := WalletWitness.empty_wallet; dk_floor := None |};
       sy_total_found := 0; sy_seen_cms := []; sy_saves := 0 |} = (s, Ok (summary, yielded)) /\
  dk_wallet (sy_disk s) = sy_wallet s /\ 0 <= reached <= 1.
Proof.
  destruct (sync_is_one_scan sync_env node_block node_store 100 published_view node_serves published_repr
    published_size (fun _ => eq_refl) (fun _ e => ltac:(discriminate)) 2 1 WalletWitness.empty_wallet
    {| dk_wallet := WalletWitness.empty_wallet; dk_floor := None |} 0 eq_refl ltac:(lia) eq_refl
    ltac:(lia)) as (s & reached & summary & yielded & nfs & pools & w' & E & _ & Hw & Hd & _ & _ & Hy).
  - vm_compute. reflexivity.
  - vm_compute. discriminate.
  - exists s, reached, summary, yielded. split; [exact E|]. split; [by rewrite Hd, Hw|].
    change (N.of_nat (length (v_notes published_view))) with 1 in Hy.
    destruct yielded; [|lia]. destruct Hy as [_ Hy]. split; [lia|exact Hy].
Defined.

(** *** Commands

    The wallet spends its one note exactly, so no change address is made, and one key
    signs.  The prover is called and fails, the key is burned. *)

#[local] Opaque WalletWitness.one_address WalletWitness.own.

Definition rich_note : Note :=
  note_for WalletWitness.one_address WalletWitness.own 100051 (felt_n 1) (felt_n 20) 0.
Definition rich : WalletFile := wf_with_notes [rich_note] WalletWitness.one_address.

Lemma rich_ok :
  wallet_ok rich /\ wf_addr_counter rich = 1 /\ next_unused rich 0 = 0 /\ wf_pending_spends rich = [].
Proof.
  destruct WalletWitness.one_address_ok as (Hw & Hc & _ & Hp & Hn).
  split; [by apply (wallet_ok_notes WalletWitness.one_address [rich_note])|by split].
Qed.

Definition spend_env (ld : LoadEnv) : CmdEnv := {|
  ce_url := node_url; ce_rollup_address := "sr1"; ce_bridge_ticketer := "KT1";
  ce_source_alias := "alice"; ce_burn_cap := "1"; ce_dal_fee := 1;
  ce_dal_fee_address := own_address WalletWitness.one_address WalletWitness.own;
  ce_concurrency := Ok 2%nat; ce_schedule := fun n => n;
  ce_random := fun _ => WalletWitness.sample_randomness;
  ce_prover := {| pc_skip_proof := false; pc_prove := fun _ _ => Err "prover failed" |};
  ce_submit := fun _ => Ok None; ce_octez := fun _ => Ok [];
  ce_save := fun _ => SaveDone; ce_rebuild_trapped := false; ce_load := ld |}.

Lemma select_only (w : WalletFile) n total :
  wf_notes w = [n] -> wf_pending_spends w = [] -> total <= note_v n -> select_notes w total = Ok [0%nat].
Proof.
  intros Hn Hp Ht. assert (choice w [0%nat]) as Hc.
  { split; [apply NoDup_singleton|]. intros i ->%list_elem_of_singleton. exists n. rewrite Hn. split; [done|].
    unfold available, pending_nullifier_set. rewrite Hp. apply not_elem_of_empty. }
  pose proof (select_notes_spec w total) as Hs. destruct (select_notes w total) as [sel|e|e]; [| |done].
  - destruct Hs as ([Hd Hin] & Hne & _). f_equal.
    assert (forall i, i ∈ sel -> i = 0%nat) as H0.
    { intros i Hi. destruct (Hin i Hi) as (m & Hm & _). rewrite Hn in Hm. by destruct i. }
    destruct sel as [|i [|j sel]]; [done| |].
    + by rewrite (H0 i) by left.
    + apply NoDup_cons in Hd as [Hd _]. destruct Hd. rewrite (H0 i), (H0 j) by set_solver. left.
  - specialize (Hs [0%nat] Hc ltac:(done)). unfold chosen_sum, value_at in Hs. rewrite Hn in Hs.
    cbn in Hs. lia.
Qed.

(** One key signs. *)
Lemma sign_only (w : WalletFile) snapshot sighash siblings :
  wallet_ok w -> is_Some (wf_addresses w !! 0%nat) -> next_unused w 0 < AUTH_TREE_SIZE ->
  wf_master_sk w = wf_master_sk WalletWitness.one_address ->
  merkle_path snapshot 0 = Ok {| mp_siblings := siblings; mp_root := current_root snapshot |} ->
  exists w' i, sign_inputs snapshot (current_root snapshot) sighash [rich_note] w = (w', Ok [i]) /\
    signed_keys [i] = [(0, next_unused w 0)] /\ next_unused w' 0 = next_unused w 0 + 1 /\
    wallet_ok w' /\ wf_master_sk w' = wf_master_sk w /\ wf_addr_counter w' = wf_addr_counter w.
Proof.
  intros Hw [st Hst] Hlt Hm Hp.
  destruct (proj1 WalletWitness.one_address_ok) as [[Ha _ _] _].
  destruct (Ha _ _ WalletWitness.own_lookup) as [Eown _]. change (N.of_nat 0) with 0 in Eown.
  assert (note_addr_index rich_note = 0) as Ej by (unfold rich_note; by rewrite Eown).
  assert (note_auth_root rich_note = root_of w 0) as Er.
  { unfold rich_note. rewrite Eown. cbn [note_for note_auth_root wa_auth_root address_for].
    unfold root_of, ask_of, account. by rewrite Hm. }
  destruct (reserve_ok w 0 st Hw Hst Hlt) as (bds & path & E & _ & Hk & Hn).
  destruct (reserved_ok w 0 st bds Hw Hst Hk) as (Hw' & Hs & Hc & _ & Hx).
  assert (exists i, sign_input snapshot (current_root snapshot) sighash rich_note w =
    (reserved w 0 bds, Ok i) /\ si_note i = rich_note /\ si_key_idx i = next_unused w 0)
    as (i & Ei & Ni & Ki).
  { unfold sign_input. rewrite Ej, Er. change (Types.note_index rich_note) with 0. cbv zeta.
    rewrite (ST_run_lift _ _ _ _ Hp). cbv beta.
    rewrite (ST_run_lift _ _ _ tt) by (unfold ensure_path_matches_root; by rewrite bool_decide_eq_true_2).
    erewrite ST_run by reflexivity. cbv beta. rewrite (ST_run _ _ _ _ _ E). cbv beta iota.
    rewrite (ST_run_lift _ _ _ tt) by by rewrite bool_decide_eq_true_2.
    destruct (Wots.wots_sign _ _ _) as [[sig pk] digits]. by eexists. }
  exists (reserved w 0 bds), i. split; [cbn [sign_inputs]; by rewrite (ST_run _ _ _ _ _ Ei)|].
  unfold signed_keys. cbn [fmap list_fmap]. rewrite Ni, Ki, Ej. split; [done|].
  split; [by rewrite Hx, decide_True by done; rewrite Hn|]. split; [done|]. split; [apply Hs|done].
Qed.

Lemma run_reads {A B} (f : WalletFile -> result A) (k : A -> ST CmdState B) s a :
  f (cs_wallet s) = Ok a -> (on_wallet (reads f) ≫= k) s = k a s.
Proof. intros E. by rewrite ST_bind_eq, on_wallet_reads, E. Qed.

(** The whole spend, from a loaded wallet: the key is burned on disk, and given to the
    prover. *)
Lemma unshield_signs ld (w : WalletFile) d tr snapshot siblings :
  wallet_ok w -> is_Some (wf_addresses w !! 0%nat) -> next_unused w 0 < AUTH_TREE_SIZE ->
  wf_master_sk w = wf_master_sk WalletWitness.one_address -> wf_notes w = [rich_note] ->
  wf_pending_spends w = [] ->
  merkle_path snapshot 0 = Ok {| mp_siblings := siblings; mp_root := current_root snapshot |} ->
  exists w' args,
    unshield_loaded (spend_env ld) snapshot "tz1" 50 100000
      {| cs_wallet := w; cs_disk := d; cs_saves := 0; cs_trace := tr |} =
    ({| cs_wallet := w'; cs_disk := {| dk_wallet := w'; dk_floor := Some (wallet_xmss_floor w') |};
        cs_saves := 1; cs_trace := tr ++ [Proved "run_unshield" args [(0, next_unused w 0)]] |},
     Err "prover failed") /\
    next_unused w' 0 = next_unused w 0 + 1 /\ wallet_ok w' /\ wf_master_sk w' = wf_master_sk w /\
    wf_addr_counter w' = wf_addr_counter w.
Proof.
  intros Hw Hst Hlt Hm Hn Hs Hp. unfold unshield_loaded. cbv zeta.
  erewrite run_reads by reflexivity. cbv beta.
  rewrite (ST_run_lift _ _ _ 100051 eq_refl). cbv beta.
  rewrite (run_reads _ _ _ [0%nat]) by (apply (select_only w rich_note); done || reflexivity). cbv beta.
  rewrite (run_reads _ _ _ [rich_note]) by (cbn [cs_wallet]; unfold selected_notes, index_at; by rewrite Hn).
  cbv beta.
  change (change_of [rich_note] 50 100000 (ce_dal_fee (spend_env ld))) with 0. cbn [N.ltb N.compare].
  erewrite ST_run by reflexivity. cbv beta.
  destruct (WalletSpend.build_note_ok WalletWitness.sample_randomness
    (own_address WalletWitness.one_address WalletWitness.own) 1 dal_memo
    (acc_outgoing_seed (account w)) ProducerFee) as (on & Eon & _);
    [apply WalletSpend.valid_own|reflexivity|].
  erewrite ST_run by (unfold lift; cbn [cs_wallet ce_random ce_dal_fee ce_dal_fee_address spend_env];
    rewrite Eon; reflexivity). cbv beta.
  set (sighash := unshield_sighash _ _ _ _ _ _ _ _ _ _).
  destruct (sign_only w snapshot sighash siblings Hw Hst Hlt Hm Hp) as (w' & i & Ei & Ek & Hx & Hw' & Hm' & Hc).
  erewrite ST_run by (unfold on_wallet; cbn [cs_wallet]; rewrite Ei; reflexivity). cbv beta.
  rewrite Ek. cbn [cs_disk cs_saves cs_trace].
  eexists w', _. split; [|done]. reflexivity.
Qed.

Lemma node_snapshot : exists snapshot siblings,
  load_state_snapshot_at_head node_url (Ok 2%nat) (fun n => n) = Ok snapshot /\
  ss_required_tx_fee snapshot = 100000 /\
  merkle_path snapshot 0 = Ok {| mp_siblings := siblings; mp_root := current_root snapshot |}.
Proof.
  destruct (served_view node_url node_block node_store 100 node_serves published_view 2 (fun n => n)
    [] published_repr node_levels ltac:(lia) published_size)
    as (snapshot & nfs & pools & Es & _ & _ & _ & _ & Hr & Hf & Hp & _).
  destruct (Hp 0%nat (felt_n 20, sample_enc) eq_refl) as (siblings & Ep & _).
  exists snapshot, siblings. split.
  - unfold load_state_snapshot_at_head.
    assert (head_hash node_url = Ok node_block) as -> by (vm_compute; reflexivity). exact Es.
  - rewrite Hf, Hr. split; [vm_compute; reflexivity|exact Ep].
Qed.

Definition spend_event (ld : LoadEnv) : Event :=
  EUnshield (spend_env ld) 50 (Some 100000) (Some "tz1"%string).

(** The command up to the load. *)
Lemma spend_loads ld o : exists snapshot siblings,
  merkle_path snapshot 0 = Ok {| mp_siblings := siblings; mp_root := current_root snapshot |} /\
  run_event (spend_event ld) o =
    fst (with_wallet (spend_env ld) (unshield_loaded (spend_env ld) snapshot "tz1" 50 100000) o).
Proof.
  destruct node_snapshot as (snapshot & siblings & Es & Hf & Hp). exists snapshot, siblings.
  split; [exact Hp|]. cbn [run_event spend_event]. unfold cmd_unshield_rollup.
  assert (resolve_rollup_unshield_recipient (spend_env ld) (Some "tz1"%string) = Ok "tz1"%string) as Er
    by reflexivity.
  rewrite ST_bind_eq. unfold lift at 1. rewrite Er. cbv beta iota.
  cbn [ce_url ce_concurrency ce_schedule ce_dal_fee spend_env].
  apply (f_equal fst). rewrite ST_bind_eq. unfold lift at 1. rewrite Es. cbv beta iota. rewrite Hf.
  rewrite ST_bind_eq. unfold lift at 1.
  change (resolve_requested_tx_fee (Some 100000) 100000) with (Ok (A := N) 100000). cbv beta iota.
  rewrite ST_bind_eq. reflexivity.
Qed.

Lemma spend_refused ld o e :
  load_wallet_files false ld (wo_disk o) = Err e -> run_event (spend_event ld) o = o.
Proof.
  intros E. destruct (spend_loads ld o) as (snapshot & siblings & _ & ->).
  unfold with_wallet. cbn [ce_rebuild_trapped ce_load spend_env]. by rewrite E.
Qed.

(** The old file, loaded without a floor. *)
Lemma rich_loads ld d :
  dk_wallet d = rich -> ld_wallet_error ld = None -> floor_read ld d = None -> exists w,
    load_wallet_files false ld d = Ok w /\ wallet_ok w /\ is_Some (wf_addresses w !! 0%nat) /\
    next_unused w 0 = 0 /\ wf_master_sk w = wf_master_sk rich /\ wf_notes w = [rich_note] /\
    wf_pending_spends w = [] /\ wf_addr_counter w = 1.
Proof.
  intros Hd He Hf. destruct rich_ok as (Hw & Hc & Hn & Hp).
  destruct (materialize_ok _ (wo_file _ Hw)) as (w & E & Hw' & Hs & Hx & Hl & Hc'). exists w.
  split; [unfold load_wallet_files; rewrite He, Hf, Hd; unfold load_wallet;
    cbn [enforce_wallet_xmss_floor mret result_ret mbind result_bind]; by rewrite E|].
  split; [done|]. split.
  { apply lookup_lt_is_Some. unfold addresses_len in Hl. lia. }
  split; [by rewrite Hx|]. split; [apply Hs|]. split; [by rewrite (sb_notes _ _ Hs)|].
  split; [by rewrite (sb_spends _ _ Hs)|by rewrite Hc'].
Qed.

Lemma spend_signs ld o :
  dk_wallet (wo_disk o) = rich -> ld_wallet_error ld = None -> floor_read ld (wo_disk o) = None ->
  exists w' args, run_event (spend_event ld) o =
    {| wo_disk := {| dk_wallet := w'; dk_floor := Some (wallet_xmss_floor w') |};
       wo_trace := wo_trace o ++ [Proved "run_unshield" args [(0, 0)]] |} /\
    next_unused w' 0 = 1 /\ wallet_ok w' /\ wf_master_sk w' = wf_master_sk rich.
Proof.
  intros Hd He Hf. destruct (rich_loads ld _ Hd He Hf) as (w & El & Hw & Hst & Hx & Hm & Hn & Hp & Hc).
  destruct (spend_loads ld o) as (snapshot & siblings & Hpath & ->).
  unfold with_wallet. cbn [ce_rebuild_trapped ce_load spend_env]. rewrite El.
  destruct (unshield_signs ld w (wo_disk o) (wo_trace o) snapshot siblings) as (w' & args & Er & Hx' & Hw' & Hm' & _);
    [done|done|rewrite Hx; exact WalletWitness.first_key|exact Hm|done|done|done|].
  rewrite Hx in Er, Hx'. rewrite Er. exists w', args. split; [reflexivity|].
  split; [done|]. split; [done|congruence].
Qed.

(** *** The old file put back *)

Definition start_world : World :=
  {| wo_disk := {| dk_wallet := rich; dk_floor := None |}; wo_trace := [] |}.

Definition first_load : LoadEnv := {| ld_wallet_error := None; ld_floor_read := true; ld_entries := [] |}.

(** A spend, and the file as it was before put back over what the spend left. *)
Definition first_events : list Event := [spend_event first_load; ERestore rich].

Definition second_load (read : bool) : LoadEnv := {|
  ld_wallet_error := None; ld_floor_read := read;
  ld_entries :=
    match dk_floor (wo_disk (run_events first_events start_world)) with
    | Some fl => map_to_list (fl_wots_key_indices fl)
    | None => []
    end |}.

Definition spends (read : bool) : list Event := first_events ++ [spend_event (second_load read)].

Lemma first_run : exists w' args,
  run_events first_events start_world =
    {| wo_disk := {| dk_wallet := rich; dk_floor := Some (wallet_xmss_floor w') |};
       wo_trace := [Proved "run_unshield" args [(0, 0)]] |} /\
  next_unused w' 0 = 1 /\ wallet_ok w' /\ wf_master_sk w' = wf_master_sk rich.
Proof.
  destruct (spend_signs first_load start_world eq_refl eq_refl eq_refl) as (w' & args & E & Hx).
  exists w', args. split; [|exact Hx]. unfold run_events, first_events. cbn [foldl]. rewrite E. reflexivity.
Qed.

(** The floor is read: the second spend is refused, and the key signed once. *)
Lemma stale_file_refused : released (wo_trace (run_events (spends true) start_world)) = [(0, 0)].
Proof.
  destruct first_run as (w' & args & E & Hx & Hw' & Hm). unfold spends, run_events. rewrite foldl_app.
  fold (run_events first_events start_world). cbn [foldl].
  assert (exists e, load_wallet_files false (second_load true)
    (wo_disk (run_events first_events start_world)) = Err e) as [e Ee].
  { unfold load_wallet_files, floor_read, second_load. rewrite E.
    cbn [ld_wallet_error ld_floor_read ld_entries wo_disk dk_wallet dk_floor].
    destruct rich_ok as (Hr & _ & Hr0 & _).
    pose proof (load_wallet_spec w' rich (map_to_list (fl_wots_key_indices (wallet_xmss_floor w')))
      Hw' (wo_file _ Hr) (eq_sym Hm) (Permutation_refl _)) as Hl.
    clear E. revert Hl. generalize (load_wallet false rich (Some (wallet_xmss_floor w'))
      (map_to_list (fl_wots_key_indices (wallet_xmss_floor w')))). intros [w|e|e] Hl;
      [|exact (ex_intro _ e eq_refl)|by destruct Hl].
    destruct Hl as (_ & _ & _ & Hn & Hx'). specialize (Hx' 0). rewrite Hn, Hr0, Hx in Hx'. lia. }
  rewrite (spend_refused _ _ _ Ee), E. reflexivity.
Qed.

Lemma spends_admissible : history (wf_master_sk rich) false (spends true) start_world.
Proof.
  destruct rich_ok as (Hw & Hc & _). destruct first_run as (w' & args & E & _).
  assert (wf_addr_counter rich + 1 < U32_LIMIT) as Hlt by (rewrite Hc; reflexivity).
  split; [split; [reflexivity|split; [constructor; [discriminate|reflexivity]|exact Hlt]]|].
  split; [split; [apply (wo_file _ Hw)|reflexivity]|].
  split; [|exact I]. split; [reflexivity|].
  change (startable true (spend_env (second_load true)) (wo_disk (run_events first_events start_world))).
  split; [constructor; [|reflexivity]|by rewrite E].
  intros fl Hfl. cbn [ce_load spend_env second_load ld_entries]. by rewrite Hfl.
Qed.

Lemma no_key_signs_twice_witness :
  released (wo_trace (run_events (spends true) start_world)) = [(0, 0)] /\
  NoDup (released (wo_trace (run_events (spends true) start_world))) /\
  exists fl next, dk_floor (wo_disk (run_events (spends true) start_world)) = Some fl /\
    fl_wots_key_indices fl !! 0 = Some next /\ 0 < next.
Proof.
  split; [exact stale_file_refused|].
  destruct (no_key_signs_twice rich (spends true) (wo_file _ (proj1 rich_ok)) spends_admissible) as [Hd Hf].
  split; [exact Hd|]. apply Hf. fold start_world. rewrite stale_file_refused. left.
Defined.

(** The floor is there and cannot be read: the same key signs again. *)
Lemma unread_floor_reuses_key :
  is_Some (dk_floor (wo_disk (run_events first_events start_world))) /\
  released (wo_trace (run_events (spends false) start_world)) = [(0, 0); (0, 0)].
Proof.
  destruct first_run as (w' & args & E & _). split; [rewrite E; by eexists|].
  unfold spends, run_events. rewrite foldl_app. fold (run_events first_events start_world). cbn [foldl].
  destruct (spend_signs (second_load false) (run_events first_events start_world)) as (w2 & args2 & -> & _);
    [by rewrite E|done|done|]. rewrite E. reflexivity.
Qed.
