(* ===== verification/Operator.v ===== *)
(** * Operator: the rollup operator's submissions

    [services/tzel/src/bin/tzel_operator.rs]: a message handed to the operator goes to the
    rollup's inbox when it is small, and otherwise to the data-availability layer in
    chunks, each published in a slot, republished when it is not attested, and named by a
    pointer in the inbox once every chunk is.  A submission is a file; a reconciler
    advances the pending ones.  The answers of the DAL node, of the octez node, of
    [octez-client] and of the file system are arguments, indexed by the number of calls made
    before, so that they may change at any time; what leaves the operator and what it is
    told is kept as a trace. *)

From S2P Require Import Prelude Felt Externals Types Recipients Hashing Wots Notes CanonicalWire.
From S2P Require Import KernelWire OperatorApi.

Local Open Scope N_scope.

Definition show_Z (z : Z) : string := pretty z.

Definition NEWLINE : string := bytes_str [Byte.x0a].

(** [join("\n")]. *)
Fixpoint join_lines (l : list string) : string :=
  match l with
  | [] => ""
  | [s] => s
  | s :: l => s +:+ NEWLINE +:+ join_lines l
  end.

(** [str::contains]. *)
Fixpoint contains (p s : bytes) : bool :=
  bool_decide (is_Some (strip_prefix p s)) || match s with [] => false | _ :: s => contains p s end.

Definition to_ascii_lowercase (b : Byte.byte) : Byte.byte :=
  let n := Byte.to_N b in if (0x41 <=? n) && (n <=? 0x5A) then byte_of_N (n + 0x20) else b.

(** ** Data *)

Record StoredSubmission := {
  st_submission : RollupSubmission;
  st_payload : option bytes;
  st_chunk_attempts : list N
}.

#[export] Instance stored_eq_dec : EqDecision StoredSubmission.
Proof. solve_decision. Defined.

Definition st_with_submission (f : RollupSubmission -> RollupSubmission) (s : StoredSubmission)
    : StoredSubmission :=
  {| st_submission := f (st_submission s); st_payload := st_payload s;
     st_chunk_attempts := st_chunk_attempts s |}.
Definition st_with_attempts (l : list N) (s : StoredSubmission) : StoredSubmission :=
  {| st_submission := st_submission s; st_payload := st_payload s; st_chunk_attempts := l |}.

Record DalCryptoboxParametersResp := { dp_slot_size : N }.
Record DalProtocolParametersResp := {
  dp_number_of_slots : N;
  dp_cryptobox_parameters : DalCryptoboxParametersResp
}.
Record DalSlotPublishResp := { sp_commitment : string; sp_commitment_proof : string }.
Inductive DalSlotStatusResp :=
| StatusPlain (status : string)
| StatusDetailed (kind : string) (attestation_lag : option N).
Record BlockHeaderResp := { bh_level : Z }.

(** [serde_json] at the types the operator reads. *)
Class OperatorJson := {
  json_protocol_parameters : bytes -> result DalProtocolParametersResp;
  json_slot_publish : bytes -> result DalSlotPublishResp;
  json_slot_status : bytes -> result DalSlotStatusResp;
  json_block_header : bytes -> result BlockHeaderResp
}.

Record OperatorDalFeePolicy := {
  fp_amount : N;
  fp_incoming_seed : F;
  fp_address_index : N;
  fp_address : PaymentAddress
}.

Record OperatorViewAddressRecord := {
  va_index : N; va_d_j : F; va_auth_root : F; va_auth_pub_seed : F; va_nk_tag : F
}.

Inductive OperatorViewMaterial :=
| ViewMaterial (version : N) (incoming_seed : F) (addresses : list OperatorViewAddressRecord)
| DetectMaterial (version : N) (detect_root : F) (addr_count : N).

(** The counters are in the state. *)
Record OperatorConfig := {
  oc_source_alias : string;
  oc_bearer_token : string;
  oc_state_dir : string;
  oc_direct_max_message_bytes : N;
  oc_dal_max_chunk_bytes : option N;
  oc_octez_client_bin : string;
  oc_octez_client_dir : option string;
  oc_octez_node_endpoint : option string;
  oc_dal_node_endpoint : option string;
  oc_octez_protocol : option string;
  oc_dal_fee_policy : option OperatorDalFeePolicy;
  (** the environment's variables *)
  oc_var : string -> option string
}.

(** The answers to the call number [n]. *)
Record Outside := {
  ou_get : nat -> string -> UreqReply;
  ou_post : nat -> string -> bytes -> UreqReply;
  ou_octez : nat -> list string -> CommandOutput;
  (** [write_temp_payload]: the path *)
  ou_temp : nat -> result string;
  ou_now_millis : nat -> N;
  (** reading and parsing a file of the state directory, listing it, replacing a file: the
      error if it fails *)
  ou_read : nat -> result unit;
  ou_list : nat -> result unit;
  ou_write : nat -> result unit
}.

(** What the operator was told and what it sent. *)
Inductive OpEffect :=
| Posted (slot : N) (piece : bytes) (commitment proof : string)
| Committed (commitment proof : string) (slot : N) (output : bytes)
| Header (block : string) (level : Z)
| SlotStatus (level : Z) (slot : N) (status : string)
| Injected (contents : bytes).

Record OperatorState := {
  os_files : gmap string StoredSubmission;
  os_id_counter : N;
  os_slot_counter : N;
  os_calls : nat;
  os_trace : list OpEffect
}.

Definition MAX_DAL_CHUNK_ATTEMPTS : N := 8.
Definition MAX_WAITING_ATTESTATION_LEVEL_AGE : Z := 12.

Definition U16_LIMIT : N := 2 ^ 16.

(** [i32::saturating_sub]. *)
Definition saturating_sub_i32 (a b : Z) : Z := Z.max (- 2 ^ 31) (Z.min (2 ^ 31 - 1) (a - b)).

(** [paths.sort()]: names in one directory are ordered by their bytes. *)
Fixpoint bytes_leb (a b : bytes) : bool :=
  match a, b with
  | [], _ => true
  | _ :: _, [] => false
  | x :: a, y :: b =>
      if Byte.to_N x <? Byte.to_N y then true
      else if Byte.to_N y <? Byte.to_N x then false else bytes_leb a b
  end.

Definition file_name (id : string) : string := id +:+ ".json".

Fixpoint insert_path (id : string) (l : list string) : list string :=
  match l with
  | [] => [id]
  | x :: l =>
      if bytes_leb (str_bytes (file_name id)) (str_bytes (file_name x)) then id :: x :: l
      else x :: insert_path id l
  end.
Definition sort_paths (l : list string) : list string := foldr insert_path [] l.

Section Operator.
Context `{Blake2s, Hex, MlKem, Aead, WireCodecs, Target, RollupFrames, OperatorJson}.
Variables (config : OperatorConfig) (outside : Outside).

(** ** Calls of the outside *)

Definition with_calls (n : nat) (s : OperatorState) : OperatorState :=
  {| os_files := os_files s; os_id_counter := os_id_counter s; os_slot_counter := os_slot_counter s;
     os_calls := n; os_trace := os_trace s |}.

(** One call: its answer, read with the number of calls made before. *)
Definition ask {A} (f : nat -> result A) : ST OperatorState A := fun s =>
  (with_calls (S (os_calls s)) s, f (os_calls s)).

Definition tell (e : OpEffect) : ST OperatorState unit := writes (fun s =>
  {| os_files := os_files s; os_id_counter := os_id_counter s; os_slot_counter := os_slot_counter s;
     os_calls := os_calls s; os_trace := os_trace s ++ [e] |}).

Definition base (endpoint : string) : string := bytes_str (trim_slashes (str_bytes endpoint)).

(** [ureq::get(url).call()], then [read_json]. *)
Definition reply_json {A} (request_failed parse_failed : string) (parse : bytes -> result A)
    (reply : UreqReply) : result A :=
  match reply with
  | UreqResponse body => map_err (fun e => parse_failed +:+ e) (body ≫= parse)
  | UreqStatus _ e | UreqError e => Err (request_failed +:+ e)
  end.

Definition fetch_dal_protocol_parameters (endpoint : string) : ST OperatorState DalProtocolParametersResp :=
  let url := base endpoint +:+ "/protocol_parameters" in
  ask (fun n => reply_json "DAL protocol parameters request failed: " "parse DAL protocol parameters: "
    json_protocol_parameters (ou_get outside n url)).

(** The body is the payload as a JSON list of numbers. *)
Definition post_dal_slot (endpoint : string) (slot_index : N) (payload : bytes)
    : ST OperatorState DalSlotPublishResp :=
  let url := base endpoint +:+ "/slots?slot_index=" +:+ show_N slot_index +:+ "&padding=%00" in
  resp ← ask (fun n => reply_json "DAL slot publish request failed: " "parse DAL slot publish response: "
    json_slot_publish (ou_post outside n url payload));
  tell (Posted slot_index payload (sp_commitment resp) (sp_commitment_proof resp)) ;;
  mret resp.

(** [-d], [-E] and [-p] of [octez-client]. *)
Definition client_options : list string :=
  from_option (fun dir => ["-d"; dir]%string) [] (oc_octez_client_dir config) ++
  from_option (fun endpoint => ["-E"; endpoint]%string) [] (oc_octez_node_endpoint config) ++
  from_option (fun protocol => ["-p"; protocol]%string) [] (oc_octez_protocol config).

Definition run_client (args : list string) : ST OperatorState bytes :=
  ask (fun n => run_command_collect_output (ou_octez outside n args) (oc_octez_client_bin config)).

Definition publish_dal_commitment (commitment : string) (slot_index : N) (proof : string)
    : ST OperatorState bytes :=
  output ← run_client (client_options ++
    ["-w"; "1"; "publish"; "dal"; "commitment"; commitment; "from"; oc_source_alias config;
     "for"; "slot"; show_N slot_index; "with"; "proof"; proof]%string);
  tell (Committed commitment proof slot_index output) ;;
  mret output.

Definition inject_direct_message (contents : bytes) (wait_for_inclusion : bool) : ST OperatorState bytes :=
  payload_file ← ask (ou_temp outside);
  output ← run_client (client_options ++
    ["-w"; (if wait_for_inclusion then "1" else "none"); "send"; "smart"; "rollup"; "message";
     "bin:" +:+ payload_file; "from"; oc_source_alias config]%string);
  tell (Injected contents) ;;
  mret output.

Definition fetch_block_level (endpoint block_hash : string) : ST OperatorState Z :=
  let url := base endpoint +:+ "/chains/main/blocks/" +:+ block_hash +:+ "/header" in
  header ← ask (fun n => reply_json "block header request failed: " "parse block header: "
    json_block_header (ou_get outside n url));
  tell (Header block_hash (bh_level header)) ;;
  mret (bh_level header).

Definition fetch_head_level (endpoint : string) : ST OperatorState Z :=
  let url := base endpoint +:+ "/chains/main/blocks/head/header" in
  header ← ask (fun n => reply_json "block head header request failed: " "parse block head header: "
    json_block_header (ou_get outside n url));
  mret (bh_level header).

Definition fetch_dal_slot_status (endpoint : string) (published_level : Z) (slot_index : N)
    : ST OperatorState string :=
  let url := base endpoint +:+ "/levels/" +:+ show_Z published_level +:+ "/slots/" +:+
             show_N slot_index +:+ "/status" in
  status ← ask (fun n =>
    match ou_get outside n url with
    | UreqStatus 404 _ => Ok "waiting_attestation"
    | reply =>
        (fun parsed => match parsed with StatusPlain status => status | StatusDetailed kind _ => kind end) <$>
        reply_json "DAL slot status request failed: " "parse DAL slot status: " json_slot_status reply
    end);
  tell (SlotStatus published_level slot_index status) ;;
  mret status.

(** ** Submissions on disk *)

(** [align_chunk_attempts]: as many attempts as chunks. *)
Definition align_chunk_attempts (stored : StoredSubmission) : StoredSubmission :=
  st_with_attempts (resize (length (rs_dal_chunks (st_submission stored))) 1 (st_chunk_attempts stored)) stored.

Definition put_file (stored : StoredSubmission) (s : OperatorState) : OperatorState :=
  {| os_files := <[rs_id (st_submission stored) := stored]> (os_files s);
     os_id_counter := os_id_counter s; os_slot_counter := os_slot_counter s;
     os_calls := os_calls s; os_trace := os_trace s |}.

(** A temporary file is renamed onto the submission's: it is replaced or left. *)
Definition persist_submission (stored : StoredSubmission) : ST OperatorState unit :=
  let stored := align_chunk_attempts stored in
  let stored :=
    if decide (rs_status (st_submission stored) = SubmittedToL1) then
      {| st_submission := st_submission stored; st_payload := None;
         st_chunk_attempts := st_chunk_attempts stored |}
    else stored in
  ask (ou_write outside) ;;
  writes (put_file stored).

Definition load_stored_submission (id : string) : ST OperatorState StoredSubmission :=
  ask (ou_read outside) ;;
  stored ← reads (fun s => ok_or (os_files s !! id)
    ("read submission " +:+ id +:+ ": No such file or directory (os error 2)"));
  mret (align_chunk_attempts stored).

(** ** Publishing chunks *)

(** [fetch_add(1) % number_of_slots]. *)
Definition select_slot_index (number_of_slots : N) : ST OperatorState N :=
  counter ← reads (fun s => mret (os_slot_counter s));
  writes (fun s => {| os_files := os_files s; os_id_counter := os_id_counter s;
    os_slot_counter := wrapping_add_u64 counter 1; os_calls := os_calls s; os_trace := os_trace s |}) ;;
  lift (panic_unless (negb (number_of_slots =? 0))
    "attempt to calculate the remainder with a divisor of zero") ;;
  let slot := counter mod number_of_slots in
  lift (ok_or (if slot <? U16_LIMIT then Some slot else None)
    ("slot index " +:+ show_N slot +:+ " does not fit in u16")).

Definition is_slot_header_collision (err : string) : bool :=
  contains (str_bytes "already proposed") (to_ascii_lowercase <$> str_bytes err).

(** The outcome of a call as a value: [match ... { Ok(..) => .., Err(err) if .. => .. }]. *)
Definition attempt {A} (m : ST OperatorState A) : ST OperatorState (A + string) := fun s =>
  match m s with
  | (s, Ok a) => (s, Ok (inl a))
  | (s, Err e) => (s, Ok (inr e))
  | (s, Panic w) => (s, Panic w)
  end.

(** The loop over the slots; [fuel] is their number. *)
Fixpoint publish_in_slots (fuel : nat) (dal_node_endpoint octez_node_endpoint : string)
    (number_of_slots : N) (payload : bytes) (last_slot_error : option string)
    : ST OperatorState RollupDalChunk :=
  match fuel with
  | O => lift (Err (default "failed to publish DAL chunk: no free slot index available" last_slot_error))
  | S fuel =>
      slot_index ← select_slot_index number_of_slots;
      publish ← post_dal_slot dal_node_endpoint slot_index payload;
      outcome ← attempt (publish_dal_commitment (sp_commitment publish) slot_index
        (sp_commitment_proof publish));
      match outcome with
      | inr err =>
          if is_slot_header_collision err
          then publish_in_slots fuel dal_node_endpoint octez_node_endpoint number_of_slots payload (Some err)
          else lift (Err err)
      | inl output =>
          block_hash ← lift (ok_or (extract_block_hash output)
            ("missing block hash in dal commitment output: " +:+ bytes_str output));
          published_level ← fetch_block_level octez_node_endpoint block_hash;
          mret {| dc_slot_index := slot_index; dc_published_level := published_level;
                  dc_payload_len := N.of_nat (length payload); dc_commitment := sp_commitment publish;
                  dc_operation_hash := extract_operation_hash output |}
      end
  end.

Definition publish_dal_chunk_with_protocol (dal_node_endpoint octez_node_endpoint : string)
    (number_of_slots : N) (payload : bytes) : ST OperatorState RollupDalChunk :=
  publish_in_slots (N.to_nat number_of_slots) dal_node_endpoint octez_node_endpoint number_of_slots
    payload None.

Definition publish_dal_chunk (payload : bytes) : ST OperatorState RollupDalChunk :=
  dal_node_endpoint ← lift (ok_or (oc_dal_node_endpoint config) "DAL node endpoint is not configured");
  protocol ← fetch_dal_protocol_parameters dal_node_endpoint;
  lift (fail_if (dp_number_of_slots protocol =? 0) "DAL protocol reported zero slots") ;;
  octez_node_endpoint ← lift (ok_or (oc_octez_node_endpoint config)
    "octez node endpoint is required for DAL submissions");
  publish_dal_chunk_with_protocol dal_node_endpoint octez_node_endpoint (dp_number_of_slots protocol) payload.

Definition update_submission_commitment_summary (submission : RollupSubmission) : result RollupSubmission :=
  first ← ok_or (head (rs_dal_chunks submission)) "DAL submission unexpectedly produced zero chunks";
  mret {| rs_id := rs_id submission; rs_kind := rs_kind submission;
          rs_rollup_address := rs_rollup_address submission; rs_status := rs_status submission;
          rs_transport := rs_transport submission; rs_operation_hash := rs_operation_hash submission;
          rs_dal_chunks := rs_dal_chunks submission; rs_commitment := Some (dc_commitment first);
          rs_published_level := Some (dc_published_level first);
          rs_slot_index := Some (dc_slot_index first);
          rs_payload_hash := rs_payload_hash submission; rs_payload_len := rs_payload_len submission;
          rs_detail := rs_detail submission |}.

(** [iter().map(|chunk| chunk.payload_len).sum()], a [usize]. *)
Definition sum_lengths (l : list RollupDalChunk) : N :=
  foldr (fun c n => (dc_payload_len c + n) mod usize_limit) 0 l.

(** The chunks not published yet, one at a time, each recorded on disk. *)
Fixpoint publish_chunks (dal_node_endpoint octez_node_endpoint : string) (number_of_slots : N)
    (total_chunks : nat) (pieces : list bytes) (stored : StoredSubmission)
    : ST OperatorState StoredSubmission :=
  match pieces with
  | [] => mret stored
  | piece :: pieces =>
      published_chunk ← publish_dal_chunk_with_protocol dal_node_endpoint octez_node_endpoint
        number_of_slots piece;
      let stored := st_with_attempts (st_chunk_attempts stored ++ [1])
        (st_with_submission (fun sub => rs_with_chunks (rs_dal_chunks sub ++ [published_chunk]) sub) stored) in
      let stored := st_with_submission (rs_with_detail
        ("Published " +:+ show_nat (length (rs_dal_chunks (st_submission stored))) +:+ " / " +:+
         show_nat total_chunks +:+ " DAL chunk(s)")) stored in
      persist_submission stored ;;
      publish_chunks dal_node_endpoint octez_node_endpoint number_of_slots total_chunks pieces stored
  end.

Definition resume_pending_dal_submission (stored : StoredSubmission) : ST OperatorState StoredSubmission :=
  if decide (rs_transport (st_submission stored) <> TransportDal) then mret stored
  else
    dal_node_endpoint ← lift (ok_or (oc_dal_node_endpoint config) "DAL node endpoint is not configured");
    payload ← lift (ok_or (st_payload stored) "DAL submission payload is unavailable for publication");
    protocol ← fetch_dal_protocol_parameters dal_node_endpoint;
    lift (fail_if (dp_number_of_slots protocol =? 0) "DAL protocol reported zero slots") ;;
    let slot_size := dp_slot_size (dp_cryptobox_parameters protocol) in
    lift (fail_if (slot_size =? 0) "DAL protocol reported zero slot size") ;;
    octez_node_endpoint ← lift (ok_or (oc_octez_node_endpoint config)
      "octez node endpoint is required for DAL submissions");
    let chunk_size := from_option (fun value => N.min value slot_size) slot_size
      (oc_dal_max_chunk_bytes config) in
    lift (fail_if (chunk_size =? 0) "DAL chunk size must be greater than zero") ;;
    let already_published := sum_lengths (rs_dal_chunks (st_submission stored)) in
    lift (fail_if (N.of_nat (length payload) <? already_published)
      ("persisted DAL chunks exceed payload length: " +:+ show_N already_published +:+ " > " +:+
       show_nat (length payload))) ;;
    let total_chunks := div_ceil (length payload) (N.to_nat chunk_size) in
    stored ← publish_chunks dal_node_endpoint octez_node_endpoint (dp_number_of_slots protocol)
      total_chunks (chunks (N.to_nat chunk_size) (drop (N.to_nat already_published) payload)) stored;
    submission ← lift (update_submission_commitment_summary (st_submission stored));
    let submission := rs_with_operation_hash (last (rs_dal_chunks submission) ≫= dc_operation_hash) submission in
    let submission := rs_with_status CommitmentIncluded submission in
    mret (st_with_submission (fun _ => rs_with_detail
      ("Published " +:+ show_nat (length (rs_dal_chunks submission)) +:+
       " DAL chunk(s); waiting for attestation") submission) stored).

(** ** Advancing a submission *)

(** What the loop over the chunks collects: the lines shown, the chunks to republish with
    the reason, the chunks still waiting. *)
Record Statuses := {
  ss_lines : list string;
  ss_retry : list (nat * string);
  ss_waiting : list nat
}.

Fixpoint chunk_statuses (dal_node_endpoint : string) (idx : nat) (l : list RollupDalChunk) (acc : Statuses)
    : ST OperatorState Statuses :=
  match l with
  | [] => mret acc
  | chunk :: l =>
      status ← fetch_dal_slot_status dal_node_endpoint (dc_published_level chunk) (dc_slot_index chunk);
      let line := "chunk[" +:+ show_nat idx +:+ "] slot " +:+ show_N (dc_slot_index chunk) +:+
        " at level " +:+ show_Z (dc_published_level chunk) +:+ " => " +:+ status in
      chunk_statuses dal_node_endpoint (S idx) l
        {| ss_lines := ss_lines acc ++ [line];
           ss_retry := if decide (status = "unattested") then ss_retry acc ++ [(idx, "unattested"%string)]
                       else ss_retry acc;
           ss_waiting := if decide (status = "unattested") then ss_waiting acc
                         else if decide (status = "attested") then ss_waiting acc
                         else ss_waiting acc ++ [idx] |}
  end.

(** The waiting chunks, against the level of the head: those to republish, and whether one
    is still worth waiting for. *)
Fixpoint stale_chunks (head_level : Z) (l : list RollupDalChunk) (waiting : list nat)
    : result (list (nat * string) * bool) :=
  match waiting with
  | [] => mret ([], false)
  | idx :: waiting =>
      chunk ← index_at l idx;
      let age := saturating_sub_i32 head_level (dc_published_level chunk) in
      '(retry, wait) ← stale_chunks head_level l waiting;
      if (MAX_WAITING_ATTESTATION_LEVEL_AGE <=? age)%Z
      then mret ((idx, "stale waiting_attestation after " +:+ show_Z age +:+ " levels") :: retry, wait)
      else mret (retry, true)
  end.

Definition check_waiting (l : list RollupDalChunk) (waiting : list nat)
    : ST OperatorState (list (nat * string) * bool) :=
  match waiting with
  | [] => mret ([], false)
  | _ =>
      match oc_octez_node_endpoint config with
      | None => mret ([], true)
      | Some octez_node_endpoint =>
          head_level ← attempt (fetch_head_level octez_node_endpoint);
          match head_level with
          | inl head_level => lift (stale_chunks head_level l waiting)
          | inr _ => mret ([], true)
          end
      end
  end.

(** The bytes of a chunk: those after the chunks before it. *)
Definition submission_chunk_bytes (payload : bytes) (submission : RollupSubmission) (index : nat)
    : result bytes :=
  fail_if (length (rs_dal_chunks submission) <=? index)%nat
    ("chunk index " +:+ show_nat index +:+ " out of range") ;;
  let start := sum_lengths (take index (rs_dal_chunks submission)) in
  chunk ← index_at (rs_dal_chunks submission) index;
  end_ ← ok_or (checked_add usize_limit start (dc_payload_len chunk)) "chunk range overflowed";
  fail_if (N.of_nat (length payload) <? end_)
    ("chunk " +:+ show_nat index +:+ " exceeds payload length: end=" +:+ show_N end_ +:+
     " payload=" +:+ show_nat (length payload)) ;;
  mret (take (N.to_nat (dc_payload_len chunk)) (drop (N.to_nat start) payload)).

(** The chunks to republish; the loop returns early, with the submission failed, at one
    that was tried too often. *)
Fixpoint republish (payload : bytes) (status_lines : list string) (retry : list (nat * string))
    (stored : StoredSubmission) (lines : list string)
    : ST OperatorState (StoredSubmission * option (list string)) :=
  match retry with
  | [] => mret (stored, Some lines)
  | (idx, reason) :: retry =>
      let attempts := default 1 (st_chunk_attempts stored !! idx) in
      if MAX_DAL_CHUNK_ATTEMPTS <=? attempts then
        mret (st_with_submission (fun sub => rs_with_detail
          ("DAL attestation failed after " +:+ show_N attempts +:+ " attempts" +:+ NEWLINE +:+
           join_lines status_lines) (rs_with_status Failed sub)) stored, None)
      else
        chunk_bytes ← lift (submission_chunk_bytes payload (st_submission stored) idx);
        published_chunk ← publish_dal_chunk chunk_bytes;
        let line := "republished chunk[" +:+ show_nat idx +:+ "] attempt " +:+ show_N (attempts + 1) +:+
          " -> slot " +:+ show_N (dc_slot_index published_chunk) +:+ " level " +:+
          show_Z (dc_published_level published_chunk) +:+ " (" +:+ reason +:+ ")" in
        lift (index_at (rs_dal_chunks (st_submission stored)) idx) ;;
        lift (index_at (st_chunk_attempts stored) idx) ;;
        republish payload status_lines retry
          (st_with_attempts (<[idx := attempts + 1]> (st_chunk_attempts stored))
            (st_with_submission (fun sub =>
              rs_with_chunks (<[idx := published_chunk]> (rs_dal_chunks sub)) sub) stored))
          (lines ++ [line])
  end.

Definition to_u8 (v : N) : option N := if v <? 2 ^ 8 then Some v else None.

Definition decode_felt_hex (value : string) : result F :=
  b ← map_err (fun e => "invalid payload hash hex: " +:+ e) (hex_decode (str_bytes value));
  fail_if (negb (length b =? 32)%nat)
    ("payload hash must be 32 bytes, got " +:+ show_nat (length b)) ;;
  mret (mkF b).

Definition dal_payload_kind (kind : RollupSubmissionKind) : KernelDalPayloadKind :=
  match kind with
  | SKConfigureVerifier => KDConfigureVerifier
  | SKConfigureBridge => KDConfigureBridge
  | SKShield => KDShield
  | SKTransfer => KDTransfer
  | SKUnshield => KDUnshield
  end.

Definition chunk_pointer (chunk : RollupDalChunk) : result KernelDalChunkPointer :=
  fail_if (dc_published_level chunk <? 0)%Z "published_level must be non-negative" ;;
  slot_index ← ok_or (to_u8 (dc_slot_index chunk)) "slot_index does not fit in u8";
  payload_len ← ok_or (to_u64 (dc_payload_len chunk)) "payload_len does not fit in u64";
  mret {| kdc_published_level := Z.to_N (dc_published_level chunk); kdc_slot_index := slot_index;
          kdc_payload_len := payload_len |}.

Definition dal_pointer_from_submission (submission : RollupSubmission) : result KernelDalPayloadPointer :=
  payload_hash_hex ← ok_or (rs_payload_hash submission) "submission is missing payload_hash";
  payload_hash ← decode_felt_hex payload_hash_hex;
  chunks ← map_result chunk_pointer (rs_dal_chunks submission);
  payload_len ← ok_or (to_u64 (rs_payload_len submission)) "payload_len does not fit in u64";
  mret {| kdp_kind := dal_payload_kind (rs_kind submission); kdp_chunks := chunks;
          kdp_payload_len := payload_len; kdp_payload_hash := payload_hash |}.

(** Every chunk is attested: the pointer goes to the inbox. *)
Definition inject_pointer (status_lines : list string) (stored : StoredSubmission)
    : ST OperatorState StoredSubmission :=
  let stored := st_with_submission (rs_with_status Attested) stored in
  pointer ← lift (dal_pointer_from_submission (st_submission stored));
  pointer_payload ← lift (encode_kernel_inbox_message (KIDalPointer pointer));
  targeted_bytes ← lift (encode_targeted_rollup_message (rs_rollup_address (st_submission stored))
    pointer_payload);
  output ← inject_direct_message targeted_bytes false;
  mret (st_with_submission (fun sub => rs_with_detail
    ("All DAL chunks attested" +:+ NEWLINE +:+ join_lines status_lines +:+ NEWLINE +:+ bytes_str output)
    (rs_with_operation_hash (extract_operation_hash output) (rs_with_status SubmittedToL1 sub))) stored).

(** From the statuses of the chunks on. *)
Definition advance_published (dal_node_endpoint : string) (stored : StoredSubmission)
    : ST OperatorState StoredSubmission :=
  let stored := align_chunk_attempts stored in
  let l := rs_dal_chunks (st_submission stored) in
  statuses ← chunk_statuses dal_node_endpoint 0 l {| ss_lines := []; ss_retry := []; ss_waiting := [] |};
  let status_lines := ss_lines statuses in
  '(stale, waiting_for_attestation) ← check_waiting l (ss_waiting statuses);
  match ss_retry statuses ++ stale with
  | [] =>
      if waiting_for_attestation : bool then
        mret (st_with_submission (fun sub => rs_with_detail
          ("Waiting for DAL attestation" +:+ NEWLINE +:+ join_lines status_lines)
          (rs_with_status CommitmentIncluded sub)) stored)
      else inject_pointer status_lines stored
  | retry =>
      payload ← lift (ok_or (st_payload stored) "DAL submission payload is unavailable for retry");
      '(stored, republished) ← republish payload status_lines retry stored [];
      match republished with
      | None => mret stored
      | Some lines =>
          submission ← lift (update_submission_commitment_summary (st_submission stored));
          mret (st_with_submission (fun _ => rs_with_detail
            ("Republished " +:+ show_nat (length lines) +:+ " DAL chunk(s)" +:+ NEWLINE +:+
             join_lines lines +:+ NEWLINE +:+ join_lines status_lines)
            (rs_with_status CommitmentIncluded submission)) stored)
      end
  end.

Definition maybe_advance_submission (stored : StoredSubmission) : ST OperatorState StoredSubmission :=
  match rs_status (st_submission stored) with
  | PendingDal => resume_pending_dal_submission stored
  | CommitmentIncluded | Attested =>
      if (length (rs_dal_chunks (st_submission stored)) =? 0)%nat then mret stored
      else
        match oc_dal_node_endpoint config with
        | None => mret stored
        | Some dal_node_endpoint => advance_published dal_node_endpoint stored
        end
  | SubmittedToL1 | Failed => mret stored
  end.

(** ** Accepting a submission *)

Definition kernel_message_matches_submission_kind (kind : RollupSubmissionKind)
    (message : KernelInboxMessage) : bool :=
  match kind, message with
  | SKConfigureVerifier, KIConfigureVerifier _
  | SKConfigureBridge, KIConfigureBridge _
  | SKShield, KIShield _
  | SKTransfer, KITransfer _
  | SKUnshield, KIUnshield _ => true
  | _, _ => false
  end.

Definition submission_kind_requires_dal_fee_policy (kind : RollupSubmissionKind) : bool :=
  match kind with SKShield | SKTransfer | SKUnshield => true | _ => false end.

Definition parse_runtime_felt_hex (var : string) : result F :=
  value ← ok_or (oc_var config var) ("missing required env var: " +:+ var);
  b ← map_err (fun e => var +:+ " is not valid hex: " +:+ e) (hex_decode (str_bytes value));
  fail_if (negb (length b =? 32)%nat)
    (var +:+ " must decode to exactly 32 bytes, got " +:+ show_nat (length b)) ;;
  mret (mkF b).

(** Production builds: without the variable there is no key. *)
Definition operator_felt (var : string) : result F :=
  match oc_var config var with
  | Some _ => parse_runtime_felt_hex var
  | None => Err ("operator missing " +:+ var)
  end.

Definition operator_config_admin_pub_seed : result F :=
  operator_felt "TZEL_ROLLUP_CONFIG_ADMIN_PUB_SEED_HEX".
Definition operator_verifier_config_leaf : result F :=
  operator_felt "TZEL_ROLLUP_VERIFIER_CONFIG_ADMIN_LEAF_HEX".
Definition operator_bridge_config_leaf : result F :=
  operator_felt "TZEL_ROLLUP_BRIDGE_CONFIG_ADMIN_LEAF_HEX".

Definition authenticate_config_submission (message : KernelInboxMessage) : result unit :=
  match message with
  | KIConfigureVerifier signed =>
      pub_seed ← operator_config_admin_pub_seed;
      expected_leaf ← operator_verifier_config_leaf;
      sighash ← kernel_verifier_config_sighash (ksvc_config signed);
      verify_wots_signature_against_leaf sighash pub_seed KERNEL_VERIFIER_CONFIG_KEY_INDEX
        (ksvc_signature signed) expected_leaf
  | KIConfigureBridge signed =>
      pub_seed ← operator_config_admin_pub_seed;
      expected_leaf ← operator_bridge_config_leaf;
      sighash ← kernel_bridge_config_sighash (ksbc_config signed);
      verify_wots_signature_against_leaf sighash pub_seed KERNEL_BRIDGE_CONFIG_KEY_INDEX
        (ksbc_signature signed) expected_leaf
  | _ => Ok tt
  end.

Definition decode_and_validate_submission_payload (kind : RollupSubmissionKind) (payload : bytes)
    : result KernelInboxMessage :=
  message ← map_err (fun e => "decode kernel payload: " +:+ e) (decode_kernel_inbox_message payload);
  fail_if (negb (kernel_message_matches_submission_kind kind message))
    "submission kind does not match kernel payload" ;;
  authenticate_config_submission message ;;
  mret message.

Definition validate_fee_note_against_policy (policy : OperatorDalFeePolicy) (commitment : F)
    (enc : EncryptedNote) (claimed_fee : N) : result unit :=
  fail_if (negb (claimed_fee =? fp_amount policy))
    ("DAL fee mismatch: expected " +:+ show_N (fp_amount policy) +:+ ", got " +:+ show_N claimed_fee) ;;
  let '(_, dk_v, _, dk_d) := derive_kem_keys (fp_incoming_seed policy) (fp_address_index policy) in
  detected ← detect enc dk_d;
  fail_if (negb detected) "DAL fee note is not detectable by the configured operator fee address" ;;
  opened ← decrypt_memo enc dk_v;
  '(value, rseed, _) ← ok_or opened
    "DAL fee note is not decryptable by the configured operator fee address";
  fail_if (negb (value =? fp_amount policy))
    ("DAL fee note decrypts to " +:+ show_N value +:+ ", expected " +:+ show_N (fp_amount policy)) ;;
  let address := fp_address policy in
  let otag := owner_tag (pa_auth_root address) (pa_auth_pub_seed address) (pa_nk_tag address) in
  let expected := commit (pa_d_j address) value (derive_rcm rseed) otag in
  fail_if (negb (bool_decide (expected = commitment)))
    "DAL fee note commitment does not match the configured operator fee address".

Definition enforce_dal_fee_policy (message : KernelInboxMessage) : result unit :=
  policy ← ok_or (oc_dal_fee_policy config) "operator is missing DAL fee policy";
  match message with
  | KIShield req =>
      validate_fee_note_against_policy policy (ksr_producer_cm req) (ksr_producer_enc req)
        (ksr_producer_fee req)
  | KITransfer req =>
      validate_fee_note_against_policy policy (ktr_cm_3 req) (ktr_enc_3 req) (fp_amount policy)
  | KIUnshield req =>
      validate_fee_note_against_policy policy (kur_cm_fee req) (kur_enc_fee req) (fp_amount policy)
  | KIConfigureVerifier _ | KIConfigureBridge _ | KIDalPointer _ =>
      Err "operator only publishes shield, transfer, and unshield payloads to DAL"
  end.

(** [{:04}]. *)
Definition pad4 (n : N) : string :=
  let d := str_bytes (show_N n) in
  bytes_str (replicate (4 - length d) Byte.x30 ++ d).

Definition next_submission_id : ST OperatorState string :=
  now ← ask (fun n => Ok (ou_now_millis outside n));
  seq ← reads (fun s => mret (os_id_counter s));
  writes (fun s => {| os_files := os_files s; os_id_counter := wrapping_add_u64 seq 1;
    os_slot_counter := os_slot_counter s; os_calls := os_calls s; os_trace := os_trace s |}) ;;
  mret ("sub-" +:+ show_N now +:+ "-" +:+ pad4 seq).

(** What a request starts as. *)
Definition new_submission (id : string) (req : SubmitRollupMessageReq) : StoredSubmission :=
  {| st_submission :=
       {| rs_id := id; rs_kind := smr_kind req; rs_rollup_address := smr_rollup_address req;
          rs_status := PendingDal; rs_transport := TransportDal; rs_operation_hash := None;
          rs_dal_chunks := []; rs_commitment := None; rs_published_level := None;
          rs_slot_index := None; rs_payload_hash := Some (hex_str (hash (smr_payload req)));
          rs_payload_len := N.of_nat (length (smr_payload req)); rs_detail := None |};
     st_payload := Some (smr_payload req);
     st_chunk_attempts := [] |}.

(** A small message goes to the inbox as it is. *)
Definition submit_directly (stored : StoredSubmission) (targeted_bytes : bytes)
    : ST OperatorState RollupSubmission :=
  outcome ← attempt (inject_direct_message targeted_bytes false);
  match outcome with
  | inl output =>
      let stored := st_with_submission (fun sub => rs_with_detail (bytes_str output)
        (rs_with_operation_hash (extract_operation_hash output)
          (rs_with_transport DirectInbox (rs_with_status SubmittedToL1 sub)))) stored in
      persist_submission stored ;;
      mret (st_submission stored)
  | inr err =>
      let stored := st_with_submission (fun sub => rs_with_detail err
        (rs_with_transport DirectInbox (rs_with_status Failed sub))) stored in
      persist_submission stored ;;
      lift (Err err)
  end.

(** A large one is recorded and advanced; a failure is recorded over what is on disk. *)
Definition submit_through_dal (stored : StoredSubmission) : ST OperatorState RollupSubmission :=
  persist_submission stored ;;
  outcome ← attempt (maybe_advance_submission stored);
  match outcome with
  | inl stored => persist_submission stored ;; mret (st_submission stored)
  | inr err =>
      loaded ← attempt (load_stored_submission (rs_id (st_submission stored)));
      let failed := match loaded with inl s => s | inr _ => stored end in
      attempt (persist_submission (st_with_submission (fun sub =>
        rs_with_detail err (rs_with_status Failed sub)) failed)) ;;
      lift (Err err)
  end.

Definition process_submission (req : SubmitRollupMessageReq) : ST OperatorState RollupSubmission :=
  id ← next_submission_id;
  targeted_bytes ← lift (encode_targeted_rollup_message (smr_rollup_address req) (smr_payload req));
  let stored := new_submission id req in
  let size := N.of_nat (length targeted_bytes) in
  if size <=? oc_direct_max_message_bytes config then submit_directly stored targeted_bytes
  else if decide (oc_dal_node_endpoint config = None) then
    let stored := st_with_submission (fun sub => rs_with_detail
      ("message is " +:+ show_N size +:+ " bytes after framing, above direct inbox limit " +:+
       show_N (oc_direct_max_message_bytes config) +:+ "; DAL node endpoint is not configured")
      (rs_with_status Failed sub)) stored in
    persist_submission stored ;;
    mret (st_submission stored)
  else
    message ← lift (decode_and_validate_submission_payload (smr_kind req) (smr_payload req));
    lift (if submission_kind_requires_dal_fee_policy (smr_kind req)
          then enforce_dal_fee_policy message else Ok tt) ;;
    submit_through_dal
      (st_with_submission (rs_with_detail "Accepted for DAL publication") stored).

(** ** Reconciling *)

Record ReconcileSummary := { rc_visited : N; rc_updated : N; rc_errors : N }.

Definition is_pending (status : RollupSubmissionStatus) : bool :=
  match status with PendingDal | CommitmentIncluded | Attested => true | _ => false end.

Definition reconcile_one (id : string) (summary : ReconcileSummary) : ST OperatorState ReconcileSummary :=
  let failed (v : N) :=
    mret {| rc_visited := rc_visited summary + v; rc_updated := rc_updated summary;
            rc_errors := rc_errors summary + 1 |} in
  loaded ← attempt (load_stored_submission id);
  match loaded with
  | inr _ => failed 0
  | inl stored =>
      if is_pending (rs_status (st_submission stored)) then
        outcome ← attempt (maybe_advance_submission stored);
        match outcome with
        | inr _ => failed 1
        | inl updated =>
            if decide (updated = stored) then
              mret {| rc_visited := rc_visited summary + 1; rc_updated := rc_updated summary;
                      rc_errors := rc_errors summary |}
            else
              persist_submission updated ;;
              mret {| rc_visited := rc_visited summary + 1; rc_updated := rc_updated summary + 1;
                      rc_errors := rc_errors summary |}
        end
      else mret summary
  end.

Fixpoint reconcile_all (ids : list string) (summary : ReconcileSummary) : ST OperatorState ReconcileSummary :=
  match ids with
  | [] => mret summary
  | id :: ids => summary ← reconcile_one id summary; reconcile_all ids summary
  end.

(** [submission_paths]: the ids of the files, in the order of their names. *)
Definition submission_paths : ST OperatorState (list string) :=
  ask (ou_list outside) ;;
  reads (fun s => mret (sort_paths (map_to_list (os_files s)).*1)).

Definition reconcile_pending_submissions : ST OperatorState ReconcileSummary :=
  ids ← submission_paths;
  reconcile_all ids {| rc_visited := 0; rc_updated := 0; rc_errors := 0 |}.

(** ** HTTP handlers *)

(** The [Authorization] header: absent, not text, or its text. *)
Definition require_bearer_auth (header : option (option bytes)) : option (N * string) :=
  match header with
  | None => Some (401, "missing Authorization header")
  | Some None => Some (401, "invalid Authorization header")
  | Some (Some auth) =>
      match strip_prefix (str_bytes "Bearer ") auth with
      | None => Some (401, "expected Bearer token")
      | Some token =>
          if bool_decide (token = str_bytes (oc_bearer_token config)) then None
          else Some (401, "invalid bearer token")
      end
  end%string.

Definition map_load_submission_err (err : string) : N * string :=
  (if contains (str_bytes "No such file") (str_bytes err) then 404 else 500, err).

(** A response, or a status and a text; [join_error] shows a task's panic. *)
Variable join_error : string -> string.

Definition submit_rollup_message (header : option (option bytes)) (req : SubmitRollupMessageReq)
    (s : OperatorState) : OperatorState * (RollupSubmission + N * string) :=
  match require_bearer_auth header with
  | Some e => (s, inr e)
  | None =>
      match process_submission req s with
      | (s, Ok submission) => (s, inl submission)
      | (s, Err e) => (s, inr (502, e))
      | (s, Panic w) => (s, inr (500, "submission task failed: " +:+ join_error w))
      end
  end.

Definition get_rollup_submission (header : option (option bytes)) (id : string)
    (s : OperatorState) : OperatorState * (RollupSubmission + N * string) :=
  match require_bearer_auth header with
  | Some e => (s, inr e)
  | None =>
      match load_stored_submission id s with
      | (s, Ok stored) => (s, inl (st_submission stored))
      | (s, Err e) => (s, inr (map_load_submission_err e))
      | (s, Panic w) => (s, inr (500, "load submission task failed: " +:+ join_error w))
      end
  end.
End Operator.
