(* ===== verification/OperatorFacts.v ===== *)
(** * OperatorFacts: what the operator puts in the inbox

    Whatever is answered to it, and however often it fails or is restarted: every submission
    on disk belongs to a request, its chunks were published in slots and are its payload
    from the start, and a pointer in the inbox names a whole payload, attested chunk by
    chunk, that was checked when it was accepted. *)

From S2P Require Import Prelude Felt Externals Types Recipients Hashing Notes CanonicalWire.
From S2P Require Import KernelWire OperatorApi Operator.

Local Open Scope N_scope.

(** ** Facts that a longer trace keeps *)

Class Grows (P : list OpEffect -> Prop) := grows tr e : P tr -> P (tr ++ [e]).

#[export] Instance grows_const (Q : Prop) : Grows (fun _ => Q).
Proof. by intros tr e. Qed.
#[export] Instance grows_in x : Grows (fun tr => x ∈ tr).
Proof. intros tr e Hx. by apply elem_of_app; left. Qed.
#[export] Instance grows_and P Q : Grows P -> Grows Q -> Grows (fun tr => P tr /\ Q tr).
Proof. intros HP HQ tr e [Hp Hq]. split; [by apply HP|by apply HQ]. Qed.
#[export] Instance grows_or P Q : Grows P -> Grows Q -> Grows (fun tr => P tr \/ Q tr).
Proof. intros HP HQ tr e [Hp|Hq]; [left; by apply HP|right; by apply HQ]. Qed.
#[export] Instance grows_impl (Q : Prop) P : Grows P -> Grows (fun tr => Q -> P tr).
Proof. intros HP tr e Hp Hq. by apply HP, Hp. Qed.
#[export] Instance grows_ex {A} (P : A -> list OpEffect -> Prop) :
  (forall a, Grows (P a)) -> Grows (fun tr => exists a, P a tr).
Proof. intros HP tr e [a Ha]. exists a. by apply HP. Qed.
#[export] Instance grows_all {A} (P : A -> list OpEffect -> Prop) :
  (forall a, Grows (P a)) -> Grows (fun tr => forall a, P a tr).
Proof. intros HP tr e Ha a. by apply HP. Qed.
#[export] Instance grows_Forall {A} (P : A -> list OpEffect -> Prop) l :
  (forall a, Grows (P a)) -> Grows (fun tr => Forall (fun a => P a tr) l).
Proof. intros HP tr e Ha. eapply Forall_impl; [exact Ha|]. intros a. apply HP. Qed.
#[export] Instance grows_Forall2 {A B} (P : A -> B -> list OpEffect -> Prop) l k :
  (forall a b, Grows (P a b)) -> Grows (fun tr => Forall2 (fun a b => P a b tr) l k).
Proof. intros HP tr e Ha. eapply Forall2_impl; [exact Ha|]. intros a b. apply HP. Qed.

(** Connectives one at a time: instances under binders are not found by unification. *)
Ltac grow :=
  cbv beta;
  lazymatch goal with
  | |- Grows (fun tr => _ /\ _) => refine (grows_and _ _ _ _); grow
  | |- Grows (fun tr => _ \/ _) => refine (grows_or _ _ _ _); grow
  | |- Grows (fun tr => ex _) => refine (grows_ex _ _); intros ?; grow
  | |- Grows (fun tr => Forall2 _ _ _) => refine (grows_Forall2 _ _ _ _); intros ? ?; grow
  | |- Grows (fun tr => Forall _ _) => refine (grows_Forall _ _ _); intros ?; grow
  | |- _ => first [refine (grows_const _)|refine (grows_in _)|apply _|refine (grows_impl _ _ _); grow]
  end.

Lemma grows_prefix P tr tr' : Grows P -> tr `prefix_of` tr' -> P tr -> P tr'.
Proof.
  intros HP [l ->] Hp. induction l as [|e l IH] using rev_ind; [by rewrite app_nil_r|].
  rewrite app_assoc. by apply HP.
Qed.

(** ** Publications *)

(** The piece was posted for the slot under the chunk's commitment, and the commitment
    published in a block of the chunk's level. *)
Definition published_as (c : RollupDalChunk) (piece : bytes) (tr : list OpEffect) : Prop :=
  piece <> [] /\ dc_payload_len c = N.of_nat (length piece) /\
  exists proof output block,
    Posted (dc_slot_index c) piece (dc_commitment c) proof ∈ tr /\
    Committed (dc_commitment c) proof (dc_slot_index c) output ∈ tr /\
    extract_block_hash output = Some block /\ Header block (dc_published_level c) ∈ tr.

Definition attested (c : RollupDalChunk) (tr : list OpEffect) : Prop :=
  SlotStatus (dc_published_level c) (dc_slot_index c) "attested" ∈ tr.

#[export] Instance grows_published c piece : Grows (published_as c piece).
Proof. unfold published_as. grow. Qed.
#[export] Instance grows_attested c : Grows (attested c).
Proof. unfold attested. grow. Qed.

Lemma chunks_nonempty {A} (n : nat) (l : list A) : n <> 0%nat -> Forall (fun c => c <> []) (chunks n l).
Proof.
  intros Hn. apply Forall_forall. intros c Hc. unfold chunks in Hc.
  apply list_elem_of_fmap in Hc as (i & -> & Hi). apply elem_of_seq in Hi.
  assert (i * n < length l)%nat as Hlt.
  { unfold div_ceil in Hi. pose proof (Nat.div_mod_eq (length l + n - 1) n).
    pose proof (Nat.mod_upper_bound (length l + n - 1) n Hn). nia. }
  intros Hnil%(f_equal length). rewrite length_take, length_drop in Hnil. cbn in Hnil. lia.
Qed.

Section Facts.
Context `{Blake2s, Hex, MlKem, Aead, WireCodecs, Target, RollupFrames, OperatorJson}.
Variables (config : OperatorConfig) (outside : Outside).

(** ** The invariant *)

(** What was checked when a payload was accepted for the DAL. *)
Definition accepted (kind : RollupSubmissionKind) (payload : bytes) (m : KernelInboxMessage) : Prop :=
  decode_and_validate_submission_payload config kind payload = Ok m /\
  (submission_kind_requires_dal_fee_policy kind = true -> enforce_dal_fee_policy config m = Ok tt).

(** A request sent to the inbox as it is. *)
Definition direct_contents (req : SubmitRollupMessageReq) (contents : bytes) : Prop :=
  encode_targeted_rollup_message (smr_rollup_address req) (smr_payload req) = Ok contents /\
  N.of_nat (length contents) <= oc_direct_max_message_bytes config.

(** A pointer to a whole payload, published and attested chunk by chunk. *)
Definition pointer_contents (req : SubmitRollupMessageReq) (contents : bytes) (tr : list OpEffect) : Prop :=
  exists m l pieces pointers payload,
    accepted (smr_kind req) (smr_payload req) m /\
    Forall2 (fun c piece => published_as c piece tr) l pieces /\ Forall (fun c => attested c tr) l /\
    concat pieces = smr_payload req /\ pieces <> [] /\
    map_result chunk_pointer l = Ok pointers /\
    encode_kernel_inbox_message (KIDalPointer
      {| kdp_kind := dal_payload_kind (smr_kind req); kdp_chunks := pointers;
         kdp_payload_len := N.of_nat (length (smr_payload req));
         kdp_payload_hash := hash (smr_payload req) |}) = Ok payload /\
    encode_targeted_rollup_message (smr_rollup_address req) payload = Ok contents.

Definition justified (reqs : list SubmitRollupMessageReq) (contents : bytes) (tr : list OpEffect) : Prop :=
  exists req, req ∈ reqs /\ (direct_contents req contents \/ pointer_contents req contents tr).

#[export] Instance grows_justified reqs contents : Grows (justified reqs contents).
Proof. unfold justified, pointer_contents. grow. Qed.

(** What the request asked for is in the inbox. *)
Definition sent (req : SubmitRollupMessageReq) (tr : list OpEffect) : Prop :=
  exists contents, Injected contents ∈ tr /\
    (direct_contents req contents \/ pointer_contents req contents tr).

#[export] Instance grows_sent req : Grows (sent req).
Proof. unfold sent, pointer_contents. grow. Qed.

Definition of_request (req : SubmitRollupMessageReq) (sub : RollupSubmission) : Prop :=
  rs_kind sub = smr_kind req /\ rs_rollup_address sub = smr_rollup_address req /\
  rs_payload_hash sub = Some (hex_str (hash (smr_payload req))) /\
  rs_payload_len sub = N.of_nat (length (smr_payload req)).

(** The chunks published so far are the payload from its start; [rest] is what is left. *)
Definition laid_out (req : SubmitRollupMessageReq) (l : list RollupDalChunk) (rest : bytes)
    (tr : list OpEffect) : Prop :=
  exists pieces, Forall2 (fun c piece => published_as c piece tr) l pieces /\
    smr_payload req = concat pieces ++ rest.

(** A submission that can be advanced. *)
Definition live (req : SubmitRollupMessageReq) (sub : RollupSubmission) : Prop :=
  rs_transport sub = TransportDal /\ exists m, accepted (smr_kind req) (smr_payload req) m.

Record recorded_for (req : SubmitRollupMessageReq) (st : StoredSubmission) (tr : list OpEffect) : Prop := {
  rf_request : of_request req (st_submission st);
  rf_payload : st_payload st = Some (smr_payload req) \/
               st_payload st = None /\ is_pending (rs_status (st_submission st)) = false;
  rf_status : rs_status (st_submission st) <> Attested;
  rf_chunks : exists rest, laid_out req (rs_dal_chunks (st_submission st)) rest tr /\
              (rs_status (st_submission st) = CommitmentIncluded -> rest = []);
  rf_live : is_pending (rs_status (st_submission st)) = true -> live req (st_submission st);
  rf_attempts : Forall (fun a => 1 <= a <= MAX_DAL_CHUNK_ATTEMPTS) (st_chunk_attempts st);
  rf_sent : rs_status (st_submission st) = SubmittedToL1 -> sent req tr
}.

#[export] Instance grows_laid_out req l rest : Grows (laid_out req l rest).
Proof. unfold laid_out. grow. Qed.

#[export] Instance grows_recorded req st : Grows (recorded_for req st).
Proof.
  intros tr e [Hr Hp Hs (rest & Hl & He) Hv Ha Hse]. constructor; try done.
  - exists rest. split; [by apply grows_laid_out|done].
  - intros E. by apply grows_sent, Hse.
Qed.

Section Requests.
Variable reqs : list SubmitRollupMessageReq.

Definition recorded (st : StoredSubmission) (tr : list OpEffect) : Prop :=
  exists req, req ∈ reqs /\ recorded_for req st tr.

#[export] Instance grows_recorded_any st : Grows (recorded st).
Proof. unfold recorded. grow. Qed.

(** What a submission says is true. *)
Definition reported (sub : RollupSubmission) (tr : list OpEffect) : Prop :=
  exists req, req ∈ reqs /\ of_request req sub /\ (rs_status sub = SubmittedToL1 -> sent req tr).

#[export] Instance grows_reported sub : Grows (reported sub).
Proof. unfold reported. grow. Qed.

Lemma recorded_reported st tr : recorded st tr -> reported (st_submission st) tr.
Proof. intros (req & Hin & [Hr _ _ _ _ _ Hse]). by exists req. Qed.

Record op_ok (s : OperatorState) : Prop := {
  op_files : forall id st, os_files s !! id = Some st ->
    rs_id (st_submission st) = id /\ recorded st (os_trace s);
  op_injected : forall contents, Injected contents ∈ os_trace s -> justified reqs contents (os_trace s)
}.

(** The invariant, and a fact about the trace. *)
Definition told (P : list OpEffect -> Prop) (s : OperatorState) : Prop := op_ok s /\ P (os_trace s).

(** Every step keeps what is known of the trace. *)
Definition learns {A} (m : ST OperatorState A) (Q : A -> list OpEffect -> Prop) : Prop :=
  forall P, Grows P -> triple (told P) m (fun a => told (fun tr => P tr /\ Q a tr)) (told P).

Lemma learns_ret {A} (a : A) (Q : A -> list OpEffect -> Prop) : (forall tr, Q a tr) -> learns (mret a) Q.
Proof. intros HQ P HP s [Ho Hp]. done. Qed.

Lemma learns_bind {A B} (m : ST OperatorState A) (k : A -> ST OperatorState B) Q R :
  learns m Q -> (forall a, Grows (Q a)) ->
  (forall a, learns (fun s => k a s) (fun b tr => Q a tr -> R b tr)) -> learns (m ≫= k) R.
Proof.
  intros Hm HQ Hk P HP. eapply triple_bind; [apply (Hm P HP)|]. intros a.
  eapply triple_conseq; [apply (Hk a (fun tr => P tr /\ Q a tr)), _|done| |].
  - intros b s [Ho [[Hp Hq] Hr]]. split; [done|]. split; [done|]. by apply Hr.
  - intros s [Ho [Hp _]]. by split.
Qed.

Lemma learns_conseq {A} (m : ST OperatorState A) Q Q' :
  learns m Q -> (forall a tr, Q a tr -> Q' a tr) -> learns m Q'.
Proof.
  intros Hm HQ P HP. eapply triple_conseq; [apply (Hm P HP)|done| |done].
  intros a s [Ho [Hp Hq]]. split; [done|]. split; [done|]. by apply HQ.
Qed.

Lemma op_ok_same s s' : os_files s' = os_files s -> os_trace s' = os_trace s -> op_ok s -> op_ok s'.
Proof. intros Ef Et [Hf Hi]. by constructor; rewrite ?Ef, Et. Qed.

Lemma learns_quiet {A} (m : ST OperatorState A) Q :
  (forall s, os_files (fst (m s)) = os_files s /\ os_trace (fst (m s)) = os_trace s) ->
  (forall s a, snd (m s) = Ok a -> forall tr, Q a tr) -> learns m Q.
Proof.
  intros Hq HQ P HP s [Ho Hp]. specialize (Hq s) as [Ef Et]. specialize (HQ s).
  destruct (m s) as [s' r]. cbn [fst snd] in *. pose proof (op_ok_same s s' Ef Et Ho) as Ho'.
  destruct r as [a|e|e]; (split; [exact Ho'|]); rewrite Et; [split; [exact Hp|by apply HQ]|exact Hp..].
Qed.

(** ** Calls of the outside *)

Lemma learns_ask {A} (f : nat -> result A) : learns (ask f) (fun _ _ => True).
Proof. by apply learns_quiet. Qed.

Lemma learns_lift {A} (r : result A) : learns (lift r) (fun a _ => r = Ok a).
Proof. apply learns_quiet; [done|]. intros s a Ha tr. exact Ha. Qed.

Lemma learns_reads {A} (f : OperatorState -> result A) : learns (reads f) (fun _ _ => True).
Proof. by apply learns_quiet. Qed.

Lemma elem_of_snoc {A} (x y : A) l : x ∈ l ++ [y] -> x ∈ l \/ x = y.
Proof. intros [Hx|Hx%list_elem_of_singleton]%elem_of_app; auto. Qed.

Lemma tell_ok e P :
  Grows P -> (forall c, e = Injected c -> forall tr, P tr -> justified reqs c tr) ->
  triple (told P) (tell e) (fun _ => told (fun tr => P tr /\ e ∈ tr)) (told P).
Proof.
  intros HP He s [[Hf Hi] Hp]. unfold tell, writes. cbn [os_trace]. split.
  - constructor; cbn [os_files os_trace].
    + intros id st Hst. destruct (Hf id st Hst) as [Hid Hr]. split; [done|]. by apply grows_recorded_any.
    + intros c [Hc|Hc]%elem_of_snoc.
      * by apply grows_justified, Hi.
      * apply grows_justified. by eapply He.
  - cbn [os_trace]. split; [by apply HP|]. apply elem_of_app; right. by left.
Qed.

Lemma learns_tell e : (forall c, e <> Injected c) -> learns (tell e) (fun _ tr => e ∈ tr).
Proof. intros He P HP. apply tell_ok; [done|]. intros c Hc. by destruct (He c). Qed.

Lemma learns_attempt {A} (m : ST OperatorState A) Q :
  learns m Q -> learns (attempt m) (fun o tr => match o with inl a => Q a tr | inr _ => True end).
Proof.
  intros Hm P HP s Hs. specialize (Hm P HP s Hs). unfold attempt.
  destruct (m s) as [s' [a|e|e]]; [exact Hm| |exact Hm]. destruct Hm as [Ho Hp]. done.
Qed.

(** Walks through steps nothing is learnt from, and ends at what the last one says. *)
Lemma learns_then {A B} (m : ST OperatorState A) (k : A -> ST OperatorState B) Q R :
  learns m Q -> (forall a, learns (k a) R) -> learns (m ≫= k) R.
Proof.
  intros Hm Hk P HP. eapply triple_bind.
  - eapply (triple_conseq _ _ _ (fun _ => told P)); [apply (Hm P HP)|done| |done].
    by intros a s [Ho [Hp _]].
  - intros a. apply (Hk a P HP).
Qed.

(** One step of a computation that is not only learning. *)
Lemma learn_step {A B} P (m : ST OperatorState A) Q (k : A -> ST OperatorState B) R (E : OperatorState -> Prop) :
  Grows P -> learns m Q -> (forall s, told P s -> E s) ->
  (forall a, triple (told (fun tr => P tr /\ Q a tr)) (k a) R E) -> triple (told P) (m ≫= k) R E.
Proof.
  intros HP Hm HE Hk. eapply triple_bind; [|exact Hk].
  eapply triple_conseq; [apply (Hm P HP)|done|done|exact HE].
Qed.

Lemma told_weaken (P P' : list OpEffect -> Prop) s : (forall tr, P tr -> P' tr) -> told P s -> told P' s.
Proof. intros HP [Ho Hp]. split; [done|by apply HP]. Qed.

Lemma told_pre {A} (P P' : list OpEffect -> Prop) (m : ST OperatorState A) R E :
  (forall tr, P' tr -> P tr) -> triple (told P) m R E -> triple (told P') m R E.
Proof. intros HP Hm s Hs. apply Hm. by apply (told_weaken P'). Qed.

Lemma lift_step {A B} (P : OperatorState -> Prop) (r : result A) (k : A -> ST OperatorState B) R E :
  (forall s, P s -> E s) -> (forall a, r = Ok a -> triple P (k a) R E) -> triple P (lift r ≫= k) R E.
Proof.
  intros HE Hk s Hs. unfold mbind, ST_bind, lift. destruct r as [a|e|e]; [|by apply HE..].
  by apply (Hk a).
Qed.

Lemma skip_step {A B} P (m : ST OperatorState A) Q (k : A -> ST OperatorState B) R (E : OperatorState -> Prop) :
  Grows P -> learns m Q -> (forall s, told P s -> E s) ->
  (forall a, triple (told P) (k a) R E) -> triple (told P) (m ≫= k) R E.
Proof.
  intros HP Hm HE Hk. eapply learn_step; [done|exact Hm|exact HE|]. intros a.
  eapply told_pre; [|apply Hk]. by intros tr [].
Qed.

Ltac weaken :=
  let s := fresh "s" in let Hs := fresh "Hs" in
  intros s Hs; refine (told_weaken _ _ s _ Hs); clear s Hs; cbv beta; intros tr.

Lemma learns_ret_after {A} (a : A) (Q : A -> list OpEffect -> Prop) (F : list OpEffect -> Prop) :
  (forall tr, F tr -> Q a tr) -> learns (mret a) (fun b tr => F tr -> Q b tr).
Proof. intros HQ. by apply learns_ret. Qed.

Lemma learns_post endpoint slot piece :
  learns (post_dal_slot outside endpoint slot piece)
    (fun r tr => Posted slot piece (sp_commitment r) (sp_commitment_proof r) ∈ tr).
Proof.
  eapply learns_then; [apply learns_ask|]. intros r.
  eapply learns_bind; [by apply learns_tell|intros ?; grow|]. intros []. by apply learns_ret_after.
Qed.

Lemma learns_client args : learns (run_client config outside args) (fun _ _ => True).
Proof. apply learns_ask. Qed.

Lemma learns_commit commitment slot proof :
  learns (publish_dal_commitment config outside commitment slot proof)
    (fun output tr => Committed commitment proof slot output ∈ tr).
Proof.
  eapply learns_then; [apply learns_client|]. intros output.
  eapply learns_bind; [by apply learns_tell|intros ?; grow|]. intros []. by apply learns_ret_after.
Qed.

Lemma learns_level endpoint block :
  learns (fetch_block_level outside endpoint block) (fun level tr => Header block level ∈ tr).
Proof.
  eapply learns_then; [apply learns_ask|]. intros header.
  eapply learns_bind; [by apply learns_tell|intros ?; grow|]. intros []. by apply learns_ret_after.
Qed.

Lemma learns_status endpoint level slot :
  learns (fetch_dal_slot_status outside endpoint level slot)
    (fun status tr => SlotStatus level slot status ∈ tr).
Proof.
  eapply learns_then; [apply learns_ask|]. intros status.
  eapply learns_bind; [by apply learns_tell|intros ?; grow|]. intros []. by apply learns_ret_after.
Qed.

Lemma learns_slot n : learns (select_slot_index n) (fun _ _ => True).
Proof.
  apply learns_quiet; [|done]. intros s. unfold select_slot_index.
  rewrite !ST_bind_eq. unfold reads. cbn [mret result_ret]. rewrite ST_run_writes, ST_bind_eq.
  unfold lift. destruct (panic_unless _ _); [|done..]. by destruct (ok_or (A:=N) _ _).
Qed.

Lemma learns_head_level endpoint : learns (fetch_head_level outside endpoint) (fun _ _ => True).
Proof. eapply learns_then; [apply learns_ask|]. intros header. by apply learns_ret. Qed.

Lemma learns_parameters endpoint : learns (fetch_dal_protocol_parameters outside endpoint) (fun _ _ => True).
Proof. apply learns_ask. Qed.

(** ** Publishing *)

Lemma learns_publish_in_slots fuel dal octez n piece last :
  piece <> [] ->
  learns (publish_in_slots config outside fuel dal octez n piece last) (fun c => published_as c piece).
Proof.
  intros Hne. revert last. induction fuel as [|fuel IH]; intros last; cbn [publish_in_slots].
  { eapply learns_conseq; [apply learns_lift|]. intros c tr E. destruct last; discriminate E. }
  eapply learns_then; [apply learns_slot|]. intros slot.
  eapply learns_bind; [apply learns_post|intros ?; grow|]. intros resp.
  eapply learns_bind; [apply learns_attempt, learns_commit| |].
  { intros [output|err]; grow. }
  intros [output|err].
  - eapply learns_bind; [apply learns_lift|intros ?; grow|]. intros block.
    eapply learns_bind; [apply learns_level|intros ?; grow|]. intros level.
    apply learns_ret. intros tr Hh Hb Hc Hp. split; [done|]. split; [done|].
    exists (sp_commitment_proof resp), output, block.
    destruct (extract_block_hash output); [injection Hb as <-|discriminate Hb]. done.
  - destruct (is_slot_header_collision err).
    + eapply learns_conseq; [apply IH|done].
    + eapply learns_conseq; [apply learns_lift|]. intros c tr E. discriminate E.
Qed.

Lemma learns_publish_chunk dal octez n piece :
  piece <> [] ->
  learns (publish_dal_chunk_with_protocol config outside dal octez n piece) (fun c => published_as c piece).
Proof. apply learns_publish_in_slots. Qed.

Lemma learns_publish piece :
  piece <> [] -> learns (publish_dal_chunk config outside piece) (fun c => published_as c piece).
Proof.
  intros Hne. unfold publish_dal_chunk.
  eapply learns_then; [apply learns_lift|]. intros dal.
  eapply learns_then; [apply learns_parameters|]. intros protocol.
  eapply learns_then; [apply learns_lift|]. intros [].
  eapply learns_then; [apply learns_lift|]. intros octez.
  by apply learns_publish_chunk.
Qed.

(** ** Submissions on disk *)

Lemma Forall_attempts n l :
  Forall (fun a => 1 <= a <= MAX_DAL_CHUNK_ATTEMPTS) l ->
  Forall (fun a => 1 <= a <= MAX_DAL_CHUNK_ATTEMPTS) (resize n 1 l).
Proof. intros Hl. apply Forall_resize; [|done]. unfold MAX_DAL_CHUNK_ATTEMPTS. lia. Qed.

Lemma recorded_align req st tr : recorded_for req st tr -> recorded_for req (align_chunk_attempts st) tr.
Proof. intros [Hr Hp Hs Hc Hv Ha Hse]. constructor; try done. by apply Forall_attempts. Qed.

(** What is written is what is held: aligned, and without the payload once submitted. *)
Lemma persist_ok P st :
  Grows P -> (forall tr, P tr -> recorded st tr) ->
  triple (told P) (persist_submission outside st) (fun _ => told P) (told P).
Proof.
  intros HP Hr. unfold persist_submission.
  eapply triple_bind with (Q := fun _ => told P).
  { eapply triple_conseq; [apply (learns_ask _ P HP)|done| |done]. by intros a s [Ho [Hp _]]. }
  intros []. apply triple_writes. intros s [[Hf Hi] Hp].
  split; [|exact Hp]. constructor; [|exact Hi]. cbn [put_file os_files os_trace].
  destruct (Hr _ Hp) as (req & Hin & Hrec).
  assert (forall st', rs_id (st_submission st') = rs_id (st_submission st) ->
    recorded_for req st' (os_trace s) ->
    forall id st0, <[rs_id (st_submission st') := st']> (os_files s) !! id = Some st0 ->
      rs_id (st_submission st0) = id /\ recorded st0 (os_trace s)) as Hput.
  { intros st' _ Hrec' id st0. destruct (decide (rs_id (st_submission st') = id)) as [<-|Hne].
    - rewrite lookup_insert_eq. intros [= <-]. split; [done|by exists req].
    - rewrite lookup_insert_ne by done. apply Hf. }
  destruct (decide _) as [Hsub|Hsub]; (apply Hput; [done|]); [|by apply recorded_align].
  destruct (recorded_align _ _ _ Hrec) as [Hq Hpay Hst Hc Hv Ha Hse]. constructor; try done. right. split; [done|].
  cbn [st_submission]. change (rs_status (st_submission st) = SubmittedToL1) in Hsub. cbn. by rewrite Hsub.
Qed.

Lemma persist_step {B} P st (k : unit -> ST OperatorState B) R (E : OperatorState -> Prop) :
  Grows P -> (forall tr, P tr -> recorded st tr) -> (forall s, told P s -> E s) ->
  triple (told P) (k tt) R E -> triple (told P) (persist_submission outside st ≫= k) R E.
Proof.
  intros HP Hr HE Hk. apply (triple_bind _ (fun _ => told P)); [|intros []; exact Hk].
  eapply triple_conseq; [by apply (persist_ok P)|done|done|exact HE].
Qed.

Lemma learns_load id :
  learns (load_stored_submission outside id) (fun st tr => rs_id (st_submission st) = id /\ recorded st tr).
Proof.
  eapply learns_then; [apply learns_ask|]. intros _ P HP s [Ho Hp].
  unfold mbind, ST_bind, reads. destruct (os_files s !! id) as [st|] eqn:Est; [|by split].
  destruct (op_files _ Ho _ _ Est) as [Hid (req & Hin & Hr)]. split; [done|]. split; [exact Hp|].
  split; [exact Hid|]. exists req. split; [done|]. by apply recorded_align.
Qed.

(** ** Publishing a payload *)

(** A submission whose payload is published up to [rest]. *)
Record progress (req : SubmitRollupMessageReq) (st : StoredSubmission) (rest : bytes)
    (tr : list OpEffect) : Prop := {
  pg_request : of_request req (st_submission st);
  pg_payload : st_payload st = Some (smr_payload req);
  pg_status : rs_status (st_submission st) = PendingDal;
  pg_live : live req (st_submission st);
  pg_chunks : laid_out req (rs_dal_chunks (st_submission st)) rest tr;
  pg_attempts : Forall (fun a => 1 <= a <= MAX_DAL_CHUNK_ATTEMPTS) (st_chunk_attempts st)
}.

#[local] Instance grows_progress req st rest : Grows (progress req st rest).
Proof. intros tr e [? ? ? ? Hc ?]. constructor; try done. by apply grows_laid_out. Qed.

Lemma progress_recorded req st rest tr : req ∈ reqs -> progress req st rest tr -> recorded st tr.
Proof.
  intros Hin [Hr Hp Hs Hv Hc Ha]. exists req. split; [done|].
  constructor; [done|by left|by rewrite Hs|exists rest; split; [done|by rewrite Hs]|done|done|by rewrite Hs].
Qed.

Lemma publish_chunks_ok P req dal octez n total pieces st :
  Grows P -> req ∈ reqs -> Forall (fun c => c <> []) pieces ->
  triple (told (fun tr => P tr /\ progress req st (concat pieces) tr))
    (publish_chunks config outside dal octez n total pieces st)
    (fun st' => told (fun tr => P tr /\ progress req st' [] tr)) (told P).
Proof.
  intros HP Hin Hne. revert st. induction Hne as [|piece pieces Hp Hne IH]; intros st; cbn [publish_chunks].
  { by apply triple_ret. }
  eapply learn_step; [apply grows_and; [done|apply _]|by apply learns_publish_chunk| |].
  { by weaken; intros []. }
  intros c. cbv zeta. set (st' := st_with_submission _ (st_with_attempts _ _)).
  assert (forall tr, progress req st (concat (piece :: pieces)) tr -> published_as c piece tr ->
    progress req st' (concat pieces) tr) as Hstep.
  { intros tr [Hr Hpay Hs Hv (ps & Hl & E) Ha] Hpub. constructor; try done.
    - exists (ps ++ [piece]). split.
      + apply Forall2_app; [exact Hl|]. constructor; [exact Hpub|constructor].
      + rewrite E, concat_app. cbn [concat]. by rewrite app_nil_r, <-app_assoc.
    - apply Forall_app. split; [exact Ha|]. constructor; [unfold MAX_DAL_CHUNK_ATTEMPTS; lia|constructor]. }
  apply (told_pre (fun tr => P tr /\ progress req st' (concat pieces) tr)).
  { intros tr [[Hp' Hg] Hc]. split; [exact Hp'|by apply Hstep]. }
  apply persist_step; [apply grows_and; [done|apply _]| | |apply IH].
  - intros tr [_ Hg]. by eapply progress_recorded.
  - by weaken; intros [].
Qed.

Lemma sum_lengths_laid_out l pieces tr :
  Forall2 (fun c piece => published_as c piece tr) l pieces ->
  N.of_nat (length (concat pieces)) < usize_limit ->
  sum_lengths l = N.of_nat (length (concat pieces)).
Proof.
  induction 1 as [|c piece l pieces (_ & Hc & _) Hl IH]; intros Hlt; [done|].
  cbn [concat] in *. rewrite length_app in *. unfold sum_lengths. cbn [foldr]. fold (sum_lengths l).
  rewrite Hc, IH by lia. rewrite N.mod_small; lia.
Qed.

Hypothesis sizes : Forall (fun req => N.of_nat (length (smr_payload req)) < usize_limit) reqs.

Lemma request_size req : req ∈ reqs -> N.of_nat (length (smr_payload req)) < usize_limit.
Proof. intros Hin. by apply (proj1 (Forall_forall _ _) sizes). Qed.

Lemma resume_ok P req st rest :
  Grows P -> req ∈ reqs ->
  triple (told (fun tr => P tr /\ progress req st rest tr)) (resume_pending_dal_submission config outside st)
    (fun st' => told (fun tr => P tr /\ recorded st' tr)) (told P).
Proof.
  intros HP Hin. unfold resume_pending_dal_submission.
  assert (forall s, told (fun tr => P tr /\ progress req st rest tr) s -> told P s) as HE
    by (weaken; by intros []).
  intros s Hs.
  destruct (decide _) as [Hne|_]; [by destruct (pg_live _ _ _ _ (proj2 (proj2 Hs))) as [? _]|]. revert s Hs.
  assert (Grows (fun tr => P tr /\ progress req st rest tr)) as HG by (apply grows_and; [done|apply _]).
  apply lift_step; [exact HE|]. intros dal _.
  apply lift_step; [exact HE|]. intros payload Hpay.
  eapply skip_step; [exact HG|apply learns_parameters|exact HE|]. intros protocol.
  apply lift_step; [exact HE|]. intros [] _. cbv zeta.
  apply lift_step; [exact HE|]. intros [] _.
  apply lift_step; [exact HE|]. intros octez _.
  apply lift_step; [exact HE|]. intros [] Hsize%fail_if_Ok%N.eqb_neq.
  apply lift_step; [exact HE|]. intros [] _.
  set (size := N.to_nat _) in *. set (published := N.to_nat (sum_lengths _)).
  assert (forall tr, P tr /\ progress req st rest tr ->
    P tr /\ progress req st (concat (chunks size (drop published payload))) tr) as Hcut.
  { intros tr [Hp Hg]. split; [exact Hp|]. pose proof (pg_payload _ _ _ _ Hg) as Epay. rewrite Epay in Hpay.
    injection Hpay as <-. destruct (pg_chunks _ _ _ _ Hg) as (ps & Hl & E).
    rewrite concat_chunks by (unfold size; lia).
    assert (published = length (concat ps)) as ->.
    { unfold published. erewrite sum_lengths_laid_out; [apply Nat2N.id|exact Hl|].
      pose proof (request_size req Hin) as Hlt. rewrite E, length_app in Hlt. lia. }
    rewrite E, drop_app_length. exact Hg. }
  eapply told_pre; [exact Hcut|].
  eapply triple_bind; [apply publish_chunks_ok; [done..|apply chunks_nonempty; unfold size; lia]|].
  intros st'. cbv beta.
  apply lift_step; [weaken; by intros []|]. intros sub Hsub. apply triple_ret. weaken. intros [Hp Hg].
  split; [exact Hp|]. exists req. split; [exact Hin|].
  destruct Hg as [(Hk & Ha & Hh & Hn) Hpay' Hs Hv (ps & Hl & E) Hat].
  unfold update_submission_commitment_summary in Hsub. apply bind_Ok in Hsub as (first & _ & [= <-]).
  constructor; try done; cbn; [by left|]. exists []. split; [by exists ps|done].
Qed.

(** ** Attestation *)

Lemma learns_statuses dal idx l acc :
  learns (chunk_statuses outside dal idx l acc)
    (fun r tr => ss_retry r = [] -> ss_waiting r = [] ->
       ss_retry acc = [] /\ ss_waiting acc = [] /\ Forall (fun c => attested c tr) l).
Proof.
  revert idx acc. induction l as [|c l IH]; intros idx acc; cbn [chunk_statuses].
  { by apply learns_ret. }
  eapply learns_bind; [apply learns_status|intros ?; grow|]. intros status. cbv zeta.
  eapply learns_conseq; [apply IH|]. cbn [ss_retry ss_waiting]. intros r tr Hr Hs Hr1 Hr2.
  destruct (Hr Hr1 Hr2) as (E1 & E2 & Hall). clear Hr.
  destruct (decide (status = "unattested")) as [_|_]; [by apply app_eq_nil in E1 as [_ ?]|].
  destruct (decide (status = "attested")) as [->|_]; [|by apply app_eq_nil in E2 as [_ ?]].
  by repeat split; [| |constructor].
Qed.

Lemma stale_chunks_spec head_level l waiting stale wait :
  stale_chunks head_level l waiting = Ok (stale, wait) -> stale = [] -> wait = false -> waiting = [].
Proof.
  destruct waiting as [|idx waiting]; [done|]. cbn [stale_chunks]. cbv zeta. intros Hs.
  apply bind_Ok in Hs as (c & _ & Hs). apply bind_Ok in Hs as ([retry wait'] & _ & Hs).
  by destruct (_ <=? _)%Z; injection Hs as <- <-.
Qed.

Lemma learns_waiting l waiting :
  learns (check_waiting config outside l waiting)
    (fun '(stale, wait) _ => stale = [] -> wait = false -> waiting = []).
Proof.
  unfold check_waiting. destruct waiting as [|idx waiting]; [by apply learns_ret|].
  destruct (oc_octez_node_endpoint config) as [octez|]; [|by apply learns_ret].
  eapply learns_then; [apply learns_attempt, learns_head_level|]. intros [head_level|e]; [|by apply learns_ret].
  eapply learns_conseq; [apply learns_lift|]. intros [stale wait] _. apply stale_chunks_spec.
Qed.

Lemma chunk_bytes_spec req sub pieces rest tr idx b :
  req ∈ reqs -> Forall2 (fun c piece => published_as c piece tr) (rs_dal_chunks sub) pieces ->
  smr_payload req = concat pieces ++ rest ->
  submission_chunk_bytes (smr_payload req) sub idx = Ok b ->
  exists c, rs_dal_chunks sub !! idx = Some c /\ pieces !! idx = Some b /\ published_as c b tr.
Proof.
  intros Hin Hl E Hb. pose proof (request_size req Hin) as Hlt. rewrite E, length_app in Hlt.
  unfold submission_chunk_bytes in Hb. apply seq_Ok in Hb as [_ Hb]. cbv zeta in Hb.
  apply bind_Ok in Hb as (c & Hc%index_at_Ok & Hb). apply bind_Ok in Hb as (end_ & _ & Hb).
  apply seq_Ok in Hb as [_ [= <-]].
  destruct (Forall2_lookup_l _ _ _ _ _ Hl Hc) as (piece & Hp & Hpub). exists c. split; [done|].
  assert (take (N.to_nat (dc_payload_len c))
    (drop (N.to_nat (sum_lengths (take idx (rs_dal_chunks sub)))) (smr_payload req)) = piece) as ->; [|done].
  apply take_drop_middle in Hp as Epc. destruct Hpub as (_ & -> & _). rewrite Nat2N.id.
  assert (sum_lengths (take idx (rs_dal_chunks sub)) = N.of_nat (length (concat (take idx pieces)))) as ->.
  { apply sum_lengths_laid_out with tr; [by apply Forall2_take|].
    rewrite <-Epc, concat_app, length_app in Hlt. lia. }
  assert (smr_payload req = concat (take idx pieces) ++ piece ++ concat (drop (S idx) pieces) ++ rest) as ->.
  { rewrite E. rewrite <-Epc at 1. rewrite concat_app. cbn [concat]. by rewrite <-!app_assoc. }
  by rewrite Nat2N.id, drop_app_length, take_app_length.
Qed.

(** ** Republishing *)

(** A submission whose payload is all published. *)
Record complete (req : SubmitRollupMessageReq) (st : StoredSubmission) (tr : list OpEffect) : Prop := {
  cp_request : of_request req (st_submission st);
  cp_payload : st_payload st = Some (smr_payload req);
  cp_live : live req (st_submission st);
  cp_chunks : laid_out req (rs_dal_chunks (st_submission st)) [] tr;
  cp_attempts : Forall (fun a => 1 <= a <= MAX_DAL_CHUNK_ATTEMPTS) (st_chunk_attempts st)
}.

#[local] Instance grows_complete req st : Grows (complete req st).
Proof. intros tr e [? ? ? Hc ?]. constructor; try done. by apply grows_laid_out. Qed.

Lemma complete_recorded req st tr f :
  req ∈ reqs -> complete req st tr -> rs_status (f (st_submission st)) <> Attested ->
  (of_request req (st_submission st) -> of_request req (f (st_submission st))) ->
  rs_transport (f (st_submission st)) = rs_transport (st_submission st) ->
  rs_dal_chunks (f (st_submission st)) = rs_dal_chunks (st_submission st) ->
  (rs_status (f (st_submission st)) = SubmittedToL1 -> sent req tr) ->
  recorded (st_with_submission f st) tr.
Proof.
  intros Hin [Hr Hp [Ht Hm] Hc Ha] Hne Hf1 Hf2 Hf3 Hse. exists req. split; [done|].
  constructor; cbn [st_with_submission st_submission st_payload st_chunk_attempts].
  - by apply Hf1.
  - by left.
  - done.
  - exists []. by rewrite Hf3.
  - intros _. split; [by rewrite Hf2|done].
  - done.
  - exact Hse.
Qed.

(** A chunk replaced by another publication of its bytes. *)
Lemma complete_replace req st idx b c attempts tr :
  req ∈ reqs -> complete req st tr ->
  submission_chunk_bytes (smr_payload req) (st_submission st) idx = Ok b ->
  published_as c b tr -> 1 <= attempts <= MAX_DAL_CHUNK_ATTEMPTS ->
  complete req (st_with_attempts (<[idx := attempts]> (st_chunk_attempts st))
    (st_with_submission (fun sub => rs_with_chunks (<[idx := c]> (rs_dal_chunks sub)) sub) st)) tr.
Proof.
  intros Hin [Hr Hp Hv (pieces & Hl & E) Ha] Hb Hc Hat.
  destruct (chunk_bytes_spec _ _ _ _ _ _ _ Hin Hl E Hb) as (_ & _ & Hpc & _).
  constructor; try done.
  - exists pieces. split; [|exact E]. cbn. rewrite <-(list_insert_id pieces idx b Hpc).
    by apply Forall2_insert.
  - by apply Forall_insert.
Qed.

Lemma chunk_bytes_nonempty req st idx b tr :
  req ∈ reqs -> complete req st tr ->
  submission_chunk_bytes (smr_payload req) (st_submission st) idx = Ok b -> b <> [].
Proof.
  intros Hin [_ _ _ (pieces & Hl & E) _] Hb.
  by destruct (chunk_bytes_spec _ _ _ _ _ _ _ Hin Hl E Hb) as (_ & _ & _ & Hne & _).
Qed.

Lemma republish_ok P req lines retry st out :
  Grows P -> req ∈ reqs ->
  triple (told (fun tr => P tr /\ complete req st tr))
    (republish config outside (smr_payload req) lines retry st out)
    (fun '(st', r) => told (fun tr => P tr /\
       match r with None => recorded st' tr | Some _ => complete req st' tr end)) (told P).
Proof.
  intros HP Hin. revert st out. induction retry as [|[idx reason] retry IH]; intros st out; cbn [republish].
  { by apply triple_ret. }
  cbv zeta. set (attempts := default 1 _). destruct (_ <=? attempts) eqn:Ea.
  { apply triple_ret. weaken. intros [Hp Hc]. split; [done|]. by apply (complete_recorded req). }
  apply N.leb_gt in Ea.
  assert (forall s, told (fun tr => P tr /\ complete req st tr) s -> told P s) as HE by (weaken; by intros []).
  assert (Grows (fun tr => P tr /\ complete req st tr)) as HG by (apply grows_and; [done|apply _]).
  apply lift_step; [exact HE|]. intros b Hb.
  assert (forall s, told (fun tr => P tr /\ complete req st tr) s -> b <> []) as Hne
    by (intros s [_ [_ Hc]]; by eapply chunk_bytes_nonempty).
  intros s Hs. specialize (Hne s Hs). revert s Hs.
  eapply learn_step; [exact HG|by apply learns_publish|exact HE|]. intros c. cbv beta.
  do 2 (apply lift_step; [by weaken; intros [[]]|]; intros ? _).
  eapply told_pre; [|apply IH]. intros tr [[Hp Hc] Hpub]. split; [exact Hp|].
  eapply complete_replace; [done..|]. lia.
Qed.

(** ** The pointer *)

Context `{!HexLaws}.

Lemma decode_felt_hex_str f : decode_felt_hex (hex_str f) = Ok f.
Proof.
  unfold decode_felt_hex. rewrite str_bytes_hex_str, hex_decode_encode. cbn [map_err mbind result_bind].
  rewrite length_F_bytes. cbn [Nat.eqb negb fail_if mbind result_bind]. by rewrite mkF_F_bytes.
Qed.

Lemma pointer_spec req st pointer :
  of_request req (st_submission st) -> dal_pointer_from_submission (st_submission st) = Ok pointer ->
  exists pointers, map_result chunk_pointer (rs_dal_chunks (st_submission st)) = Ok pointers /\
    pointer = {| kdp_kind := dal_payload_kind (smr_kind req); kdp_chunks := pointers;
                 kdp_payload_len := N.of_nat (length (smr_payload req));
                 kdp_payload_hash := hash (smr_payload req) |}.
Proof.
  intros (Ek & _ & Eh & El). unfold dal_pointer_from_submission. rewrite Ek, Eh, El.
  cbn [ok_or mbind result_bind]. rewrite decode_felt_hex_str. cbn [mbind result_bind]. intros Hp.
  apply bind_Ok in Hp as (pointers & Hm & Hp). apply bind_Ok in Hp as (len & Hlen & [= <-]).
  exists pointers. split; [done|]. unfold to_u64 in Hlen.
  destruct (_ <? _); [by injection Hlen as <-|discriminate].
Qed.

Lemma inject_ok P contents wait :
  Grows P -> (forall tr, P tr -> justified reqs contents tr) ->
  triple (told P) (inject_direct_message config outside contents wait)
    (fun _ => told (fun tr => P tr /\ Injected contents ∈ tr)) (told P).
Proof.
  intros HP Hj. unfold inject_direct_message.
  eapply skip_step; [done|apply learns_ask|done|]. intros file.
  eapply skip_step; [done|apply learns_client|done|]. intros output.
  eapply triple_bind; [apply tell_ok; [done|]|].
  - intros c [= <-]. exact Hj.
  - intros []. by apply triple_ret.
Qed.

Lemma inject_pointer_ok P req lines st :
  Grows P -> req ∈ reqs -> rs_dal_chunks (st_submission st) <> [] ->
  triple (told (fun tr => P tr /\ complete req st tr /\
            Forall (fun c => attested c tr) (rs_dal_chunks (st_submission st))))
    (inject_pointer config outside lines st)
    (fun st' => told (fun tr => P tr /\ recorded st' tr)) (told P).
Proof.
  intros HP Hin Hne. set (P' := fun tr => _). unfold inject_pointer. cbv zeta.
  assert (Grows P') as HG by (unfold P'; grow).
  assert (forall s, told P' s -> told P s) as HE by (weaken; by intros []).
  apply lift_step; [exact HE|]. intros pointer Hptr.
  apply lift_step; [exact HE|]. intros payload Hpay.
  apply lift_step; [exact HE|]. intros contents Hcon.
  assert (forall tr, P' tr -> pointer_contents req contents tr) as Hcontents.
  { intros tr (_ & [Hr _ [_ [m Hm]] (pieces & Hl & E) _] & Hatt).
    destruct (pointer_spec req (st_with_submission (rs_with_status Attested) st) pointer Hr Hptr)
      as (pointers & Hmap & ->).
    exists m, (rs_dal_chunks (st_submission st)), pieces, pointers, payload.
    rewrite app_nil_r in E. destruct Hr as (_ & Ea & _).
    split; [done|]. split; [done|]. split; [done|]. split; [done|].
    split; [intros ->; by apply Forall2_nil_inv_r in Hl|]. split; [done|]. split; [done|].
    rewrite <-Ea. exact Hcon. }
  apply (triple_bind _ (fun _ => told (fun tr => P' tr /\ Injected contents ∈ tr))).
  - eapply triple_conseq; [apply (inject_ok P'); [exact HG|]|done|done|exact HE].
    intros tr Hp. exists req. split; [done|]. right. by apply Hcontents.
  - intros output. apply triple_ret. weaken. intros [Hp Hi]. split; [apply Hp|].
    unfold st_with_submission. cbn [st_submission st_payload st_chunk_attempts].
    apply (complete_recorded req st tr (fun sub => rs_with_detail _
      (rs_with_operation_hash _ (rs_with_status SubmittedToL1 (rs_with_status Attested sub))))); try done.
    + apply Hp.
    + intros _. exists contents. split; [exact Hi|]. right. by apply Hcontents.
Qed.

Lemma align_complete req st tr : complete req st tr -> complete req (align_chunk_attempts st) tr.
Proof. intros [? ? ? ? ?]. constructor; try done. by apply Forall_attempts. Qed.

Lemma advance_published_ok P req dal st :
  Grows P -> req ∈ reqs -> rs_dal_chunks (st_submission st) <> [] ->
  triple (told (fun tr => P tr /\ complete req st tr)) (advance_published config outside dal st)
    (fun st' => told (fun tr => P tr /\ recorded st' tr)) (told P).
Proof.
  intros HP Hin Hne. unfold advance_published. cbv zeta.
  apply (told_pre (fun tr => P tr /\ complete req (align_chunk_attempts st) tr)).
  { intros tr [Hp Hc]. split; [done|by apply align_complete]. }
  assert (rs_dal_chunks (st_submission (align_chunk_attempts st)) <> []) as Hne' by exact Hne.
  revert Hne'. generalize (align_chunk_attempts st). clear st Hne. intros st Hne.
  eapply learn_step; [apply grows_and; [done|apply _]|apply learns_statuses|weaken; by intros []|].
  intros statuses. cbv beta.
  eapply learn_step; [grow|apply learns_waiting|weaken; by intros [[]]|].
  intros [stale wait]. destruct (ss_retry statuses ++ stale) as [|r retry] eqn:Er.
  - apply app_eq_nil in Er as [Er ->]. destruct wait.
    + apply triple_ret. weaken. intros [[[Hp Hc] _] _]. split; [exact Hp|].
      by apply (complete_recorded req).
    + eapply told_pre; [|by apply inject_pointer_ok].
      intros tr [[[Hp Hc] Hst] Hw]. split; [exact Hp|]. split; [exact Hc|].
      by apply Hst; [|apply Hw].
  - apply (told_pre (fun tr => P tr /\ complete req st tr)); [by intros tr [[]]|].
    assert (forall s, told (fun tr => P tr /\ complete req st tr) s -> told P s) as HE by (weaken; by intros []).
    apply lift_step; [exact HE|]. intros payload Hpay s Hs.
    assert (payload = smr_payload req) as ->.
    { pose proof (cp_payload _ _ _ (proj2 (proj2 Hs))) as E. rewrite E in Hpay. by injection Hpay. }
    revert s Hs. eapply triple_bind; [by apply republish_ok|]. clear st Hne HE Hpay.
    intros [st [lines|]]; cbv beta iota; [|by apply triple_ret].
    apply lift_step; [weaken; by intros []|]. intros sub Hsub. apply triple_ret. weaken. intros [Hp Hc].
    split; [exact Hp|]. unfold update_submission_commitment_summary in Hsub.
    apply bind_Ok in Hsub as (first & _ & [= <-]).
    by apply (complete_recorded req).
Qed.

Lemma maybe_advance_ok P st :
  Grows P ->
  triple (told (fun tr => P tr /\ recorded st tr)) (maybe_advance_submission config outside st)
    (fun st' => told (fun tr => P tr /\ recorded st' tr)) (told P).
Proof.
  intros HP s Hs. pose proof Hs as [_ [_ (req & Hin & _)]]. destruct Hs as [Ho [Hp (req' & Hin' & Hr)]].
  clear req Hin. rename req' into req, Hin' into Hin. unfold maybe_advance_submission.
  pose proof (rf_chunks _ _ _ Hr) as (rest & Hl & Hrest). pose proof (rf_live _ _ _ Hr) as Hv.
  destruct (rf_payload _ _ _ Hr) as [Hpay|[_ Hst]];
    [|destruct (rs_status _); try discriminate Hst; by (split; [|split; [|exists req]])].
  destruct (rs_status (st_submission st)) eqn:Est.
  - apply (resume_ok P req st rest HP Hin). split; [done|]. split; [done|].
    destruct Hr. constructor; try done. by apply Hv.
  - destruct (_ =? 0)%nat eqn:En; [by (split; [|split; [|exists req]])|].
    destruct (oc_dal_node_endpoint config) as [dal|]; [|by (split; [|split; [|exists req]])].
    apply (advance_published_ok P req dal st HP Hin).
    + intros E. by rewrite E in En.
    + split; [done|]. split; [done|]. rewrite Hrest in Hl by done. destruct Hr. constructor; try done. by apply Hv.
  - by destruct (rf_status _ _ _ Hr).
  - by (split; [|split; [|exists req]]).
  - by (split; [|split; [|exists req]]).
Qed.

(** ** Requests *)

Lemma attempt_step {A B} P (m : ST OperatorState A) (Q : A -> list OpEffect -> Prop) (k : A + string -> ST OperatorState B) R E :
  triple (told P) m (fun a => told (fun tr => P tr /\ Q a tr)) (told P) -> (forall s, told P s -> E s) ->
  (forall a, triple (told (fun tr => P tr /\ Q a tr)) (k (inl a)) R E) ->
  (forall e, triple (told P) (k (inr e)) R E) ->
  triple (told P) (attempt m ≫= k) R E.
Proof.
  intros Hm HE Hl Hr s Hs. specialize (Hm s Hs). unfold mbind, ST_bind, attempt.
  destruct (m s) as [s' [a|e|w]]; [by apply Hl|by apply Hr|by apply HE].
Qed.

Lemma learns_id : learns (next_submission_id outside) (fun _ _ => True).
Proof. by apply learns_quiet. Qed.

(** A new submission, whatever its status and its texts. *)
Lemma new_recorded req id f tr :
  req ∈ reqs -> of_request req (f (st_submission (new_submission id req))) ->
  rs_dal_chunks (f (st_submission (new_submission id req))) = [] ->
  is_pending (rs_status (f (st_submission (new_submission id req)))) = false ->
  (rs_status (f (st_submission (new_submission id req))) = SubmittedToL1 -> sent req tr) ->
  recorded (st_with_submission f (new_submission id req)) tr.
Proof.
  intros Hin Hr Hc Hs Hse. exists req. split; [done|]. constructor; cbn [st_with_submission st_submission st_payload st_chunk_attempts new_submission].
  - exact Hr.
  - by left.
  - intros E. unfold new_submission in Hs. cbn in Hs. by rewrite E in Hs.
  - exists (smr_payload req). split; [|intros E; unfold new_submission in Hs; cbn in Hs; by rewrite E in Hs].
    exists []. unfold new_submission in Hc. cbn in Hc. by rewrite Hc.
  - unfold new_submission in Hs. cbn in Hs. by rewrite Hs.
  - constructor.
  - exact Hse.
Qed.

Lemma submit_directly_ok P req id contents :
  Grows P -> req ∈ reqs -> direct_contents req contents ->
  triple (told P) (submit_directly config outside (new_submission id req) contents)
    (fun sub => told (fun tr => P tr /\ reported sub tr)) (told P).
Proof.
  intros HP Hin Hd. unfold submit_directly.
  apply attempt_step with (Q := fun _ tr => Injected contents ∈ tr); [|done| |].
  - apply (inject_ok P); [done|]. intros tr _. exists req. split; [done|by left].
  - intros output. cbv zeta.
    set (f := fun sub : RollupSubmission => _ : RollupSubmission).
    assert (forall tr, P tr /\ Injected contents ∈ tr -> recorded (st_with_submission f (new_submission id req)) tr)
      as Hrec.
    { intros tr [_ Hi]. apply new_recorded; try done. intros _. exists contents. split; [done|by left]. }
    apply persist_step; [grow|exact Hrec|by weaken; intros []|].
    apply triple_ret. weaken. intros Hp. split; [apply Hp|]. by apply recorded_reported, Hrec.
  - intros err. cbv zeta. apply persist_step; [exact HP| |done|].
    + intros tr _. by apply new_recorded.
    + intros s Hs. exact Hs.
Qed.

Lemma recorded_failed err st tr :
  recorded st tr ->
  recorded (st_with_submission (fun sub => rs_with_detail err (rs_with_status Failed sub)) st) tr.
Proof.
  intros (req & Hin & [Hr Hp Hs (rest & Hl & _) Hv Ha _]). exists req. split; [done|]. constructor; try done.
  - destruct Hp as [Hp|[Hp _]]; [by left|by right].
  - by exists rest.
Qed.

Lemma submit_through_dal_ok P st :
  Grows P ->
  triple (told (fun tr => P tr /\ recorded st tr)) (submit_through_dal config outside st)
    (fun sub => told (fun tr => P tr /\ reported sub tr)) (told P).
Proof.
  intros HP. unfold submit_through_dal. set (P' := fun tr => _).
  assert (Grows P') as HG by (unfold P'; grow).
  assert (forall s, told P' s -> told P s) as HE by (weaken; by intros []).
  apply persist_step; [exact HG|by intros tr []|exact HE|].
  apply attempt_step with (Q := recorded); [| exact HE| |].
  - pose proof (maybe_advance_ok P' st HG) as Hm.
    eapply triple_conseq; [exact Hm| |done|done]. weaken. intros Hp. split; [exact Hp|apply Hp].
  - intros st'. apply persist_step; [unfold P'; grow|by intros tr []|by weaken; intros [[]]|].
    apply triple_ret. weaken. intros [[Hp _] Hr]. split; [exact Hp|by apply recorded_reported].
  - intros err.
    assert (forall st' m, (forall tr, m tr -> P tr /\ recorded st' tr) -> Grows m ->
      triple (told m) (attempt (persist_submission outside (st_with_submission (fun sub =>
          rs_with_detail err (rs_with_status Failed sub)) st')) ;; lift (Err err) : ST OperatorState RollupSubmission)
        (fun sub => told (fun tr => P tr /\ reported sub tr)) (told P)) as Hfail.
    { intros st' m Hm Hgm.
      apply attempt_step with (Q := fun _ _ => True); [|weaken; by intros [? _]%Hm| |].
      - eapply triple_conseq; [apply (persist_ok m)|done|by intros _ s [Ho Hp]|done]; [done|].
        intros tr Hp. by apply recorded_failed, Hm.
      - intros _ s Hs. revert s Hs. weaken. by intros [[? _]%Hm _].
      - intros _ s Hs. revert s Hs. weaken. by intros [? _]%Hm. }
    apply attempt_step with (Q := fun st' tr => recorded st' tr); [|exact HE| |].
    + eapply triple_conseq; [apply (learns_load (rs_id (st_submission st)) P' HG)|done| |done].
      intros st'. weaken. by intros [Hp [_ Hr]].
    + intros st'. apply (Hfail st'); [|unfold P'; grow]. intros tr [[Hp _] Hr]. by split.
    + intros _. apply (Hfail st); [|exact HG]. done.
Qed.

Lemma process_ok P req :
  Grows P -> req ∈ reqs ->
  triple (told P) (process_submission config outside req)
    (fun sub => told (fun tr => P tr /\ reported sub tr)) (told P).
Proof.
  intros HP Hin. unfold process_submission.
  eapply skip_step; [exact HP|apply learns_id|done|]. intros id.
  apply lift_step; [done|]. intros contents Hc. cbv zeta.
  destruct (_ <=? _) eqn:Es.
  { apply submit_directly_ok; [done..|]. split; [exact Hc|by apply N.leb_le]. }
  destruct (decide _) as [_|_].
  { apply persist_step; [done|intros tr _; by apply new_recorded|done|].
    apply triple_ret. weaken. intros Hp. split; [exact Hp|]. by exists req. }
  apply lift_step; [done|]. intros m Hm. apply lift_step; [done|]. intros [] Hfee.
  eapply told_pre; [|by apply submit_through_dal_ok]. intros tr Hp. split; [exact Hp|].
  exists req. split; [done|]. constructor; try done; [by left|exists (smr_payload req)|].
  - split; [by exists []|done].
  - intros _. split; [done|]. exists m. split; [exact Hm|]. intros Hk. by rewrite Hk in Hfee.
Qed.

(** ** The reconciler *)

Lemma reconcile_one_ok id summary :
  keeps op_ok (reconcile_one config outside id summary).
Proof.
  assert (forall s, op_ok s <-> told (fun _ => True) s) as Ht by (intros s; unfold told; tauto).
  intros s Hs. apply Ht in Hs. revert s Hs.
  refine (_ : triple _ _ (fun _ => op_ok) op_ok). unfold reconcile_one. cbv zeta.
  apply attempt_step with (Q := recorded).
  - eapply triple_conseq; [apply (learns_load id (fun _ => True)), _|done| |done].
    intros st. weaken. by intros (_ & _ & Hr).
  - by intros s [].
  - intros st. destruct (is_pending _); [|by intros s []].
    apply attempt_step with (Q := recorded).
    + eapply triple_conseq; [apply (maybe_advance_ok (fun tr => True /\ recorded st tr)); grow| |done|done].
      weaken. by intros [].
    + by intros s [].
    + intros st'. destruct (decide _); [by intros s []|].
      apply persist_step; [grow|by intros tr []|by intros s []|by intros s []].
    + by intros e s [].
  - by intros e s [].
Qed.

Lemma reconcile_ok : keeps op_ok (reconcile_pending_submissions config outside).
Proof.
  unfold reconcile_pending_submissions, submission_paths.
  assert (forall ids summary, keeps op_ok (reconcile_all config outside ids summary)) as Hall.
  { induction ids as [|id ids IH]; intros summary; cbn [reconcile_all]; [apply keeps_ret|].
    apply keeps_bind; [apply reconcile_one_ok|apply IH]. }
  apply keeps_bind; [|intros ids; apply Hall]. apply keeps_bind; [|intros []; apply keeps_reads].
  intros s Hs. unfold ask.
  assert (op_ok (with_calls (S (os_calls s)) s)) as Hs' by by apply (op_ok_same s).
  by destruct (ou_list outside (os_calls s)).
Qed.
End Requests.

(** ** Histories *)

(** Requests, reads, ticks of the reconciler and restarts, one after another: the handlers
    and the reconciler hold the same lock, and a read does not write. *)
Inductive OpEvent :=
| ESubmit (header : option (option bytes)) (req : SubmitRollupMessageReq)
| EQuery (header : option (option bytes)) (id : string)
| ETick
| ERestart.

Variable join_error : string -> string.

Definition run_op_event (e : OpEvent) (s : OperatorState) : OperatorState :=
  match e with
  | ESubmit header req => fst (submit_rollup_message config outside join_error header req s)
  | EQuery header id => fst (get_rollup_submission config outside join_error header id s)
  | ETick => fst (reconcile_pending_submissions config outside s)
  | ERestart => {| os_files := os_files s; os_id_counter := 0; os_slot_counter := 0;
                   os_calls := os_calls s; os_trace := os_trace s |}
  end.

Definition run_op_events (events : list OpEvent) (s : OperatorState) : OperatorState :=
  foldl (fun s e => run_op_event e s) s events.

(** The requests that carried the operator's token. *)
Definition requests (events : list OpEvent) : list SubmitRollupMessageReq :=
  events ≫= fun e =>
    match e with
    | ESubmit header req => if require_bearer_auth config header then [] else [req]
    | _ => []
    end.

Definition fits_usize (req : SubmitRollupMessageReq) : Prop :=
  N.of_nat (length (smr_payload req)) < usize_limit.

Lemma op_ok_mono reqs reqs' s : reqs ⊆ reqs' -> op_ok reqs s -> op_ok reqs' s.
Proof.
  intros Hsub [Hf Hi]. constructor.
  - intros id st Hst. destruct (Hf id st Hst) as (Hid & req & Hin & Hr). split; [done|].
    exists req. split; [by apply Hsub|done].
  - intros c Hc. destruct (Hi c Hc) as (req & Hin & Hj). exists req. split; [by apply Hsub|done].
Qed.

Lemma run_op_event_ok `{!HexLaws} reqs e s :
  Forall fits_usize reqs -> requests [e] ⊆ reqs -> op_ok reqs s -> op_ok reqs (run_op_event e s).
Proof.
  intros Hfit Hsub Ho. assert (told reqs (fun _ => True) s) as Ht by done.
  destruct e as [header req|header id| |]; cbn [run_op_event].
  - unfold submit_rollup_message. unfold requests in Hsub. cbn in Hsub.
    destruct (require_bearer_auth config header); [done|].
    pose proof (process_ok reqs Hfit (fun _ => True) req _ ltac:(apply Hsub; left) s Ht) as Hp.
    by destruct (process_submission config outside req s) as [s' [a|x|w]]; destruct Hp.
  - unfold get_rollup_submission. destruct (require_bearer_auth config header); [done|].
    pose proof (learns_load reqs id (fun _ => True) _ s Ht) as Hp.
    by destruct (load_stored_submission outside id s) as [s' [a|x|w]]; destruct Hp.
  - apply (keeps_run _ _ s (reconcile_ok reqs Hfit) Ho).
  - by apply (op_ok_same reqs s).
Qed.

Definition first_state : OperatorState :=
  {| os_files := ∅; os_id_counter := 0; os_slot_counter := 0; os_calls := 0; os_trace := [] |}.

Lemma run_op_events_ok `{!HexLaws} events :
  Forall fits_usize (requests events) -> op_ok (requests events) (run_op_events events first_state).
Proof.
  intros Hfit. induction events as [|e events IH] using rev_ind.
  { constructor; [intros id st E|intros c E]; cbn in E; [by rewrite lookup_empty in E|by apply not_elem_of_nil in E]. }
  unfold run_op_events. rewrite foldl_app. cbn [foldl]. fold (run_op_events events first_state).
  assert (requests (events ++ [e]) = requests events ++ requests [e]) as E
    by (unfold requests; by rewrite bind_app).
  rewrite E in *. apply run_op_event_ok; [done|set_solver|].
  apply Forall_app in Hfit as [Hfit _]. apply op_ok_mono with (requests events); [set_solver|by apply IH].
Qed.
End Facts.
