(* ===== verification/OperatorDelivery.v ===== *)
(** * OperatorDelivery: what the kernel reads of a submission

    The operator's pointers against [Dal]: a kernel to which the data-availability layer
    serves what was attested reads back the message a request's payload is. *)

From S2P Require Import Prelude Felt Externals Types Recipients Hashing Notes CanonicalWire.
From S2P Require Import KernelWire Store Dal OperatorApi Operator OperatorFacts.

Local Open Scope N_scope.

(** ** The kernel's side *)

Section Kernel.
Context `{Blake2s, WireCodecs} {kernel_words : Target} {Hst : Type} `{!Host Hst}.
Variable debug_message : KernelInboxMessage -> string.

(** The kernel's view of the slots: what was posted under a commitment, published in a
    block and reported attested is revealed page by page, within the layer's limits. *)
Record dal_serves (tr : list OpEffect) (host : Hst) (params : DalParameters) : Prop := {
  ds_parameters : host_reveal_dal_parameters host = Ok params;
  ds_slot_size : dal_slot_size params < usize_limit;
  ds_page_size : 0 < dal_page_size params < usize_limit;
  ds_reveals : forall slot piece commitment proof output block level,
    Posted slot piece commitment proof ∈ tr -> Committed commitment proof slot output ∈ tr ->
    extract_block_hash output = Some block -> Header block level ∈ tr ->
    SlotStatus level slot "attested" ∈ tr ->
    (0 <= level < 2 ^ 31)%Z /\ slot < dal_number_of_slots params /\
    N.of_nat (length piece) <= dal_slot_size params /\
    N.of_nat (div_ceil (length piece) (N.to_nat (dal_page_size params))) <= 2 ^ 16 /\
    forall j page,
      chunks (N.to_nat (dal_page_size params)) (padded (N.to_nat (dal_page_size params)) piece) !! j = Some page ->
      host_reveal_dal_page host level slot (N.of_nat j) (dal_page_size params) = Ok page
}.

Lemma served_chunk tr host params c piece p :
  dal_serves tr host params -> published_as c piece tr -> attested c tr -> chunk_pointer c = Ok p ->
  published host (dal_number_of_slots params) (dal_slot_size params) (dal_page_size params) p piece.
Proof.
  intros Hs (Hne & Hlen & proof & output & block & Hp & Hc & Hb & Hh) Ha Hptr.
  destruct (ds_reveals _ _ _ Hs _ _ _ _ _ _ _ Hp Hc Hb Hh Ha) as (Hlv & Hsl & Hsz & Hpg & Hrev).
  unfold chunk_pointer in Hptr. apply seq_Ok in Hptr as [_ Hptr].
  apply bind_Ok in Hptr as (slot & Hslot%ok_or_Ok & Hptr).
  apply bind_Ok in Hptr as (len & Hl%ok_or_Ok & [= <-]). unfold to_u8 in Hslot. unfold to_u64 in Hl.
  destruct (_ <? 2 ^ 8); [injection Hslot as <-|discriminate].
  destruct (_ <? U64_LIMIT); [injection Hl as <-|discriminate].
  constructor; cbn [kdc_payload_len kdc_slot_index kdc_published_level]; try done; [lia|].
  intros j page Hj. rewrite Z2N.id by lia. by apply Hrev.
Qed.

Lemma pointer_read tr host params l pieces pointers kind m :
  32 <= usize_bits -> dal_serves tr host params ->
  Forall2 (fun c piece => published_as c piece tr) l pieces -> Forall (fun c => attested c tr) l ->
  map_result chunk_pointer l = Ok pointers -> pieces <> [] ->
  N.of_nat (length (concat pieces)) <= MAX_DAL_PAYLOAD_BYTES ->
  decode_kernel_inbox_message (concat pieces) = Ok m -> message_kind m = Some kind ->
  fetch_kernel_message_from_dal debug_message host
    {| kdp_kind := kind; kdp_chunks := pointers; kdp_payload_len := N.of_nat (length (concat pieces));
       kdp_payload_hash := hash (concat pieces) |} = Ok m.
Proof.
  intros Hw Hs Hpub Hatt Hptr Hne Hmax Hdec Hkind. apply map_result_Ok in Hptr.
  assert (Forall2 (published host (dal_number_of_slots params) (dal_slot_size params)
    (dal_page_size params)) pointers pieces) as Hall.
  { clear - Hs Hpub Hatt Hptr. revert pointers Hptr. induction Hpub as [|c piece l pieces Hc Hpub IH];
      intros pointers Hptr; inversion Hptr; subst; [constructor|].
    apply Forall_cons in Hatt as [Ha Hatt]. constructor; [by eapply served_chunk|by apply IH]. }
  pose proof (ds_page_size _ _ _ Hs) as [? ?].
  apply fetch_published with params; try done; [apply Hs|apply Hs|lia|].
  intros ->. by apply Forall2_nil_inv_l in Hall.
Qed.

(** What the kernel makes of a pointer. *)
Definition kernel_reads (host : Hst) (pointer : KernelDalPayloadPointer) : result KernelInboxMessage :=
  fetch_kernel_message_from_dal debug_message host pointer.
End Kernel.

(** ** The operator's side, whose target may be another *)

Section Delivery.
Context `{Blake2s, Hex, !HexLaws, MlKem, Aead, WireCodecs, Target, RollupFrames, OperatorJson}.
Context {Hst : Type} `{!Host Hst}.
Variables (config : OperatorConfig) (outside : Outside) (join_error : string -> string).
Variable debug_message : KernelInboxMessage -> string.

Lemma accepted_kind kind payload m :
  accepted config kind payload m ->
  decode_kernel_inbox_message payload = Ok m /\ message_kind m = Some (dal_payload_kind kind).
Proof.
  intros [Hd _]. unfold decode_and_validate_submission_payload in Hd.
  apply bind_Ok in Hd as (m' & Hm%map_err_Ok & Hd). apply seq_Ok in Hd as [Hk%fail_if_Ok Hd].
  apply seq_Ok in Hd as [_ [= ->]]. split; [exact Hm|]. apply negb_false_iff in Hk.
  by destruct kind, m.
Qed.

(** C13: Whatever the nodes, [octez-client] and the file system answer, however often
    they fail and the operator restarts, every message it puts in the inbox is a request's
    own message, or a pointer to the whole payload of a request with the operator's token,
    decoded and checked against the fee policy when it was accepted; and from that pointer
    every kernel served by the data-availability layer reads exactly the message checked. *)
Theorem operator_delivers (events : list OpEvent) (contents : bytes) :
  let tr := os_trace (run_op_events config outside join_error events first_state) in
  Forall fits_usize (requests config events) -> Injected contents ∈ tr ->
  exists req, req ∈ requests config events /\
    (direct_contents config req contents \/
     exists pointer payload m,
       encode_kernel_inbox_message (KIDalPointer pointer) = Ok payload /\
       encode_targeted_rollup_message (smr_rollup_address req) payload = Ok contents /\
       accepted config (smr_kind req) (smr_payload req) m /\
       kdp_payload_hash pointer = hash (smr_payload req) /\
       forall (words : Target) (host : Hst) (params : DalParameters),
         32 <= usize_bits (Target := words) -> dal_serves (kernel_words := words) tr host params ->
         N.of_nat (length (smr_payload req)) <= MAX_DAL_PAYLOAD_BYTES ->
         kernel_reads (kernel_words := words) debug_message host pointer = Ok m).
Proof.
  intros tr Hfit Hin. pose proof (run_op_events_ok config outside join_error events Hfit) as Ho.
  destruct (op_injected _ _ _ Ho contents Hin) as (req & Hreq & [Hd|Hp]); exists req; (split; [done|]).
  { by left. }
  right. destruct Hp as (m & l & pieces & pointers & payload & Hacc & Hpub & Hatt & E & Hne & Hmap & Henc & Hcon).
  eexists _, payload, m. split; [exact Henc|]. split; [exact Hcon|]. split; [exact Hacc|]. split; [done|].
  intros words host params Hw Hs Hmax. destruct (accepted_kind _ _ _ Hacc) as [Hdec Hkind].
  rewrite <-E in *. by apply (pointer_read debug_message tr host params l pieces).
Qed.
End Delivery.
