(* ===== verification/OperatorWitness.v ===== *)
(** * OperatorWitness: the operator at a concrete chain

    An unshield too large for the inbox, its fee note paying the operator's address, is
    published in chunks, attested and pointed at; a kernel served those slots reads it. *)

From S2P Require Import Prelude Felt Externals Concrete Types Recipients Hashing Binding Notes CanonicalWire.
From S2P Require Import KernelWire ConcreteWire Store Dal OperatorApi Operator OperatorFacts OperatorDelivery.

Local Open Scope N_scope.

#[local] Existing Instances toy_blake2s toy_hex toy_hex_laws toy_kem toy_aead host_target toy_wire.

#[local] Instance toy_frames : RollupFrames := {|
  smart_rollup_address := bytes;
  smart_rollup_from_b58check := fun s => Some (str_bytes s);
  targetted_bin_write := fun address contents => Ok (address ++ contents)
|}.

#[local] Instance toy_operator_json : OperatorJson := {|
  json_protocol_parameters := fun _ =>
    Ok {| dp_number_of_slots := 16; dp_cryptobox_parameters := {| dp_slot_size := 2048 |} |};
  json_slot_publish := fun b => Ok {| sp_commitment := bytes_str b; sp_commitment_proof := "proof" |};
  json_slot_status := fun _ => Ok (StatusPlain "attested");
  json_block_header := fun _ => Ok {| bh_level := 100 |}
|}.

(** Commitments are told apart by the number of the call. *)
Definition chain : Outside := {|
  ou_get := fun _ _ => UreqResponse (Ok []);
  ou_post := fun n _ _ => UreqResponse (Ok (str_bytes (show_nat n)));
  ou_octez := fun _ _ => CommandRan true "0"
    (str_bytes "Operation hash is 'oo1234567890123456789012' in block BLockHash12345678901234") [];
  ou_temp := fun _ => Ok "message.bin"%string;
  ou_now_millis := fun _ => 1700000000000;
  ou_read := fun _ => Ok tt; ou_list := fun _ => Ok tt; ou_write := fun _ => Ok tt
|}.

Definition fee_address : PaymentAddress := {|
  pa_d_j := felt_n 1; pa_auth_root := felt_n 2; pa_auth_pub_seed := felt_n 3; pa_nk_tag := felt_n 4;
  pa_ek_v := []; pa_ek_d := []
|}.

Definition fee_policy : OperatorDalFeePolicy := {|
  fp_amount := 7; fp_incoming_seed := felt_n 5; fp_address_index := 0; fp_address := fee_address |}.

Definition operator_config : OperatorConfig := {|
  oc_source_alias := "alice"; oc_bearer_token := "secret"; oc_state_dir := "operator-state";
  oc_direct_max_message_bytes := 1024; oc_dal_max_chunk_bytes := None;
  oc_octez_client_bin := "octez-client"; oc_octez_client_dir := None;
  oc_octez_node_endpoint := Some "http://node"%string; oc_dal_node_endpoint := Some "http://dal/"%string;
  oc_octez_protocol := None; oc_dal_fee_policy := Some fee_policy; oc_var := fun _ => None
|}.

Definition fee_note : EncryptedNote :=
  let '(ek_v, _, ek_d, _) := derive_kem_keys (felt_n 5) 0 in
  match encrypt_note_deterministic 7 (felt_n 6) None ek_v ek_d (felt_n 8) (felt_n 9) with
  | Ok enc => enc
  | _ => sample_enc
  end.

Definition unshield_payload : bytes :=
  match encode_kernel_inbox_message (KIUnshield {|
    kur_root := felt_n 10; kur_nullifiers := [felt_n 11]; kur_v_pub := 50; kur_fee := 100000;
    kur_recipient := "tz1abc"; kur_cm_change := ZERO; kur_enc_change := None;
    kur_cm_fee := commit (felt_n 1) 7 (derive_rcm (felt_n 6)) (owner_tag (felt_n 2) (felt_n 3) (felt_n 4));
    kur_enc_fee := fee_note;
    kur_proof := {| ksp_proof_bytes := [Byte.x01]; ksp_output_preimage := [] |} |}) with
  | Ok b => b
  | _ => []
  end.

Definition unshield_request : SubmitRollupMessageReq := {|
  smr_kind := SKUnshield; smr_rollup_address := "sr1"; smr_payload := unshield_payload |}.

Definition operator_events : list OpEvent :=
  [ESubmit (Some (Some (str_bytes "Bearer secret"))) unshield_request; ETick; ETick].

Definition final_state : OperatorState :=
  run_op_events operator_config chain id operator_events first_state.

Definition injected (tr : list OpEffect) : list bytes :=
  omap (fun e => match e with Injected c => Some c | _ => None end) tr.
Definition posted (tr : list OpEffect) : list (N * bytes) :=
  omap (fun e => match e with Posted slot piece _ _ => Some (slot, piece) | _ => None end) tr.

Definition final_trace : list OpEffect := os_trace final_state.
Definition pointer_message : bytes := default [] (head (injected final_trace)).

(** ** A kernel served by the layer *)

(** What was posted for each slot, and the level of every block. *)
Definition SlotTable : Type := list (N * bytes).

Fixpoint slot_piece (t : SlotTable) (slot : N) : option bytes :=
  match t with
  | [] => None
  | (s, piece) :: t => if s =? slot then Some piece else slot_piece t slot
  end.

Definition slot_params : DalParameters := {|
  dal_number_of_slots := 16; dal_attestation_lag := 8; dal_slot_size := 2048; dal_page_size := 256 |}.

#[local] Instance slot_host : Host SlotTable := {|
  host_next_input := fun t => (t, None);
  host_read_store := fun _ _ _ => None;
  host_write_store := fun _ _ t => t;
  host_write_output := fun _ t => (t, Ok tt);
  host_write_debug := fun _ t => t;
  host_rollup_address := fun _ => Some [];
  host_reveal_dal_parameters := fun _ => Ok slot_params;
  host_reveal_dal_page := fun t _ slot page size =>
    ok_or (piece ← slot_piece t slot; chunks (N.to_nat size) (padded (N.to_nat size) piece) !! N.to_nat page)
      "no page"
|}.

Definition slot_checks (t : SlotTable) (p : N * bytes) : bool :=
  bool_decide (slot_piece t p.1 = Some p.2) && (p.1 <? 16) && (N.of_nat (length p.2) <=? 2048) &&
  (N.of_nat (div_ceil (length p.2) 256) <=? 2 ^ 16).

Definition level_checks (tr : list OpEffect) : bool :=
  forallb (fun e => match e with Header _ level => (level =? 100)%Z | _ => true end) tr.

Definition slots : SlotTable := posted final_trace.

Lemma slots_checked : forallb (slot_checks slots) slots = true.
Proof. vm_compute. reflexivity. Qed.

Lemma levels_checked : level_checks final_trace = true.
Proof. vm_compute. reflexivity. Qed.

Lemma final_trace_eq :
  final_trace = os_trace (run_op_events operator_config chain id operator_events first_state).
Proof. reflexivity. Qed.

#[local] Opaque final_state final_trace slots unshield_payload.

Lemma posted_in slot piece commitment proof tr :
  Posted slot piece commitment proof ∈ tr -> (slot, piece) ∈ posted tr.
Proof. intros Hp. apply list_elem_of_omap. by exists (Posted slot piece commitment proof). Qed.

Lemma injected_in c tr : c ∈ injected tr -> Injected c ∈ tr.
Proof.
  intros (e & He & Hc)%list_elem_of_omap. destruct e; try discriminate. by injection Hc as ->.
Qed.

Lemma head_in {A} (l : list A) x : head l = Some x -> x ∈ l.
Proof. destruct l; [done|]. intros [= ->]. left. Qed.

Lemma forallb_in {A} (f : A -> bool) l x : forallb f l = true -> x ∈ l -> f x = true.
Proof. intros Hf Hx%list_elem_of_In. by apply (proj1 (forallb_forall f l) Hf). Qed.

Lemma level_checked tr block level : level_checks tr = true -> Header block level ∈ tr -> level = 100%Z.
Proof. intros Hf Hh. pose proof (forallb_in _ _ _ Hf Hh) as E. by apply Z.eqb_eq. Qed.

Lemma slots_served : dal_serves (kernel_words := wasm_target) final_trace slots slot_params.
Proof.
  refine (@Build_dal_serves wasm_target _ _ _ _ _ eq_refl eq_refl (conj eq_refl eq_refl) _).
  intros slot piece commitment proof output block level Hp _ _ Hh _.
  apply posted_in, (forallb_in _ _ _ slots_checked) in Hp.
  apply (level_checked _ _ _ levels_checked) in Hh as ->. unfold slot_checks in Hp.
  apply andb_prop in Hp as [[[Hs%bool_decide_eq_true Hn%N.ltb_lt]%andb_prop Hl%N.leb_le]%andb_prop Hd%N.leb_le].
  cbn [fst snd] in *. split; [lia|]. split; [exact Hn|]. split; [exact Hl|]. split; [exact Hd|].
  intros j page Hj. cbn [host_reveal_dal_page slot_host]. rewrite Hs, Nat2N.id.
  cbn [mbind option_bind]. change (dal_page_size slot_params) with 256 in *. by rewrite Hj.
Qed.

Lemma run_served : dal_serves (kernel_words := wasm_target)
  (os_trace (run_op_events operator_config chain id operator_events first_state)) slots slot_params.
Proof. pose proof slots_served as Hs. rewrite final_trace_eq in Hs. exact Hs. Qed.

Lemma pointer_head : head (injected final_trace) = Some pointer_message.
Proof. vm_compute. reflexivity. Qed.

Lemma pointer_injected : Injected pointer_message ∈ final_trace.
Proof. exact (injected_in _ _ (head_in _ _ pointer_head)). Qed.

Lemma run_injected : Injected pointer_message ∈
  os_trace (run_op_events operator_config chain id operator_events first_state).
Proof. pose proof pointer_injected as Hi. rewrite final_trace_eq in Hi. exact Hi. Qed.

Lemma pointer_not_direct :
  encode_targeted_rollup_message "sr1" unshield_payload <> Ok pointer_message.
Proof. vm_compute. discriminate. Qed.

Lemma payload_size : (N.of_nat (length unshield_payload) <=? 4096) = true.
Proof. vm_compute. reflexivity. Qed.

Lemma size_limit : 4096 <= MAX_DAL_PAYLOAD_BYTES.
Proof. vm_compute. discriminate. Qed.

#[local] Opaque pointer_message.

Lemma payload_max : N.of_nat (length (smr_payload unshield_request)) <= MAX_DAL_PAYLOAD_BYTES.
Proof. exact (N.le_trans _ _ _ (proj1 (N.leb_le _ _) payload_size) size_limit). Qed.

Lemma request_fits : Forall fits_usize (requests operator_config operator_events).
Proof.
  apply Forall_singleton. unfold fits_usize. cbn [smr_payload unshield_request].
  eapply N.le_lt_trans; [apply N.leb_le, payload_size|reflexivity].
Qed.

Lemma only_request req : req ∈ requests operator_config operator_events -> req = unshield_request.
Proof. intros Hin. by apply list_elem_of_singleton in Hin. Qed.

Lemma operator_delivers_witness : exists pointer m,
  accepted operator_config SKUnshield unshield_payload m /\
  kdp_payload_hash pointer = hash unshield_payload /\
  kernel_reads (kernel_words := wasm_target) (fun _ => ""%string) slots pointer = Ok m.
Proof.
  destruct (operator_delivers (Hst := SlotTable) operator_config chain id (fun _ => ""%string) operator_events pointer_message
    request_fits run_injected) as (req & Hreq & Hcase).
  apply only_request in Hreq as ->. destruct Hcase as [[E _]|Hp].
  - destruct (pointer_not_direct E).
  - destruct Hp as (pointer & payload & m & _ & _ & Hacc & Hh & Hread). exists pointer, m.
    split; [exact Hacc|]. split; [exact Hh|].
    apply (Hread wasm_target slots slot_params); [discriminate|exact run_served|].
    exact payload_max.
Defined.
