(* ===== verification/OperatorFees.v ===== *)
(** * OperatorFees: how the operator starts, and the fee it collects

    [run] and [load_dal_fee_policy] of [services/tzel/src/bin/tzel_operator.rs], up to the
    server.  The fee policy is read from what a wallet exports for a viewer: a fee note that
    the operator accepts is one that wallet finds when it scans the chain, with the fee, and
    a note that any wallet builds for the policy's address with the fee is accepted. *)

From S2P Require Import Prelude Felt Externals Types Recipients Hashing Binding Notes CanonicalWire.
From S2P Require Import KernelWire Store Bds Wallet WalletKeys WalletScan WalletScanFacts WalletRpc Watch.
From S2P Require Import OperatorApi Operator.

Local Open Scope N_scope.

Record Cli := {
  cli_listen : string;
  cli_source_alias : string;
  cli_state_dir : string;
  cli_direct_max_message_bytes : N;
  cli_dal_max_chunk_bytes : option N;
  cli_octez_client_bin : string;
  cli_octez_client_dir : option string;
  cli_octez_node_endpoint : option string;
  cli_dal_node_endpoint : option string;
  cli_octez_protocol : option string;
  cli_bearer_token : option string;
  cli_bearer_token_file : option string;
  cli_required_dal_fee : option N;
  cli_dal_fee_view_material : option string;
  cli_dal_fee_address_index : option N;
  cli_reconcile_interval_secs : N
}.

Section Start.
Context `{Blake2s, MlKem, Aead}.
(** The files as text or why they cannot be read, [serde_json] at the material's type, the
    state directory's creation, the environment's variables. *)
Variables (read_to_string : string -> result bytes)
  (json_view_material : bytes -> result OperatorViewMaterial)
  (create_state_dir : result unit) (var : string -> option string).

Definition policy_address (record : OperatorViewAddressRecord) (ek_v ek_d : Ek) : PaymentAddress := {|
  pa_d_j := va_d_j record;
  pa_auth_root := va_auth_root record;
  pa_auth_pub_seed := va_auth_pub_seed record;
  pa_nk_tag := va_nk_tag record;
  pa_ek_v := kem_ek_bytes ek_v;
  pa_ek_d := kem_ek_bytes ek_d
|}.

Definition load_dal_fee_policy (amount : N) (material_path : string) (address_index : N)
    : result OperatorDalFeePolicy :=
  fail_if (amount =? 0) "required DAL fee must be greater than zero" ;;
  body ← map_err (fun e => "read DAL fee view material " +:+ material_path +:+ ": " +:+ e)
    (read_to_string material_path);
  material ← map_err (fun e => "parse DAL fee view material " +:+ material_path +:+ ": " +:+ e)
    (json_view_material body);
  '(incoming_seed, addresses) ←
    match material with
    | ViewMaterial _ incoming_seed addresses => Ok (incoming_seed, addresses)
    | DetectMaterial _ _ _ => Err "DAL fee policy requires view material, not detect-only material"
    end;
  address ← ok_or (head (filter (fun record => va_index record = address_index) addresses))
    ("DAL fee view material does not contain address index " +:+ show_N address_index);
  let '(ek_v, _, ek_d, _) := derive_kem_keys incoming_seed address_index in
  mret {| fp_amount := amount; fp_incoming_seed := incoming_seed; fp_address_index := address_index;
          fp_address := policy_address address ek_v ek_d |}.

Definition load_bearer_token (cli : Cli) : result string :=
  match cli_bearer_token cli, cli_bearer_token_file cli with
  | Some _, Some _ => Err "specify only one of --bearer-token or --bearer-token-file"
  | Some token, None => Ok token
  | None, Some path =>
      text ← map_err (fun e => "read bearer token file: " +:+ e) (read_to_string path);
      mret (bytes_str (trim text))
  | None, None => Err "operator requires --bearer-token or --bearer-token-file"
  end.

Definition dal_fee_policy (cli : Cli) : result (option OperatorDalFeePolicy) :=
  match cli_required_dal_fee cli, cli_dal_fee_view_material cli, cli_dal_fee_address_index cli with
  | None, None, None => Ok None
  | Some amount, Some material_path, Some address_index =>
      policy ← load_dal_fee_policy amount material_path address_index;
      mret (Some policy)
  | _, _, _ => Err ("specify all of --required-dal-fee, --dal-fee-view-material, and " +:+
                    "--dal-fee-address-index together")
  end.

(** [run], until it listens. *)
Definition run_config (cli : Cli) : result OperatorConfig :=
  bearer_token ← load_bearer_token cli;
  fail_if (bool_decide (bearer_token = ""%string)) "operator bearer token must not be empty" ;;
  policy ← dal_fee_policy cli;
  fail_if (bool_decide (is_Some (cli_dal_node_endpoint cli)) && bool_decide (policy = None))
    ("DAL publication requires --required-dal-fee, --dal-fee-view-material, and " +:+
     "--dal-fee-address-index") ;;
  map_err (fun e => "create state dir: " +:+ e) create_state_dir ;;
  mret {| oc_source_alias := cli_source_alias cli; oc_bearer_token := bearer_token;
          oc_state_dir := cli_state_dir cli;
          oc_direct_max_message_bytes := cli_direct_max_message_bytes cli;
          oc_dal_max_chunk_bytes :=
            (value ← cli_dal_max_chunk_bytes cli; if 0 <? value then Some value else None);
          oc_octez_client_bin := cli_octez_client_bin cli;
          oc_octez_client_dir := cli_octez_client_dir cli;
          oc_octez_node_endpoint := cli_octez_node_endpoint cli;
          oc_dal_node_endpoint := cli_dal_node_endpoint cli;
          oc_octez_protocol := cli_octez_protocol cli;
          oc_dal_fee_policy := policy; oc_var := var |}.
End Start.

(** ** The material is a wallet's export *)

(** The JSON that the wallet exports, read at the operator's type; it has no third mode. *)
Definition operator_record (r : WatchAddressRecord) : OperatorViewAddressRecord := {|
  va_index := wr_index r; va_d_j := wr_d_j r; va_auth_root := wr_auth_root r;
  va_auth_pub_seed := wr_auth_pub_seed r; va_nk_tag := wr_nk_tag r
|}.

Definition operator_material (m : WatchKeyMaterial) : option OperatorViewMaterial :=
  match m with
  | MaterialDetect version detect_root addr_count => Some (DetectMaterial version detect_root addr_count)
  | MaterialView version incoming_seed addresses =>
      Some (ViewMaterial version incoming_seed (operator_record <$> addresses))
  | MaterialOutgoing _ _ => None
  end.

(** The commitment and the encryption that pay the fee. *)
Definition fee_note (message : KernelInboxMessage) : option (F * EncryptedNote) :=
  match message with
  | KIShield req => Some (ksr_producer_cm req, ksr_producer_enc req)
  | KITransfer req => Some (ktr_cm_3 req, ktr_enc_3 req)
  | KIUnshield req => Some (kur_cm_fee req, kur_enc_fee req)
  | _ => None
  end.

Section Fees.
Context `{Blake2s, Hex, MlKem, !MlKemImport, Aead, WireCodecs, Target, RollupFrames, OperatorJson}.
Variables (read_to_string : string -> result bytes)
  (json_view_material : bytes -> result OperatorViewMaterial).

(** The file holds what a wallet exports for a viewer. *)
Definition holds_export (path : string) (w : WalletFile) : Prop := exists text,
  read_to_string path = Ok text /\
  json_view_material text = ok_or (operator_material (from_view_wallet w)) "unknown variant `outgoing`".

Lemma find_record w st :
  wallet_ok w -> st ∈ wf_addresses w ->
  head (filter (fun record => va_index record = wa_index st)
    (operator_record <$> (watch_address <$> wf_addresses w))) = Some (operator_record (watch_address st)).
Proof.
  intros Hw [i Hi]%list_elem_of_lookup.
  assert (forall k s, wf_addresses w !! k = Some s -> wa_index s = N.of_nat k) as Hat
    by (intros k s Hk; by destruct (fo_addresses _ (wo_file _ Hw) _ _ Hk) as [-> _]).
  rewrite <-(take_drop_middle _ _ _ Hi) at 1. rewrite !fmap_app, filter_app.
  cbn [app fmap list_fmap]. rewrite filter_cons_True by done.
  set (l := operator_record <$> _). assert (filter (fun record => va_index record = wa_index st) l = []) as ->;
    [|done].
  destruct (filter _ l) as [|r f] eqn:E; [done|]. exfalso.
  assert (r ∈ filter (fun record => va_index record = wa_index st) l) as [Hr Hin]%list_elem_of_filter
    by (rewrite E; left).
  apply list_elem_of_fmap in Hin as (r' & -> & (s & -> & Hs)%list_elem_of_fmap).
  apply list_elem_of_lookup in Hs as [k Hk]. apply lookup_take_Some in Hk as [Hk Hlt].
  cbn in Hr. rewrite (Hat _ _ Hk), (Hat _ _ Hi) in Hr. lia.
Qed.

(** The policy is for the wallet's own address. *)
Lemma load_policy_address path w st amount :
  wallet_ok w -> st ∈ wf_addresses w -> holds_export path w -> amount <> 0 ->
  load_dal_fee_policy read_to_string json_view_material amount path (wa_index st) =
  Ok {| fp_amount := amount; fp_incoming_seed := acc_incoming_seed (account w);
        fp_address_index := wa_index st; fp_address := own_address w st |}.
Proof.
  intros Hw Hst (text & Et & Ej) Ha. unfold load_dal_fee_policy.
  rewrite (proj2 (N.eqb_neq _ _) Ha), Et. cbn [fail_if map_err mbind result_bind].
  rewrite Ej. cbn [from_view_wallet operator_material ok_or map_err mbind result_bind].
  rewrite (find_record w st Hw Hst). cbn [ok_or mbind result_bind].
  unfold own_address, kem_keys. by destruct (derive_kem_keys _ _) as [[[??]?]?].
Qed.

Lemma wallet_tag w st :
  wallet_ok w -> st ∈ wf_addresses w ->
  wa_nk_tag st = derive_nk_tag (derive_nk_spend (acc_nk (account w)) (wa_d_j st)).
Proof.
  intros Hw [i Hi]%list_elem_of_lookup. by destruct (fo_addresses _ (wo_file _ Hw) _ _ Hi) as [-> _].
Qed.

(** What the check establishes, and what it needs. *)
Lemma validate_fee_note_opens w st amount cm enc claimed :
  wallet_ok w -> st ∈ wf_addresses w ->
  validate_fee_note_against_policy
    {| fp_amount := amount; fp_incoming_seed := acc_incoming_seed (account w);
       fp_address_index := wa_index st; fp_address := own_address w st |} cm enc claimed = Ok tt <->
  claimed = amount /\ exists rseed, opened_to w enc st amount rseed /\
    cm = commit (wa_d_j st) amount (derive_rcm rseed) (owner_of w st).
Proof.
  intros Hw Hst. destruct (own_address_fields w st) as (Ed & Er & Ep & En).
  unfold validate_fee_note_against_policy, opened_to, kem_keys. cbn [fp_amount fp_incoming_seed fp_address_index fp_address].
  rewrite Ed, Er, Ep, En, (wallet_tag w st Hw Hst). fold (owner_of w st).
  destruct (derive_kem_keys _ _) as [[[ek_v dk_v] ek_d] dk_d]. split.
  - intros [Hc%fail_if_Ok E]%seq_Ok. apply negb_false_iff, N.eqb_eq in Hc. split; [done|].
    apply bind_Ok in E as (detected & Hd & E). apply seq_Ok in E as [Hdet%fail_if_Ok E].
    apply negb_false_iff in Hdet as ->.
    apply bind_Ok in E as (opened & Hm & ([[value rseed] memo] & ->%ok_or_Ok & E)%bind_Ok).
    apply seq_Ok in E as [Hv%fail_if_Ok E]. apply negb_false_iff, N.eqb_eq in Hv as ->.
    apply fail_if_Ok, negb_false_iff, bool_decide_eq_true in E. exists rseed. split; [|done].
    split; [exact Hd|]. by exists memo.
  - intros (-> & rseed & (Hd & memo & Hm) & ->). rewrite N.eqb_refl, Hd.
    cbn [negb fail_if mbind result_bind]. rewrite Hm. cbn [ok_or mbind result_bind].
    rewrite N.eqb_refl. cbn [negb fail_if mbind result_bind]. by rewrite bool_decide_eq_true_2.
Qed.

Lemma enforced_note config policy message :
  oc_dal_fee_policy config = Some policy -> enforce_dal_fee_policy config message = Ok tt ->
  exists cm enc claimed, fee_note message = Some (cm, enc) /\
    validate_fee_note_against_policy policy cm enc claimed = Ok tt.
Proof.
  intros Ep. unfold enforce_dal_fee_policy. rewrite Ep. cbn [ok_or mbind result_bind].
  destruct message; intros E; try done; eexists _, _, _; (split; [reflexivity|exact E]).
Qed.

(** C14: An operator whose fee policy was read from a wallet's export, at an address of
    that wallet, collects what it asks for: a shield, transfer or unshield it accepts for
    the data-availability layer has a fee note which, once published, a scan by that wallet
    finds as its own, worth the fee asked, unless it was spent, or a collision of the
    commitment hash is exhibited; and a fee note that any wallet builds with that amount for
    that address is accepted. *)
Theorem fee_policy_collects `{!AeadLaws, !MlKemLaws, !MlKemImportLaws} (path : string)
    (w : WalletFile) (st : WalletAddressState) (amount : N) (policy : OperatorDalFeePolicy) :
  wallet_ok w -> notes_ok w -> st ∈ wf_addresses w -> holds_export path w -> is_u64 amount ->
  load_dal_fee_policy read_to_string json_view_material amount path (wa_index st) = Ok policy ->
  (forall config message, oc_dal_fee_policy config = Some policy ->
     enforce_dal_fee_policy config message = Ok tt ->
     exists cm enc rseed, fee_note message = Some (cm, enc) /\
     forall feed nullifiers pools index,
       Forall (fun nm => note_shape (nm_enc nm)) (nf_notes feed) ->
       {| nm_index := index; nm_cm := cm; nm_enc := enc |} ∈ nf_notes feed ->
       exists w' summary n,
         apply_scan_feed feed nullifiers pools w = (w', Ok summary) /\ owns w n /\
         note_key n = (index, cm) /\ (n ∈ wf_notes w' \/ note_nullifier n ∈ nullifiers) /\
         (note_v n = amount /\ note_d_j n = wa_d_j st \/
          exists st', st' ∈ wf_addresses w /\
            is_collision "cmmtSP__"
              (commit_input (wa_d_j st') (note_v n) (derive_rcm (note_rseed n)) (owner_of w st'))
              (commit_input (wa_d_j st) amount (derive_rcm rseed) (owner_of w st)))) /\
  (forall rnd memo seed role, exists on,
     build_output_note_with_outgoing rnd (own_address w st) amount memo seed role = Ok on /\
     fp_address policy = own_address w st /\
     validate_fee_note_against_policy policy (on_cm on) (on_enc on) amount = Ok tt).
Proof.
  intros Hw Hn Hst Hx Hu Hl.
  assert (amount <> 0) as Ha.
  { intros ->. unfold load_dal_fee_policy in Hl. done. }
  rewrite (load_policy_address path w st amount Hw Hst Hx Ha) in Hl. injection Hl as <-. split.
  - intros config message Ep Hm.
    destruct (enforced_note _ _ _ Ep Hm) as (cm & enc & claimed & Ef & Hv).
    apply (validate_fee_note_opens w st) in Hv as (_ & rseed & Hop & Ecm); [|done..].
    exists cm, enc, rseed. split; [done|]. intros feed nullifiers pools index Hs Hin.
    destruct (scan_finds_opening w feed nullifiers pools Hn Hs) as (w' & summary & Es & _ & Hf).
    destruct (Hf _ st Hin Hst (opened_opens _ _ _ _ index _ _ Hop Ecm)) as (n & Hk & Hown & Hw').
    exists w', summary, n. do 4 (split; [done|]).
    eapply opened_or_collision; [exact Hu|exact Ecm|done|]. by injection Hk.
  - intros rnd memo seed role.
    destruct (build_own_note w st rnd amount memo seed role (wallet_tag w st Hw Hst) Hu)
      as (on & Eb & _ & Ec & Hop).
    exists on. split; [done|]. split; [done|]. apply (validate_fee_note_opens w st); [done..|].
    split; [done|]. by exists (nr_rseed rnd).
Qed.
End Fees.
