(* ===== verification/WatchWitness.v ===== *)
(** * WatchWitness: what a concrete wallet exports

    Watch wallets of the wallet of [WalletWitness], over two feeds that publish a payment it
    receives and a note it sends; an operator that collects its fee at that wallet. *)

From S2P Require Import Prelude Felt Externals Concrete Types Recipients Hashing Notes CanonicalWire.
From S2P Require Import KernelWire Bds Wallet WalletKeys WalletScan WalletScanFacts WalletWitness Watch WatchFacts.
From S2P Require Import OperatorApi Operator OperatorFees.

Local Open Scope N_scope.

#[local] Existing Instances toy_blake2s sized_kem sized_kem_laws sized_import sized_import_laws toy_aead toy_hex.
#[local] Existing Instances toy_contracts host_target.

Definition sent_note : PreparedOutputNote :=
  match build_output_note_with_outgoing sample_randomness (own_address one_address own) 70 None
    (acc_outgoing_seed (account one_address)) TransferRecipient with
  | Ok on => on
  | _ => paid_note
  end.

Definition sent_memo : NoteMemo :=
  {| nm_index := 4; nm_cm := on_cm sent_note; nm_enc := on_enc sent_note |}.

Definition two_feeds : list NotesFeedResp :=
  [paid_feed; {| nf_notes := [sent_memo]; nf_next_cursor := 5 |}].

Lemma sent_built :
  build_output_note_with_outgoing sample_randomness (own_address one_address own) 70 None
    (acc_outgoing_seed (account one_address)) TransferRecipient = Ok sent_note /\
  note_shape (on_enc sent_note).
Proof.
  destruct (build_own_note one_address own sample_randomness 70 None
    (acc_outgoing_seed (account one_address)) TransferRecipient own_nk eq_refl) as (on & E & Hs & _).
  unfold sent_note. by rewrite E.
Qed.

Lemma two_feeds_shape : Forall (fun nm => note_shape (nm_enc nm)) (two_feeds ≫= nf_notes).
Proof. constructor; [exact paid_shape|]. constructor; [apply sent_built|constructor]. Qed.

#[local] Opaque sent_note paid_note one_address own.

Lemma view_watch_is_scan_witness : exists view detection notes,
  watch_feeds (from_material (from_view_wallet one_address)) two_feeds = Ok view /\
  watch_feeds (from_material (from_detect_wallet one_address)) two_feeds = Ok detection /\
  viewed <$> ws_notes (watch_status view) = held <$> notes /\
  forall n, n ∈ notes -> note_addr_index n < 1 ->
    note_key n ∈ detected_key <$> ws_matches (watch_status detection).
Proof.
  destruct one_address_ok as (Hw & Hone & Hno & _).
  destruct (view_watch_is_scan one_address two_feeds [] ∅ Hw Hno two_feeds_shape)
    as (view & detection & matches & notes & w' & summary & Ev & Ed & _ & _ & Hv & _ & _ & Em & _ & Hd).
  exists view, detection, notes. split; [exact Ev|]. split; [exact Ed|]. split; [exact Hv|].
  rewrite Em, <-Hone. exact Hd.
Defined.

Lemma outgoing_watch_recovers_witness : exists watch r,
  watch_feeds (from_material (from_outgoing_wallet one_address)) two_feeds = Ok watch /\
  r ∈ ws_outgoing_notes (watch_status watch) /\ outgoing_key r = (4, on_cm sent_note).
Proof.
  destruct sent_built as [Eb _].
  destruct (outgoing_watch_recovers one_address two_feeds sample_randomness (own_address one_address own)
    70 None TransferRecipient sent_note 4 eq_refl Eb) as (watch & records & Ew & Er & _ & _ & r & Hr & Hk & _).
  - right. left.
  - exists watch, r. rewrite Er. split; [exact Ew|]. split; [exact Hr|exact Hk].
Defined.

(** ** The operator's fee *)

Definition read_export (_ : string) : result bytes := Ok [].
Definition json_export (_ : bytes) : result OperatorViewMaterial :=
  ok_or (operator_material (from_view_wallet one_address)) "unknown variant `outgoing`".

Lemma export_held : holds_export read_export json_export "material.json" one_address.
Proof. exists []. split; reflexivity. Qed.

Definition one_address_policy : OperatorDalFeePolicy := {|
  fp_amount := 70; fp_incoming_seed := acc_incoming_seed (account one_address);
  fp_address_index := wa_index own; fp_address := own_address one_address own |}.

Definition paying_fee (on : PreparedOutputNote) : KernelInboxMessage := KIUnshield {|
  kur_root := ZERO; kur_nullifiers := []; kur_v_pub := 5; kur_fee := 100000; kur_recipient := "tz1";
  kur_cm_change := ZERO; kur_enc_change := None; kur_cm_fee := on_cm on; kur_enc_fee := on_enc on;
  kur_proof := {| ksp_proof_bytes := []; ksp_output_preimage := [] |} |}.

Definition fee_config : OperatorConfig := {|
  oc_source_alias := "alice"; oc_bearer_token := "secret"; oc_state_dir := "operator-state";
  oc_direct_max_message_bytes := 1024; oc_dal_max_chunk_bytes := None;
  oc_octez_client_bin := "octez-client"; oc_octez_client_dir := None;
  oc_octez_node_endpoint := None; oc_dal_node_endpoint := None; oc_octez_protocol := None;
  oc_dal_fee_policy := Some one_address_policy; oc_var := fun _ => None
|}.

Lemma policy_loads :
  load_dal_fee_policy read_export json_export 70 "material.json" (wa_index own) = Ok one_address_policy.
Proof.
  destruct one_address_ok as (Hw & _).
  apply (load_policy_address read_export json_export "material.json" one_address own 70 Hw);
    [by apply own_in|exact export_held|discriminate].
Qed.

Lemma fee_policy_collects_witness : exists on w' summary n,
  enforce_dal_fee_policy fee_config (paying_fee on) = Ok tt /\
  apply_scan_feed {| nf_notes := [{| nm_index := 0; nm_cm := on_cm on; nm_enc := on_enc on |}];
                     nf_next_cursor := 1 |} [] ∅ one_address = (w', Ok summary) /\
  note_key n = (0, on_cm on) /\ n ∈ wf_notes w'.
Proof.
  destruct one_address_ok as (Hw & _ & Hno & _).
  assert (notes_ok one_address) as Hn by (split; rewrite Hno; constructor).
  destruct (fee_policy_collects read_export json_export "material.json" one_address own 70
    one_address_policy Hw Hn (own_in _ eq_refl) export_held eq_refl policy_loads) as [Hfound Hpays].
  destruct (Hpays sample_randomness None (u64_to_felt 9) ProducerFee) as (on & Eb & _ & Ev).
  assert (enforce_dal_fee_policy fee_config (paying_fee on) = Ok tt) as He by exact Ev.
  destruct (Hfound fee_config (paying_fee on) eq_refl He) as (cm & enc & rseed & [= <- <-] & Hscan).
  assert (note_shape (on_enc on)) as Hs.
  { destruct (build_own_note one_address own sample_randomness 70 None (u64_to_felt 9) ProducerFee
      own_nk eq_refl) as (on' & E & Hs & _). rewrite Eb in E. by injection E as ->. }
  destruct (Hscan {| nf_notes := [{| nm_index := 0; nm_cm := on_cm on; nm_enc := on_enc on |}];
    nf_next_cursor := 1 |} [] ∅ 0) as (w' & summary & n & Es & _ & Hk & [Hin|Hin] & _).
  - constructor; [exact Hs|constructor].
  - left.
  - exists on, w', summary, n. by split.
  - by apply not_elem_of_nil in Hin.
Defined.
