(* ===== verification/WalletOperator.v ===== *)
(** * WalletOperator: the wallet submits through the operator

    [submit_kernel_message] of [apps/wallet/src/lib.rs], through an operator or, without
    one, through [octez-client], and the poll for a submission that is being published.
    The operator is whatever answers at the wallet's URL, over a state of its own that
    moves while the wallet sleeps; the events printed for the daemon are not modelled. *)

From S2P Require Import Prelude Felt Externals Types Recipients Hashing CanonicalWire KernelWire.
From S2P Require Import OperatorApi Operator OperatorFacts.

Local Open Scope N_scope.

Record RollupSubmissionReceipt := {
  rr_output : string;
  rr_operation_hash : option string;
  rr_submission_id : option string;
  rr_pending_dal : bool;
  rr_transport : option RollupSubmissionTransport;
  rr_final_status : option RollupSubmissionStatus;
  rr_slot_index : option N;
  rr_published_level : option Z
}.

(** [ureq] and [serde_json] at the type of a submission: no response, a status that is not
    200 with its text, a body that is not a submission, or the submission. *)
Inductive JsonReply :=
| JsonFails (shown : string)
| JsonStatus (code : N) (body : string)
| JsonUnparsed (e : string)
| JsonBody (submission : RollupSubmission).

(** What is at the other end: requests, with the bearer token if there is one, and the time
    the wallet sleeps. *)
Class Remote (S : Type) := {
  rm_post : string -> option string -> SubmitRollupMessageReq -> S -> S * JsonReply;
  rm_get : string -> option string -> S -> S * JsonReply;
  rm_sleep : S -> S
}.

Definition OPERATOR_POLL_TIMEOUT : N := 180.
Definition OPERATOR_POLL_INTERVAL : N := 2.

Definition kernel_message_kind (message : KernelInboxMessage) : result RollupSubmissionKind :=
  match message with
  | KIShield _ => Ok SKShield
  | KITransfer _ => Ok SKTransfer
  | KIUnshield _ => Ok SKUnshield
  | KIConfigureVerifier _ => Ok SKConfigureVerifier
  | KIConfigureBridge _ => Ok SKConfigureBridge
  | KIDalPointer _ =>
      Panic "internal error: entered unreachable code: wallet should not submit raw DAL pointer messages"
  end.

(** ** Texts *)

Definition format_transport (t : RollupSubmissionTransport) : string :=
  match t with DirectInbox => "direct_inbox" | TransportDal => "dal" end.

Definition format_status (status : RollupSubmissionStatus) : string :=
  match status with
  | SubmittedToL1 => "submitted_to_l1"
  | PendingDal => "pending_dal"
  | CommitmentIncluded => "commitment_included"
  | Attested => "attested"
  | Failed => "failed"
  end.

(** [{:?}]. *)
Definition debug_kind (kind : RollupSubmissionKind) : string :=
  match kind with
  | SKConfigureVerifier => "ConfigureVerifier"
  | SKConfigureBridge => "ConfigureBridge"
  | SKShield => "Shield"
  | SKTransfer => "Transfer"
  | SKUnshield => "Unshield"
  end.
Definition debug_status (status : RollupSubmissionStatus) : string :=
  match status with
  | PendingDal => "PendingDal"
  | CommitmentIncluded => "CommitmentIncluded"
  | Attested => "Attested"
  | SubmittedToL1 => "SubmittedToL1"
  | Failed => "Failed"
  end.

Definition format_chunk (index : nat) (chunk : RollupDalChunk) : string :=
  "  chunk " +:+ show_nat index +:+ ": slot " +:+ show_N (dc_slot_index chunk) +:+ " level " +:+
  show_Z (dc_published_level chunk) +:+ " bytes " +:+ show_N (dc_payload_len chunk) +:+
  " commitment " +:+ dc_commitment chunk.

Definition format_rollup_submission (submission : RollupSubmission) : string :=
  join_lines
    (["Operator submission id: " +:+ rs_id submission;
      "Kind: " +:+ debug_kind (rs_kind submission);
      "Status: " +:+ format_status (rs_status submission) +:+ " via " +:+
        format_transport (rs_transport submission)] ++
     match rs_operation_hash submission with
     | Some op_hash => ["Operation hash: " +:+ op_hash]
     | None => []
     end ++
     match rs_dal_chunks submission with
     | [] => []
     | chunks => ("DAL chunks: " +:+ show_nat (length chunks)) :: imap format_chunk chunks
     end ++
     match rs_detail submission with Some detail => [detail] | None => [] end).

(** ** Receipts *)

Definition build_receipt (submission : RollupSubmission) : RollupSubmissionReceipt := {|
  rr_output := format_rollup_submission submission;
  rr_operation_hash := rs_operation_hash submission;
  rr_submission_id := Some (rs_id submission);
  rr_pending_dal := is_pending (rs_status submission);
  rr_transport := Some (rs_transport submission);
  rr_final_status := Some (rs_status submission);
  rr_slot_index := rs_slot_index submission;
  rr_published_level := rs_published_level submission
|}.

(** What [octez-client] printed; the message is in the inbox. *)
Definition octez_receipt (combined : bytes) : RollupSubmissionReceipt := {|
  rr_output := bytes_str combined;
  rr_operation_hash := extract_operation_hash combined;
  rr_submission_id := None;
  rr_pending_dal := false;
  rr_transport := Some DirectInbox;
  rr_final_status := Some SubmittedToL1;
  rr_slot_index := None;
  rr_published_level := None
|}.

Definition post_json_with_bearer (r : JsonReply) : result RollupSubmission :=
  match r with
  | JsonFails shown => Err ("HTTP error: " +:+ shown)
  | JsonStatus code body => Err ("HTTP " +:+ show_N code +:+ ": " +:+ body)
  | JsonUnparsed e => Err ("parse response: " +:+ e)
  | JsonBody submission => Ok submission
  end.

(** Here [ureq] makes an error of a status. *)
Definition get_json_with_bearer (r : JsonReply) : result RollupSubmission :=
  match r with
  | JsonFails shown => Err ("HTTP error: " +:+ shown)
  | JsonStatus code _ => Err ("HTTP error: http status: " +:+ show_N code)
  | JsonUnparsed e => Err ("parse response: " +:+ e)
  | JsonBody submission => Ok submission
  end.

(** ** Through the operator *)

Section Client.
Context {S : Type} `{!Remote S}.

(** [late n]: more time than slept has passed the timeout at the poll number [n]. *)
Variable late : nat -> bool.

Definition load_operator_submission (operator_url : string) (operator_bearer_token : option string)
    (submission_id : string) : ST S RollupSubmission := fun s =>
  let '(s, r) := rm_get (base operator_url +:+ "/v1/rollup/submissions/" +:+ submission_id)
    operator_bearer_token s in
  (s, get_json_with_bearer r).

Definition timed_out (polls : nat) : bool :=
  (OPERATOR_POLL_TIMEOUT <? OPERATOR_POLL_INTERVAL * N.of_nat polls) || late polls.

(** [fuel] bounds the polls to come after [polls]. *)
Fixpoint poll_operator (fuel : nat) (base : string) (bearer_token : option string) (submission_id : string)
    (polls : nat) : ST S RollupSubmission :=
  match fuel with
  | O => lift (Panic "out of fuel")
  | Datatypes.S fuel =>
      writes rm_sleep ;;
      submission ← load_operator_submission base bearer_token submission_id;
      match rs_status submission with
      | SubmittedToL1 => mret submission
      | Failed =>
          lift (Err ("operator marked submission " +:+ submission_id +:+ " as failed: " +:+
            default "<no detail>"%string (rs_detail submission)))
      | status =>
          if timed_out (Datatypes.S polls) then
            lift (Err ("timed out waiting for operator submission " +:+ submission_id +:+
              " to reach SubmittedToL1 (last status: " +:+ debug_status status +:+ ")"))
          else poll_operator fuel base bearer_token submission_id (Datatypes.S polls)
      end
  end.

(** One poll more than the timeout has room for. *)
Definition POLLS : nat := Datatypes.S (N.to_nat (OPERATOR_POLL_TIMEOUT / OPERATOR_POLL_INTERVAL)).

Definition wait_for_operator_terminal (base : string) (bearer_token : option string)
    (submission_id : string) : ST S RollupSubmission :=
  poll_operator POLLS base bearer_token submission_id 0.

Definition attempt_poll (m : ST S RollupSubmission) (submission : RollupSubmission)
    : ST S RollupSubmission := fun s =>
  match m s with
  | (s, Ok final_submission) => (s, Ok final_submission)
  | (s, Err err) => (s, Ok submission)
  | (s, Panic w) => (s, Panic w)
  end.

Definition submit_kernel_message_via_operator (operator_url : string)
    (operator_bearer_token : option string) (rollup_address : string) (kind : RollupSubmissionKind)
    (payload : bytes) : ST S RollupSubmissionReceipt :=
  let base := base operator_url in
  submission ← (fun s =>
    let '(s, r) := rm_post (base +:+ "/v1/rollup/submissions") operator_bearer_token
      {| smr_kind := kind; smr_rollup_address := rollup_address; smr_payload := payload |} s in
    (s, post_json_with_bearer r) : S * result RollupSubmission);
  submission ←
    (if decide (rs_status submission = CommitmentIncluded) then
       attempt_poll (wait_for_operator_terminal base operator_bearer_token (rs_id submission)) submission
     else mret submission);
  mret (build_receipt submission).
End Client.

(** ** A message of the wallet *)

(** The profile; [so_temp_file] is the path written or why it is not, [so_octez] what
    [octez-client] answers to its arguments. *)
Record SubmitEnv := {
  so_operator_url : option string;
  so_operator_bearer_token : option string;
  so_rollup_address : string;
  so_source_alias : string;
  so_temp_file : bytes -> result string;
  so_octez : list string -> result bytes
}.

Section Submit.
Context {S : Type} `{!Remote S, WireCodecs, RollupFrames}.
Variables (env : SubmitEnv) (late : nat -> bool).

Definition submit_kernel_message (message : KernelInboxMessage) : ST S RollupSubmissionReceipt :=
  payload ← lift (encode_kernel_inbox_message message);
  match so_operator_url env with
  | Some operator_url =>
      kind ← lift (kernel_message_kind message);
      submit_kernel_message_via_operator late operator_url (so_operator_bearer_token env)
        (so_rollup_address env) kind payload
  | None =>
      encoded ← lift (encode_targeted_rollup_message (so_rollup_address env) payload);
      payload_file ← lift (so_temp_file env encoded);
      combined ← lift (so_octez env ["send"; "smart"; "rollup"; "message"; "bin:" +:+ payload_file;
                                     "from"; so_source_alias env]%string);
      mret (octez_receipt combined)
  end.
End Submit.

(** ** What a receipt says *)

Section Receipts.
Context {S : Type} `{!Remote S}.
Variables (late : nat -> bool) (operator_url : string) (token : option string).

(** The state after some polls, and what the next one answers. *)
Definition submission_url (id : string) : string :=
  base operator_url +:+ "/v1/rollup/submissions/" +:+ id.
Definition polled (id : string) (n : nat) (s : S) : S :=
  Nat.iter n (fun s => fst (rm_get (submission_url id) token (rm_sleep s))) s.
Definition poll_answer (id : string) (n : nat) (s : S) : JsonReply :=
  snd (rm_get (submission_url id) token (rm_sleep (polled id n s))).

Lemma polled_S id n s :
  polled id (Datatypes.S n) s = polled id n (fst (rm_get (submission_url id) token (rm_sleep s))).
Proof. unfold polled. by rewrite Nat.iter_succ_r. Qed.

Lemma timed_out_last n : (POLLS <= n)%nat -> timed_out late n = true.
Proof.
  intros Hn. unfold timed_out. apply orb_true_intro. left. apply N.ltb_lt.
  change POLLS with 91%nat in Hn. unfold OPERATOR_POLL_TIMEOUT, OPERATOR_POLL_INTERVAL. lia.
Qed.

Lemma strip_trailing_base : base (base operator_url) = base operator_url.
Proof.
  unfold base. rewrite str_bytes_of_bytes. f_equal. unfold trim_slashes. rewrite rev_involutive. f_equal.
  set (r := rev (str_bytes operator_url)). rewrite !length_rev. fold r.
  assert (strip_any [[Byte.x2f]] (strip_while (length (str_bytes operator_url)) [[Byte.x2f]] r) = None) as E.
  { apply strip_while_done; [by intros p ->%list_elem_of_singleton|]. unfold r. by rewrite length_rev. }
  destruct (length (strip_while _ _ _)); cbn [strip_while]; [done|]. by rewrite E.
Qed.

(** A poll ends, and accepts only a submission that is done. *)
Lemma poll_operator_ok fuel id k s :
  (POLLS <= fuel + k)%nat -> (k < POLLS)%nat ->
  exists s' r, poll_operator late fuel (base operator_url) token id k s = (s', r) /\
  match r with
  | Ok final => rs_status final = SubmittedToL1 /\
      exists n, (k + n < POLLS)%nat /\ s' = polled id (Datatypes.S n) s /\ poll_answer id n s = JsonBody final
  | Err _ => exists n, (k + n <= POLLS)%nat /\ s' = polled id n s
  | Panic _ => False
  end.
Proof.
  revert k s. induction fuel as [|fuel IH]; intros k s Hf Hk; [lia|]. cbn [poll_operator].
  rewrite ST_run_writes. unfold load_operator_submission. rewrite strip_trailing_base.
  fold (submission_url id).
  destruct (rm_get (submission_url id) token (rm_sleep s)) as [s1 reply] eqn:Eg.
  assert (polled id 1 s = s1) as E1 by (unfold polled; cbn [Nat.iter nat_rect]; by rewrite Eg).
  destruct (get_json_with_bearer reply) as [sub|e|w] eqn:Er.
  2:{ exists s1, (Err e). split; [|exists 1%nat; split; [lia|done]]. unfold mbind, ST_bind. by rewrite Eg, Er. }
  2:{ by destruct reply. }
  assert (reply = JsonBody sub) as -> by (destruct reply; try done; by injection Er as ->).
  erewrite ST_run by (rewrite Eg; reflexivity).
  assert (forall msg, exists s' r, (lift (Err msg) : ST S RollupSubmission) s1 = (s', r) /\
    match r with Ok final => rs_status final = SubmittedToL1 /\
      exists n, (k + n < POLLS)%nat /\ s' = polled id (Datatypes.S n) s /\ poll_answer id n s = JsonBody final
    | Err _ => exists n, (k + n <= POLLS)%nat /\ s' = polled id n s | Panic _ => False end) as Hfail.
  { intros msg. exists s1, (Err msg). split; [done|exists 1%nat; split; [lia|done]]. }
  assert (exists s' r, poll_operator late fuel (base operator_url) token id (Datatypes.S k) s1 = (s', r) /\
    match r with Ok final => rs_status final = SubmittedToL1 /\
      exists n, (k + n < POLLS)%nat /\ s' = polled id (Datatypes.S n) s /\ poll_answer id n s = JsonBody final
    | Err _ => exists n, (k + n <= POLLS)%nat /\ s' = polled id n s | Panic _ => False end \/ timed_out late (Datatypes.S k) = true) as Hnext.
  { destruct (decide (Datatypes.S k < POLLS)%nat) as [Hlt|Hge]; [|exists s1, (Err ""%string); right; apply timed_out_last; lia].
    destruct (IH (Datatypes.S k) s1 ltac:(lia) Hlt) as (s' & r & E & Hr). exists s', r. left. split; [done|].
    destruct r as [final|e|w]; [|destruct Hr as (n & Hn & ->); exists (Datatypes.S n); rewrite polled_S, Eg; split; [lia|done]|done].
    destruct Hr as (Hst & n & Hn & -> & Ha). split; [done|]. exists (Datatypes.S n).
    split; [lia|]. split; [by rewrite (polled_S _ (Datatypes.S n)), Eg|].
    unfold poll_answer in *. by rewrite polled_S, Eg. }
  destruct (rs_status sub) eqn:Est; [..|by apply Hfail].
  4:{ exists s1, (Ok sub). split; [done|]. split; [done|]. exists 0%nat. split; [lia|].
      split; [done|]. unfold poll_answer. cbn [polled Nat.iter nat_rect]. by rewrite Eg. }
  all: destruct (timed_out late (Datatypes.S k)) eqn:Et; [by apply Hfail|];
    destruct Hnext as (s' & r & [Hn|]); [by exists s', r|done].
Qed.

(** The submission a receipt is built from: the one first answered, or, if that was being
    published, one that a poll said is done; and the state the wallet leaves behind. *)
Definition settled (sub : RollupSubmission) (s1 s2 : S) (final : RollupSubmission) : Prop :=
  final = sub /\ (s2 = s1 \/ rs_status sub = CommitmentIncluded /\
    exists n, (n <= POLLS)%nat /\ s2 = polled (rs_id sub) n s1) \/
  rs_status sub = CommitmentIncluded /\ rs_status final = SubmittedToL1 /\
  exists n, (n < POLLS)%nat /\ s2 = polled (rs_id sub) (Datatypes.S n) s1 /\
    poll_answer (rs_id sub) n s1 = JsonBody final.

Lemma via_operator_ok address kind payload s s1 sub :
  rm_post (base operator_url +:+ "/v1/rollup/submissions") token
    {| smr_kind := kind; smr_rollup_address := address; smr_payload := payload |} s = (s1, JsonBody sub) ->
  exists s2 final,
    submit_kernel_message_via_operator late operator_url token address kind payload s =
      (s2, Ok (build_receipt final)) /\ settled sub s1 s2 final.
Proof.
  intros Ep. unfold submit_kernel_message_via_operator. cbv zeta.
  erewrite ST_run by (rewrite Ep; reflexivity).
  destruct (decide _) as [Hc|Hc].
  2:{ exists s1, sub. split; [done|]. left. split; [done|by left]. }
  destruct (poll_operator_ok POLLS (rs_id sub) 0 s1 ltac:(lia) (Nat.lt_0_succ _)) as (s2 & r & E & Hr).
  unfold wait_for_operator_terminal, attempt_poll. destruct r as [final|e|w]; [| |done].
  - destruct Hr as (Hst & n & Hn & -> & Ha). eexists _, final.
    split; [erewrite ST_run by (rewrite E; reflexivity); reflexivity|].
    right. split; [done|]. split; [done|]. by exists n.
  - exists s2, sub. split; [erewrite ST_run by (rewrite E; reflexivity); reflexivity|]. left.
    split; [done|]. right. by split.
Qed.

(** C16: Whatever answers at the operator's URL, the wallet stops polling within 91
    polls and its receipt is built from the submission first answered, or, if that one was
    being published, from one that a poll said is done.  So a submission that fails while
    the wallet polls is still reported as pending. *)
Theorem receipt_of_operator (address : string) (kind : RollupSubmissionKind) (payload : bytes)
    (s s1 : S) (sub : RollupSubmission) :
  rm_post (base operator_url +:+ "/v1/rollup/submissions") token
    {| smr_kind := kind; smr_rollup_address := address; smr_payload := payload |} s = (s1, JsonBody sub) ->
  rs_status sub = CommitmentIncluded ->
  exists s2 receipt,
    submit_kernel_message_via_operator late operator_url token address kind payload s = (s2, Ok receipt) /\
    (exists n, (n <= POLLS)%nat /\ s2 = polled (rs_id sub) n s1) /\
    (rr_final_status receipt = Some SubmittedToL1 /\
       (exists n final, (n < POLLS)%nat /\ poll_answer (rs_id sub) n s1 = JsonBody final /\
          rs_status final = SubmittedToL1 /\ receipt = build_receipt final) \/
     rr_final_status receipt = Some CommitmentIncluded /\ rr_pending_dal receipt = true /\
       receipt = build_receipt sub) /\
    ((exists failed, poll_answer (rs_id sub) 0 s1 = JsonBody failed /\ rs_status failed = Failed) ->
     rr_final_status receipt = Some CommitmentIncluded /\ rr_pending_dal receipt = true).
Proof.
  intros Ep Hsub. destruct (via_operator_ok address kind payload s s1 sub Ep) as (s2 & final & E & Hf).
  exists s2, (build_receipt final). split; [exact E|]. split; [|split].
  - destruct Hf as [[_ [->|[_ Hn]]]|(_ & _ & n & Hn & -> & _)]; [|exact Hn|by exists (Datatypes.S n)].
    exists 0%nat. split; [apply Nat.le_0_l|done].
  - destruct Hf as [[-> _]|(_ & Hst & n & Hn & _ & Ha)]; cbn; [right; by rewrite Hsub|left].
    split; [by rewrite Hst|]. by exists n, final.
  - intros (failed & Ha & Hfailed).
    assert (build_receipt final = build_receipt sub) as ->; [|cbn; by rewrite Hsub].
    unfold submit_kernel_message_via_operator in E. cbv zeta in E.
    erewrite ST_run in E by (rewrite Ep; reflexivity). rewrite decide_True in E by done.
    unfold wait_for_operator_terminal, attempt_poll in E.
    assert (exists w, poll_operator late POLLS (base operator_url) token (rs_id sub) 0 s1 =
      (polled (rs_id sub) 1 s1, Err w)) as [w Ew].
    { unfold POLLS at 1. cbn [poll_operator]. rewrite ST_run_writes. unfold load_operator_submission.
      rewrite strip_trailing_base. fold (submission_url (rs_id sub)). unfold poll_answer in Ha.
      cbn [polled Nat.iter nat_rect] in *.
      destruct (rm_get (submission_url (rs_id sub)) token (rm_sleep s1)) as [s' reply] eqn:Eg.
      cbn [fst snd] in *. subst reply. erewrite ST_run by (rewrite Eg; reflexivity).
      rewrite Hfailed. by eexists. }
    erewrite ST_run in E by (rewrite Ew; reflexivity). unfold mret, ST_ret in E.
    symmetry. exact (f_equal (fun p => match snd p with Ok a => a | _ => build_receipt sub end) E).
Qed.
End Receipts.
