(* ===== verification/WalletReceipts.v ===== *)
(** * WalletReceipts: a receipt that says a message is sent is true

    What the operator reports of a submission, to whoever asks, and the wallet's receipts
    when it is this operator that answers at the wallet's URL, its reconciler and its other
    clients at work while the wallet sleeps.  At the end, at concrete operators: the wallet
    submits the unshield of [OperatorWitness] and polls until the pointer is in the inbox;
    and a server fails a submission while it is polled. *)

From S2P Require Import Prelude Felt Externals Types Recipients Hashing Notes CanonicalWire KernelWire.
From S2P Require Import OperatorApi Operator OperatorFacts WalletOperator.
From S2P Require Import Concrete ConcreteWire Store OperatorWitness.

Local Open Scope N_scope.

Section Receipts.
Context `{Blake2s, Hex, !HexLaws, MlKem, Aead, WireCodecs, Target, RollupFrames, OperatorJson}.
Variables (config : OperatorConfig) (outside : Outside) (join_error : string -> string).

(** The submission in the answer to a request. *)
Definition op_reply (e : OpEvent) (s : OperatorState) : option RollupSubmission :=
  match e with
  | ESubmit header req =>
      match snd (submit_rollup_message config outside join_error header req s) with
      | inl submission => Some submission
      | inr _ => None
      end
  | EQuery header id =>
      match snd (get_rollup_submission config outside join_error header id s) with
      | inl submission => Some submission
      | inr _ => None
      end
  | ETick | ERestart => None
  end.

Lemma op_reply_ok reqs e s sub :
  Forall fits_usize reqs -> requests config [e] ⊆ reqs -> op_ok config reqs s ->
  op_reply e s = Some sub ->
  reported config reqs sub (os_trace (run_op_event config outside join_error e s)).
Proof.
  intros Hfit Hsub Ho. assert (told config reqs (fun _ => True) s) as Ht by done.
  destruct e as [header req|header id| |]; cbn [run_op_event op_reply]; [| |done|done].
  - unfold submit_rollup_message. unfold requests in Hsub. cbn in Hsub.
    destruct (require_bearer_auth config header); [done|].
    pose proof (process_ok config outside reqs Hfit (fun _ => True) req _ ltac:(apply Hsub; left) s Ht) as Hp.
    destruct (process_submission config outside req s) as [s' [a|x|w]]; cbn [fst snd]; [|done..].
    intros [= <-]. apply Hp.
  - unfold get_rollup_submission. destruct (require_bearer_auth config header); [done|].
    pose proof (learns_load config outside reqs id (fun _ => True) _ s Ht) as Hp.
    destruct (load_stored_submission outside id s) as [s' [a|x|w]]; cbn [fst snd]; [|done..].
    intros [= <-]. apply recorded_reported, Hp.
Qed.

(** ** The operator at the wallet's URL *)

Variable listen : string.

Definition over_http (reply : RollupSubmission + N * string) : JsonReply :=
  match reply with
  | inl submission => JsonBody submission
  | inr (code, text) => JsonStatus code text
  end.

Definition bearer (token : option string) : option (option bytes) :=
  (fun t => Some (str_bytes "Bearer " ++ str_bytes t)) <$> token.

Definition ROUTE : string := base listen +:+ "/v1/rollup/submissions".

(** The operator, and what happens to it each time the wallet sleeps. *)
#[export] Instance operator_remote : Remote (OperatorState * list (list OpEvent)) := {|
  rm_post := fun url token req '(s, naps) =>
    if bool_decide (url = ROUTE) then
      let '(s, reply) := submit_rollup_message config outside join_error (bearer token) req s in
      ((s, naps), over_http reply)
    else ((s, naps), JsonStatus 404 "");
  rm_get := fun url token '(s, naps) =>
    match strip_prefix (str_bytes (ROUTE +:+ "/")) (str_bytes url) with
    | Some id =>
        let '(s, reply) := get_rollup_submission config outside join_error (bearer token) (bytes_str id) s in
        ((s, naps), over_http reply)
    | None => ((s, naps), JsonStatus 404 "")
    end;
  rm_sleep := fun '(s, naps) =>
    match naps with
    | [] => (s, [])
    | events :: naps => (run_op_events config outside join_error events s, naps)
    end
|}.

Definition networked (reqs : list SubmitRollupMessageReq) (x : OperatorState * list (list OpEvent)) : Prop :=
  op_ok config reqs x.1 /\ requests config (concat x.2) ⊆ reqs.

Lemma requests_app l k : requests config (l ++ k) = requests config l ++ requests config k.
Proof. unfold requests. by rewrite bind_app. Qed.

Lemma run_events_keep reqs events s :
  Forall fits_usize reqs -> requests config events ⊆ reqs -> op_ok config reqs s ->
  op_ok config reqs (run_op_events config outside join_error events s).
Proof.
  intros Hfit. revert s. induction events as [|e events IH]; intros s Hsub Ho; [done|].
  change (e :: events) with ([e] ++ events) in Hsub. rewrite requests_app in Hsub.
  unfold run_op_events. cbn [foldl]. apply IH; [set_solver|].
  apply run_op_event_ok; try done. set_solver.
Qed.

Lemma networked_sleep reqs x :
  Forall fits_usize reqs -> networked reqs x -> networked reqs (rm_sleep x).
Proof.
  destruct x as [s [|events naps]]; [done|]. intros Hfit [Ho Hr]. cbn [concat fst snd] in *.
  rewrite requests_app in Hr. split; cbn [fst snd rm_sleep operator_remote]; [|set_solver].
  apply run_events_keep; [done|set_solver|done].
Qed.

Lemma networked_get reqs url token x :
  Forall fits_usize reqs -> networked reqs x ->
  networked reqs (fst (rm_get url token x)) /\
  forall sub, snd (rm_get url token x) = JsonBody sub ->
    reported config reqs sub (os_trace (fst (rm_get url token x)).1).
Proof.
  destruct x as [s naps]. intros Hfit [Ho Hr]. cbn [rm_get operator_remote].
  destruct (strip_prefix _ _) as [id|]; [|split; [by split|done]].
  pose proof (run_op_event_ok config outside join_error reqs (EQuery (bearer token) (bytes_str id)) s Hfit
    (list_subseteq_nil _) Ho) as Ho'.
  pose proof (op_reply_ok reqs (EQuery (bearer token) (bytes_str id)) s) as Hrep. cbn [run_op_event op_reply] in *.
  destruct (get_rollup_submission _ _ _ _ _ s) as [s' [a|[code text]]]; cbn [fst snd over_http] in *.
  - split; [by split|]. intros sub [= <-]. apply Hrep; [done|apply list_subseteq_nil|done..].
  - split; [by split|done].
Qed.

Lemma networked_post reqs url token req x :
  Forall fits_usize reqs -> req ∈ reqs -> networked reqs x ->
  networked reqs (fst (rm_post url token req x)) /\
  forall sub, snd (rm_post url token req x) = JsonBody sub ->
    reported config reqs sub (os_trace (fst (rm_post url token req x)).1).
Proof.
  destruct x as [s naps]. intros Hfit Hin [Ho Hr]. cbn [rm_post operator_remote].
  destruct (bool_decide _); [|split; [by split|done]].
  assert (requests config [ESubmit (bearer token) req] ⊆ reqs) as Hsub.
  { unfold requests. cbn. destruct (require_bearer_auth _ _); set_solver. }
  pose proof (run_op_event_ok config outside join_error reqs (ESubmit (bearer token) req) s Hfit Hsub Ho) as Ho'.
  pose proof (op_reply_ok reqs (ESubmit (bearer token) req) s) as Hrep. cbn [run_op_event op_reply] in *.
  destruct (submit_rollup_message _ _ _ _ req s) as [s' [a|[code text]]]; cbn [fst snd over_http] in *.
  - split; [by split|]. intros sub [= <-]. by apply Hrep.
  - split; [by split|done].
Qed.

Lemma networked_polled reqs token url id n x :
  Forall fits_usize reqs -> networked reqs x -> networked reqs (polled url token id n x).
Proof.
  intros Hfit Hx. unfold polled. induction n as [|n IH]; cbn [Nat.iter nat_rect]; [done|].
  by apply networked_get, networked_sleep.
Qed.

(** C15: When the operator answers at the wallet's URL, with any other requests, ticks,
    restarts and failures before and while the wallet polls, a receipt whose status is
    submitted is built from a submission of a request, the wallet's own or another with the
    operator's token, of the kind and the payload hash shown, whose message is in the inbox,
    as it is or as a pointer to its whole payload, published, attested and accepted. *)
Theorem submitted_receipt_is_true (late : nat -> bool) (events : list OpEvent)
    (naps : list (list OpEvent)) (url : string) (token : option string) (address : string)
    (kind : RollupSubmissionKind) (payload : bytes) (receipt : RollupSubmissionReceipt)
    (s2 : OperatorState * list (list OpEvent)) :
  let req := {| smr_kind := kind; smr_rollup_address := address; smr_payload := payload |} in
  let reqs := req :: requests config (events ++ concat naps) in
  Forall fits_usize reqs ->
  submit_kernel_message_via_operator late url token address kind payload
    (run_op_events config outside join_error events first_state, naps) = (s2, Ok receipt) ->
  rr_final_status receipt = Some SubmittedToL1 ->
  exists final req', receipt = build_receipt final /\ req' ∈ reqs /\ of_request req' final /\
    sent config req' (os_trace s2.1).
Proof.
  intros req reqs Hfit E Hst. set (x := (run_op_events _ _ _ events first_state, naps)) in *.
  assert (networked reqs x) as Hx.
  { unfold reqs in *. rewrite requests_app in *. apply Forall_cons in Hfit as [_ Hfit].
    apply Forall_app in Hfit as [Hfit _]. split; [|set_solver]. cbn [fst x].
    apply op_ok_mono with (requests config events); [set_solver|by apply run_op_events_ok]. }
  destruct (networked_post reqs (base url +:+ "/v1/rollup/submissions") token req x Hfit ltac:(left) Hx) as [Hx1 Hpost].
  destruct (rm_post (base url +:+ "/v1/rollup/submissions") token req x) as [x1 reply] eqn:Ep.
  cbn [fst snd] in *. assert (exists sub, reply = JsonBody sub) as [sub ->].
  { unfold submit_kernel_message_via_operator in E. cbv zeta in E. fold req in E. destruct reply; [..|by eexists].
    all: erewrite ST_run_Err in E by (rewrite Ep; reflexivity); done. }
  destruct (via_operator_ok late url token address kind payload x x1 sub Ep) as (x2 & final & E' & Hf).
  rewrite E' in E. injection E as <- <-. exists final.
  injection Hst as Hst. assert (reported config reqs final (os_trace x2.1)) as (req' & Hin & Hof & Hsent).
  { destruct Hf as [[-> [->|[Hc _]]]|(_ & _ & n & _ & -> & Ha)]; [by apply Hpost|congruence|].
    pose proof (networked_sleep reqs _ Hfit (networked_polled reqs token url (rs_id sub) n x1 Hfit Hx1)) as Hn.
    by apply (networked_get reqs (submission_url url (rs_id sub)) token _ Hfit Hn). }
  exists req'. split; [done|]. split; [done|]. split; [done|by apply Hsent].
Qed.
End Receipts.

(** ** At concrete operators *)

#[local] Existing Instances toy_blake2s toy_hex toy_hex_laws toy_kem toy_aead host_target toy_wire.
#[local] Existing Instances toy_frames toy_operator_json.

(** A server that fails. *)

Definition answered (status : RollupSubmissionStatus) : RollupSubmission := {|
  rs_id := "sub-1-0000"; rs_kind := SKShield; rs_rollup_address := "sr1"; rs_status := status;
  rs_transport := TransportDal; rs_operation_hash := None; rs_dal_chunks := []; rs_commitment := None;
  rs_published_level := None; rs_slot_index := None; rs_payload_hash := None; rs_payload_len := 3;
  rs_detail := None |}.

#[local] Instance failing_remote : Remote nat := {|
  rm_post := fun _ _ _ n => (S n, JsonBody (answered CommitmentIncluded));
  rm_get := fun _ _ n => (S n, JsonBody (answered Failed));
  rm_sleep := S
|}.

Lemma receipt_of_operator_witness : exists s2 receipt,
  submit_kernel_message_via_operator (fun _ => false) "http://operator/" None "sr1" SKShield [] 0%nat =
    (s2, Ok receipt) /\
  rr_final_status receipt = Some CommitmentIncluded /\ rr_pending_dal receipt = true.
Proof.
  destruct (@receipt_of_operator nat failing_remote (fun _ => false) "http://operator/" None "sr1" SKShield [] 0%nat 1%nat
    (answered CommitmentIncluded) eq_refl eq_refl) as (s2 & receipt & E & _ & _ & Hf).
  exists s2, receipt. split; [exact E|]. apply Hf. exists (answered Failed). split; reflexivity.
Defined.

(** The operator. *)

#[local] Instance operator_at : Remote (OperatorState * list (list OpEvent)) :=
  operator_remote operator_config chain id "http://operator/".

Definition submitted : (OperatorState * list (list OpEvent)) * result RollupSubmissionReceipt :=
  submit_kernel_message_via_operator (fun _ => false) "http://operator" (Some "secret"%string) "sr1" SKUnshield
    unshield_payload (run_op_events operator_config chain id [] first_state, [[ETick]; [ETick]]).

Lemma submitted_status :
  match snd submitted with
  | Ok receipt => bool_decide (rr_final_status receipt = Some SubmittedToL1)
  | _ => false
  end = true.
Proof. vm_compute. reflexivity. Qed.

Lemma submitted_eq : submitted =
  submit_kernel_message_via_operator (fun _ => false) "http://operator" (Some "secret"%string) "sr1" SKUnshield
    unshield_payload (run_op_events operator_config chain id [] first_state, [[ETick]; [ETick]]).
Proof. reflexivity. Qed.

Definition wallet_request : SubmitRollupMessageReq :=
  {| smr_kind := SKUnshield; smr_rollup_address := "sr1"; smr_payload := unshield_payload |}.

Lemma size_below : 4096 < usize_limit.
Proof. vm_compute. reflexivity. Qed.

#[local] Opaque submitted unshield_payload.

Lemma requests_fit :
  Forall fits_usize (wallet_request :: requests operator_config ([] ++ concat [[ETick]; [ETick]])).
Proof.
  apply Forall_singleton. exact (N.le_lt_trans _ _ _ (proj1 (N.leb_le _ _) payload_size) size_below).
Qed.

Lemma receipt_submitted : exists s2 receipt,
  submitted = (s2, Ok receipt) /\ rr_final_status receipt = Some SubmittedToL1.
Proof.
  pose proof submitted_status as Hs. destruct submitted as [s2 [receipt|e|w]]; cbn [snd] in Hs; [|discriminate..].
  exists s2, receipt. split; [reflexivity|]. exact (bool_decide_eq_true_1 _ Hs).
Qed.

Lemma receipt_run : exists s2 receipt,
  submit_kernel_message_via_operator (fun _ => false) "http://operator" (Some "secret"%string) "sr1" SKUnshield
    unshield_payload (run_op_events operator_config chain id [] first_state, [[ETick]; [ETick]]) =
  (s2, Ok receipt) /\ rr_final_status receipt = Some SubmittedToL1.
Proof. rewrite <-submitted_eq. exact receipt_submitted. Qed.

Lemma submitted_receipt_is_true_witness : exists receipt final (s2 : OperatorState * list (list OpEvent)),
  receipt = build_receipt final /\ rr_final_status receipt = Some SubmittedToL1 /\
  of_request wallet_request final /\ sent operator_config wallet_request (os_trace (fst s2)).
Proof.
  destruct receipt_run as (s2 & receipt & E & Hs).
  destruct (submitted_receipt_is_true operator_config chain id "http://operator/" (fun _ => false) []
    [[ETick]; [ETick]] "http://operator" (Some "secret"%string) "sr1" SKUnshield unshield_payload receipt s2
    requests_fit E Hs) as (final & req & Er & Hin & Hof & Hsent).
  exists receipt, final, s2. split; [exact Er|]. split; [exact Hs|].
  apply list_elem_of_singleton in Hin as ->. split; [exact Hof|exact Hsent].
Defined.
